(* ===== verification/_CoqProject ===== *)
-Q . S2P
Prelude.v
Float.v
Ini.v
Keys.v
HashUtil.v
RetCode.v
TopicConfig.v
FileUtil.v
FileTree.v
Loader.v
StoreConfig.v
Node.v
StoreMeta.v
SyncCtrl.v
BaseMgr.v
StoreSM.v
KeepSync.v
LockConfig.v
SchedulerConfig.v
MasterClient.v
LockDb.v
LockMgr.v
LockSM.v
LockCheckpoint.v
LockService.v
Startup.v
GroupMaster.v
ConsumerConfig.v
GlobalConf.v
CpuLoad.v
HeartBeatLock.v
HeartBeatSync.v
QueueLock.v
AddRequests.v
Selector.v
Producer.v
BatchHelper.v
Notifier.v
Scheduler.v
Rpc.v
Services.v
SchedulerSync.v
KeepMaster.v
Consume.v
Dispatch.v
Freq.v
Process.v
MultiProc.v
Worker.v
Delivery.v
Deployment.v
StoreExamples.v
LockExamples.v
FileExamples.v
ConsumerExamples.v
ProducerExamples.v
PullExamples.v
SchedulerExamples.v
RpcExamples.v
ConfigExamples.v
