(* ===== verification/Prelude.v ===== *)
(** * PhxQueue: a verification library

    PhxQueue is a distributed message queue.  A producer adds items to stores,
    replicated by paxos; consumers pull them, one worker per queue, and handle
    them; a lock server gives every queue to one worker at a time; a scheduler
    balances the consumers by their load.  This library models the C++ code of
    src/phxqueue/ and proves what makes these parts correct.

    ** The parts and their files

    Common
    - Prelude.v: machine integers, sorted lists, maps in key order, folds that
      may fail, automation.  Float.v: [float] and [double] as IEEE binary32 and
      binary64.  Keys.v, HashUtil.v: route keys of the clients; MurmurHash64 and
      the consistent hash of comm/utils/hash_util.
    - RetCode.v: comm/errdef.h.  Node.v: the [phxpaxos::Node] of a server and the
      directory of topics, as classes.
    - MasterClient.v: comm/masterclient.h, the client that finds the master.
    - FileUtil.v: comm/utils/file_util.cpp, the walk over a directory tree and what
      is built on it, over a file system given by its calls ([FileSystem]) and
      their laws.  FileTree.v: what listing, removing and copying a tree do.
      CpuLoad.v: comm/utils/load_util.cpp, the load of a machine.

    Configuration (src/phxqueue/config/, src/phxqueue_phxrpc/)
    - TopicConfig.v, StoreConfig.v, LockConfig.v, SchedulerConfig.v,
      ConsumerConfig.v: the messages as records, [Rebuild], the lookups, and the
      classes [GlobalConfig], [TopicDirectory] and the like through which the
      servers see them.
    - Loader.v: config/baseconfig.h of both trees, comm/fileloader.cpp and
      comm/fileconfig.cpp: when a file is read again.  GlobalConf.v:
      globalconfig.cpp and the factories, all topics together; [Interfaces] derives
      the classes from a loaded configuration.  Ini.v: comm/iniparser.cpp.

    Store (src/phxqueue/store/)
    - StoreMeta.v: [StoreMetaQueue], the ordered set of instances of a queue, and
      a system of its interleaved users.  SyncCtrl.v: the positions of the consumer
      groups and [CheckPointStat].  BaseMgr.v: [Add] and [Get].  StoreSM.v: the
      state machine and the request handlers of store.cpp.  KeepSync.v: the thread
      that makes checkpoints, sends positions to the followers and replays.

    Lock (src/phxqueue/lock/)
    - LockDb.v: the in-memory map and LevelDB, with the version compare-and-set.
      LockMgr.v: recovery.  LockSM.v: the state machine, which executes twice, on
      the map and on the mirror.  LockCheckpoint.v: the files of a mirror, sent to
      another server.  LockService.v: the handlers of lock.cpp and the clean thread.
    - Startup.v: [Init] and [PaxosInit] of the stores and the lock servers.
    - GroupMaster.v: the keep-master threads of stores and lock servers, which
      share the paxos groups among the servers.

    Producer (src/phxqueue/producer/)
    - AddRequests.v: the split into requests.  Selector.v: the choice of queue and
      store.  Producer.v: [Enqueue], [SelectAndAdd], [RawAdd].  BatchHelper.v: the
      batches of requests as a step relation.  Notifier.v: comm/notifierpool.cpp,
      the pipes on which the threads wait for the answer of their batch.

    Consumer (src/phxqueue/consumer/)
    - HeartBeatLock.v, HeartBeatSync.v, QueueLock.v: hblock.cpp, from the weights to
      the queues of a worker and their locks.  Process.v: the pull thread.
      Consume.v, Dispatch.v: the consume thread, its coroutines as steps that
      interleave.  Freq.v: freqman.cpp.  Worker.v: the loop of a worker process,
      from the lock to the pull.  MultiProc.v: comm/multiproc.cpp, the processes.

    Scheduler (src/phxqueue/scheduler/)
    - Scheduler.v: schedulermgr.cpp and the load-balance round.  KeepMaster.v: how a
      scheduler becomes master, alone and with others ([Masters], a step relation).

    Remote calls (src/phxqueue_phxrpc/app/, comm/resourcepool.h)
    - Rpc.v: the pattern of clients and dispatchers and the pool of connections
      that the threads of a client share, over phxrpc as a class ([Phxrpc],
      [PhxrpcLaws]).  Services.v: the three services with their uris, and what a
      server does for a request.

    Composition
    - SchedulerSync.v: the scheduler's answers and the consumers' distribution.
      Delivery.v: a queue of a store and the workers that read it.

    Examples: Deployment.v is a concrete configuration and environment;
    StoreExamples.v, LockExamples.v, ConsumerExamples.v, ProducerExamples.v,
    PullExamples.v, SchedulerExamples.v and ConfigExamples.v run the theorems on
    it, FileExamples.v on a file system in memory, RpcExamples.v over connections
    that work.

    ** How the code is rendered

    A class is a Record of its fields, a method a function from the state and
    the arguments to the results and the new state, in the order of the code's
    early returns.  An [option] result is [None] where C++ has no behaviour or
    the code asserts.  [int], [uint32_t] and [uint64_t] are [Z], with the
    wrap-around written at the operations that can wrap; signed overflow of
    configured numbers is left out.  [std::map] and [std::set] are [gmap] and
    [gset], walked in the order of their keys ([map_items], [set_items]);
    [vector], [queue] and mmapped arrays are lists.  Clocks and random numbers
    are arguments, or come from the world [W] that a client's calls pass along; a
    call to another server is a transition of that world, which may do anything
    the theorem does not exclude.  Threads that share state are step relations
    whose steps are the sections under a lock.

    Third-party code is a parameter: phxrpc ([Phxrpc]), phxpaxos ([PaxosNode], [PaxosRet] and the
    classes of proposals), LevelDB (a class of its calls with the laws of a map
    with snapshots of its keys in order), protobuf ([StoreCodec] and its like:
    parsing what was serialized gives it back), the system calls on files
    ([FileSystem]), [crc32], [ByteSize], [inet_pton] and [inet_ntop] ([Inet]).  The example files instantiate each of
    them by functions.

    ** What is proved

    - Delivery, from end to end.  An item that [Enqueue] accepts is in a request
      that a store accepted ([Enqueue_adds], [MakeAddRequests_complete]), also when
      threads share a batch, each of which gets its answer once
      ([batched_exactly_once], [batch_answered]); when its instance is executed the queue gives it
      back ([added_items_readable], [execute_log_complete]); whatever gets lost,
      every item up to the acknowledged position was in a response that a worker
      handled ([at_least_once], from [Get_no_gap] and [Get_resume]); a worker
      acknowledges only what it handled or gave back ([Process_acknowledges]),
      and its handlers take each item of a response once ([dispatch_handles_once],
      [dispatch_in_order], [dispatch_terminates]); a worker that gets its queue
      back goes on where it stopped ([worker_resumes]).  What paxos may drop has been
      read ([make_cp_safe]); followers learn the positions
      ([follower_catches_up], [SyncCursorID_advances]).
    - Exclusion.  The lock map is a compare-and-set ([LockDb_refines_cas]), a held
      lock stays held ([lock_held]), the map and its mirror agree, also after a
      restart ([map_mirror_agree], [restart_equivalent], [restart_checkpoint_safe])
      and on a server that was sent a checkpoint ([checkpoint_transferred]);
      a worker respects a lease ([lease_respected]); there is one master scheduler
      ([one_master]); every queue is pulled at one address
      ([scheduled_handles_once], [GetQueueByAddrScale_consistent]); every paxos
      group has one server that is to be its master ([store_preferred_master],
      [lock_preferred_master]); the servers of a store start with the same members
      ([store_members_agree], [lock_members_agree]).
    - Configuration.  What the files say is what the lookups answer
      ([files_served]), a changed file is loaded within two minutes of use
      ([hot_reload]), and within one moment the lookups are functions, which is
      how the rest of the library uses them ([lookups_agree]).  An INI file that
      is written is read back ([ParseContent_print]).
    - Finding each other: [ClientCall_finds_master], [GetStoreID_retry], and the
      guards of the servers ([Add_guarded], [AcquireLock_grants]); connections that
      are used again do not mix up answers ([calls_answered]), so that a client
      that is told it has a lock has it ([remote_acquire_grants]).
    - Limits and weights: [AdjustScale_weights], [balance_retires], [Judge_correct],
      [Process_limit], [GetCpu_percent], [one_process_per_slot].
    - Defects: theorems that state a behaviour the code should not have
      ([negative_group_out_of_bounds], [replay_skips_one],
      [release_without_proposal], [replay_not_idempotent],
      [DoLock_never_releases], [stale_version_acquires], [CheckImbalance_inverted],
      [remove_topics_skips], [same_host_acquires], [dispatch_hangs],
      [GetStoreID_ring_of_topic], [MakeAddRequests_too_large],
      [last_group_dropped], [load_error_once], [same_second_missed],
      [full_disk_unreported], [CopyFile_unopened], [ExtractFilePath_join],
      [RemoveDir2_flat], [load_closes], [iowait_back], [lost_slot],
      [helper_not_restarted]).

    ** Bounds and fuel

    [Get] makes at most 512 rounds, the number of the code, and [Get_defined]
    shows that they are enough for it to return.  The replay search halves its
    interval; its fuel is the interval's length ([replay_search_correct]).
    [ClientCall] follows redirections as often as the code's counter allows.  The
    rounds of [GetStoreID] are bounded by the ring's size and the number of
    stores.  A run of a loop without an end ([Process], the daemons) is a list of
    turns of any length, so theorems about it hold after any number of turns;
    [add_forever] has the number of attempts that the run makes.  A worker
    process with a limit makes at most that many pulls ([run_bounded]).  The
    walk over a directory has the depth of the tree as fuel ([depth_below]).  The
    theorems about files take times of [time_t] below 2^31 seconds, as the [int]
    differences of [FileLoader] do; [store_preferred_master] takes at most 200
    groups, and [last_group_dropped] shows that the bound is sharp.

    ** Not modelled

    Clocks, sleeps and coroutine plumbing (co_util, time_util), break points and
    logging: system calls or empty hooks.  ini2pb, which is protobuf's reflection.
    Of the modelled classes: starting and stopping of threads ([Run], [Stop],
    [Dispose]), and the deprecated functions of file_util, which nothing calls.  Of
    src/phxqueue_phxrpc/: the main functions, the tools, the clients for phxrpc's
    user threads, and overrides that only forward to a client. *)

From stdpp Require Export base tactics numbers list gmap fin_maps sorting strings.
From Stdlib Require Export ZArith Lia Bool Ascii.

#[global] Open Scope Z_scope.

(** ** Machine integers

    The program computes on [uint64_t], [uint32_t] and [int].  They are [Z]
    with the wrap-around written where the code can wrap. *)

Definition UINT64_MAX : Z := 18446744073709551615.
Definition INT32_MAX : Z := 2147483647.
Definition INT32_MIN : Z := -2147483648.

Definition to_u64 (z : Z) : Z := z mod 18446744073709551616.
Definition to_u32 (z : Z) : Z := z mod 4294967296.
Definition to_i32 (z : Z) : Z := (z + 2147483648) mod 4294967296 - 2147483648.

Definition is_u64 (z : Z) : Prop := 0 <= z <= UINT64_MAX.
Definition is_u32 (z : Z) : Prop := 0 <= z < 4294967296.
Definition is_i32 (z : Z) : Prop := INT32_MIN <= z <= INT32_MAX.

Declare Scope phx_scope.
Delimit Scope phx_scope with phx.
Notation "x +u y" := (to_u64 (x + y)) (at level 50, left associativity) : phx_scope.
Notation "x -u y" := (to_u64 (x - y)) (at level 50, left associativity) : phx_scope.
#[global] Open Scope phx_scope.

Create HintDb phx.
Create Rewrite HintDb phx_rw.

Ltac unfold_ints :=
  unfold is_u64, is_u32, is_i32, to_u64, to_u32, to_i32,
    UINT64_MAX, INT32_MAX, INT32_MIN in *.

(** Arithmetic goals on machine integers. *)
Ltac ilia := unfold_ints; (lia || (Z.div_mod_to_equations; lia)).

Lemma to_u64_id z : is_u64 z -> to_u64 z = z.
Proof. intros H. apply Z.mod_small. ilia. Qed.

Lemma to_i32_id z : is_i32 z -> to_i32 z = z.
Proof. intros H. unfold to_i32. rewrite Z.mod_small; ilia. Qed.

Lemma to_u64_range z : is_u64 (to_u64 z).
Proof. unfold is_u64, to_u64, UINT64_MAX. pose proof (Z.mod_pos_bound z 18446744073709551616). lia. Qed.

Lemma to_u64_minus_one : to_u64 (-1) = UINT64_MAX.
Proof. reflexivity. Qed.

(** An [int] survives the conversion to [uint64_t] and back. *)
Lemma to_i32_to_u64 z : is_i32 z -> to_i32 (to_u64 z) = z.
Proof.
  intros H. unfold to_u64. destruct (decide (0 <= z)).
  - rewrite Z.mod_small by ilia. by apply to_i32_id.
  - rewrite <-(Z.mod_add z 1), Z.mod_small by ilia. unfold to_i32.
    replace (z + 1 * 18446744073709551616 + 2147483648)
      with (z + 2147483648 + 4294967296 * 4294967296) by lia.
    rewrite Z.mod_add, Z.mod_small; ilia.
Qed.

#[export] Hint Resolve to_u64_range : phx.
#[export] Hint Rewrite to_u64_id to_i32_id using ilia : phx_rw.

(** ** Case analysis

    [split_ifs] splits every [if] of the goal on its condition, turning the
    boolean tests of the code into propositions. *)

Ltac simpl_bool :=
  repeat match goal with
  | H : bool_decide _ = true |- _ => apply bool_decide_eq_true in H
  | H : bool_decide _ = false |- _ => apply bool_decide_eq_false in H
  | H : _ && _ = true |- _ => apply andb_true_iff in H; destruct H
  | H : _ || _ = false |- _ => apply orb_false_iff in H; destruct H
  | H : _ && _ = false |- _ => apply andb_false_iff in H
  | H : _ || _ = true |- _ => apply orb_true_iff in H
  | H : negb _ = true |- _ => apply negb_true_iff in H
  | H : negb _ = false |- _ => apply negb_false_iff in H
  | H : (_ =? _) = true |- _ => apply Z.eqb_eq in H
  | H : (_ =? _) = false |- _ => apply Z.eqb_neq in H
  | H : (_ <? _) = true |- _ => apply Z.ltb_lt in H
  | H : (_ <? _) = false |- _ => apply Z.ltb_ge in H
  | H : (_ <=? _) = true |- _ => apply Z.leb_le in H
  | H : (_ <=? _) = false |- _ => apply Z.leb_gt in H
  end.

Ltac split_if :=
  match goal with
  | |- context [if ?b then _ else _] => destruct b eqn:?
  end; simpl_bool; simplify_eq/=.

Ltac split_ifs := repeat (split_if; try done).

Ltac split_if_in H :=
  match type of H with
  | context [if ?b then _ else _] => destruct b eqn:?
  end; simpl_bool; simplify_eq/=.

(** ** Lists *)

Lemma filter_all {A} (P : A -> Prop) `{forall x, Decision (P x)} (l : list A) :
  Forall P l -> filter P l = l.
Proof.
  induction 1 as [|x l Hx _ IH]; [done|].
  rewrite filter_cons, decide_True by done. by rewrite IH.
Qed.

Lemma filter_none {A} (P : A -> Prop) `{forall x, Decision (P x)} (l : list A) :
  Forall (fun x => ~ P x) l -> filter P l = [].
Proof.
  induction 1 as [|x l Hx _ IH]; [done|]. by rewrite filter_cons, decide_False.
Qed.

Lemma elem_of_concat {A} (x : A) (ls : list (list A)) : x ∈ concat ls <-> exists l, l ∈ ls /\ x ∈ l.
Proof.
  rewrite list_elem_of_In, in_concat. by setoid_rewrite list_elem_of_In.
Qed.

(** A loop whose body can leave the function: [None] from then on. *)
Definition foldM {A B} (f : A -> B -> option A) (a : A) (l : list B) : option A :=
  foldl (fun acc b => a ← acc; f a b) (Some a) l.

Lemma foldl_None {A B} (f : A -> B -> option A) (l : list B) :
  foldl (fun acc b => a ← acc; f a b) None l = None.
Proof. induction l; done. Qed.

Lemma foldM_cons {A B} (f : A -> B -> option A) a b l a' :
  foldM f a (b :: l) = Some a' <-> exists a1, f a b = Some a1 /\ foldM f a1 l = Some a'.
Proof.
  unfold foldM. simpl. split.
  - destruct (f a b) as [a1|] eqn:E; [eauto|]. by rewrite foldl_None.
  - intros (a1 & -> & H). done.
Qed.

Lemma foldM_inv_elem {A B} (P : A -> Prop) (f : A -> B -> option A) l a a' :
  (forall a b a', b ∈ l -> P a -> f a b = Some a' -> P a') -> P a -> foldM f a l = Some a' -> P a'.
Proof.
  revert a. induction l as [|b l IH]; intros a Hf Ha H; [by injection H as <-|].
  apply foldM_cons in H as (a1 & H1 & H2). eapply (IH a1); [|eapply Hf; [left|done..]|done].
  intros a2 b' a3 Hb. apply Hf. by right.
Qed.

Lemma foldM_inv {A B} (P : A -> Prop) (f : A -> B -> option A) l a a' :
  (forall a b a', P a -> f a b = Some a' -> P a') -> P a -> foldM f a l = Some a' -> P a'.
Proof. intros Hf. apply foldM_inv_elem. eauto. Qed.

(** ** [std::set] and [std::map] iterators

    A [std::set] ordered by a 64-bit key is the list of its elements in
    increasing key order.  An iterator is the suffix that starts at it:
    [end()] is [[]], [*it] is the head and [erase(begin(), it)] is the suffix. *)

Section ordered_set.
Context {A : Type} (key : A -> Z).

Fixpoint upper_bound (k : Z) (l : list A) : list A :=
  match l with
  | [] => []
  | x :: r => if k <? key x then l else upper_bound k r
  end.

Fixpoint lower_bound (k : Z) (l : list A) : list A :=
  match l with
  | [] => []
  | x :: r => if k <=? key x then l else lower_bound k r
  end.

(** [insert] does nothing when an element with the same key is present. *)
Fixpoint set_insert (x : A) (l : list A) : list A :=
  match l with
  | [] => [x]
  | y :: r => if key x <? key y then x :: l
              else if key x =? key y then l
              else y :: set_insert x r
  end.

Definition key_sorted (l : list A) : Prop := StronglySorted (fun x y => key x < key y) l.

Lemma upper_bound_filter k l :
  key_sorted l -> upper_bound k l = filter (fun x => k < key x) l.
Proof.
  induction 1 as [|x l Hs IH Hall]; [done|]. cbn [upper_bound].
  rewrite filter_cons. destruct (k <? key x) eqn:E; simpl_bool.
  - rewrite decide_True by done. f_equal. symmetry. apply filter_all.
    eapply Forall_impl; [exact Hall|]; simpl; lia.
  - rewrite decide_False by lia. exact IH.
Qed.

Lemma lower_bound_filter k l :
  key_sorted l -> lower_bound k l = filter (fun x => k <= key x) l.
Proof.
  induction 1 as [|x l Hs IH Hall]; [done|]. cbn [lower_bound].
  rewrite filter_cons. destruct (k <=? key x) eqn:E; simpl_bool.
  - rewrite decide_True by done. f_equal. symmetry. apply filter_all.
    eapply Forall_impl; [exact Hall|]; simpl; lia.
  - rewrite decide_False by lia. exact IH.
Qed.

Lemma upper_bound_suffix k l : upper_bound k l `suffix_of` l.
Proof.
  induction l as [|x l IH]; [done|]. cbn.
  case_match; [done|]. by apply suffix_cons_r.
Qed.

Lemma lower_bound_suffix k l : lower_bound k l `suffix_of` l.
Proof.
  induction l as [|x l IH]; [done|]. cbn.
  case_match; [done|]. by apply suffix_cons_r.
Qed.

Lemma key_sorted_suffix l1 l2 : l1 `suffix_of` l2 -> key_sorted l2 -> key_sorted l1.
Proof. intros [k ->] H. by apply StronglySorted_app_1_r in H. Qed.

Lemma key_sorted_head_min x l y : key_sorted (x :: l) -> y ∈ x :: l -> key x <= key y.
Proof.
  intros Hs Hy. inversion Hs as [|?? _ Hall]; subst.
  apply elem_of_cons in Hy as [->|Hy]; [lia|].
  rewrite Forall_forall in Hall. specialize (Hall _ Hy). simpl in Hall. lia.
Qed.

(** The head of [upper_bound k l] is the least element above [k]. *)
Lemma upper_bound_head k l x r :
  key_sorted l -> upper_bound k l = x :: r ->
  k < key x /\ x ∈ l /\ forall y, y ∈ l -> k < key y -> key x <= key y.
Proof.
  intros Hs E. assert (Hx : x ∈ upper_bound k l) by (rewrite E; constructor).
  rewrite upper_bound_filter in Hx by done. apply list_elem_of_filter in Hx as [? ?].
  split_and!; [done..|]. intros y Hy Hk.
  apply (key_sorted_head_min _ r); [|].
  - rewrite <- E. eapply key_sorted_suffix; [apply upper_bound_suffix|done].
  - rewrite <- E, upper_bound_filter by done. by apply list_elem_of_filter.
Qed.

(** [++it]: the elements above the one found. *)
Lemma upper_bound_next k l x r :
  key_sorted l -> upper_bound k l = x :: r -> upper_bound (key x) l = r.
Proof.
  induction 1 as [|y l Hs IH Hall]; [done|]. cbn [upper_bound]. destruct (k <? key y) eqn:E; simpl_bool.
  - intros [= -> ->]. rewrite Z.ltb_irrefl. destruct r as [|z r]; [done|]. cbn [upper_bound].
    inversion Hall; subst. by rewrite (proj2 (Z.ltb_lt _ _)).
  - intros H. assert (k < key x) by (by apply upper_bound_head in H as [? _]).
    rewrite (proj2 (Z.ltb_ge _ _)) by lia. auto.
Qed.

Lemma upper_bound_nil k l :
  key_sorted l -> upper_bound k l = [] -> forall y, y ∈ l -> key y <= k.
Proof.
  intros Hs E y Hy. destruct (decide (k < key y)); [|lia].
  assert (H : y ∈ upper_bound k l) by (rewrite upper_bound_filter by done; by apply list_elem_of_filter).
  rewrite E in H. by apply elem_of_nil in H.
Qed.

Lemma key_sorted_last_max l y z : key_sorted l -> y ∈ l -> last l = Some z -> key y <= key z.
Proof.
  intros Hs Hy [l' ->]%last_Some. apply StronglySorted_app in Hs as [H _].
  apply elem_of_app in Hy as [Hy|Hy]; [|apply list_elem_of_singleton in Hy as ->; lia].
  assert (key y < key z) by (apply H; [done|constructor]). lia.
Qed.

Lemma set_insert_above x l : (forall y, y ∈ l -> key y < key x) -> set_insert x l = l ++ [x].
Proof.
  induction l as [|y l IH]; intros H; [done|]. simpl.
  assert (key y < key x) by (apply H; constructor).
  rewrite (proj2 (Z.ltb_ge _ _)), (proj2 (Z.eqb_neq _ _)) by lia.
  f_equal. apply IH. intros z Hz. apply H. by constructor.
Qed.

Lemma key_sorted_snoc x l :
  (forall y, y ∈ l -> key y < key x) -> key_sorted l -> key_sorted (l ++ [x]).
Proof.
  intros H Hs. apply StronglySorted_app_2; [|done|repeat constructor].
  intros y z Hy ->%list_elem_of_singleton. by apply H.
Qed.
End ordered_set.

#[export] Hint Resolve upper_bound_suffix lower_bound_suffix : phx.

(** ** [std::map] and [std::set] of integers

    [emplace] keeps the value that is already there.  Where the order of an
    iteration shows, the keys are visited in increasing order. *)

Definition emplace {A} (k : Z) (v : A) (m : gmap Z A) : gmap Z A :=
  match m !! k with Some _ => m | None => <[k := v]> m end.

Definition set_items (s : gset Z) : list Z := merge_sort Z.le (elements s).

Definition map_items {A} (m : gmap Z A) : list (Z * A) :=
  omap (fun k => pair k <$> m !! k) (set_items (dom m)).

Lemma emplace_lookup {A} k (v : A) m : is_Some (emplace k v m !! k).
Proof. unfold emplace. destruct (m !! k) eqn:E; rewrite ?E, ?lookup_insert_eq; eauto. Qed.

Lemma emplace_lookup_ne {A} k j (v : A) m : k <> j -> emplace k v m !! j = m !! j.
Proof. unfold emplace. destruct (m !! k); [done|]. intros. by rewrite lookup_insert_ne. Qed.

Lemma elem_of_set_items s x : x ∈ set_items s <-> x ∈ s.
Proof. unfold set_items. by rewrite merge_sort_Permutation, elem_of_elements. Qed.

Lemma set_items_NoDup s : NoDup (set_items s).
Proof. unfold set_items. rewrite merge_sort_Permutation. apply NoDup_elements. Qed.

Lemma set_items_sorted s : StronglySorted Z.lt (set_items s).
Proof.
  assert (Hs : StronglySorted Z.le (set_items s)) by (apply (StronglySorted_merge_sort Z.le)).
  pose proof (set_items_NoDup s) as Hd.
  induction Hs as [|x l Hs IH Hall]; constructor; apply NoDup_cons in Hd as [Hx Hd]; [by apply IH|].
  rewrite Forall_forall in *. intros y Hy. specialize (Hall y Hy).
  assert (x <> y) by (by intros ->). lia.
Qed.

Lemma elem_of_map_items {A} (m : gmap Z A) k v : (k, v) ∈ map_items m <-> m !! k = Some v.
Proof.
  unfold map_items. rewrite list_elem_of_omap. split.
  - intros (k' & _ & H). destruct (m !! k') eqn:E; simplify_eq/=. done.
  - intros H. exists k. rewrite elem_of_set_items, elem_of_dom, H. eauto.
Qed.

Lemma map_items_sorted {A} (m : gmap Z A) : key_sorted fst (map_items m).
Proof.
  unfold map_items. pose proof (set_items_sorted (dom m)) as Hs. revert Hs.
  generalize (set_items (dom m)) as l. induction 1 as [|k l Hs IH Hall]; [constructor|].
  simpl. destruct (m !! k) as [v|] eqn:E; simpl; [|exact IH]. constructor; [exact IH|].
  rewrite Forall_forall in Hall. apply Forall_forall. intros [k' v'] (k2 & Hk2 & H2)%list_elem_of_omap.
  destruct (m !! k2); simplify_eq/=. by apply Hall.
Qed.

Lemma map_items_NoDup {A} (m : gmap Z A) : NoDup (map_items m).*1.
Proof.
  pose proof (map_items_sorted m) as Hs. induction Hs as [|[k v] l _ IH Hk]; simpl; [constructor|].
  constructor; [|done]. intros ([k' v'] & E & Hin)%list_elem_of_fmap. simpl in E. subst k'.
  rewrite Forall_forall in Hk. specialize (Hk _ Hin). simpl in Hk. lia.
Qed.

Lemma map_items_fst {A} (m : gmap Z A) g : g ∈ (map_items m).*1 <-> is_Some (m !! g).
Proof.
  rewrite list_elem_of_fmap. split.
  - intros ([k v] & -> & Hin%elem_of_map_items). by exists v.
  - intros [v Hv]. exists (g, v). split; [done|]. by apply elem_of_map_items.
Qed.

Lemma map_items_singleton {A} k (v : A) : map_items (<[k := v]> ∅) = [(k, v)].
Proof.
  unfold map_items, set_items. rewrite dom_insert_L, dom_empty_L, union_empty_r_L, elements_singleton. simpl.
  by rewrite lookup_insert_eq.
Qed.

(** The elements of [first, last], the values of
    [for (int i = first; i <= last; ++i)].  The increment overflows, which is
    undefined, when [last] is the greatest [int]. *)
Definition int_range (first last : Z) : option (list Z) :=
  if last =? INT32_MAX then None else Some (seqZ first (last - first + 1)).
