(* ===== verification/Float.v ===== *)
(** * Floating point of the C++ code

    The scheduler computes loads and weights in [float] and [double].  They are
    the IEEE 754 formats binary32 and binary64 of the Standard Library's
    [SpecFloat], rounding to the nearest, ties to even; so the definitions
    compute what the processor does. *)

From Stdlib Require Import Floats.SpecFloat.
From S2P Require Import Prelude.

(** A format: the precision and the maximal exponent. *)
Record format := mkFormat { prec : Z; emax : Z }.

Definition float32 : format := mkFormat 24 128.
Definition float64 : format := mkFormat 53 1024.

Section arithmetic.
Context (t : format).

Definition of_int (z : Z) : spec_float := binary_normalize (prec t) (emax t) z 0 false.
Definition fadd : spec_float -> spec_float -> spec_float := SFadd (prec t) (emax t).
Definition fsub : spec_float -> spec_float -> spec_float := SFsub (prec t) (emax t).
Definition fmul : spec_float -> spec_float -> spec_float := SFmul (prec t) (emax t).
Definition fdiv : spec_float -> spec_float -> spec_float := SFdiv (prec t) (emax t).
End arithmetic.

(** [x < y]; false when one is not a number. *)
Definition flt : spec_float -> spec_float -> bool := SFltb.

(** The conversion to [int], towards 0.  It is undefined when the result is
    not an [int]. *)
Definition trunc (f : spec_float) : option Z :=
  match f with
  | S754_zero _ => Some 0
  | S754_finite s m e =>
      let v := if 0 <=? e then Z.pos m * 2 ^ e else Z.pos m / 2 ^ (- e) in
      let v := if s then - v else v in
      if (INT32_MIN <=? v) && (v <=? INT32_MAX) then Some v else None
  | _ => None
  end.

(** ** Signs *)

(** Not below 0. *)
Definition nonneg (f : spec_float) : Prop :=
  match f with
  | S754_zero _ => True
  | S754_infinity s => s = false
  | S754_nan => True
  | S754_finite s _ _ => s = false
  end.

(** The sign of a number that has one. *)
Definition positive_sign (f : spec_float) : Prop :=
  match f with
  | S754_zero s => s = false
  | S754_infinity s => s = false
  | S754_nan => True
  | S754_finite s _ _ => s = false
  end.

Lemma round_sign p e m ex l : positive_sign (binary_round_aux p e false m ex l).
Proof.
  unfold binary_round_aux. destruct (shr_fexp p e m ex l) as [r e1]. destruct (shr_fexp p e _ e1 loc_Exact) as [r2 e2].
  destruct (shr_m r2); simpl; [done| |done]. by destruct (_ <=? _).
Qed.

Lemma positive_nonneg f : positive_sign f -> nonneg f.
Proof. by destruct f. Qed.

Lemma of_int_sign t z : 0 <= z -> positive_sign (of_int t z).
Proof.
  intros Hz. unfold of_int, binary_normalize. destruct z as [|p|p]; [done| |lia].
  unfold binary_round. destruct (shl_align _ _ _). apply round_sign.
Qed.

Lemma fmul_sign t x y : positive_sign x -> positive_sign y -> positive_sign (fmul t x y).
Proof.
  unfold fmul, SFmul. destruct x as [sx|sx| |sx mx ex], y as [sy|sy| |sy my ey]; simpl;
    try (by intros; subst); try done. intros -> ->. apply round_sign.
Qed.

Lemma fdiv_sign t x y : positive_sign x -> positive_sign y -> positive_sign (fdiv t x y).
Proof.
  unfold fdiv, SFdiv. destruct x as [sx|sx| |sx mx ex], y as [sy|sy| |sy my ey]; simpl;
    try (by intros; subst); try done.
  intros -> ->. destruct (SFdiv_core_binary _ _ _ _ _ _) as [[m e] l]. apply round_sign.
Qed.

Lemma trunc_int f z : trunc f = Some z -> is_i32 z.
Proof.
  unfold trunc, is_i32. destruct f; try done; [intros [= <-]; ilia|].
  case_match eqn:E; [|done]. intros [= <-]. simpl_bool. by split.
Qed.

Lemma trunc_nonneg f z : nonneg f -> trunc f = Some z -> 0 <= z.
Proof.
  unfold trunc. destruct f as [| | |s m e]; try done; [intros _ [= <-]; done|]. simpl. intros ->.
  case_match; [|done]. intros [= <-]. destruct (0 <=? e) eqn:Ee; simpl_bool.
  - apply Z.mul_nonneg_nonneg; [lia|]. apply Z.pow_nonneg. lia.
  - apply Z.div_pos; [lia|]. apply Z.pow_pos_nonneg; lia.
Qed.

Example weight_example : trunc (fdiv float32 (fmul float32 (of_int float32 100) (of_int float32 37)) (of_int float32 55)) = Some 67.
Proof. reflexivity. Qed.

Example inexact_int : of_int float32 16777217 = of_int float32 16777216.
Proof. reflexivity. Qed.
