(* ===== verification/Ini.v ===== *)
(** * The INI files of the configuration

    [INIParser] of src/phxqueue_phxrpc/comm/iniparser.cpp: what a file says, and
    that a file that is written line by line is read back.

    The text is a list of characters.  The C functions of the parser stop at a
    NUL, so it is a case of its own. *)

From S2P Require Import Prelude.

#[local] Set Default Proof Using "Type".

Definition NUL : ascii := "000"%char.
Definition TAB : ascii := "009"%char.
Definition LF : ascii := "010"%char.
Definition CR : ascii := "013"%char.

Module INIParser.

Definition text := list ascii.

Record t := mk {
  section_key2val : gmap (string * string) string;
  del_after_get : bool;
}.

Definition str (l : text) : string := String.string_of_list_ascii l.
Definition chars (s : string) : text := String.list_ascii_of_string s.

Definition eqc (c x : ascii) : bool := bool_decide (c = x).

Definition blank (c : ascii) : bool := eqc c TAB || eqc c " "%char.

(** What is before the first character that satisfies [stop]; and from it on. *)
Fixpoint until (stop : ascii -> bool) (l : text) : text * text :=
  match l with
  | [] => ([], [])
  | c :: l' => if stop c then ([], l) else let '(a, b) := until stop l' in (c :: a, b)
  end.

Definition ltrim (l : text) : text := (until (fun c => negb (blank c)) l).2.

(** A string of blanks is not trimmed. *)
Definition StrTrim (l : text) : text :=
  let l := match ltrim l with [] => l | l' => l' end in
  match ltrim (reverse l) with [] => l | l' => reverse l' end.

(** The lines of the loop: up to a line feed that comes before any NUL, else
    all of the rest. *)
Fixpoint lines (cur : text) (l : text) : list text :=
  match l with
  | [] => [reverse cur]
  | c :: l' =>
      if eqc c LF then reverse cur :: lines [] l'
      else if eqc c NUL then [reverse cur ++ l]
      else lines (c :: cur) l'
  end.

(** [emplace] into the map. *)
Definition add (k : string * string) (v : string) (m : gmap (string * string) string) : gmap (string * string) string :=
  match m !! k with Some _ => m | None => <[k := v]> m end.

(** The section the loop is in, and the values so far. *)
Definition parsing : Type := text * gmap (string * string) string.

Definition ParseLine (p : parsing) (line : text) : parsing :=
  let '(section, m) := p in
  match ltrim line with
  | [] => p
  | (c :: rest) as l =>
      if eqc c "["%char then (StrTrim (until (fun c => eqc c "]"%char || eqc c LF) rest).1, m)
      else if eqc c "#"%char || eqc c ";"%char || eqc c LF || eqc c NUL then p
      else
        let '(key, rest) := until (fun c => eqc c "="%char) l in
        match rest with
        | _ :: rest =>
            if bool_decide (section = []) then p else
            let val := StrTrim (until (fun c => eqc c LF || eqc c CR) rest).1 in
            (section, add (str section, str (StrTrim key)) (str val) m)
        | [] => p
        end
  end.

Definition ParseContent (st : t) (content : text) : t :=
  mk (if bool_decide (content = []) then ∅ else (foldl ParseLine ([], ∅) (lines [] content)).2) (del_after_get st).

Definition GetValue (st : t) (section key : string) : bool * string * t :=
  match section_key2val st !! (section, key) with
  | None => (false, ""%string, st)
  | Some val => (true, val, if del_after_get st then mk (delete (section, key) (section_key2val st)) true else st)
  end.

Definition SetDelAfterGet (st : t) (del : bool) : t := mk (section_key2val st) del.

(** ** Writing a file *)

Record sec := mkSec { sec_name : text; sec_items : list (text * text) }.

Definition line_of_item (kv : text * text) : text := kv.1 ++ ["="%char] ++ kv.2.
Definition lines_of (s : sec) : list text := ("["%char :: sec_name s ++ ["]"%char]) :: (line_of_item <$> sec_items s).
Definition print_lines (ls : list text) : text := concat ((fun l => l ++ [LF]) <$> ls).
Definition print (cfg : list sec) : text := print_lines (concat (lines_of <$> cfg)).

(** Text without blanks at its ends. *)
Definition tight (l : text) : Prop :=
  (forall c, head l = Some c -> blank c = false) /\ (forall c, last l = Some c -> blank c = false).

Definition without (bad : list ascii) (l : text) : Prop := forall c, c ∈ l -> c ∉ bad.

Definition name_ok (l : text) : Prop := l <> [] /\ tight l /\ without ["]"%char; LF; NUL] l.
Definition key_ok (l : text) : Prop :=
  l <> [] /\ tight l /\ without ["="%char; LF; NUL] l /\ forall c, head l = Some c -> c ∉ ["["%char; "#"%char; ";"%char].
Definition val_ok (l : text) : Prop := tight l /\ without [LF; CR; NUL] l.

Definition sec_ok (s : sec) : Prop :=
  name_ok (sec_name s) /\ Forall (fun kv => key_ok kv.1 /\ val_ok kv.2) (sec_items s).

(** The values of a file: of a key that is written twice in a section the
    first one counts. *)
Definition values (cfg : list sec) : gmap (string * string) string :=
  foldl (fun m s => foldl (fun m kv => add (str (sec_name s), str kv.1) (str kv.2) m) m (sec_items s)) ∅ cfg.

(** ** Lemmas *)

Lemma until_stop stop a c b : (forall x, x ∈ a -> stop x = false) -> stop c = true -> until stop (a ++ c :: b) = (a, c :: b).
Proof.
  intros Ha Hc. induction a as [|x a IH]; simpl; [by rewrite Hc|].
  rewrite (Ha x) by left. rewrite IH; [done|]. intros y Hy. apply Ha. by right.
Qed.

Lemma until_end stop a : (forall x, x ∈ a -> stop x = false) -> until stop a = (a, []).
Proof.
  intros Ha. induction a as [|x a IH]; simpl; [done|]. rewrite (Ha x) by left. rewrite IH; [done|].
  intros y Hy. apply Ha. by right.
Qed.

Lemma ltrim_tight l : (forall c, head l = Some c -> blank c = false) -> ltrim l = l.
Proof. intros H. unfold ltrim. destruct l as [|c l]; [done|]. simpl. by rewrite (H c). Qed.

Lemma StrTrim_tight l : tight l -> StrTrim l = l.
Proof.
  intros [Hh Hl]. unfold StrTrim. rewrite (ltrim_tight l Hh). destruct l as [|c l]; [done|].
  rewrite (ltrim_tight (reverse (c :: l))) by (rewrite head_reverse; exact Hl). destruct (reverse (c :: l)) as [|x r] eqn:E.
  - apply (f_equal length) in E. rewrite length_reverse in E. done.
  - by rewrite <-E, reverse_involutive.
Qed.

Lemma lines_print ls : (forall l, l ∈ ls -> without [LF; NUL] l) -> lines [] (print_lines ls) = ls ++ [[]].
Proof.
  assert (Hone : forall l cur rest, without [LF; NUL] l -> lines cur (l ++ LF :: rest) = (reverse cur ++ l) :: lines [] rest).
  { induction l as [|c l IH]; intros cur rest Hl; simpl; [by rewrite app_nil_r|].
    assert (c ∉ [LF; NUL]) as Hc by (apply Hl; left). rewrite not_elem_of_cons, not_elem_of_cons in Hc. destruct Hc as (H1 & H2 & _).
    unfold eqc. rewrite !bool_decide_eq_false_2 by done. rewrite IH by (intros x Hx; apply Hl; by right).
    by rewrite reverse_cons, <-app_assoc. }
  induction ls as [|l ls IH]; intros Hls; [done|].
  assert (print_lines (l :: ls) = l ++ LF :: print_lines ls) as -> by (unfold print_lines; simpl; by rewrite <-app_assoc).
  rewrite Hone by (apply Hls; left). rewrite IH; [done|]. intros x Hx. apply Hls. by right.
Qed.

Lemma ParseLine_nil p : ParseLine p [] = p.
Proof. by destruct p. Qed.

Lemma ParseLine_section p s : name_ok s -> ParseLine p ("["%char :: s ++ ["]"%char]) = (s, p.2).
Proof.
  destruct p as [section m]. intros (Hne & Ht & Hw). unfold ParseLine. rewrite ltrim_tight by (intros c [= <-]; done). cbn match.
  unfold eqc at 1. rewrite bool_decide_eq_true_2 by done. rewrite until_stop; [by rewrite StrTrim_tight| |done].
  intros x Hx. apply Hw in Hx. rewrite !not_elem_of_cons in Hx. destruct Hx as (H1 & H2 & _).
  unfold eqc. by rewrite !bool_decide_eq_false_2.
Qed.

Lemma ParseLine_item section m kv : section <> [] -> key_ok kv.1 -> val_ok kv.2 ->
  ParseLine (section, m) (line_of_item kv) = (section, add (str section, str kv.1) (str kv.2) m).
Proof.
  destruct kv as [k v]. simpl. intros Hs (Hne & Ht & Hw & Hh) (Htv & Hwv). unfold ParseLine, line_of_item. simpl.
  destruct k as [|c k]; [done|]. rewrite ltrim_tight by (intros x Hx; apply (proj1 Ht); exact Hx). cbn [app]. cbn match.
  specialize (Hh c eq_refl). rewrite !not_elem_of_cons in Hh. destruct Hh as (H1 & H2 & H3 & _).
  assert (c ∉ ["="%char; LF; NUL]) as Hc by (apply Hw; left). rewrite !not_elem_of_cons in Hc. destruct Hc as (H4 & H5 & H6 & _).
  assert (Hne' : forall x, c <> x -> eqc c x = false) by (intros; by apply bool_decide_eq_false_2).
  rewrite !Hne' by done. cbn [orb]. rewrite (until_stop _ k); [| |done].
  2: { intros x Hx. apply bool_decide_eq_false_2. assert (x ∈ c :: k) as Hx' by (by right).
       apply Hw in Hx'. rewrite !not_elem_of_cons in Hx'. tauto. }
  rewrite (bool_decide_eq_false_2 (section = [])) by done. rewrite (until_end _ v).
  2: { intros x Hx. apply Hwv in Hx. rewrite !not_elem_of_cons in Hx. unfold eqc. rewrite !bool_decide_eq_false_2 by tauto. done. }
  cbn [fst]. by rewrite !StrTrim_tight.
Qed.

(** C40: A file that is written is read back.  Let sections have names, keys and
    values that the format can express: names and keys not empty, nothing with
    blanks at its ends, no line ends, no closing bracket in a name, no equality
    sign in a key and no key that starts as a section or a comment.  Then after
    [ParseContent] of the printed sections, [GetValue] has exactly the values
    written, of a key that is written twice in a section the first one. *)
Theorem ParseContent_print st cfg : cfg <> [] -> Forall sec_ok cfg ->
  section_key2val (ParseContent st (print cfg)) = values cfg.
Proof.
  intros Hne Hok. unfold ParseContent, print. cbn [section_key2val].
  assert (Hls : forall l, l ∈ concat (lines_of <$> cfg) -> without [LF; NUL] l).
  { intros l (ls & (s & -> & Hs)%list_elem_of_fmap & Hl)%elem_of_concat. rewrite Forall_forall in Hok. apply Hok in Hs as [Hn Hi].
    apply elem_of_cons in Hl as [->|(kv & -> & Hkv)%list_elem_of_fmap].
    - destruct Hn as (_ & _ & Hw). intros c [->|[Hc|Hc]%elem_of_app]%elem_of_cons.
      + rewrite !not_elem_of_cons. repeat split; try done. apply not_elem_of_nil.
      + apply Hw in Hc. rewrite !not_elem_of_cons in *. tauto.
      + apply list_elem_of_singleton in Hc as ->. rewrite !not_elem_of_cons. repeat split; try done. apply not_elem_of_nil.
    - rewrite Forall_forall in Hi. apply Hi in Hkv as [(_ & _ & Hk & _) (_ & Hv)].
      intros c [Hc|[->|Hc]%elem_of_cons]%elem_of_app.
      + apply Hk in Hc. rewrite !not_elem_of_cons in *. tauto.
      + rewrite !not_elem_of_cons. repeat split; try done. apply not_elem_of_nil.
      + apply Hv in Hc. rewrite !not_elem_of_cons in *. tauto. }
  rewrite bool_decide_eq_false_2.
  2: { destruct cfg as [|s cfg]; [done|]. simpl. unfold print_lines. simpl. done. }
  rewrite lines_print by done. rewrite foldl_app. cbn [foldl]. rewrite ParseLine_nil.
  unfold values. generalize (∅ : gmap (string * string) string) as m. generalize ([] : text) as section.
  clear Hls Hne. induction Hok as [|s cfg [Hn Hi] _ IH]; intros section m; [done|].
  cbn [fmap list_fmap concat lines_of foldl app]. rewrite foldl_app. cbn [foldl]. rewrite ParseLine_section by done. cbn [snd].
  assert (Hitems : forall l m, Forall (fun kv => key_ok kv.1 /\ val_ok kv.2) l ->
    foldl ParseLine (sec_name s, m) (line_of_item <$> l) =
    (sec_name s, foldl (fun m kv => add (str (sec_name s), str kv.1) (str kv.2) m) m l)).
  { induction l as [|kv l IHl]; intros m0 Hl; [done|]. apply Forall_cons in Hl as [[Hk Hv] Hl]. cbn [fmap list_fmap foldl].
    rewrite ParseLine_item by (by apply Hn || done). by apply IHl. }
  rewrite Hitems by done. apply IH.
Qed.

(** A value is read once.  With [SetDelAfterGet] a value that was got is gone,
    and all others are as they were. *)
Lemma GetValue_once st section key val st' : del_after_get st = true -> GetValue st section key = (true, val, st') ->
  section_key2val st !! (section, key) = Some val /\ section_key2val st' = delete (section, key) (section_key2val st).
Proof.
  unfold GetValue. destruct (section_key2val st !! (section, key)); [|done]. intros ->. by intros [= <- <-].
Qed.
End INIParser.
