(* ===== verification/Keys.v ===== *)
(** * Names made of numbers

    The clients name the master of a queue or lock ([GetRouteKey] of
    src/phxqueue/comm/masterclient.h) and a consumer the lock of its queue by
    printing numbers with a separator.  Different numbers make different
    names. *)

From stdpp Require Import pretty.
From S2P Require Import Prelude.

(** [operator<<] on an integer. *)
Definition print (z : Z) : string := pretty z.

(** [GetRouteKey] of its arguments, printed. *)
Fixpoint GetRouteKey (ts : list string) : string :=
  match ts with
  | [] => ""
  | [t] => t
  | t :: ts => t +:+ ":" +:+ GetRouteKey ts
  end.

Fixpoint has_char (c : ascii) (s : string) : bool :=
  match s with
  | EmptyString => false
  | String d s => Ascii.eqb c d || has_char c s
  end.

Lemma app_cons_inj c a b a' b' :
  has_char c a = false -> has_char c a' = false ->
  a +:+ String c b = a' +:+ String c b' -> a = a' /\ b = b'.
Proof.
  revert a'. induction a as [|d a IH]; intros [|d' a'] Ha Ha' He; simpl in *.
  - by simplify_eq.
  - simplify_eq. by rewrite Ascii.eqb_refl in Ha'.
  - simplify_eq. by rewrite Ascii.eqb_refl in Ha.
  - simpl_bool. simplify_eq. by destruct (IH a') as [-> ->].
Qed.

Lemma pretty_N_go_char c n s :
  (forall i, Ascii.eqb c (pretty_N_char i) = false) -> has_char c (pretty_N_go n s) = has_char c s.
Proof.
  intros Hc. revert s. induction (N.lt_wf_0 n) as [n _ IH]; intros s.
  destruct (decide (0 < n)%N).
  - rewrite pretty_N_go_step, IH by (try apply N.div_lt; lia). simpl. by rewrite Hc.
  - replace n with 0%N by lia. by rewrite pretty_N_go_0.
Qed.

Lemma pretty_pos_char c p :
  (forall i, Ascii.eqb c (pretty_N_char i) = false) -> has_char c (pretty_N_go (Npos p) "") = false.
Proof. intros Hc. by rewrite pretty_N_go_char. Qed.

Lemma print_colon z : has_char ":" (print z) = false.
Proof.
  assert (Hd : forall i, Ascii.eqb ":" (pretty_N_char i) = false).
  { intros i. unfold pretty_N_char. by repeat case_match. }
  destruct z as [|p|p]; [done|exact (pretty_pos_char _ p Hd)|].
  change (has_char ":" ("-" +:+ pretty_N_go (Npos p) "") = false). simpl. by apply pretty_pos_char.
Qed.

Lemma print_dash z : 0 <= z -> has_char "-" (print z) = false.
Proof.
  intros Hz. assert (Hd : forall i, Ascii.eqb "-" (pretty_N_char i) = false).
  { intros i. unfold pretty_N_char. by repeat case_match. }
  destruct z as [|p|p]; [done|exact (pretty_pos_char _ p Hd)|lia].
Qed.

#[export] Instance print_inj : Inj (=) (=) print.
Proof. unfold print. apply _. Qed.

Lemma route_key_cons_inj a a' t ts t' ts' :
  GetRouteKey (print a :: t :: ts) = GetRouteKey (print a' :: t' :: ts') ->
  a = a' /\ GetRouteKey (t :: ts) = GetRouteKey (t' :: ts').
Proof.
  intros He. change (print a +:+ String ":" (GetRouteKey (t :: ts)) = print a' +:+ String ":" (GetRouteKey (t' :: ts'))) in He.
  apply app_cons_inj in He as [?%print_inj ->]; [done|apply print_colon..].
Qed.
