(* ===== verification/HashUtil.v ===== *)
(** * Hashing and hash rings

    [MurmurHash64] of src/phxqueue/comm/utils/hash_util.cpp on the bytes of a
    key (the machine is little endian), and the ring that the consumers, the
    producers and the template [ConsistenHash] of hash_util.h share: a
    [std::map] from hashes to nodes, filled with [emplace] and read with
    [lower_bound], wrapping around to [begin()].

    [ring_find_spec] says what a ring answers, and [ring_find_stable] why it is
    used: without a node, only the keys of that node move. *)

From S2P Require Import Prelude.

(** ** [MurmurHash64] *)

(** The [n] bytes of an integer, and the integer of some bytes. *)
Definition le_bytes (n : nat) (z : Z) : list Z :=
  (fun i => Z.land (Z.shiftr z (8 * Z.of_nat i)) 255) <$> seq 0 n.

Definition le_word (bs : list Z) : Z := foldr (fun b w => Z.lor b (Z.shiftl w 8)) 0 bs.

Definition murmur_m : Z := 0xc6a4a7935bd1e995.
Definition murmur_r : Z := 47.

(** One round of the loop over the words. *)
Definition murmur_word (h k : Z) : Z :=
  let k := to_u64 (k * murmur_m) in
  let k := Z.lxor k (Z.shiftr k murmur_r) in
  let k := to_u64 (k * murmur_m) in
  to_u64 (Z.lxor h k * murmur_m).

Fixpoint murmur_words (n : nat) (h : Z) (data : list Z) : Z * list Z :=
  match n with
  | O => (h, data)
  | S n => murmur_words n (murmur_word h (le_word (take 8 data))) (drop 8 data)
  end.

(** The [switch] on [len & 7] falls through from the last byte to the first. *)
Definition murmur_tail (h : Z) (data2 : list Z) : Z :=
  match data2 with
  | [] => h
  | _ => to_u64 (foldr (fun '(i, b) h => Z.lxor h (Z.shiftl b (8 * Z.of_nat i))) h (imap pair data2) * murmur_m)
  end.

Definition MurmurHash64 (key : list Z) (seed : Z) : Z :=
  let len := length key in
  let h := Z.lxor seed (to_u64 (Z.of_nat len * murmur_m)) in
  let '(h, data2) := murmur_words (len / 8) h key in
  let h := murmur_tail h data2 in
  let h := Z.lxor h (Z.shiftr h murmur_r) in
  let h := to_u64 (h * murmur_m) in
  Z.lxor h (Z.shiftr h murmur_r).

(** ** Rings *)

Section ring.
Context {A : Type}.

Definition ring_of (l : list (Z * A)) : gmap Z A := foldl (fun m p => emplace p.1 p.2 m) ∅ l.

Definition ring_find (m : gmap Z A) (h : Z) : option A :=
  match lower_bound fst h (map_items m) with
  | it :: _ => Some it.2
  | [] => snd <$> head (map_items m)
  end.

(** [k] is the key at or after [h], or, when there is none, the least key. *)
Definition ring_succ (m : gmap Z A) (h k : Z) : Prop :=
  is_Some (m !! k) /\
  ((h <= k /\ forall j, is_Some (m !! j) -> h <= j -> k <= j) \/
   (forall j, is_Some (m !! j) -> j < h /\ k <= j)).

Lemma ring_succ_unique m h k k' : ring_succ m h k -> ring_succ m h k' -> k = k'.
Proof.
  intros [Hk [[H1 H2]|H1]] [Hk' [[H3 H4]|H3]].
  - pose proof (H2 _ Hk' H3). pose proof (H4 _ Hk H1). lia.
  - pose proof (H3 _ Hk). lia.
  - pose proof (H1 _ Hk'). lia.
  - pose proof (H1 _ Hk'). pose proof (H3 _ Hk). lia.
Qed.

Lemma ring_find_spec m h v :
  ring_find m h = Some v <-> exists k, ring_succ m h k /\ m !! k = Some v.
Proof.
  assert (Hone : forall v, ring_find m h = Some v -> exists k, ring_succ m h k /\ m !! k = Some v).
  { clear v. intros v. unfold ring_find. pose proof (map_items_sorted m) as Hs.
    assert (Hitem : forall j, is_Some (m !! j) -> exists w, (j, w) ∈ map_items m).
    { intros j [w Hj]. exists w. by apply elem_of_map_items. }
    destruct (lower_bound fst h (map_items m)) as [|[k w] r] eqn:E.
    - destruct (map_items m) as [|[k w] r] eqn:Em; simpl; [done|]. intros [= ->]. exists k.
      assert (Hk : m !! k = Some v) by (apply elem_of_map_items; rewrite Em; left).
      split; [split; [by exists v|]|done]. right. intros j Hj.
      destruct (Hitem j Hj) as [u Hu]. split.
      + destruct (decide (j < h)); [done|].
        assert (Hin : (j, u) ∈ lower_bound fst h ((k, v) :: r)).
        { rewrite lower_bound_filter by done. apply list_elem_of_filter. split; [simpl; lia|done]. }
        rewrite E in Hin. by apply elem_of_nil in Hin.
      + by apply (key_sorted_head_min fst (k, v) r (j, u)).
    - intros [= ->]. exists k.
      assert (Hin : (k, v) ∈ lower_bound fst h (map_items m)) by (rewrite E; left).
      rewrite lower_bound_filter in Hin by done. apply list_elem_of_filter in Hin as [Hh Hin]. simpl in Hh.
      apply elem_of_map_items in Hin. split; [split; [by exists v|]|done]. left. split; [done|].
      intros j Hj Hle. destruct (Hitem j Hj) as [u Hu].
      apply (key_sorted_head_min fst (k, v) r (j, u)).
      + rewrite <-E. eapply key_sorted_suffix; [apply lower_bound_suffix|done].
      + rewrite <-E, lower_bound_filter by done. by apply list_elem_of_filter. }
  split; [apply Hone|]. intros (k & Hk & Hv).
  assert (Hsome : is_Some (ring_find m h)).
  { unfold ring_find. destruct (lower_bound _ _ _); [|done].
    assert (Hin : (k, v) ∈ map_items m) by by apply elem_of_map_items.
    destruct (map_items m); [by apply elem_of_nil in Hin|done]. }
  destruct Hsome as [w Hw]. destruct (Hone w Hw) as (k' & Hk' & Hw').
  rewrite (ring_succ_unique m h k' k Hk' Hk) in Hw'. congruence.
Qed.

Lemma ring_find_is_Some m h : m <> ∅ -> is_Some (ring_find m h).
Proof.
  intros Hm. destruct (map_choose m Hm) as (k & v & Hk). unfold ring_find.
  destruct (lower_bound _ _ _); [|done].
  assert (Hin : (k, v) ∈ map_items m) by by apply elem_of_map_items.
  destruct (map_items m); [by apply elem_of_nil in Hin|done].
Qed.

(** [emplace] keeps the first node of a hash. *)
Lemma ring_of_lookup_go l m k :
  foldl (fun m (p : Z * A) => emplace p.1 p.2 m) m l !! k =
  match m !! k with Some v => Some v | None => snd ∘ snd <$> list_find (fun p => p.1 = k) l end.
Proof.
  revert m. induction l as [|[j w] l IH]; intros m; simpl; [by destruct (m !! k)|].
  rewrite IH. unfold emplace. destruct (decide (j = k)) as [->|Hne].
  - destruct (m !! k) eqn:E; [by rewrite E|]. by rewrite lookup_insert_eq.
  - destruct (m !! j); rewrite ?lookup_insert_ne by done; destruct (m !! k); try done;
      by destruct (list_find _ l) as [[]|].
Qed.

Lemma ring_of_lookup l k : ring_of l !! k = snd ∘ snd <$> list_find (fun p => p.1 = k) l.
Proof. unfold ring_of. rewrite ring_of_lookup_go. by rewrite lookup_empty. Qed.

Lemma ring_of_lookup_Some l k v : ring_of l !! k = Some v -> (k, v) ∈ l.
Proof.
  rewrite ring_of_lookup. intros ([i [j w]] & Hf & [= <-])%fmap_Some.
  apply list_find_Some in Hf as (Hl & Hk & _). simpl in Hk. subst. by apply list_elem_of_lookup_2 in Hl.
Qed.

Lemma ring_of_dom l k : is_Some (ring_of l !! k) <-> exists v, (k, v) ∈ l.
Proof.
  split; [intros [v Hv]; exists v; by apply ring_of_lookup_Some|].
  intros [v Hin]. rewrite ring_of_lookup. apply fmap_is_Some.
  by apply (list_find_elem_of _ _ (k, v)).
Qed.

Lemma ring_of_filter (P : Z * A -> Prop) `{forall p, Decision (P p)} l k v :
  ring_of l !! k = Some v -> P (k, v) -> ring_of (filter P l) !! k = Some v.
Proof.
  rewrite !ring_of_lookup. induction l as [|[j w] l IH]; [done|]. rewrite filter_cons. cbn [list_find].
  destruct (decide (j = k)) as [->|Hne].
  - rewrite decide_True by done. intros [= ->] HP. rewrite decide_True by done. cbn [list_find].
    by rewrite decide_True.
  - rewrite decide_False by done. intros Hf HP.
    assert (IH' : snd ∘ snd <$> list_find (fun p => p.1 = k) (filter P l) = Some v).
    { apply IH; [|done]. by destruct (list_find _ l) as [[]|]. }
    destruct (decide (P (j, w))); [|done]. cbn [list_find]. rewrite decide_False by done.
    by destruct (list_find _ (filter P l)) as [[]|].
Qed.

(** Without the nodes that fail [P], a key keeps its node unless it was one of
    those. *)
Lemma ring_find_stable (P : A -> Prop) `{forall p : Z * A, Decision (P p.2)} l h v :
  ring_find (ring_of l) h = Some v -> P v -> ring_find (ring_of (filter (fun p => P p.2) l)) h = Some v.
Proof.
  intros (k & [Hk Hmin] & Hv)%ring_find_spec HP. apply ring_find_spec. exists k.
  assert (Hv' : ring_of (filter (fun p => P p.2) l) !! k = Some v) by (by apply ring_of_filter).
  split; [|done]. split; [by exists v|].
  assert (Hsub : forall j, is_Some (ring_of (filter (fun p => P p.2) l) !! j) -> is_Some (ring_of l !! j)).
  { intros j (w & [_ Hw]%list_elem_of_filter)%ring_of_dom. apply ring_of_dom. by exists w. }
  destruct Hmin as [[H1 H2]|H1]; [left; split; [done|]; auto|right; auto].
Qed.
End ring.

(** ** The template [ConsistenHash] *)

Module ConsistenHash.
Section with_node.
Context {Key Node : Type}.

(** [hash2node_]; the two hash functions are fixed. *)
Context (key_hash_func : Key -> Z) (node_hash_func : Node -> Z -> Z).

Definition Init (hash2node : gmap Z Node) (node_scale_list : list (Node * Z)) : bool * gmap Z Node :=
  match node_scale_list with
  | [] => (false, hash2node)
  | _ =>
      let m := ring_of (concat ((fun '(node, scale) =>
                 (fun s => (to_u64 (node_hash_func node s), node)) <$> seqZ 0 scale) <$> node_scale_list)) in
      (negb (bool_decide (m = ∅)), m)
  end.

Definition PickNodeByKey (hash2node : gmap Z Node) (key : Key) : bool * option Node :=
  match ring_find hash2node (to_u64 (key_hash_func key)) with
  | Some node => (true, Some node)
  | None => (false, None)
  end.
End with_node.
End ConsistenHash.
