(* ===== verification/RetCode.v ===== *)
(** * Return codes (src/phxqueue/comm/errdef.h)

    The enumeration [RetCode] with [as_integer], and the facts about the sign
    of the codes that the callers rely on: a caller tests [RET_OK != ret] for
    "did not succeed" and [0 > as_integer(ret)] for "failed", so the positive
    codes are outcomes that are neither. *)

From S2P Require Import Prelude.

Inductive RetCode : Set :=
| RET_OK
| RET_ERR_NO_IMPL
| RET_ERR_NOT_MASTER
| RET_ERR_VERSION_NOT_EQUAL
| RET_ERR_KEY_NOT_EXIST
| RET_ERR_NO_MASTER
| RET_ERR_NOT_READY
| RET_KEY_IGNORE
| RET_ERR_SIZE_TOO_LARGE
| RET_ADD_SKIP
| RET_DIR_NOT_EXIST
| RET_NO_LOCK_TARGET
| RET_ACQUIRE_LOCK_FAIL
| RET_NO_NEED_LOCK
| RET_NO_NEED_BLOCK
| RET_GET_SCALE_FAIL
| RET_NO_NEED_UPDATE_SCALE
| RET_NO_LIVE_CONSUMER
| RET_ERR_CURSOR_NOT_FOUND
| RET_ERR_PAXOS_NOT_CHOSEN
| RET_ERR_NO_NEED_DUMP_CHECKPOINT
| RET_ERR_SYS
| RET_ERR_ARG
| RET_ERR_LOGIC
| RET_ERR_UNINIT
| RET_ERR_UNEXPECTED
| RET_ERR_RANGE
| RET_ERR_RANGE_TOPIC
| RET_ERR_RANGE_STORE
| RET_ERR_RANGE_QUEUE
| RET_ERR_RANGE_CONSUMER
| RET_ERR_RANGE_HANDLE
| RET_ERR_RANGE_QUEUE_INFO
| RET_ERR_RANGE_RANK
| RET_ERR_RANGE_CNT
| RET_ERR_RANGE_PUB
| RET_ERR_RANGE_CONSUMER_GROUP
| RET_ERR_RANGE_ADDR
| RET_ERR_RANGE_SCHEDULER
| RET_ERR_RANGE_LOCK
| RET_ERR_RANGE_VPID
| RET_ERR_NQUEUE_INVALID
| RET_ERR_GET_ADDR_FROM_CACHE
| RET_ERR_GET_PENDING_ADDR
| RET_ERR_KEY
| RET_ERR_LEVELDB
| RET_ERR_NOTIFIER_MISS
| RET_ERR_ADD_OPEN_FAIL
| RET_ERR_ADD_WRITE_FAIL
| RET_ERR_GET_OPEN_FAIL_UNKNOW
| RET_ERR_GET_ADJUST_CURSOR_ID_FAIL
| RET_ERR_GET_CURSOR_FAIL
| RET_ERR_GET_CURSOR_UNFOUND
| RET_ERR_GET_SEEK_FAIL
| RET_ERR_GET_INVALID_BUFFER
| RET_ERR_GET_UPDATE_CURSOR_ID_FAIL
| RET_ERR_CHECK_MASTER_FAIL
| RET_ERR_MAKE_PAXOSARGS_FAIL
| RET_ERR_PROPOSE
| RET_ERR_PROCESS_PAXOSARGS
| RET_ERR_GET_TOPID_ID_AND_STORE_ID_BY_PAXOS_ADDR
| RET_ERR_GET_LOCAL_IDC_STORE_CONFIG_BY_TOPIC_ID
| RET_ERR_GET_STORE_BY_STORE_ID
| RET_ERR_PROPOSE_TIMEOUT
| RET_ERR_PROPOSE_FAST_REJECT
| RET_ERR_GET_ITEM_BY_CURSOR_ID
| RET_ERR_PROTOBUF_PARSE
| RET_ERR_PROTOBUF_SERIALIZE
| RET_ERR_STORE
| RET_ERR_SVR_BLOCK
| RET_ERR_MASTER_CLIENT_FAIL
| RET_ERR_NO_MASTER_ADDR
| RET_ERR_MMLB
| RET_ERR_UNCOMPRESS
| RET_ERR_BUFFER_TYPE
| RET_ERR_PAXOS_RUN_NODE
| RET_ERR_PAXOS_GET_INSTANCE_VALUE
| RET_ERR_PAXOS_VALUE_PARSE.

Definition as_integer (r : RetCode) : Z :=
  match r with
  | RET_OK => 0
  | RET_ERR_NO_IMPL => 10101
  | RET_ERR_NOT_MASTER => 10102
  | RET_ERR_VERSION_NOT_EQUAL => 10103
  | RET_ERR_KEY_NOT_EXIST => 10104
  | RET_ERR_NO_MASTER => 10105
  | RET_ERR_NOT_READY => 10106
  | RET_KEY_IGNORE => 10107
  | RET_ERR_SIZE_TOO_LARGE => 10108
  | RET_ADD_SKIP => 10201
  | RET_DIR_NOT_EXIST => 10202
  | RET_NO_LOCK_TARGET => 10301
  | RET_ACQUIRE_LOCK_FAIL => 10302
  | RET_NO_NEED_LOCK => 10303
  | RET_NO_NEED_BLOCK => 10401
  | RET_GET_SCALE_FAIL => 10501
  | RET_NO_NEED_UPDATE_SCALE => 10502
  | RET_NO_LIVE_CONSUMER => 10503
  | RET_ERR_CURSOR_NOT_FOUND => 10601
  | RET_ERR_PAXOS_NOT_CHOSEN => 10701
  | RET_ERR_NO_NEED_DUMP_CHECKPOINT => 10801
  | RET_ERR_SYS => -1
  | RET_ERR_ARG => -2
  | RET_ERR_LOGIC => -104
  | RET_ERR_UNINIT => -10001
  | RET_ERR_UNEXPECTED => -10002
  | RET_ERR_RANGE => -10101
  | RET_ERR_RANGE_TOPIC => -10102
  | RET_ERR_RANGE_STORE => -10103
  | RET_ERR_RANGE_QUEUE => -10104
  | RET_ERR_RANGE_CONSUMER => -10105
  | RET_ERR_RANGE_HANDLE => -10106
  | RET_ERR_RANGE_QUEUE_INFO => -10107
  | RET_ERR_RANGE_RANK => -10108
  | RET_ERR_RANGE_CNT => -10109
  | RET_ERR_RANGE_PUB => -10110
  | RET_ERR_RANGE_CONSUMER_GROUP => -10111
  | RET_ERR_RANGE_ADDR => -10112
  | RET_ERR_RANGE_SCHEDULER => -10113
  | RET_ERR_RANGE_LOCK => -10114
  | RET_ERR_RANGE_VPID => -10115
  | RET_ERR_NQUEUE_INVALID => -10151
  | RET_ERR_GET_ADDR_FROM_CACHE => -10201
  | RET_ERR_GET_PENDING_ADDR => -10202
  | RET_ERR_KEY => -10203
  | RET_ERR_LEVELDB => -10204
  | RET_ERR_NOTIFIER_MISS => -10205
  | RET_ERR_ADD_OPEN_FAIL => -10301
  | RET_ERR_ADD_WRITE_FAIL => -10302
  | RET_ERR_GET_OPEN_FAIL_UNKNOW => -10303
  | RET_ERR_GET_ADJUST_CURSOR_ID_FAIL => -10304
  | RET_ERR_GET_CURSOR_FAIL => -10305
  | RET_ERR_GET_CURSOR_UNFOUND => -10306
  | RET_ERR_GET_SEEK_FAIL => -10307
  | RET_ERR_GET_INVALID_BUFFER => -10308
  | RET_ERR_GET_UPDATE_CURSOR_ID_FAIL => -10309
  | RET_ERR_CHECK_MASTER_FAIL => -10310
  | RET_ERR_MAKE_PAXOSARGS_FAIL => -10311
  | RET_ERR_PROPOSE => -10312
  | RET_ERR_PROCESS_PAXOSARGS => -10314
  | RET_ERR_GET_TOPID_ID_AND_STORE_ID_BY_PAXOS_ADDR => -10315
  | RET_ERR_GET_LOCAL_IDC_STORE_CONFIG_BY_TOPIC_ID => -10316
  | RET_ERR_GET_STORE_BY_STORE_ID => -10317
  | RET_ERR_PROPOSE_TIMEOUT => -10318
  | RET_ERR_PROPOSE_FAST_REJECT => -10319
  | RET_ERR_GET_ITEM_BY_CURSOR_ID => -10320
  | RET_ERR_PROTOBUF_PARSE => -10401
  | RET_ERR_PROTOBUF_SERIALIZE => -10402
  | RET_ERR_STORE => -10501
  | RET_ERR_SVR_BLOCK => -10601
  | RET_ERR_MASTER_CLIENT_FAIL => -10602
  | RET_ERR_NO_MASTER_ADDR => -10603
  | RET_ERR_MMLB => -10701
  | RET_ERR_UNCOMPRESS => -10801
  | RET_ERR_BUFFER_TYPE => -10802
  | RET_ERR_PAXOS_RUN_NODE => -10901
  | RET_ERR_PAXOS_GET_INSTANCE_VALUE => -10902
  | RET_ERR_PAXOS_VALUE_PARSE => -10903
  end.

Definition all_codes : list RetCode :=
  [RET_OK; RET_ERR_NO_IMPL; RET_ERR_NOT_MASTER; RET_ERR_VERSION_NOT_EQUAL; RET_ERR_KEY_NOT_EXIST; RET_ERR_NO_MASTER; RET_ERR_NOT_READY; RET_KEY_IGNORE; RET_ERR_SIZE_TOO_LARGE; RET_ADD_SKIP; RET_DIR_NOT_EXIST; RET_NO_LOCK_TARGET; RET_ACQUIRE_LOCK_FAIL; RET_NO_NEED_LOCK; RET_NO_NEED_BLOCK; RET_GET_SCALE_FAIL; RET_NO_NEED_UPDATE_SCALE; RET_NO_LIVE_CONSUMER; RET_ERR_CURSOR_NOT_FOUND; RET_ERR_PAXOS_NOT_CHOSEN; RET_ERR_NO_NEED_DUMP_CHECKPOINT; RET_ERR_SYS; RET_ERR_ARG; RET_ERR_LOGIC; RET_ERR_UNINIT; RET_ERR_UNEXPECTED; RET_ERR_RANGE; RET_ERR_RANGE_TOPIC; RET_ERR_RANGE_STORE; RET_ERR_RANGE_QUEUE; RET_ERR_RANGE_CONSUMER; RET_ERR_RANGE_HANDLE; RET_ERR_RANGE_QUEUE_INFO; RET_ERR_RANGE_RANK; RET_ERR_RANGE_CNT; RET_ERR_RANGE_PUB; RET_ERR_RANGE_CONSUMER_GROUP; RET_ERR_RANGE_ADDR; RET_ERR_RANGE_SCHEDULER; RET_ERR_RANGE_LOCK; RET_ERR_RANGE_VPID; RET_ERR_NQUEUE_INVALID; RET_ERR_GET_ADDR_FROM_CACHE; RET_ERR_GET_PENDING_ADDR; RET_ERR_KEY; RET_ERR_LEVELDB; RET_ERR_NOTIFIER_MISS; RET_ERR_ADD_OPEN_FAIL; RET_ERR_ADD_WRITE_FAIL; RET_ERR_GET_OPEN_FAIL_UNKNOW; RET_ERR_GET_ADJUST_CURSOR_ID_FAIL; RET_ERR_GET_CURSOR_FAIL; RET_ERR_GET_CURSOR_UNFOUND; RET_ERR_GET_SEEK_FAIL; RET_ERR_GET_INVALID_BUFFER; RET_ERR_GET_UPDATE_CURSOR_ID_FAIL; RET_ERR_CHECK_MASTER_FAIL; RET_ERR_MAKE_PAXOSARGS_FAIL; RET_ERR_PROPOSE; RET_ERR_PROCESS_PAXOSARGS; RET_ERR_GET_TOPID_ID_AND_STORE_ID_BY_PAXOS_ADDR; RET_ERR_GET_LOCAL_IDC_STORE_CONFIG_BY_TOPIC_ID; RET_ERR_GET_STORE_BY_STORE_ID; RET_ERR_PROPOSE_TIMEOUT; RET_ERR_PROPOSE_FAST_REJECT; RET_ERR_GET_ITEM_BY_CURSOR_ID; RET_ERR_PROTOBUF_PARSE; RET_ERR_PROTOBUF_SERIALIZE; RET_ERR_STORE; RET_ERR_SVR_BLOCK; RET_ERR_MASTER_CLIENT_FAIL; RET_ERR_NO_MASTER_ADDR; RET_ERR_MMLB; RET_ERR_UNCOMPRESS; RET_ERR_BUFFER_TYPE; RET_ERR_PAXOS_RUN_NODE; RET_ERR_PAXOS_GET_INSTANCE_VALUE; RET_ERR_PAXOS_VALUE_PARSE].

(** The code an integer stands for, by search in the enumeration. *)
Definition of_integer (z : Z) : option RetCode :=
  list_find (fun r => as_integer r = z) all_codes ≫= fun p => Some p.2.

Lemma of_as_integer r : of_integer (as_integer r) = Some r.
Proof. destruct r; vm_compute; reflexivity. Qed.

#[export] Instance as_integer_inj : Inj (=) (=) as_integer.
Proof.
  intros r1 r2 H. apply (inj Some). by rewrite <-(of_as_integer r1), <-(of_as_integer r2), H.
Qed.

#[export] Instance RetCode_eq_dec : EqDecision RetCode.
Proof.
  refine (fun r1 r2 => cast_if (decide (as_integer r1 = as_integer r2))).
  - by apply (inj as_integer).
  - congruence.
Defined.

(** [RET_OK == ret], [RET_OK != ret], [0 > as_integer(ret)] and
    [0 < as_integer(ret)], as the code writes its tests. *)
Definition is_ok (r : RetCode) : bool := bool_decide (r = RET_OK).
Definition is_err (r : RetCode) : bool := as_integer r <? 0.
Definition is_soft (r : RetCode) : bool := 0 <? as_integer r.

Lemma is_ok_true r : is_ok r = true <-> r = RET_OK.
Proof. unfold is_ok. by rewrite bool_decide_eq_true. Qed.

Lemma is_ok_false r : is_ok r = false <-> r <> RET_OK.
Proof. unfold is_ok. by rewrite bool_decide_eq_false. Qed.

Lemma is_ok_refl : is_ok RET_OK = true.
Proof. reflexivity. Qed.

Lemma as_integer_zero r : as_integer r = 0 <-> r = RET_OK.
Proof. split; [|by intros ->]. intros H. by apply (inj as_integer). Qed.

Lemma not_ok_err_soft r : r <> RET_OK -> is_err r = true \/ is_soft r = true.
Proof.
  intros H. unfold is_err, is_soft. rewrite !Z.ltb_lt.
  assert (as_integer r <> 0) by (by rewrite as_integer_zero). lia.
Qed.

Ltac simpl_ret :=
  repeat match goal with
  | H : is_ok _ = true |- _ => apply is_ok_true in H
  | H : is_ok _ = false |- _ => apply is_ok_false in H
  | |- context [is_ok RET_OK] => rewrite is_ok_refl
  end; simplify_eq/=.
