(* ===== verification/TopicConfig.v ===== *)
(** * Topic configuration (src/phxqueue/config/topicconfig.cpp)

    The configuration of a topic as read from its protobuf ([proto], in
    proto/topicconfig.proto) and the lookup tables [Rebuild] derives from it.
    The tables of [TopicConfigImpl] are the fields of [TopicConfig.t].
    A lookup that fails leaves the C++ out-parameter unset; here it returns
    [None] beside its code. *)

From S2P Require Import Prelude RetCode.

(** ** Messages of proto/topicconfig.proto and proto/comm.proto

    The fields the modelled code reads; an absent field has its declared
    default value. *)

Record QueueInfo := mkQueueInfo {
  qi_queue_info_id : Z;
  qi_ranges : list string;
  qi_delay : Z;
  qi_count : Z;
  qi_handle_by_random_uin : Z;
  qi_drop_all : Z;
}.

Record Pub := mkPub {
  pub_id : Z;
  pub_queue_info_ids : list Z;
  pub_consumer_group_ids : list Z;
}.

Record ConsumerGroup := mkConsumerGroup {
  cg_consumer_group_id : Z;
  cg_use_dynamic_scale : Z;
  cg_skip_lock : Z;
}.

Record SkipInfo := mkSkipInfo {
  sk_uin : Z;
  sk_pub_id : Z;
  sk_consumer_group_id : Z;
  sk_queue_info_id : Z;
  sk_handle_id : Z;
}.

Record FreqInfo := mkFreqInfo {
  fi_pub_id : Z;
  fi_consumer_group_id : Z;
  fi_handle_id : Z;
  fi_limit_per_min : Z;
  fi_queue_info_id : Z;
}.

Record ReplayInfo := mkReplayInfo {
  ri_consumer_group_ids : list Z;
  ri_pub_ids : list Z;
  ri_cursor_id : Z;
  ri_timestamp : Z;
}.

(** The fields of a topic about the paxos groups of its stores, and of its lock
    servers. *)
Record PaxosConf := mkPaxosConf {
  adjust_min_master_rate : Z;
  adjust_max_master_rate : Z;
  propose_timeout_ms : Z;
  max_hold_threads : Z;
  master_lease : Z;
  propose_wait_time_threshold_ms : Z;
  log_sync : Z;
  batch_count : Z;
  batch_delay_time_ms : Z;
  hold_log_count : Z;
  fsync_interval : Z;
}.

Record Topic := mkTopic {
  topic_id : Z;
  handle_ids : list Z;
  items_byte_size_limit : Z;
  store_make_cp_interval_s : Z;
  store_sync_interval_s : Z;
  store_get_loop_max_time_ms : Z;
  scheduler_get_scale_interval_s : Z;
  scheduler_max_load : Z;
  scheduler_max_mean_load_percent : Z;
  scheduler_max_init_weight_percent : Z;
  scheduler_load_sticky : Z;
  scheduler_weight_sticky : Z;
  scheduler_hash_keep_time_s : Z;
  scheduler_master_ip : string;
  scheduler_master_port : Z;
  scheduler_load_use_proc_used_ratio : Z;
  scheduler_use_init_weight : Z;
  batch_limit : Z;
  consumer_lock_lease_time_s : Z;
  consumer_ignore_consumer_group_ids : list Z;
  consumer_lock_interval_s : Z;
  consumer_max_loop_per_proc : Z;
  producer_retry_switch_store : Z;
  producer_nretry_raw_add : Z;
  producer_retry_switch_queue : Z;
  producer_batch_delay_time_ms : Z;
  scheduler_load_balance_interval_s : Z;
  scheduler_lock_lease_time_s : Z;
  scheduler_renew_lock_interval_s : Z;
  scheduler_lock_key : string;
  consumer_max_mem_size_mb_per_proc : Z;
  store_paxos : PaxosConf;
  lock_paxos : PaxosConf;
}.

Record TopicConfigProto := mkTopicConfigProto {
  topic : Topic;
  queue_infos : list QueueInfo;
  pubs : list Pub;
  consumer_groups : list ConsumerGroup;
  skip_infos : list SkipInfo;
  freq_infos : list FreqInfo;
  replay_infos : list ReplayInfo;
}.

(** [comm::proto::QItem] with its [comm::proto::Meta], without the cookies. *)
Record QItem := mkQItem {
  item_buffer : string;
  item_pub_id : Z;
  item_consumer_group_ids : Z;
  item_atime : Z;
  item_atime_ms : Z;
  item_count : Z;
  item_cursor_id : Z;
  meta_topic_id : Z;
  meta_handle_id : Z;
  meta_uin : Z;
  meta_hash : Z;
  item_buffer_type : Z;
  meta_consumer_group_ids : Z;
  meta_pub_id : Z;
  meta_atime : Z;
  meta_atime_ms : Z;
  meta_client_id : string;
}.

(** ** [StrSplitList] (comm/utils/string_util.cpp) and [std::stoi] *)

Definition is_delim (delimiters : string) (c : Ascii.ascii) : bool :=
  existsb (Ascii.eqb c) (String.list_ascii_of_string delimiters).

(** The scan of the loop: [cur] is the piece between [last] and the read
    position; an empty piece is not pushed. *)
Fixpoint split_from (delimiters : string) (cur : string) (s : string) : list string :=
  let push := if bool_decide (cur = ""%string) then [] else [cur] in
  match s with
  | EmptyString => push
  | String c r =>
      if is_delim delimiters c then push ++ split_from delimiters "" r
      else split_from delimiters (cur +:+ String c "")%string r
  end.

Definition StrSplitList (s delimiters : string) : list string := split_from delimiters "" s.

Definition digit_of (c : Ascii.ascii) : option Z :=
  let n := Z.of_nat (Ascii.nat_of_ascii c) in
  if (48 <=? n) && (n <=? 57) then Some (n - 48) else None.

Definition is_space (c : Ascii.ascii) : bool :=
  let n := Z.of_nat (Ascii.nat_of_ascii c) in (n =? 32) || ((9 <=? n) && (n <=? 13)).

(** The digits read from the front; [None] when there is no digit. *)
Fixpoint read_digits (acc : option Z) (s : string) : option Z :=
  match s with
  | EmptyString => acc
  | String c r =>
      match digit_of c with
      | Some d => read_digits (Some (10 * default 0 acc + d)) r
      | None => acc
      end
  end.

Fixpoint skip_space (s : string) : string :=
  match s with
  | String c r => if is_space c then skip_space r else s
  | EmptyString => s
  end.

(** [std::stoi]: leading white space, a sign, decimal digits, and whatever
    follows ignored.  It throws when there is no digit or when the value is
    not an [int]: [None]. *)
Definition stoi (s : string) : option Z :=
  let v := match skip_space s with
           | String c r =>
               if Ascii.eqb c "-"%char then Z.opp <$> read_digits None r
               else if Ascii.eqb c "+"%char then read_digits None r
               else read_digits None (String c r)
           | EmptyString => None
           end in
  v ≫= fun z => if (INT32_MIN <=? z) && (z <=? INT32_MAX) then Some z else None.

Module TopicConfig.

(** ** [TopicConfigImpl] with the [proto_] of [BaseConfig] *)

Record t := mk {
  proto : TopicConfigProto;
  pub_id2pub : gmap Z Pub;
  consumer_group_id2consumer_group : gmap Z ConsumerGroup;
  queue_info_id2queue_info : gmap Z QueueInfo;
  queue_info_id2ranges : gmap Z (list (Z * Z));
  queue2queue_info_id : gmap Z Z;
  pub_id2consumer_group_ids : gmap Z (gset Z);
  pub_id2queue_info_ids : gmap Z (gset Z);
  handle_id2rank : gmap Z Z;
  impl_freq_infos : list FreqInfo;
  impl_replay_infos : list ReplayInfo;  (* read only once *)
}.

(** [PHX_ASSERT(cond, ==, true)] under [need_check]: the process aborts. *)
Definition check (need_check cond : bool) : option unit :=
  if need_check && negb cond then None else Some tt.

(** *** [Rebuild], one table group at a time *)

Definition insert_ids (need_check : bool) (ids : list Z) (s : gset Z) : option (gset Z) :=
  foldM (fun s id => _ ← check need_check (bool_decide (id ∉ s)); Some ({[id]} ∪ s)) s ids.

Definition rebuild_pub (need_check : bool) (c : t) (pub : Pub) : option t :=
  if pub_id pub =? 0 then Some c else
  _ ← check need_check (bool_decide (pub_id2pub c !! pub_id pub = None));
  cgs ← insert_ids need_check (pub_consumer_group_ids pub)
          (default ∅ (pub_id2consumer_group_ids c !! pub_id pub));
  qis ← insert_ids need_check (pub_queue_info_ids pub)
          (default ∅ (pub_id2queue_info_ids c !! pub_id pub));
  Some (mk (proto c) (emplace (pub_id pub) pub (pub_id2pub c))
    (consumer_group_id2consumer_group c) (queue_info_id2queue_info c) (queue_info_id2ranges c)
    (queue2queue_info_id c)
    (<[pub_id pub := cgs]> (pub_id2consumer_group_ids c))
    (<[pub_id pub := qis]> (pub_id2queue_info_ids c))
    (handle_id2rank c) (impl_freq_infos c) (impl_replay_infos c)).

Definition rebuild_consumer_group (need_check : bool) (c : t) (g : ConsumerGroup) : option t :=
  if cg_consumer_group_id g =? 0 then Some c else
  _ ← check need_check
        (bool_decide (consumer_group_id2consumer_group c !! cg_consumer_group_id g = None));
  Some (mk (proto c) (pub_id2pub c)
    (emplace (cg_consumer_group_id g) g (consumer_group_id2consumer_group c))
    (queue_info_id2queue_info c) (queue_info_id2ranges c) (queue2queue_info_id c)
    (pub_id2consumer_group_ids c) (pub_id2queue_info_ids c)
    (handle_id2rank c) (impl_freq_infos c) (impl_replay_infos c)).

(** One string of [ranges]: "a-b" with [a <= b], or a single queue.  Any other
    shape is dropped. *)
Definition parse_range (s : string) : option (list (Z * Z)) :=
  match StrSplitList s "-"%string with
  | [a; b] => x ← stoi a; y ← stoi b; Some (if x <=? y then [(x, y)] else [])
  | [a] => x ← stoi a; Some [(x, x)]
  | _ => Some []
  end.

(** The order of [std::pair], which [sort] uses. *)
Definition range_le (p q : Z * Z) : Prop := p.1 < q.1 \/ (p.1 = q.1 /\ p.2 <= q.2).

#[export] Instance range_le_dec : RelDecision range_le.
Proof. intros p q. unfold range_le. apply _. Defined.

(** [queue2queue_info_id[queue] = queue_info_id] for every queue of the range. *)
Definition map_range (qid : Z) (m : gmap Z Z) (range : Z * Z) : option (gmap Z Z) :=
  qs ← int_range range.1 range.2; Some (foldl (fun m q => <[q := qid]> m) m qs).

Definition rebuild_queue_info (need_check : bool) (c : t) (qi : QueueInfo) : option t :=
  let qid := qi_queue_info_id qi in
  if qid =? 0 then Some c else
  _ ← check need_check (bool_decide (queue_info_id2queue_info c !! qid = None));
  parsed ← mapM parse_range (qi_ranges qi);
  let ranges := merge_sort range_le
                  (default [] (queue_info_id2ranges c !! qid) ++ concat parsed) in
  q2i ← foldM (map_range qid) (queue2queue_info_id c) ranges;
  Some (mk (proto c) (pub_id2pub c) (consumer_group_id2consumer_group c)
    (emplace qid qi (queue_info_id2queue_info c))
    (<[qid := ranges]> (queue_info_id2ranges c)) q2i
    (pub_id2consumer_group_ids c) (pub_id2queue_info_ids c)
    (handle_id2rank c) (impl_freq_infos c) (impl_replay_infos c)).

Definition rebuild_handle_ids (need_check : bool) (ids : list Z) : option (gmap Z Z) :=
  foldM (fun m '(i, id) =>
           _ ← check need_check (bool_decide (m !! id = None)); Some (emplace id (Z.of_nat i) m))
        ∅ (imap pair ids).

Definition cleared (p : TopicConfigProto) : t := mk p ∅ ∅ ∅ ∅ ∅ ∅ ∅ ∅ [] [].

Definition Rebuild (need_check : bool) (p : TopicConfigProto) : option (RetCode * t) :=
  c1 ← foldM (rebuild_pub need_check) (cleared p) (pubs p);
  c2 ← foldM (rebuild_consumer_group need_check) c1 (consumer_groups p);
  c3 ← foldM (rebuild_queue_info need_check) c2 (queue_infos p);
  ranks ← rebuild_handle_ids need_check (handle_ids (topic p));
  Some (RET_OK,
    mk p (pub_id2pub c3) (consumer_group_id2consumer_group c3) (queue_info_id2queue_info c3)
       (queue_info_id2ranges c3) (queue2queue_info_id c3) (pub_id2consumer_group_ids c3)
       (pub_id2queue_info_ids c3) ranks (freq_infos p) (replay_infos p)).

(** The configuration [ReadConfig] of the base class fills in. *)
Definition default_topic : Topic :=
  mkTopic 1000 [] 2097152 10 5 20 10 80 150 200 5 500 20 ""%string 0 0 1
    100 30 [] 20 0 1 0 1 20 60 20 5 "__scheduler__.__master__"%string 300
    (mkPaxosConf 100 100 1500 200 5000 800 1 20 20 100000 0) (mkPaxosConf 100 100 1500 200 5000 800 1 20 20 100000 0).

Definition ReadConfig : RetCode * TopicConfigProto :=
  (RET_OK, mkTopicConfigProto default_topic
    [mkQueueInfo 1 ["0-9"%string] 0 1 0 0; mkQueueInfo 2 ["10-19"%string] 0 1 0 0;
     mkQueueInfo 3 ["1000-1009"%string] 10 100 0 0; mkQueueInfo 4 ["1010-1019"%string] 20 (-1) 0 0]
    [mkPub 1 [1; 3] [1; 2]; mkPub 2 [2; 4] [2]]
    [mkConsumerGroup 1 0 1; mkConsumerGroup 2 0 1] [] [] []).

(** ** Lookups *)

Definition GetAllPub (c : t) : RetCode * list Pub := (RET_OK, snd <$> map_items (pub_id2pub c)).

Definition GetAllPubID (c : t) : RetCode * gset Z := (RET_OK, dom (pub_id2pub c)).

Definition IsValidPubID (c : t) (pub_id : Z) : bool := bool_decide (is_Some (pub_id2pub c !! pub_id)).

Definition GetPubByPubID (c : t) (pub_id : Z) : RetCode * option Pub :=
  match pub_id2pub c !! pub_id with
  | None => (RET_ERR_RANGE_PUB, None)
  | Some pub => (RET_OK, Some pub)
  end.

Definition GetConsumerGroupIDsByPubID (c : t) (pub_id : Z) : RetCode * gset Z :=
  match GetPubByPubID c pub_id with
  | (RET_OK, Some pub) => (RET_OK, list_to_set (pub_consumer_group_ids pub))
  | (RET_OK, None) => (RET_ERR_RANGE_PUB, ∅)
  | (ret, _) => (ret, ∅)
  end.

Definition GetAllConsumerGroup (c : t) : RetCode * list ConsumerGroup :=
  (RET_OK, snd <$> map_items (consumer_group_id2consumer_group c)).

Definition GetAllConsumerGroupID (c : t) : RetCode * gset Z :=
  (RET_OK, dom (consumer_group_id2consumer_group c)).

Definition IsValidConsumerGroupID (c : t) (consumer_group_id : Z) : bool :=
  bool_decide (is_Some (consumer_group_id2consumer_group c !! consumer_group_id)).

Definition GetConsumerGroupByConsumerGroupID (c : t) (consumer_group_id : Z)
    : RetCode * option ConsumerGroup :=
  match consumer_group_id2consumer_group c !! consumer_group_id with
  | None => (RET_ERR_RANGE_CONSUMER_GROUP, None)
  | Some g => (RET_OK, Some g)
  end.

Fixpoint index_of (x : Z) (i : Z) (l : list Z) : option Z :=
  match l with
  | [] => None
  | y :: r => if x =? y then Some i else index_of x (i + 1) r
  end.

Definition GetQueueInfoIDRankByPub (queue_info_id : Z) (pub : option Pub) : RetCode * Z :=
  match pub with
  | None => (RET_ERR_UNEXPECTED, 0)
  | Some pub =>
      match index_of queue_info_id 0 (pub_queue_info_ids pub) with
      | Some i => (RET_OK, i)
      | None => (RET_ERR_RANGE_QUEUE_INFO, 0)
      end
  end.

Definition GetQueueInfoIDRankByPubID (c : t) (queue_info_id pub_id : Z) : RetCode * Z :=
  match GetPubByPubID c pub_id with
  | (RET_OK, Some pub) => GetQueueInfoIDRankByPub queue_info_id (Some pub)
  | (ret, _) => (ret, 0)
  end.

Definition in_range (queue_id : Z) (range : Z * Z) : bool :=
  (range.1 <=? queue_id) && (queue_id <=? range.2).

(** The loop over [queue_info_ids] of the lambda [f]: an id without ranges
    ends it with [false]. *)
Fixpoint any_range (c : t) (queue_id : Z) (ids : list Z) : bool :=
  match ids with
  | [] => false
  | id :: r =>
      match queue_info_id2ranges c !! id with
      | None => false
      | Some ranges => existsb (in_range queue_id) ranges || any_range c queue_id r
      end
  end.

Definition valid_for_pub (c : t) (queue_id consumer_group_id arg_pub_id : Z) : bool :=
  (if consumer_group_id =? -1 then true
   else match pub_id2consumer_group_ids c !! arg_pub_id with
        | None => false
        | Some ids => bool_decide (consumer_group_id ∈ ids)
        end) &&
  match pub_id2queue_info_ids c !! arg_pub_id with
  | None => false
  | Some ids => any_range c queue_id (set_items ids)
  end.

(** The default arguments [pub_id = -1] and [consumer_group_id = -1] of the
    declaration mean any. *)
Definition IsValidQueue (c : t) (queue_id pub_id consumer_group_id : Z) : bool :=
  if negb (pub_id =? -1) then valid_for_pub c queue_id consumer_group_id pub_id
  else existsb (valid_for_pub c queue_id consumer_group_id) (set_items (dom (pub_id2pub c))).

Definition GetQueuesByQueueInfoID (c : t) (queue_info_id : Z) : option (RetCode * gset Z) :=
  match queue_info_id2ranges c !! queue_info_id with
  | None => Some (RET_ERR_RANGE_QUEUE_INFO, ∅)
  | Some ranges =>
      qs ← mapM (fun r => int_range r.1 r.2) ranges; Some (RET_OK, list_to_set (concat qs))
  end.

Definition GetQueueInfoByQueueInfoID (c : t) (queue_info_id : Z) : RetCode * option QueueInfo :=
  match queue_info_id2queue_info c !! queue_info_id with
  | Some qi => (RET_OK, Some qi)
  | None => (RET_ERR_RANGE_QUEUE_INFO, None)
  end.

Definition GetQueueInfoByQueue (c : t) (queue : Z) : RetCode * option QueueInfo :=
  match queue2queue_info_id c !! queue with
  | None => (RET_ERR_RANGE_QUEUE, None)
  | Some qid => GetQueueInfoByQueueInfoID c qid
  end.

Definition GetQueueDelay (c : t) (queue : Z) : RetCode * option Z :=
  match GetQueueInfoByQueue c queue with
  | (RET_OK, Some qi) => (RET_OK, Some (qi_delay qi))
  | (ret, _) => (ret, None)
  end.

Definition GetNQueue (c : t) (queue_info_id : Z) : RetCode * option Z :=
  match queue_info_id2ranges c !! queue_info_id with
  | None => (RET_ERR_RANGE_QUEUE_INFO, None)
  | Some ranges => (RET_OK, Some (foldl (fun n r => n + (r.2 - r.1 + 1)) 0 ranges))
  end.

(** The loop of [GetQueueByRank]; [w] and [r] are [uint64_t]. *)
Fixpoint rank_in (ranges : list (Z * Z)) (r : Z) : option Z :=
  match ranges with
  | [] => None
  | range :: rest =>
      let w := to_u64 (range.2 - range.1 + 1) in
      if w <=? r then rank_in rest (r -u w) else Some (to_i32 (range.1 +u r))
  end.

Definition GetQueueByRank (c : t) (queue_info_id rank : Z) : RetCode * option Z :=
  match queue_info_id2ranges c !! queue_info_id with
  | None => (RET_ERR_RANGE_QUEUE_INFO, None)
  | Some [] => (RET_ERR_RANGE_RANK, None)
  | Some ranges =>
      match rank_in ranges rank with
      | Some queue => (RET_OK, Some queue)
      | None => (RET_ERR_RANGE_RANK, None)
      end
  end.

Definition GetQueueByLoopRank (c : t) (queue_info_id rank : Z) : RetCode * option Z :=
  match GetNQueue c queue_info_id with
  | (RET_OK, Some nqueue) =>
      if nqueue =? 0 then (RET_ERR_NQUEUE_INVALID, None)
      else GetQueueByRank c queue_info_id (rank mod to_u64 nqueue)
  | (ret, _) => (ret, None)
  end.

Definition skip_matches (sk : SkipInfo) (item : QItem) (consumer_group_id queue_info_id : Z) : bool :=
  ((sk_uin sk =? 0) || (sk_uin sk =? meta_uin item)) &&
  ((sk_pub_id sk =? -1) || (sk_pub_id sk =? item_pub_id item)) &&
  ((sk_handle_id sk =? -1) || (sk_handle_id sk =? meta_handle_id item)) &&
  ((sk_consumer_group_id sk =? -1) || (sk_consumer_group_id sk =? consumer_group_id)) &&
  ((sk_queue_info_id sk =? -1) || (sk_queue_info_id sk =? queue_info_id)).

Definition ShouldSkip (c : t) (item : QItem) (consumer_group_id queue_info_id : Z) : bool :=
  existsb (fun sk => skip_matches sk item consumer_group_id queue_info_id) (skip_infos (proto c)).

(** The loop of [GetQueueInfoIDByCount]: each queue info takes [count] of the
    retries, [-1] takes them all. *)
Fixpoint by_count (c : t) (n : Z) (ids : list Z) : RetCode * option Z :=
  match ids with
  | [] => (RET_ERR_RANGE_CNT, None)
  | id :: r =>
      match GetQueueInfoByQueueInfoID c id with
      | (RET_OK, Some qi) =>
          if negb (qi_count qi =? -1) && (qi_count qi <=? n) then by_count c (n - qi_count qi) r
          else (RET_OK, Some id)
      | _ => (RET_ERR_RANGE_QUEUE_INFO, None)
      end
  end.

Definition GetQueueInfoIDByCount (c : t) (pub_id cnt : Z) : RetCode * option Z :=
  match GetPubByPubID c pub_id with
  | (RET_OK, Some pub) => by_count c cnt (pub_queue_info_ids pub)
  | _ => (RET_ERR_RANGE_PUB, None)
  end.

Definition GetHandleIDRank (c : t) (handle_id : Z) : RetCode * option Z :=
  match handle_id2rank c !! handle_id with
  | None => (RET_ERR_RANGE_HANDLE, None)
  | Some rank => (RET_OK, Some rank)
  end.

Definition GetAllFreqInfo (c : t) : RetCode * list FreqInfo := (RET_OK, impl_freq_infos c).

(** Moves the replay infos out: the table is empty afterwards. *)
Definition GetAllReplayInfo (c : t) (out : list ReplayInfo) : RetCode * list ReplayInfo * t :=
  (RET_OK, out ++ impl_replay_infos c,
   mk (proto c) (pub_id2pub c) (consumer_group_id2consumer_group c) (queue_info_id2queue_info c)
      (queue_info_id2ranges c) (queue2queue_info_id c) (pub_id2consumer_group_ids c)
      (pub_id2queue_info_ids c) (handle_id2rank c) (impl_freq_infos c) []).

(** ** The ranges of a rebuilt configuration are well formed *)

Definition wf_range (r : Z * Z) : Prop := is_i32 r.1 /\ is_i32 r.2 /\ r.1 <= r.2.

(** What [Rebuild] establishes of the tables the lookups join: the ranges are
    non-empty intervals of [int], an id has ranges exactly when it has a queue
    info, and [queue2queue_info_id] names an id whose ranges hold the queue. *)
Record wf (c : t) : Prop := {
  wf_ranges : forall id rs, queue_info_id2ranges c !! id = Some rs -> Forall wf_range rs;
  wf_infos : forall id, is_Some (queue_info_id2ranges c !! id) <->
                        is_Some (queue_info_id2queue_info c !! id);
  wf_queue : forall q id, queue2queue_info_id c !! q = Some id ->
     exists rs, queue_info_id2ranges c !! id = Some rs /\ existsb (in_range q) rs = true;
  wf_owned : forall q id rs, queue_info_id2ranges c !! id = Some rs ->
     existsb (in_range q) rs = true -> is_Some (queue2queue_info_id c !! q);
}.

Lemma stoi_i32 s z : stoi s = Some z -> is_i32 z.
Proof.
  unfold stoi. intros H. apply bind_Some in H as (v & _ & H).
  case_match eqn:E; [|done]. simplify_eq. simpl_bool. done.
Qed.

Lemma parse_range_wf s l : parse_range s = Some l -> Forall wf_range l.
Proof.
  unfold parse_range. destruct (StrSplitList s "-"%string) as [|a [|b [|? ?]]]; intros H; simplify_option_eq.
  - constructor.
  - repeat constructor; simpl; try lia; eapply stoi_i32; eauto.
  - split_if; simpl_bool; repeat constructor; simpl; try lia; eapply stoi_i32; eauto.
  - constructor.
Qed.

Lemma int_range_spec a b l q :
  int_range a b = Some l -> (q ∈ l <-> a <= q <= b).
Proof. unfold int_range. intros H. split_if_in H. rewrite elem_of_seqZ. lia. Qed.

Lemma fold_insert_lookup (qid : Z) qs (m : gmap Z Z) q :
  foldl (fun m q => <[q := qid]> m) m qs !! q = if decide (q ∈ qs) then Some qid else m !! q.
Proof.
  revert m. induction qs as [|x qs IH]; intros m; cbn [foldl].
  - case_decide; set_solver.
  - rewrite IH. destruct (decide (q = x)) as [->|];
      [rewrite lookup_insert_eq|rewrite lookup_insert_ne by done]; repeat case_decide; set_solver.
Qed.

Lemma map_range_lookup qid m r m' q :
  map_range qid m r = Some m' -> m' !! q = if in_range q r then Some qid else m !! q.
Proof.
  unfold map_range. intros (qs & Hqs & ?)%bind_Some; simplify_eq.
  rewrite fold_insert_lookup. unfold in_range.
  pose proof (int_range_spec _ _ _ q Hqs) as Hq.
  destruct (decide (q ∈ qs)) as [H|H]; rewrite Hq in H; split_if; done || lia.
Qed.

Lemma map_ranges_lookup qid rs m m' q :
  foldM (map_range qid) m rs = Some m' ->
  m' !! q = if existsb (in_range q) rs then Some qid else m !! q.
Proof.
  revert m. induction rs as [|r rs IH]; intros m H; [by injection H as <-|].
  apply foldM_cons in H as (m1 & H1 & H2). rewrite (IH _ H2), (map_range_lookup _ _ _ _ q H1). simpl.
  destruct (in_range q r), (existsb (in_range q) rs); done.
Qed.

Lemma existsb_elem {A} (f : A -> bool) l : existsb f l = true <-> exists x, x ∈ l /\ f x = true.
Proof. rewrite existsb_exists. by setoid_rewrite list_elem_of_In. Qed.

Lemma rebuild_queue_info_wf b c qi c' :
  wf c -> rebuild_queue_info b c qi = Some c' -> wf c'.
Proof.
  intros [Hr Hi Hq Ho] H. unfold rebuild_queue_info in H. split_if_in H; [by constructor|].
  set (qid := qi_queue_info_id qi) in *.
  apply bind_Some in H as (_ & _ & H). apply bind_Some in H as (parsed & Hp & H).
  apply bind_Some in H as (q2i & Hm & H). simplify_eq.
  set (old := default [] (queue_info_id2ranges c !! qid)) in *.
  set (rs := merge_sort range_le (old ++ concat parsed)) in *.
  assert (Hold : forall rs', queue_info_id2ranges c !! qid = Some rs' -> forall r, r ∈ rs' -> r ∈ rs).
  { intros rs' E r Hin. unfold rs. rewrite merge_sort_Permutation. unfold old. rewrite E. set_solver. }
  assert (Hwf : Forall wf_range rs).
  { unfold rs. rewrite merge_sort_Permutation. apply Forall_app. split.
    - unfold old. destruct (queue_info_id2ranges c !! qid) eqn:E; simpl; eauto.
    - apply Forall_concat. apply mapM_Some in Hp. clear -Hp.
      induction Hp; constructor; eauto using parse_range_wf. }
  constructor; simpl.
  - intros id rs' [[<- <-]|[? ?]]%lookup_insert_Some; eauto.
  - intros id. destruct (decide (id = qid)) as [->|].
    + rewrite lookup_insert_eq. split; [intros _; apply emplace_lookup|eauto].
    + rewrite lookup_insert_ne, emplace_lookup_ne by done. apply Hi.
  - intros q id. rewrite (map_ranges_lookup _ _ _ _ q Hm). intros H. split_if_in H.
    + exists rs. by rewrite lookup_insert_eq.
    + destruct (Hq _ _ H) as (rs' & E & Hin). destruct (decide (id = qid)) as [->|].
      * apply existsb_elem in Hin as (r & ? & ?).
        assert (existsb (in_range q) rs = true) by (apply existsb_elem; eauto). congruence.
      * exists rs'. by rewrite lookup_insert_ne.
  - intros q id rs' [[<- <-]|[? ?]]%lookup_insert_Some Hin;
      rewrite (map_ranges_lookup _ _ _ _ q Hm); [rewrite Hin; eauto|]. split_if; eauto.
Qed.

Lemma cleared_wf p : wf (cleared p).
Proof. constructor; simpl; intros *; rewrite ?lookup_empty; done. Qed.

(** The lookup tables that [wf] speaks of are built by [rebuild_queue_info]
    alone. *)
Lemma wf_tables c c' :
  wf c -> queue_info_id2ranges c' = queue_info_id2ranges c ->
  queue_info_id2queue_info c' = queue_info_id2queue_info c ->
  queue2queue_info_id c' = queue2queue_info_id c -> wf c'.
Proof. intros [Hr Hi Hq Ho] E1 E2 E3. constructor; rewrite ?E1, ?E2, ?E3; done. Qed.

Lemma rebuild_pub_wf b c x c' : wf c -> rebuild_pub b c x = Some c' -> wf c'.
Proof.
  unfold rebuild_pub. intros Hc H. split_if_in H; [done|].
  repeat (apply bind_Some in H as (? & _ & H)). simplify_eq. by apply (wf_tables c).
Qed.

Lemma rebuild_consumer_group_wf b c x c' : wf c -> rebuild_consumer_group b c x = Some c' -> wf c'.
Proof.
  unfold rebuild_consumer_group. intros Hc H. split_if_in H; [done|].
  repeat (apply bind_Some in H as (? & _ & H)). simplify_eq. by apply (wf_tables c).
Qed.

(** ** Ranks

    The queues of a queue info in rank order: the ranges one after another.
    This is the specification of the rank lookups. *)

Definition all_queues (rs : list (Z * Z)) : list Z :=
  concat ((fun r => seqZ r.1 (r.2 - r.1 + 1)) <$> rs).

Lemma rank_in_spec rs r :
  Forall wf_range rs -> is_u64 r -> rank_in rs r = all_queues rs !! Z.to_nat r.
Proof.
  intros Hwf. revert r. induction Hwf as [|[a b] rs (Ha & Hb & Hab) _ IH]; intros r Hr; [done|].
  unfold all_queues in *. cbn [rank_in fmap list_fmap concat fst snd] in *.
  assert (Hw : is_u64 (b - a + 1)) by ilia. rewrite to_u64_id by done.
  rewrite lookup_app. destruct (b - a + 1 <=? r) eqn:E; simpl_bool.
  - rewrite lookup_seqZ_ge by ilia. rewrite IH by apply to_u64_range.
    rewrite length_seqZ, to_u64_id by ilia. f_equal. ilia.
  - rewrite lookup_seqZ_lt by ilia. f_equal. rewrite Z2Nat.id by ilia.
    rewrite to_i32_to_u64; ilia.
Qed.

Lemma length_all_queues rs : Forall wf_range rs ->
  Z.of_nat (length (all_queues rs)) = foldl (fun n r => n + (r.2 - r.1 + 1)) 0 rs.
Proof.
  intros Hwf.
  enough (H : forall z, foldl (fun n r => n + (r.2 - r.1 + 1)) z rs = z + Z.of_nat (length (all_queues rs)))
    by (rewrite H; lia).
  unfold all_queues. induction Hwf as [|[a b] rs (Ha & Hb & Hab) _ IH]; intros z;
    cbn [foldl fmap list_fmap concat fst snd] in *; [simpl; lia|].
  rewrite IH, length_app, length_seqZ. lia.
Qed.

Lemma elem_of_all_queues rs q : q ∈ all_queues rs <-> existsb (in_range q) rs = true.
Proof.
  unfold all_queues, in_range. rewrite existsb_elem, list_elem_of_In, in_concat. split.
  - intros (l & Hl & Hq). apply list_elem_of_In in Hl, Hq.
    apply list_elem_of_fmap in Hl as (r & -> & Hr). apply elem_of_seqZ in Hq.
    exists r. split; [done|]. lia.
  - intros (r & Hr & Hq). exists (seqZ r.1 (r.2 - r.1 + 1)).
    rewrite <-!list_elem_of_In, elem_of_seqZ, list_elem_of_fmap. split; [eauto|simpl_bool; lia].
Qed.

Lemma Rebuild_tables b p ret c :
  Rebuild b p = Some (ret, c) -> wf c /\ proto c = p.
Proof.
  unfold Rebuild. intros H. apply bind_Some in H as (c1 & H1 & H).
  apply bind_Some in H as (c2 & H2 & H). apply bind_Some in H as (c3 & H3 & H).
  apply bind_Some in H as (ranks & _ & H). simplify_eq. split; [|done].
  apply (wf_tables c3); [|done..].
  apply (foldM_inv wf _ _ _ _ (rebuild_queue_info_wf b)) in H3; [done|].
  apply (foldM_inv wf _ _ _ _ (rebuild_consumer_group_wf b)) in H2; [done|].
  apply (foldM_inv wf _ _ _ _ (rebuild_pub_wf b)) in H1; [done|]. apply cleared_wf.
Qed.

(** ** Properties *)

Definition ranges_of (c : t) (id : Z) : list (Z * Z) := default [] (queue_info_id2ranges c !! id).

Lemma ranges_of_wf c id : wf c -> Forall wf_range (ranges_of c id).
Proof.
  intros Hc. unfold ranges_of. destruct (queue_info_id2ranges c !! id) eqn:E; simpl; [|constructor].
  by eapply wf_ranges.
Qed.

Lemma GetQueueByRank_ranges c id rank :
  is_Some (queue_info_id2ranges c !! id) ->
  GetQueueByRank c id rank =
    match rank_in (ranges_of c id) rank with
    | Some q => (RET_OK, Some q) | None => (RET_ERR_RANGE_RANK, None)
    end.
Proof. intros [rs H]. unfold GetQueueByRank, ranges_of. rewrite H. by destruct rs. Qed.

Lemma GetQueueByRank_index b p ret c id rank :
  Rebuild b p = Some (ret, c) -> is_u64 rank ->
  GetQueueByRank c id rank =
    match queue_info_id2ranges c !! id with
    | None => (RET_ERR_RANGE_QUEUE_INFO, None)
    | Some rs => match all_queues rs !! Z.to_nat rank with
                 | Some q => (RET_OK, Some q)
                 | None => (RET_ERR_RANGE_RANK, None)
                 end
    end.
Proof.
  intros [Hc _]%Rebuild_tables Hr. destruct (queue_info_id2ranges c !! id) as [rs|] eqn:E.
  - rewrite GetQueueByRank_ranges by eauto. unfold ranges_of. rewrite E; simpl.
    rewrite rank_in_spec; [done| |done]. by eapply wf_ranges.
  - unfold GetQueueByRank. by rewrite E.
Qed.

(** [GetQueueByRank] of a rebuilt configuration is indexing into the queues
    of the queue info in order: rank [r] gives queue number [r], and every
    rank from the number of queues on is [RET_ERR_RANGE_RANK].  The 64-bit
    subtractions of the loop never wrap. *)
Theorem GetQueueByRank_correct b p ret c id rank :
  Rebuild b p = Some (ret, c) -> is_u64 rank ->
  GetQueueByRank c id rank =
    match queue_info_id2ranges c !! id with
    | None => (RET_ERR_RANGE_QUEUE_INFO, None)
    | Some rs => match all_queues rs !! Z.to_nat rank with
                 | Some q => (RET_OK, Some q)
                 | None => (RET_ERR_RANGE_RANK, None)
                 end
    end.
Proof. apply GetQueueByRank_index. Qed.

(** [GetQueueByLoopRank] returns a queue of the queue info for every rank,
    and equal ranks modulo the number of queues give the same queue; it fails
    only on an unknown id or a queue info without queues. *)
Theorem GetQueueByLoopRank_total b p ret c id rs rank :
  Rebuild b p = Some (ret, c) -> queue_info_id2ranges c !! id = Some rs -> rs <> [] ->
  Z.of_nat (length (all_queues rs)) <= INT32_MAX -> is_u64 rank ->
  exists q, GetQueueByLoopRank c id rank = (RET_OK, Some q) /\
    all_queues rs !! Z.to_nat (rank mod Z.of_nat (length (all_queues rs))) = Some q /\
    existsb (in_range q) rs = true.
Proof.
  intros HR Hid Hne Hlen Hr. pose proof (Rebuild_tables _ _ _ _ HR) as [Hc _].
  pose proof (wf_ranges c Hc _ _ Hid) as Hwf.
  set (n := Z.of_nat (length (all_queues rs))) in *.
  assert (Hn : 0 < n).
  { destruct Hwf as [|[x y] rs' (? & ? & ?) _]; [done|]. unfold n, all_queues.
    cbn [fmap list_fmap concat fst snd] in *. rewrite length_app, length_seqZ. lia. }
  unfold GetQueueByLoopRank, GetNQueue. rewrite Hid, <-length_all_queues by done. fold n.
  rewrite (proj2 (Z.eqb_neq _ _)) by lia. rewrite to_u64_id by ilia.
  pose proof (Z.mod_pos_bound rank n Hn) as Hm.
  rewrite (GetQueueByRank_index _ _ _ _ _ _ HR), Hid by ilia.
  destruct (lookup_lt_is_Some_2 (all_queues rs) (Z.to_nat (rank mod n))) as [q Hq]; [lia|].
  exists q. rewrite Hq. split_and!; [done..|].
  apply elem_of_all_queues. by eapply list_elem_of_lookup_2.
Qed.

(** The ranges of different queue infos do not overlap. *)
Definition disjoint_ranges (c : t) : Prop :=
  forall q id1 id2 rs1 rs2,
    queue_info_id2ranges c !! id1 = Some rs1 -> queue_info_id2ranges c !! id2 = Some rs2 ->
    existsb (in_range q) rs1 = true -> existsb (in_range q) rs2 = true -> id1 = id2.

Lemma GetQueueByRank_info b p ret c id rank q :
  Rebuild b p = Some (ret, c) -> disjoint_ranges c -> is_u64 rank ->
  GetQueueByRank c id rank = (RET_OK, Some q) ->
  exists qi, GetQueueInfoByQueue c q = (RET_OK, Some qi) /\
             GetQueueInfoByQueueInfoID c id = (RET_OK, Some qi).
Proof.
  intros HR Hd Hr H. rewrite (GetQueueByRank_index _ _ _ _ _ _ HR Hr) in H.
  pose proof (Rebuild_tables _ _ _ _ HR) as [Hc _].
  destruct (queue_info_id2ranges c !! id) as [rs|] eqn:Hid; [|done].
  destruct (all_queues rs !! Z.to_nat rank) as [q'|] eqn:Hq; [|done]. simplify_eq.
  assert (Hin : existsb (in_range q) rs = true).
  { apply elem_of_all_queues. by eapply list_elem_of_lookup_2. }
  destruct (wf_owned c Hc _ _ _ Hid Hin) as [id' Hid'].
  destruct (wf_queue c Hc _ _ Hid') as (rs' & Hrs' & Hin').
  pose proof (Hd _ _ _ _ _ Hid Hrs' Hin Hin') as <-.
  destruct (proj1 (wf_infos c Hc id)) as [qi Hqi]; [eauto|].
  unfold GetQueueInfoByQueue, GetQueueInfoByQueueInfoID. rewrite Hid', Hqi. eauto.
Qed.

(** Round trip between the queue a producer picks by rank and the queue
    info the store finds for it: the queue [GetQueueByRank] gives for a queue
    info is mapped back to that queue info by [GetQueueInfoByQueue]. *)
Theorem GetQueueInfoByQueue_of_rank b p ret c id rank q :
  Rebuild b p = Some (ret, c) -> disjoint_ranges c -> is_u64 rank ->
  GetQueueByRank c id rank = (RET_OK, Some q) ->
  exists qi, GetQueueInfoByQueue c q = (RET_OK, Some qi) /\
             GetQueueInfoByQueueInfoID c id = (RET_OK, Some qi).
Proof. apply GetQueueByRank_info. Qed.

(** The retry ladder of a pub: each queue info repeated [count] times. *)
Fixpoint ladder (c : t) (ids : list Z) (n : nat) : list Z :=
  match ids with
  | [] => []
  | id :: r =>
      match queue_info_id2queue_info c !! id with
      | None => []
      | Some qi => if qi_count qi =? -1 then replicate n id
                   else replicate (Z.to_nat (qi_count qi)) id ++ ladder c r n
      end
  end.

Definition counts_ok (c : t) (ids : list Z) : Prop :=
  Forall (fun id => exists qi, queue_info_id2queue_info c !! id = Some qi /\ -1 <= qi_count qi) ids.

Lemma by_count_ladder c ids n m :
  counts_ok c ids -> 0 <= n < Z.of_nat m ->
  by_count c n ids = match ladder c ids m !! Z.to_nat n with
                     | Some id => (RET_OK, Some id)
                     | None => (RET_ERR_RANGE_CNT, None)
                     end.
Proof.
  intros H. revert n. induction H as [|id ids (qi & Hqi & Hc) _ IH]; intros n Hn; [done|].
  cbn [by_count ladder]. unfold GetQueueInfoByQueueInfoID. rewrite Hqi.
  destruct (qi_count qi =? -1) eqn:E1; simpl_bool; cbn [negb andb].
  - by rewrite lookup_replicate_2 by lia.
  - destruct (qi_count qi <=? n) eqn:E2; simpl_bool; rewrite lookup_app.
    + rewrite (proj1 (lookup_replicate_None _ _ _)) by lia. rewrite IH, length_replicate by lia.
      by rewrite Z2Nat.inj_sub by lia.
    + by rewrite lookup_replicate_2 by lia.
Qed.

(** [GetQueueInfoIDByCount] is the retry ladder of the pub: attempt
    number [cnt] goes to the [cnt]-th rung, where queue info [i] fills [count]
    rungs and [-1] all the remaining ones; after the last rung the attempt is
    refused with [RET_ERR_RANGE_CNT]. *)
Theorem GetQueueInfoIDByCount_ladder c pub_id pub cnt m :
  pub_id2pub c !! pub_id = Some pub -> counts_ok c (pub_queue_info_ids pub) ->
  0 <= cnt < Z.of_nat m ->
  GetQueueInfoIDByCount c pub_id cnt =
    match ladder c (pub_queue_info_ids pub) m !! Z.to_nat cnt with
    | Some id => (RET_OK, Some id)
    | None => (RET_ERR_RANGE_CNT, None)
    end.
Proof.
  intros Hp Hc Hn. unfold GetQueueInfoIDByCount, GetPubByPubID. rewrite Hp.
  by apply by_count_ladder.
Qed.

End TopicConfig.
