(* ===== verification/FileUtil.v ===== *)
(** * Directories (src/phxqueue/comm/utils/file_util.cpp)

    The helpers with which the lock server lists, clears and copies the
    directory of its LevelDB mirror.  They all run [DoTravelDir], a walk over a
    directory that calls back before and after every entry.

    The operating system is an interface: [FileSystem] has the calls the code
    makes, each returning 0 or the [errno] of its failure, and [FileSystemLaws]
    what they do on a file system where no call fails for a reason outside its
    arguments.  What [readdir] returns until the end of an opened directory is
    fixed when it is opened; POSIX leaves open whether entries that come or go
    meanwhile are seen, and the code only removes entries it has been given, or
    writes outside of the directory.

    [walk_rule] is the induction principle of the walk; FileTree.v instantiates
    its invariant for listing, removing and copying. *)

From S2P Require Import Prelude.

(** ** Paths *)

Definition join (dir name : string) : string := dir +:+ "/" +:+ name.

(** [relative_dir_path] extended by [name]. *)
Definition sub_path (relative name : string) : string :=
  if bool_decide (relative = ""%string) then name else join relative name.

Definition absolute (root relative : string) : string :=
  if bool_decide (relative = ""%string) then root else join root relative.

(** The relative path of a list of names. *)
Definition relative (q : list string) : string := String.concat "/" q.

Fixpoint has_slash (s : string) : bool :=
  match s with
  | EmptyString => false
  | String c s => Ascii.eqb c "/" || has_slash s
  end.

(** A directory entry other than [.] and [..]. *)
Definition good_name (n : string) : bool :=
  negb (bool_decide (n = ""%string)) && negb (bool_decide (n = "."%string)) &&
  negb (bool_decide (n = ".."%string)) && negb (has_slash n).

Lemma app_assoc_s (a b c : string) : a +:+ (b +:+ c) = (a +:+ b) +:+ c.
Proof. induction a as [|x a IH]; [done|]. exact (f_equal (String x) IH). Qed.

Lemma join_assoc a b c : join a (join b c) = join (join a b) c.
Proof. unfold join. by rewrite !app_assoc_s. Qed.

Lemma join_nonempty a b : join a b <> ""%string.
Proof. by destruct a. Qed.

Lemma good_nonempty n : good_name n = true -> n <> ""%string.
Proof. intros H ->. done. Qed.

Lemma relative_app q n : q <> [] -> relative (q ++ [n]) = join (relative q) n.
Proof.
  unfold relative. intros Hq. induction q as [|a q IH]; [done|]. destruct q as [|b q]; [done|].
  simpl app. change (String.concat "/" (a :: b :: q ++ [n])) with (join a (String.concat "/" ((b :: q) ++ [n]))).
  rewrite IH by done. apply join_assoc.
Qed.

Lemma relative_nonempty q : Forall (fun n => good_name n = true) q -> q <> [] -> relative q <> ""%string.
Proof.
  destruct q as [|a q] using rev_ind; [done|]. intros Hq _. apply Forall_app in Hq as [_ Ha]. apply Forall_cons in Ha as [Ha _].
  destruct (decide (q = [])) as [->|Hne]; [exact (good_nonempty a Ha)|]. rewrite relative_app by done. apply join_nonempty.
Qed.

Lemma sub_path_relative q n :
  Forall (fun m => good_name m = true) q -> sub_path (relative q) n = relative (q ++ [n]).
Proof.
  intros Hq. unfold sub_path. destruct (decide (q = [])) as [->|Hne]; [done|].
  rewrite bool_decide_eq_false_2 by (by apply relative_nonempty). by rewrite relative_app.
Qed.

Lemma absolute_relative root q n :
  Forall (fun m => good_name m = true) q -> good_name n = true ->
  absolute root (relative (q ++ [n])) = join (absolute root (relative q)) n.
Proof.
  intros Hq Hn. unfold absolute.
  rewrite bool_decide_eq_false_2 by (apply relative_nonempty; [by apply Forall_app_2; [|apply Forall_singleton]|by destruct q]).
  destruct (decide (q = [])) as [->|Hne]; [done|].
  rewrite bool_decide_eq_false_2 by (by apply relative_nonempty). by rewrite relative_app, join_assoc.
Qed.

(** ** The calls to the operating system *)

Inductive d_type := DT_DIR | DT_REG | DT_OTHER.

#[export] Instance d_type_eq_dec : EqDecision d_type.
Proof. solve_decision. Defined.

Record dirent := mkDirent { d_name : string; d_kind : d_type }.

Class FileSystem (F : Type) := {
  opendir : string -> F -> Z + list dirent;   (* what [readdir] returns until the end *)
  closedir : string -> F -> Z;
  unlink : string -> F -> Z * F;
  rmdir : string -> F -> Z * F;
  mkdir : string -> Z -> F -> Z * F;
  stat : string -> F -> Z + Z;                (* [st_mode] *)
  access : string -> F -> bool;
  open_in : string -> F -> bool;              (* [ifstream::is_open] *)
  rdbuf : string -> F -> string;              (* what there is to read *)
  open_out : string -> F -> bool * F;         (* [ofstream], which creates or truncates *)
  put : string -> string -> F -> bool * F;    (* [<<] and the destructor; [bad()] *)
}.

(** ** What the calls do

    [lookup_path] is the tree of the file system: what is at the end of a list
    of names from the root.  [resolve] is the list of names of a path. *)

Inductive inode := NFile (content : string) | NDir | NOther.

#[export] Instance inode_eq_dec : EqDecision inode.
Proof. solve_decision. Defined.

Definition kind_of (x : inode) : d_type :=
  match x with NFile _ => DT_REG | NDir => DT_DIR | NOther => DT_OTHER end.

(** What [readdir] returns in a directory whose children are [children]. *)
Record listing (children : string -> option inode) (es : list dirent) : Prop := {
  listing_sound e : e ∈ es ->
    (d_kind e = DT_DIR /\ (d_name e = "."%string \/ d_name e = ".."%string)) \/
    (good_name (d_name e) = true /\ kind_of <$> children (d_name e) = Some (d_kind e));
  listing_complete n x : good_name n = true -> children n = Some x -> mkDirent n (kind_of x) ∈ es;
  listing_once : NoDup (d_name <$> es);
}.

(** The tree [m'] is [m] with [v] at [x]. *)
Definition set_at (m m' : list string -> option inode) (x : list string) (v : option inode) : Prop :=
  forall y, m' y = if decide (y = x) then v else m y.

Class FileSystemLaws (F : Type) `{FileSystem F} := {
  resolve : string -> option (list string);
  lookup_path : F -> list string -> option inode;
  resolve_join p x n : resolve p = Some x -> good_name n = true -> resolve (join p n) = Some (x ++ [n]);
  opendir_ok p x fs : resolve p = Some x -> lookup_path fs x = Some NDir ->
    exists es, opendir p fs = inr es /\ listing (fun n => lookup_path fs (x ++ [n])) es;
  closedir_ok p fs : closedir p fs = 0;
  unlink_ok p x c fs : resolve p = Some x -> lookup_path fs x = Some (NFile c) ->
    (unlink p fs).1 = 0 /\ set_at (lookup_path fs) (lookup_path (unlink p fs).2) x None;
  rmdir_ok p x fs : resolve p = Some x -> lookup_path fs x = Some NDir ->
    (forall n, lookup_path fs (x ++ [n]) = None) ->
    (rmdir p fs).1 = 0 /\ set_at (lookup_path fs) (lookup_path (rmdir p fs).2) x None;
  mkdir_ok p d n mode fs : resolve p = Some (d ++ [n]) -> lookup_path fs d = Some NDir ->
    lookup_path fs (d ++ [n]) = None ->
    (mkdir p mode fs).1 = 0 /\ set_at (lookup_path fs) (lookup_path (mkdir p mode fs).2) (d ++ [n]) (Some NDir);
  stat_ok p x fs : resolve p = Some x -> is_Some (lookup_path fs x) -> exists mode, stat p fs = inr mode;
  open_in_ok p x c fs : resolve p = Some x -> lookup_path fs x = Some (NFile c) ->
    open_in p fs = true /\ rdbuf p fs = c;
  open_out_ok p d n fs : resolve p = Some (d ++ [n]) -> lookup_path fs d = Some NDir ->
    lookup_path fs (d ++ [n]) = None ->
    (open_out p fs).1 = true /\ set_at (lookup_path fs) (lookup_path (open_out p fs).2) (d ++ [n]) (Some (NFile ""));
  put_ok p x s fs : resolve p = Some x -> lookup_path fs x = Some (NFile "") ->
    (put p s fs).1 = false /\ set_at (lookup_path fs) (lookup_path (put p s fs).2) x (Some (NFile s));
}.

(** What is below [x], by relative path. *)
Definition below {F} `{FileSystemLaws F} (fs : F) (x : list string) (q : list string) : option inode := lookup_path fs (x ++ q).

(** Everything is in a directory. *)
Definition is_tree (m : list string -> option inode) : Prop :=
  forall x n, is_Some (m (x ++ [n])) -> m x = Some NDir /\ good_name n = true.

(** Nothing is [n] levels below [x]. *)
Definition depth_below (m : list string -> option inode) (x : list string) (n : nat) : Prop :=
  forall q, is_Some (m (x ++ q)) -> (length q < n)%nat.

Module FileUtil.
Section ops.
Context {F : Type} `{FS : FileSystem F}.

Definition RemoveFile (file_path : string) (fs : F) : Z * F := unlink file_path fs.

Definition RemoveDir (dir_path : string) (fs : F) : Z * F := rmdir dir_path fs.

Definition CopyFile (src_file_path dst_file_path : string) (fs : F) : Z * F :=
  let src_open := open_in src_file_path fs in
  let '(dst_open, fs) := open_out dst_file_path fs in
  let '(bad, fs) :=
    if src_open && dst_open then put dst_file_path (rdbuf src_file_path fs) fs else (false, fs) in
  (if bad then -1 else 0, fs).

Definition CopyDir (src_dir_path dst_dir_path : string) (fs : F) : Z * F :=
  match stat src_dir_path fs with
  | inl errno => (errno, fs)
  | inr st_mode => mkdir dst_dir_path st_mode fs
  end.

Definition AccessDir (dir_path : string) (fs : F) : bool := access dir_path fs.

Definition CreateDir (dir_path : string) (fs : F) : bool * F :=
  if negb (AccessDir dir_path fs) then
    let '(errno, fs) := mkdir dir_path 509 fs in (errno =? 0, fs)      (* 0775 *)
  else (true, fs).

(** The directory and the file name of a path. *)
Fixpoint find_last_of (c : ascii) (s : string) : option nat :=
  match s with
  | EmptyString => None
  | String a s =>
      match find_last_of c s with
      | Some i => Some (S i)
      | None => if Ascii.eqb a c then Some 0%nat else None
      end
  end.

(** [substr(0, pos - 1)]: the count is a [size_t], so -1 is the whole string. *)
Definition ExtractFilePath (file_path : string) : string * string :=
  match find_last_of "/" file_path with
  | None => (""%string, file_path)
  | Some pos =>
      (if (pos =? 0)%nat then file_path else String.substring 0 (pos - 1) file_path,
       String.substring (S pos) (String.length file_path) file_path)
  end.

(** ** [DoTravelDir] *)

(** The vectors the caller passes (or [nullptr]) and the file system. *)
Record travel := mkTravel { file_paths : option (list string); sub_dir_paths : option (list string); fs_of : F }.

(** A callback takes the roots and the relative path, as in the code; the
    walk ignores what it returns. *)
Definition callback : Type := string -> string -> string -> F -> Z * F.

Section walk.
Context (root_src root_dst : string) (recursive : bool).
Context (file_before file_after sub_dir_before sub_dir_after : option callback).

Definition call (cb : option callback) (rel : string) (t : travel) : travel :=
  match cb with
  | Some cb => mkTravel (file_paths t) (sub_dir_paths t) (cb root_src rel root_dst (fs_of t)).2
  | None => t
  end.

Definition push_file (rel : string) (t : travel) : travel :=
  mkTravel ((fun l => l ++ [rel]) <$> file_paths t) (sub_dir_paths t) (fs_of t).

Definition push_dir (rel : string) (t : travel) : travel :=
  mkTravel (file_paths t) ((fun l => l ++ [rel]) <$> sub_dir_paths t) (fs_of t).

Definition enter (rel : string) (t : travel) : travel := push_dir rel (call sub_dir_before rel t).

Definition visit (rel : string) (t : travel) : travel :=
  call file_after rel (push_file rel (call file_before rel t)).

(** The loop over the entries; [rec] is the recursive call. *)
Fixpoint travel_entries (rec : string -> travel -> option (Z * travel)) (rel : string) (es : list dirent)
    (t : travel) : option (Z * travel) :=
  match es with
  | [] => Some (0, t)
  | e :: es =>
      match d_kind e with
      | DT_DIR =>
          if bool_decide (d_name e = "."%string) || bool_decide (d_name e = ".."%string) then
            travel_entries rec rel es t else
          let sub := sub_path rel (d_name e) in
          r ← (if recursive then rec sub (enter sub t) else Some (0, enter sub t));
          let t := call sub_dir_after sub r.2 in
          if negb (r.1 =? 0) then Some (r.1, t) else travel_entries rec rel es t
      | DT_REG => travel_entries rec rel es (visit (sub_path rel (d_name e)) t)
      | DT_OTHER => travel_entries rec rel es t
      end
  end.

(** [None]: the directories are nested deeper than [fuel]. *)
Fixpoint DoTravelDir (fuel : nat) (rel : string) (t : travel) : option (Z * travel) :=
  match fuel with
  | O => None
  | S fuel =>
      let dir := absolute root_src rel in
      match opendir dir (fs_of t) with
      | inl errno => Some (errno, t)
      | inr es =>
          r ← travel_entries (DoTravelDir fuel) rel es t;
          if negb (r.1 =? 0) then Some r else Some (closedir dir (fs_of r.2), r.2)
      end
  end.
End walk.

Definition RecursiveListDir (fuel : nat) (dir_path : string) (want_files want_dirs recursive : bool) (fs : F)
    : option (Z * travel) :=
  DoTravelDir dir_path "" recursive None None None None fuel ""
    (mkTravel (if want_files then Some [] else None) (if want_dirs then Some [] else None) fs).

Definition remove_file_callback : callback := fun root rel _ => RemoveFile (join root rel).
Definition remove_dir_callback : callback := fun root rel _ => RemoveDir (join root rel).

Definition RecursiveRemoveDir (fuel : nat) (dir_path : string) (recursive remove_root : bool) (fs : F)
    : option (Z * F) :=
  r ← DoTravelDir dir_path "" recursive (Some remove_file_callback) None None (Some remove_dir_callback)
        fuel "" (mkTravel None None fs);
  if negb (r.1 =? 0) then Some (r.1, fs_of r.2) else
  Some (if remove_root then RemoveDir dir_path (fs_of r.2) else (0, fs_of r.2)).

Definition copy_file_callback : callback := fun root rel dst => CopyFile (join root rel) (join dst rel).
Definition copy_dir_callback : callback := fun root rel dst => CopyDir (join root rel) (join dst rel).

Definition RecursiveCopyDir (fuel : nat) (src_dir_path dst_dir_path : string) (recursive copy_root : bool) (fs : F)
    : option (Z * F) :=
  let '(ret, fs) := if copy_root then CopyDir src_dir_path dst_dir_path fs else (0, fs) in
  if negb (ret =? 0) then Some (ret, fs) else
  r ← DoTravelDir src_dir_path dst_dir_path recursive None (Some copy_file_callback) (Some copy_dir_callback) None
        fuel "" (mkTravel None None fs);
  Some (r.1, fs_of r.2).

(** *** Deprecated *)

(** [unlink] or [rmdir] of every path; the first [errno]. *)
Definition remove_all (rm : string -> F -> Z * F) (dir_path : string) (paths : list string) (ret : Z) (fs : F) : Z * F :=
  foldl (fun '(ret, fs) p => let '(errno, fs) := rm (join dir_path p) fs in
                             (if ret =? 0 then errno else ret, fs)) (ret, fs) paths.

Definition RemoveDir2 (fuel : nat) (dir_path : string) (recursive : bool) (fs : F) : option (Z * F) :=
  r ← (if recursive then
         l ← RecursiveListDir fuel dir_path true true recursive fs;
         if negb (l.1 =? 0) then Some (l.1, false, 0, fs_of l.2) else
         let '(sub_ret, fs) := remove_all unlink dir_path (default [] (file_paths l.2)) 0 (fs_of l.2) in
         let '(sub_ret, fs) := remove_all rmdir dir_path (rev (default [] (sub_dir_paths l.2))) sub_ret fs in
         Some (0, true, sub_ret, fs)
       else Some (-1, true, 0, fs));
  let '(ret, listed, sub_ret, fs) := r in
  if negb listed then Some (ret, fs) else
  let '(errno, fs) := rmdir dir_path fs in
  if negb (errno =? 0) then Some (errno, fs) else
  Some (if negb (ret =? 0) then ret else sub_ret, fs).
End ops.
#[global] Arguments callback : clear implicits.
#[global] Arguments travel : clear implicits.
End FileUtil.

Module Walk.
Import FileUtil.

(** ** The induction principle of the walk *)

Lemma tree_prefix m y r : is_tree m -> is_Some (m (y ++ r)) -> r <> [] -> m y = Some NDir.
Proof.
  intros Ht. induction r as [|n r IH] using rev_ind; [done|]. intros Hs _.
  rewrite app_assoc in Hs. apply Ht in Hs as [Hd _]. destruct r as [|a r]; [by rewrite app_nil_r in Hd|].
  apply IH; [by eexists|done].
Qed.

Lemma tree_child m y n r : is_tree m -> is_Some (m (y ++ n :: r)) -> is_Some (m (y ++ [n])) /\ good_name n = true.
Proof.
  intros Ht Hs. assert (Hn : is_Some (m (y ++ [n]))).
  { destruct r as [|a r]; [done|]. rewrite (tree_prefix m (y ++ [n]) (a :: r) Ht); [by eexists| |done].
    by rewrite <-app_assoc. }
  split; [done|]. by apply Ht in Hn as [_ ?].
Qed.

Lemma tree_file_end m y n r x : is_tree m -> m (y ++ [n]) = Some x -> x <> NDir -> is_Some (m (y ++ n :: r)) -> r = [].
Proof.
  intros Ht Hx Hd Hs. destruct r as [|a r]; [done|]. exfalso.
  assert (Hp : m (y ++ [n]) = Some NDir); [|congruence].
  apply (tree_prefix m (y ++ [n]) (a :: r) Ht); [by rewrite <-app_assoc|done].
Qed.

Abbreviation good q := (Forall (fun n => good_name n = true) q).

Lemma good_snoc q n : good q -> good_name n = true -> good (q ++ [n]).
Proof. intros Hq Hn. apply Forall_app_2; [done|]. by constructor. Qed.

Section handled.
(** The entries below the root, by their relative path. *)
Context (S : list string -> option inode).

(** [D] is [D0] with everything in the children [ns] of [q]. *)
Definition handled (D0 : gset (list string)) (q ns : list string) (D : gset (list string)) : Prop :=
  forall z, z ∈ D <-> z ∈ D0 \/ exists n r, n ∈ ns /\ z = q ++ n :: r /\ is_Some (S z).

Lemma handled_fresh D0 q ns D n r :
  handled D0 q ns D -> (forall r, q ++ r ∉ D0) -> n ∉ ns -> (q ++ [n]) ++ r ∉ D.
Proof.
  intros HD H0 Hn. rewrite <-app_assoc. intros [Hz|(n' & r' & Hn' & E & _)]%HD; [by apply H0 in Hz|].
  apply app_inj_1 in E as [_ E]; [|done]. simpl in E. congruence.
Qed.

(** A child without anything below it. *)
Lemma handled_leaf D0 q ns D n :
  handled D0 q ns D -> is_Some (S (q ++ [n])) -> (forall r, is_Some (S (q ++ n :: r)) -> r = []) ->
  handled D0 q (n :: ns) ({[q ++ [n]]} ∪ D).
Proof.
  intros HD Hs Hr z. rewrite elem_of_union, elem_of_singleton, (HD z). setoid_rewrite elem_of_cons. split.
  - intros [->|[?|?]]; naive_solver.
  - intros [?|(m & r & [->|Hm] & -> & Hz)]; [by right; left| |right; right; eauto].
    left. f_equal. by rewrite (Hr r Hz).
Qed.

(** A child that is no entry, [.] or [..]. *)
Lemma handled_absent D0 q ns D n :
  handled D0 q ns D -> (forall r, S (q ++ n :: r) = None) -> handled D0 q (n :: ns) D.
Proof.
  intros HD Hr z. rewrite (HD z). setoid_rewrite elem_of_cons. split; [naive_solver|].
  intros [?|(m & r & [->|Hm] & -> & Hz)]; [by left| |eauto 10]. rewrite Hr in Hz. by destruct Hz.
Qed.

(** A directory after everything below it. *)
Lemma handled_dir D0 q ns D n D' :
  handled D0 q ns D -> is_Some (S (q ++ [n])) ->
  (forall z, z ∈ D' <-> z ∈ D \/ exists r, r <> [] /\ z = (q ++ [n]) ++ r /\ is_Some (S z)) ->
  handled D0 q (n :: ns) ({[q ++ [n]]} ∪ D').
Proof.
  intros HD Hs HD' z. rewrite elem_of_union, elem_of_singleton, (HD' z), (HD z). setoid_rewrite elem_of_cons. split.
  - intros [->|[[?|?]|(r & _ & -> & Hz)]]; [|naive_solver..|].
    + right. exists n, []. auto.
    + right. exists n, r. split; [auto|]. by rewrite <-app_assoc in *.
  - intros [?|(m & r & [->|Hm] & -> & Hz)]; [naive_solver| |right; left; right; eauto].
    destruct r as [|a r]; [by left|]. right; right. exists (a :: r). by rewrite <-app_assoc.
Qed.

End handled.

Section rule.
Context {F : Type} `{L : FileSystemLaws F}.
Context (root root_dst : string) (x : list string).
Context (file_before file_after sub_dir_before sub_dir_after : option (callback F)).
(** The entries below the root, by their relative path, when the walk starts. *)
Context (S : list string -> option inode).
(** The invariant: in directory [q], the entries [D] handled so far. *)
Context (I : list string -> gset (list string) -> travel F -> Prop).

Abbreviation visit := (visit root root_dst file_before file_after).
Abbreviation enter := (enter root root_dst sub_dir_before).
Abbreviation leave := (call root root_dst sub_dir_after).
Abbreviation walk_entries := (travel_entries root root_dst true file_before file_after sub_dir_before sub_dir_after).
Abbreviation walk := (DoTravelDir root root_dst true file_before file_after sub_dir_before sub_dir_after).

Context (Hroot : resolve root = Some x) (HS : is_tree S).
Context (I_view : forall q D t, I q D t -> S q = Some NDir -> (forall r, q ++ r ∉ D) ->
  lookup_path (fs_of t) (x ++ q) = Some NDir /\ forall n, lookup_path (fs_of t) (x ++ q ++ [n]) = S (q ++ [n])).
Context (I_file : forall q D t n c, good (q ++ [n]) -> I q D t -> S (q ++ [n]) = Some (NFile c) -> q ++ [n] ∉ D ->
  I q ({[q ++ [n]]} ∪ D) (visit (relative (q ++ [n])) t)).
Context (I_other : forall q D t n, I q D t -> S (q ++ [n]) = Some NOther -> q ++ [n] ∉ D -> I q ({[q ++ [n]]} ∪ D) t).
Context (I_enter : forall q D t n, good (q ++ [n]) -> I q D t -> S (q ++ [n]) = Some NDir -> (forall r, (q ++ [n]) ++ r ∉ D) ->
  I (q ++ [n]) D (enter (relative (q ++ [n])) t)).
Context (I_leave : forall q D t n, good (q ++ [n]) -> I (q ++ [n]) D t -> S (q ++ [n]) = Some NDir -> q ++ [n] ∉ D ->
  (forall m, is_Some (S ((q ++ [n]) ++ [m])) -> (q ++ [n]) ++ [m] ∈ D) ->
  I q ({[q ++ [n]]} ∪ D) (leave (relative (q ++ [n])) t)).

(** What the recursive calls promise. *)
Definition walk_ok (w : string -> travel F -> option (Z * travel F)) (q : list string) : Prop :=
  forall D t, S q = Some NDir -> I q D t -> (forall r, q ++ r ∉ D) ->
  exists D' t', w (relative q) t = Some (0, t') /\ I q D' t' /\
    forall z, z ∈ D' <-> z ∈ D \/ exists r, r <> [] /\ z = q ++ r /\ is_Some (S z).

Lemma entries_rule w q D0 es ns D t :
  good q -> (forall r, q ++ r ∉ D0) ->
  (forall e, e ∈ es -> (d_kind e = DT_DIR /\ (d_name e = "."%string \/ d_name e = ".."%string)) \/
     (good_name (d_name e) = true /\ kind_of <$> S (q ++ [d_name e]) = Some (d_kind e))) ->
  (forall e, e ∈ es -> S (q ++ [d_name e]) = Some NDir -> walk_ok w (q ++ [d_name e])) ->
  NoDup (d_name <$> es) -> (forall e, e ∈ es -> d_name e ∉ ns) ->
  I q D t -> handled S D0 q ns D ->
  exists D' t', walk_entries w (relative q) es t = Some (0, t') /\ I q D' t' /\
                handled S D0 q (reverse (d_name <$> es) ++ ns) D'.
Proof using HS I_file I_other I_enter I_leave.
  intros Hq H0. revert ns D t. induction es as [|e es IH]; intros ns D t Hes Hw Hnd Hns HI HD.
  { exists D, t. auto. }
  assert (Hstep : forall D1 t1, I q D1 t1 -> handled S D0 q (d_name e :: ns) D1 ->
    exists D' t', walk_entries w (relative q) es t1 = Some (0, t') /\ I q D' t' /\
                  handled S D0 q (reverse (d_name <$> e :: es) ++ ns) D').
  { intros D1 t1 HI1 HD1. rewrite fmap_cons, reverse_cons, <-app_assoc. apply NoDup_cons in Hnd as [Hn1 Hnd].
    apply IH with D1; [intros e' He'; apply Hes; by right|intros e' He'; apply Hw; by right|done| |done|done].
    intros e' He'. apply not_elem_of_cons. split; [|by apply Hns; right].
    intros E. apply Hn1. rewrite <-E. by apply list_elem_of_fmap_2. }
  assert (Hfresh := fun r => handled_fresh S D0 q ns D (d_name e) r HD H0 (Hns e ltac:(by left))).
  assert (Hf0 : q ++ [d_name e] ∉ D) by (specialize (Hfresh []); by rewrite app_nil_r in Hfresh).
  cbn [travel_entries]. destruct (Hes e ltac:(by left)) as [[-> Hdot]|[Hg Hk]].
  - replace (bool_decide (d_name e = ".") || bool_decide (d_name e = "..")) with true
      by (symmetry; apply orb_true_iff; rewrite !bool_decide_eq_true; done).
    apply Hstep with D; [done|]. apply handled_absent; [done|]. intros r. apply eq_None_not_Some. intros Hs.
    apply tree_child in Hs as [_ Hs]; [|done]. by destruct Hdot as [E|E]; rewrite E in Hs.
  - assert (Hgn : good (q ++ [d_name e])) by by apply good_snoc.
    rewrite !sub_path_relative by done.
    destruct (S (q ++ [d_name e])) as [y|] eqn:ES; [|done]. simpl in Hk. injection Hk as <-.
    destruct y as [c| |]; cbn [kind_of].
    + apply Hstep with ({[q ++ [d_name e]]} ∪ D); [by eapply I_file|]. apply handled_leaf; [done|by rewrite ES|].
      intros r Hr. exact (tree_file_end S q (d_name e) r (NFile c) HS ES ltac:(done) Hr).
    + replace (bool_decide (d_name e = ".") || bool_decide (d_name e = "..")) with false.
      2:{ symmetry. apply orb_false_iff. split; apply bool_decide_eq_false; intros E; by rewrite E in Hg. }
      destruct (Hw e ltac:(by left) ES D (enter (relative (q ++ [d_name e])) t)) as (D1 & t1 & -> & HI1 & HD1); [done|by apply I_enter|done|].
      cbn [mbind option_bind fst snd Z.eqb negb].
      apply Hstep with ({[q ++ [d_name e]]} ∪ D1); [|by eapply handled_dir; [| |exact HD1]; [|rewrite ES]].
      apply I_leave; [done..| |].
      * intros [?|(r & Hr & E & _)]%HD1; [done|]. rewrite <-(app_nil_r (q ++ [_])) in E at 1. by apply app_inv_head in E.
      * intros m Hm. apply HD1. right. exists [m]. done.
    + apply Hstep with ({[q ++ [d_name e]]} ∪ D); [by apply I_other|]. apply handled_leaf; [done|by rewrite ES|].
      intros r Hr. exact (tree_file_end S q (d_name e) r NOther HS ES ltac:(done) Hr).
Qed.

Lemma resolve_absolute q : good q -> resolve (absolute root (relative q)) = Some (x ++ q).
Proof using Hroot.
  induction q as [|n q IH] using rev_ind; intros Hq; [rewrite app_nil_r; exact Hroot|].
  apply Forall_app in Hq as [Hq Hn]. apply Forall_cons in Hn as [Hn _].
  rewrite absolute_relative, app_assoc by done. apply resolve_join; [auto|done].
Qed.

(** The walk succeeds and handles every entry below [q], when the fuel is
    more than the depth. *)
Lemma walk_rule fuel q : good q -> depth_below S q fuel -> walk_ok (walk fuel) q.
Proof using Hroot HS I_view I_file I_other I_enter I_leave.
  revert q. induction fuel as [|fuel IH]; intros q Hq Hdepth D t Hd HI Hfresh.
  { specialize (Hdepth []). rewrite app_nil_r, Hd in Hdepth. specialize (Hdepth ltac:(by eexists)). simpl in Hdepth. lia. }
  cbn [DoTravelDir]. destruct (I_view q D t HI Hd Hfresh) as [H1 H2].
  destruct (opendir_ok _ _ _ (resolve_absolute q Hq) H1) as (es & -> & [Hsound Hcomplete Honce]).
  destruct (entries_rule (walk fuel) q D es [] D t) as (D' & t' & -> & HI' & HD'); try done.
  - intros e He. destruct (Hsound e He) as [?|[? Hk]]; [by left|right]. split; [done|]. by rewrite <-H2, app_assoc.
  - intros e He HSe. apply IH.
    + apply good_snoc; [done|]. destruct (HS q (d_name e)) as [_ ?]; [by rewrite HSe|done].
    + intros r Hr. specialize (Hdepth (d_name e :: r)). rewrite <-app_assoc in Hr. apply Hdepth in Hr. simpl in Hr. lia.
  - intros e _. apply not_elem_of_nil.
  - intros z. split; [by left|]. intros [?|(n & r & Hn & _)]; [done|]. by apply elem_of_nil in Hn.
  - cbn [mbind option_bind fst snd Z.eqb negb]. rewrite closedir_ok. exists D', t'. split_and!; [done..|].
    rewrite app_nil_r in HD'. intros z. rewrite (HD' z). split; intros [?|Hz]; [by left|right|by left|right].
    + destruct Hz as (n & r & _ & -> & ?). by exists (n :: r).
    + destruct Hz as ([|n r] & Hr & -> & Hs); [done|]. exists n, r. split; [|done]. 
      apply tree_child in Hs as [[y Hy] Hg]; [|done]. rewrite <-H2, app_assoc in Hy.
      apply Hcomplete in Hy; [|done].
      apply (list_elem_of_fmap_2 d_name) in Hy. simpl in Hy.
      by apply elem_of_reverse.
Qed.
End rule.
End Walk.

(** ** Errors *)

Module FileErrors.
Import FileUtil.

Section errors.
Context {F : Type} `{FS : FileSystem F}.

(** An error of a directory stream: what a walk can return. *)
Definition stream_error (e : Z) : Prop :=
  e = 0 \/ (exists p fs, opendir p fs = inl e) \/ (exists p fs, closedir p fs = e).

Lemma entries_result root dst recursive fb fa db da w rel es (t : travel F) r :
  (forall rel t r, w rel t = Some r -> stream_error r.1) ->
  travel_entries root dst recursive fb fa db da w rel es t = Some r -> stream_error r.1.
Proof.
  intros Hw. revert t. induction es as [|e es IH]; intros t; cbn [travel_entries]; [intros [= <-]; by left|].
  destruct (d_kind e); [|exact (IH _)..]. case_match; [exact (IH _)|].
  destruct recursive; cbn [mbind option_bind fst snd Z.eqb negb]; [|exact (IH _)].
  destruct (w _ _) as [r1|] eqn:E; [|done]. cbn [mbind option_bind].
  case_match; [intros [= <-]; exact (Hw _ _ _ E)|exact (IH _)].
Qed.

(** A walk returns an error of [opendir] or [closedir] or 0, whatever its
    callbacks return. *)
Lemma walk_result root dst recursive fb fa db da fuel rel (t : travel F) r :
  DoTravelDir root dst recursive fb fa db da fuel rel t = Some r -> stream_error r.1.
Proof.
  revert rel t r. induction fuel as [|fuel IH]; intros rel t r; [done|]. cbn [DoTravelDir].
  destruct (opendir _ _) as [e|es] eqn:E; [intros [= <-]; right; left; eauto|].
  destruct (travel_entries _ _ _ _ _ _ _ _ _ _ _) as [r1|] eqn:Er; [|done]. cbn [mbind option_bind].
  apply entries_result in Er; [|done]. case_match; intros [= <-]; [done|]. right; right. eauto.
Qed.

(** [CopyFile] succeeds when a file does not open. *)
Lemma CopyFile_unopened (src dst : string) (fs : F) :
  open_in src fs = false \/ (open_out dst fs).1 = false -> (CopyFile src dst fs).1 = 0.
Proof.
  unfold CopyFile. destruct (open_out dst fs) as [o fs1]. simpl. intros H.
  replace (open_in src fs && o) with false; [done|]. destruct H as [->| ->]; [done|]. by rewrite andb_false_r.
Qed.

(** Without [recursive], [RemoveDir2] reports an error after removing the directory. *)
Lemma RemoveDir2_flat fuel dir (fs : F) :
  (rmdir dir fs).1 = 0 -> RemoveDir2 fuel dir false fs = Some (-1, (rmdir dir fs).2).
Proof. unfold RemoveDir2. simpl. destruct (rmdir dir fs) as [e fs']. simpl. by intros ->. Qed.
End errors.

Lemma find_last_of_none s : has_slash s = false -> find_last_of "/" s = None.
Proof. induction s as [|c s IH]; [done|]. simpl. intros [Hc Hs]%orb_false_iff. by rewrite IH, Hc. Qed.

Lemma find_last_of_slash a b : has_slash b = false -> find_last_of "/" (join a b) = Some (String.length a).
Proof.
  intros Hb. unfold join. change ("/" +:+ b)%string with (String "/" b). induction a as [|c a IH].
  - simpl. by rewrite find_last_of_none.
  - change (String c a +:+ String "/" b) with (String c (a +:+ String "/" b)). cbn [find_last_of]. by rewrite IH.
Qed.

Lemma slength_app a b : String.length (a +:+ b) = (String.length a + String.length b)%nat.
Proof. induction a as [|c a IH]; [done|]. exact (f_equal S IH). Qed.

Lemma substring_app_l a b n : (n <= String.length a)%nat -> String.substring 0 n (a +:+ b) = String.substring 0 n a.
Proof.
  revert n. induction a as [|c a IH]; intros n Hn; simpl in Hn.
  - assert (n = 0%nat) as -> by lia. by destruct b.
  - destruct n as [|n]; [done|]. change (String c a +:+ b) with (String c (a +:+ b)). simpl. f_equal. apply IH. lia.
Qed.

Lemma substring_app_r a b n : String.substring (String.length a) n (a +:+ b) = String.substring 0 n b.
Proof. induction a as [|c a IH]; [done|]. exact IH. Qed.

Lemma substring_all b n : (String.length b <= n)%nat -> String.substring 0 n b = b.
Proof. revert n. induction b as [|c b IH]; intros [|n] Hn; simpl in *; try done; [lia|]. f_equal. apply IH. lia. Qed.

(** The file name of a path is right; the directory loses its last character,
    and is the whole path when it should be empty. *)
Lemma ExtractFilePath_join a b :
  has_slash b = false ->
  ExtractFilePath (join a b) =
    (if (String.length a =? 0)%nat then join a b else String.substring 0 (String.length a - 1) a, b).
Proof.
  intros Hb. unfold ExtractFilePath. rewrite find_last_of_slash by done. f_equal.
  - destruct (Nat.eqb_spec (String.length a) 0); [done|]. unfold join. apply substring_app_l. lia.
  - unfold join. rewrite (app_assoc_s a "/" b).
    replace (S (String.length a)) with (String.length (a +:+ "/")).
    2:{ rewrite slength_app. simpl. lia. }
    rewrite substring_app_r. apply substring_all. rewrite !slength_app. lia.
Qed.

Example ExtractFilePath_example : ExtractFilePath "/data/store/0" = ("/data/stor", "0")%string.
Proof. reflexivity. Qed.
End FileErrors.
