(* ===== verification/FileTree.v ===== *)
(** * What listing, removing and copying a directory do

    The three functions of src/phxqueue/comm/utils/file_util.cpp that walk a
    directory, on a file system where no call fails: [RecursiveListDir] has
    every entry once, [RecursiveRemoveDir] removes everything below the
    directory and [RecursiveCopyDir] makes an equal tree. *)

From S2P Require Import Prelude FileUtil.

(** ** Names of entries *)

(** What follows a name in a relative path. *)
Definition path_tail (s : string) : Prop := match s with EmptyString => True | String c _ => c = "/"%char end.

Lemma name_end a b s s' :
  has_slash a = false -> has_slash b = false -> path_tail s -> path_tail s' -> a +:+ s = b +:+ s' -> a = b /\ s = s'.
Proof.
  revert b. induction a as [|c a IH]; intros [|d b] Ha Hb Hs Hs' E; simpl in *.
  - done.
  - change (s = String d (b +:+ s')) in E. subst s. simpl in Hs. by subst d.
  - change (String c (a +:+ s) = s') in E. subst s'. simpl in Hs'. by subst c.
  - change (String c (a +:+ s) = String d (b +:+ s')) in E. injection E as <- E. apply orb_false_iff in Ha as [_ Ha], Hb as [_ Hb].
    destruct (IH b Ha Hb Hs Hs' E) as [-> ->]. done.
Qed.

Lemma good_no_slash n : good_name n = true -> has_slash n = false.
Proof. unfold good_name. intros H. by simpl_bool. Qed.

Lemma relative_cons n q : exists s, relative (n :: q) = n +:+ s /\ path_tail s /\ s = match q with [] => ""%string | _ => "/" +:+ relative q end.
Proof.
  destruct q as [|m q]; [|by eexists]. exists ""%string. split_and!; [|done..]. unfold relative. simpl.
  induction n as [|c n IH]; [done|]. exact (f_equal (String c) IH).
Qed.

(** Different entries have different relative paths. *)
Lemma relative_inj q q' :
  Forall (fun n => good_name n = true) q -> Forall (fun n => good_name n = true) q' -> relative q = relative q' -> q = q'.
Proof.
  intros Hq. revert q'. induction Hq as [|n q Hn Hq IH]; intros q' Hq' E.
  { destruct q' as [|m q']; [done|]. by destruct (relative_nonempty _ Hq' ltac:(done)). }
  destruct Hq' as [|m q' Hm Hq']; [by destruct (relative_nonempty (n :: q) ltac:(by constructor) ltac:(done))|].
  destruct (relative_cons n q) as (s & E1 & H1 & Es), (relative_cons m q') as (s' & E2 & H2 & Es').
  rewrite E1, E2 in E. apply name_end in E as [-> E]; [|by apply good_no_slash..|done|done]. f_equal.
  rewrite Es, Es' in E. destruct q as [|a q], q' as [|b q']; try done.
  apply IH; [done|]. by injection E.
Qed.

Lemma is_tree_at {F} `{FileSystemLaws F} (fs : F) x : is_tree (lookup_path fs) -> is_tree (below fs x).
Proof. intros Hm q n. unfold below. rewrite app_assoc. apply Hm. Qed.

Lemma below_root {F} `{FileSystemLaws F} (fs : F) x : below fs x [] = lookup_path fs x.
Proof. unfold below. by rewrite app_nil_r. Qed.

Lemma tree_good m q : is_tree m -> is_Some (m q) -> Walk.good q.
Proof.
  intros Hm. induction q as [|n q IH] using rev_ind; intros Hs; [done|].
  destruct (Hm _ _ Hs) as [Hd Hn]. apply Walk.good_snoc; [|done]. apply IH. by rewrite Hd.
Qed.

(** ** Listing *)

Module Listing.
Import FileUtil Walk.

Section listing.
Context {F : Type} `{L : FileSystemLaws F}.
Context (dir : string) (x : list string) (want_files want_dirs : bool) (fs : F).
Context (Hdir : resolve dir = Some x) (Htree : is_tree (lookup_path fs)).

Abbreviation S := (below fs x).

Definition is_file (z : list string) : Prop := exists c, S z = Some (NFile c).

(** [l] has the relative path of every element of [P] once. *)
Definition names_of (P : list string -> Prop) (l : list string) : Prop :=
  NoDup l /\ forall s, s ∈ l <-> exists z, P z /\ s = relative z.

Definition listing_inv (q : list string) (D : gset (list string)) (t : travel F) : Prop :=
  exists lf ld, t = mkTravel (if want_files then Some lf else None) (if want_dirs then Some ld else None) fs /\
    names_of (fun z => z ∈ D /\ is_file z) lf /\
    names_of (fun z => (z ∈ D \/ z `prefix_of` q) /\ z <> [] /\ S z = Some NDir) ld.

Lemma names_of_ext P Q l : (forall z, P z <-> Q z) -> names_of P l -> names_of Q l.
Proof.
  intros HPQ [Hn Hl]. split; [done|]. intros s. rewrite Hl. by setoid_rewrite HPQ.
Qed.

Lemma names_of_snoc P l z0 :
  (forall z, P z -> is_Some (S z)) -> is_Some (S z0) -> ~ P z0 -> names_of P l ->
  names_of (fun z => z = z0 \/ P z) (l ++ [relative z0]).
Proof using Htree.
  intros HP H0 Hn [Hnd Hl]. assert (HS : is_tree S) by (by apply is_tree_at). split.
  - apply NoDup_app. split_and!; [done| |apply NoDup_singleton]. intros s (z & Hz & ->)%Hl Es%list_elem_of_singleton.
    apply Hn. replace z0 with z; [done|]. by apply relative_inj; [eapply tree_good; eauto..|].
  - intros s. rewrite elem_of_app, list_elem_of_singleton, Hl. naive_solver.
Qed.

Lemma listing_file q D t n c :
  listing_inv q D t -> S (q ++ [n]) = Some (NFile c) -> q ++ [n] ∉ D ->
  listing_inv q ({[q ++ [n]]} ∪ D) (visit dir "" None None (relative (q ++ [n])) t).
Proof using Htree.
  intros (lf & ld & -> & Hf & Hd) HS Hn. exists (lf ++ [relative (q ++ [n])]), ld.
  split_and!; [by destruct want_files| |].
  - apply (names_of_snoc _ _ (q ++ [n])) in Hf; [|intros z [_ [? ->]]; by eexists|by rewrite HS|by intros [? _]].
    revert Hf. apply names_of_ext. intros z. rewrite elem_of_union, elem_of_singleton. unfold is_file. naive_solver.
  - revert Hd. apply names_of_ext. intros z. rewrite elem_of_union, elem_of_singleton. naive_solver.
Qed.

Lemma listing_other q D t n :
  listing_inv q D t -> S (q ++ [n]) = Some NOther -> q ++ [n] ∉ D -> listing_inv q ({[q ++ [n]]} ∪ D) t.
Proof.
  intros (lf & ld & -> & Hf & Hd) HS Hn. exists lf, ld. split_and!; [done| |].
  - revert Hf. apply names_of_ext. intros z. rewrite elem_of_union, elem_of_singleton. unfold is_file. naive_solver.
  - revert Hd. apply names_of_ext. intros z. rewrite elem_of_union, elem_of_singleton. naive_solver.
Qed.

Lemma prefix_snoc_l (z q : list string) n : z `prefix_of` q ++ [n] <-> z = q ++ [n] \/ z `prefix_of` q.
Proof.
  split.
  - intros [r E]. destruct r as [|m r _] using rev_ind; [left; by rewrite app_nil_r in E|right].
    rewrite app_assoc in E. apply app_inj_tail in E as [-> _]. by exists r.
  - intros [->|Hz]; [done|]. by apply prefix_app_r.
Qed.

Lemma snoc_not_prefix (q : list string) n : ~ (q ++ [n]) `prefix_of` q.
Proof. intros Hp%prefix_length. rewrite length_app in Hp. simpl in Hp. lia. Qed.

Lemma listing_enter q D t n :
  listing_inv q D t -> S (q ++ [n]) = Some NDir -> q ++ [n] ∉ D ->
  listing_inv (q ++ [n]) D (enter dir "" None (relative (q ++ [n])) t).
Proof using Htree.
  intros (lf & ld & -> & Hf & Hd) HS Hn. exists lf, (ld ++ [relative (q ++ [n])]).
  split_and!; [by destruct want_dirs|done|].
  apply (names_of_snoc _ _ (q ++ [n])) in Hd; [|intros z (_ & _ & ->); by eexists|by rewrite HS|].
  - revert Hd. apply names_of_ext. intros z. rewrite prefix_snoc_l. split; [|naive_solver].
    intros [->|?]; [|naive_solver]. split_and!; [by right; left|by destruct q|done].
  - intros ([?|Hp%snoc_not_prefix] & _ & _); done.
Qed.

Lemma listing_leave q D t n :
  listing_inv (q ++ [n]) D t -> S (q ++ [n]) = Some NDir -> listing_inv q ({[q ++ [n]]} ∪ D) t.
Proof.
  intros (lf & ld & -> & Hf & Hd) HS. exists lf, ld. split_and!; [done| |].
  - revert Hf. apply names_of_ext. intros z. rewrite elem_of_union, elem_of_singleton. unfold is_file. naive_solver.
  - revert Hd. apply names_of_ext. intros z. rewrite elem_of_union, elem_of_singleton, prefix_snoc_l. naive_solver.
Qed.

(** The lists have each file and each directory below [dir] once. *)
Lemma RecursiveListDir_lists fuel :
  lookup_path fs x = Some NDir -> depth_below (lookup_path fs) x fuel ->
  exists lf ld, RecursiveListDir fuel dir want_files want_dirs true fs =
      Some (0, mkTravel (if want_files then Some lf else None) (if want_dirs then Some ld else None) fs) /\
    names_of is_file lf /\ names_of (fun z => z <> [] /\ S z = Some NDir) ld.
Proof using Hdir Htree.
  intros Hx Hdepth. assert (HS : is_tree S) by (by apply is_tree_at).
  assert (HSn : S [] = Some NDir) by (by rewrite below_root).
  destruct (walk_rule dir "" x None None None None S listing_inv Hdir HS) with (fuel := fuel) (q := @nil string)
    (D := (∅ : gset (list string)))
    (t := mkTravel (if want_files then Some [] else None) (if want_dirs then Some [] else None) fs)
    as (D' & t' & Hrun & (lf & ld & -> & Hf & Hd) & HD').
  - intros q D t (lf & ld & -> & _) Hq Hfresh. by split.
  - intros q D t n c _ HI HSf Hn. by eapply listing_file.
  - apply listing_other.
  - intros q D t n _ HI HSd Hn. apply listing_enter; [done..|]. specialize (Hn []). by rewrite app_nil_r in Hn.
  - intros q D t n _ HI HSd Hn Hm. by apply listing_leave.
  - done.
  - done.
  - done.
  - exists [], []. split_and!; [done| |]; (split; [constructor|]); intros s; rewrite elem_of_nil.
    + set_solver.
    + split; [done|]. intros (z & ([?|Hz%prefix_nil_inv] & ? & _) & _); [set_solver|done].
  - intros r. apply not_elem_of_empty.
  - exists lf, ld. split_and!; [exact Hrun| |].
    + revert Hf. apply names_of_ext. intros z. rewrite (HD' z). split; [naive_solver|]. intros Hz. split; [|done].
      right. exists z. destruct Hz as [c Hc]. split_and!; [|done|by rewrite Hc]. intros ->. congruence.
    + revert Hd. apply names_of_ext. intros z. rewrite (HD' z). split; [naive_solver|]. intros [Hz Hc].
      split_and!; [|done..]. left; right. exists z. by rewrite Hc.
Qed.
End listing.
End Listing.

Lemma join_absolute root q : Walk.good q -> q <> [] -> join root (relative q) = absolute root (relative q).
Proof. intros Hq Hn. unfold absolute. by rewrite bool_decide_eq_false_2 by (by apply relative_nonempty). Qed.

Lemma resolve_join_relative {F} `{FileSystemLaws F} root x q n :
  resolve root = Some x -> Walk.good (q ++ [n]) -> resolve (join root (relative (q ++ [n]))) = Some ((x ++ q) ++ [n]).
Proof.
  intros Hx Hq. rewrite join_absolute by (done || by destruct q). rewrite <-app_assoc. by apply Walk.resolve_absolute.
Qed.

(** ** Removing *)

Module Removing.
Import FileUtil Walk.

Section removing.
Context {F : Type} `{L : FileSystemLaws F}.
Context (dir : string) (x : list string) (fs : F).
Context (Hdir : resolve dir = Some x).

Abbreviation S := (below fs x).

(** The entries in [D] are gone, and nothing else is. *)
Definition removing_inv (D : gset (list string)) (t : travel F) : Prop :=
  (forall z, z ∈ D -> lookup_path (fs_of t) (x ++ z) = None) /\
  (forall y, (forall z, z ∈ D -> y <> x ++ z) -> lookup_path (fs_of t) y = lookup_path fs y).

Lemma removing_view D t q : removing_inv D t -> q ∉ D -> below (fs_of t) x q = S q.
Proof. intros [_ H2] Hq. apply H2. intros z Hz E. apply app_inv_head in E. by subst. Qed.

Lemma removing_step D t t' z :
  removing_inv D t -> set_at (lookup_path (fs_of t)) (lookup_path (fs_of t')) (x ++ z) None ->
  removing_inv ({[z]} ∪ D) t'.
Proof.
  intros [H1 H2] Hset. split.
  - intros w Hw. rewrite Hset. case_decide as Hd; [done|]. apply H1.
    apply elem_of_union in Hw as [->%elem_of_singleton|?]; done.
  - intros y Hy. rewrite Hset, decide_False by (apply Hy; set_solver). apply H2. intros w Hw. apply Hy. set_solver.
Qed.

Lemma remove_file_step q D t n c :
  good (q ++ [n]) -> removing_inv D t -> S (q ++ [n]) = Some (NFile c) -> q ++ [n] ∉ D ->
  removing_inv ({[q ++ [n]]} ∪ D) (visit dir "" (Some remove_file_callback) None (relative (q ++ [n])) t).
Proof using Hdir.
  intros Hq HI HS Hn. eapply removing_step; [exact HI|]. unfold visit, call, push_file, remove_file_callback, RemoveFile.
  cbn [fs_of snd]. rewrite app_assoc. refine (proj2 (unlink_ok _ _ c _ _ _)); [by apply resolve_join_relative|].
  rewrite <-app_assoc. rewrite <-HS. by apply removing_view with D.
Qed.

Lemma remove_dir_step q D t n :
  good (q ++ [n]) -> removing_inv D t -> S (q ++ [n]) = Some NDir -> q ++ [n] ∉ D ->
  (forall m, is_Some (S ((q ++ [n]) ++ [m])) -> (q ++ [n]) ++ [m] ∈ D) ->
  removing_inv ({[q ++ [n]]} ∪ D) (call dir "" (Some remove_dir_callback) (relative (q ++ [n])) t).
Proof using Hdir.
  intros Hq HI HS Hn Hm. eapply removing_step; [exact HI|]. unfold call, remove_dir_callback, RemoveDir.
  cbn [fs_of snd]. rewrite app_assoc. refine (proj2 (rmdir_ok _ _ _ _ _ _)); [by apply resolve_join_relative|..].
  - rewrite <-app_assoc, <-HS. by apply removing_view with D.
  - intros m. rewrite <-(app_assoc x q [n]), <-(app_assoc x (q ++ [n]) [m]).
    destruct (decide ((q ++ [n]) ++ [m] ∈ D)) as [Hd|Hd]; [by apply HI|].
    transitivity (S ((q ++ [n]) ++ [m])); [by apply removing_view with D|]. apply eq_None_not_Some. auto.
Qed.

Context (Htree : is_tree (lookup_path fs)) (Hplain : forall q, below fs x q <> Some NOther).

(** Everything below [dir] goes, then [dir] itself when asked, and nothing
    else changes. *)
Lemma RecursiveRemoveDir_removes fuel remove_root :
  lookup_path fs x = Some NDir -> depth_below (lookup_path fs) x fuel ->
  exists fs', RecursiveRemoveDir fuel dir true remove_root fs = Some (0, fs') /\
    (forall q, q <> [] -> below fs' x q = None) /\
    lookup_path fs' x = (if remove_root then None else Some NDir) /\
    (forall y, ~ x `prefix_of` y -> lookup_path fs' y = lookup_path fs y).
Proof using Hdir Htree Hplain.
  intros Hx Hdepth. assert (HS : is_tree S) by (by apply is_tree_at).
  destruct (walk_rule dir "" x (Some remove_file_callback) None None (Some remove_dir_callback) S
    (fun _ => removing_inv) Hdir HS) with (fuel := fuel) (q := @nil string)
    (D := (∅ : gset (list string))) (t := mkTravel None None fs) as (D' & t' & Hrun & HI & HD').
  - intros q D t HI Hq Hfresh. split.
    + rewrite <-Hq. apply (removing_view D); [done|]. specialize (Hfresh []). by rewrite app_nil_r in Hfresh.
    + intros n. by apply (removing_view D).
  - intros q D t n c. apply remove_file_step.
  - intros q D t n _ Ho. by apply Hplain in Ho.
  - done.
  - apply remove_dir_step.
  - done.
  - done.
  - by rewrite below_root.
  - split; [by intros z ?%not_elem_of_empty|done].
  - intros r. apply not_elem_of_empty.
  - assert (Hgone : forall q, q <> [] -> below (fs_of t') x q = None).
    { intros q Hq. destruct (S q) as [v|] eqn:E.
      - apply HI. apply HD'. right. exists q. by rewrite E.
      - rewrite <-E. apply (removing_view D'); [done|]. intros [?|(r & _ & -> & Hs)]%HD'; [set_solver|].
        by rewrite E in Hs; destruct Hs. }
    assert (Hroot : lookup_path (fs_of t') x = Some NDir).
    { rewrite <-Hx, <-below_root, <-(below_root fs). apply (removing_view D'); [done|].
      intros [?|(r & Hr & E & _)]%HD'; [set_solver|done]. }
    assert (Helse : forall y, ~ x `prefix_of` y -> lookup_path (fs_of t') y = lookup_path fs y).
    { intros y Hy. apply HI. intros z _ ->. apply Hy. by apply prefix_app_r. }
    unfold RecursiveRemoveDir. change (relative []) with ""%string in Hrun. rewrite Hrun.
    cbn [mbind option_bind fst snd Z.eqb negb]. destruct remove_root; [|by exists (fs_of t')].
    unfold RemoveDir. destruct (rmdir_ok dir x (fs_of t') Hdir Hroot) as [H1 H2]; [intros n; by apply Hgone|].
    exists (rmdir dir (fs_of t')).2. split_and!.
    + rewrite <-H1. by destruct (rmdir _ _).
    + intros q Hq. unfold below. rewrite H2. case_decide; [done|]. by apply Hgone.
    + by rewrite H2, decide_True.
    + intros y Hy. rewrite H2, decide_False by (by intros ->). by apply Helse.
Qed.
End removing.
End Removing.

(** ** Copying *)

(** Entries that are neither files nor directories are left out. *)
Definition copied (v : option inode) : option inode := match v with Some NOther => None | _ => v end.

(** Neither directory is in the other. *)
Definition apart (x y : list string) : Prop := ~ x `prefix_of` y /\ ~ y `prefix_of` x.

Lemma apart_ne x y a b : apart x y -> x ++ a <> y ++ b.
Proof.
  intros [H1 H2] E. destruct (decide (length x <= length y)%nat).
  - apply H1. exists (drop (length x) y). rewrite <-(take_drop (length x) y) at 1. f_equal.
    apply (f_equal (take (length x))) in E. rewrite take_app_length, take_app_le in E by done. done.
  - apply H2. exists (drop (length y) x). rewrite <-(take_drop (length y) x) at 1. f_equal.
    apply (f_equal (take (length y))) in E. rewrite take_app_length, take_app_le in E by lia. done.
Qed.

Module Copying.
Import FileUtil Walk.

Section copying.
Context {F : Type} `{L : FileSystemLaws F}.
Context (src dst : string) (x y : list string) (fs : F).
Context (Hsrc : resolve src = Some x) (Hdst : resolve dst = Some y) (Hapart : apart x y).

Abbreviation S := (below fs x).

(** The entries in [D] and the directories on the way to [q] are copied. *)
Definition copying_inv (q : list string) (D : gset (list string)) (t : travel F) : Prop :=
  (forall z, z <> [] -> below (fs_of t) y z = if decide (z ∈ D \/ z `prefix_of` q) then copied (S z) else None) /\
  (forall w, (forall z, z <> [] -> w <> y ++ z) -> lookup_path (fs_of t) w = lookup_path fs w).

Context (Hy : lookup_path fs y = Some NDir).

Lemma copying_src q D t z : copying_inv q D t -> below (fs_of t) x z = S z.
Proof using Hapart. intros [_ H2]. apply H2. intros r _. by apply apart_ne. Qed.

Lemma copying_dir q D t : copying_inv q D t -> S q = Some NDir -> below (fs_of t) y q = Some NDir.
Proof using Hy.
  intros [H1 H2] HS. destruct (decide (q = [])) as [->|Hq].
  - rewrite below_root, H2; [done|]. intros z Hz E. rewrite <-(app_nil_r y) in E at 1. by apply app_inv_head in E.
  - rewrite H1, decide_True, HS by auto. done.
Qed.

Lemma copying_absent q D t n : copying_inv q D t -> q ++ [n] ∉ D -> below (fs_of t) y (q ++ [n]) = None.
Proof using.
  intros [H1 _] Hn. rewrite H1, decide_False; [done| |by destruct q].
  intros [?|Hp%Listing.snoc_not_prefix]; done.
Qed.

Lemma copying_add (q : list string) (D : gset (list string)) (t t' : travel F) (z : list string) (D' : gset (list string)) (q' : list string) :
  copying_inv q D t -> z <> [] -> set_at (lookup_path (fs_of t)) (lookup_path (fs_of t')) (y ++ z) (copied (S z)) ->
  (forall w, (w ∈ D' \/ w `prefix_of` q') <-> w = z \/ (w ∈ D \/ w `prefix_of` q)) -> copying_inv q' D' t'.
Proof using.
  intros [H1 H2] Hz Hset Hext. split.
  - intros w Hw. unfold below at 1. rewrite Hset. destruct (decide (w = z)) as [->|Hne].
    + rewrite decide_True by done. rewrite decide_True; [done|]. apply Hext. by left.
    + rewrite decide_False by (by intros ?%app_inv_head). change (lookup_path (fs_of t) (y ++ w)) with (below (fs_of t) y w).
      rewrite H1 by done. apply decide_ext. rewrite Hext. naive_solver.
  - intros w Hw. rewrite Hset, decide_False; [by apply H2|]. by apply Hw.
Qed.

Lemma copy_file q D t n c :
  good (q ++ [n]) -> copying_inv q D t -> S q = Some NDir -> S (q ++ [n]) = Some (NFile c) -> q ++ [n] ∉ D ->
  copying_inv q ({[q ++ [n]]} ∪ D) (visit src dst None (Some copy_file_callback) (relative (q ++ [n])) t).
Proof using Hsrc Hdst Hapart Hy.
  intros Hq HI HSq HS Hn. apply (copying_add q D t) with (z := q ++ [n]); [done|by destruct q| |set_solver].
  pose proof (resolve_join_relative src x q n Hsrc Hq) as Rs. pose proof (resolve_join_relative dst y q n Hdst Hq) as Rd.
  unfold visit, call, push_file, copy_file_callback. cbn [fs_of snd]. unfold CopyFile.
  assert (Hin : lookup_path (fs_of t) ((x ++ q) ++ [n]) = Some (NFile c)).
  { rewrite <-app_assoc, <-HS. by apply (copying_src q D). }
  destruct (open_in_ok _ _ c (fs_of t) Rs Hin) as [-> _].
  destruct (open_out_ok _ _ _ (fs_of t) Rd) as [Ho1 Ho2].
  { by apply (copying_dir q D). } { rewrite <-app_assoc. by apply (copying_absent q D). }
  destruct (open_out _ (fs_of t)) as [opened fs1]. cbn [fst snd] in *. subst opened. cbn [andb].
  destruct (open_in_ok _ _ c fs1 Rs) as [_ ->].
  { rewrite Ho2, decide_False; [done|]. rewrite <-!app_assoc. by apply apart_ne. }
  destruct (put_ok _ _ c fs1 Rd) as [Hp1 Hp2]; [by rewrite Ho2, decide_True|].
  destruct (put _ c fs1) as [bad fs2]. cbn [fst snd] in *. rewrite HS. cbn [copied].
  intros w. rewrite Hp2, Ho2, <-app_assoc. by repeat case_decide.
Qed.

Lemma copy_dir q D t n :
  good (q ++ [n]) -> copying_inv q D t -> S q = Some NDir -> S (q ++ [n]) = Some NDir -> q ++ [n] ∉ D ->
  copying_inv (q ++ [n]) D (enter src dst (Some copy_dir_callback) (relative (q ++ [n])) t).
Proof using Hsrc Hdst Hapart Hy.
  intros Hq HI HSq HS Hn. apply (copying_add q D t) with (z := q ++ [n]); [done|by destruct q| |].
  2:{ intros w. rewrite Listing.prefix_snoc_l. naive_solver. }
  pose proof (resolve_join_relative src x q n Hsrc Hq) as Rs. pose proof (resolve_join_relative dst y q n Hdst Hq) as Rd.
  unfold enter, call, push_dir, copy_dir_callback. cbn [fs_of snd]. unfold CopyDir.
  destruct (stat_ok _ _ (fs_of t) Rs) as [mode ->].
  { rewrite <-app_assoc. exists NDir. rewrite <-HS. by apply (copying_src q D). }
  rewrite HS, app_assoc. refine (proj2 (mkdir_ok _ _ _ _ _ Rd _ _)).
  - by apply (copying_dir q D).
  - rewrite <-app_assoc. by apply (copying_absent q D).
Qed.

Lemma copy_leave q D t n : copying_inv (q ++ [n]) D t -> copying_inv q ({[q ++ [n]]} ∪ D) t.
Proof using Hsrc Hdst Hapart Hy.
  intros [H1 H2]. split; [|done]. intros z Hz. rewrite H1 by done. apply decide_ext.
  rewrite Listing.prefix_snoc_l. set_solver.
Qed.

Lemma copy_other q D t n :
  copying_inv q D t -> S (q ++ [n]) = Some NOther -> q ++ [n] ∉ D -> copying_inv q ({[q ++ [n]]} ∪ D) t.
Proof using Hsrc Hdst Hapart Hy.
  intros HI HS Hn. apply (copying_add q D t) with (z := q ++ [n]); [done|by destruct q| |set_solver].
  rewrite HS. intros w. case_decide as E; [|done]. rewrite E. by apply (copying_absent q D).
Qed.

Context (Htree : is_tree (lookup_path fs)).

(** The copy is what is below [src], and nothing else changes. *)
Lemma walk_copies fuel :
  lookup_path fs x = Some NDir -> (forall q, q <> [] -> below fs y q = None) -> depth_below (lookup_path fs) x fuel ->
  exists fs', RecursiveCopyDir fuel src dst true false fs = Some (0, fs') /\
    (forall q, q <> [] -> below fs' y q = copied (S q)) /\
    (forall w, (forall z, z <> [] -> w <> y ++ z) -> lookup_path fs' w = lookup_path fs w).
Proof using Hsrc Hdst Hapart Htree Hy.
  intros Hx Hempty Hdepth. assert (HS : is_tree S) by (by apply is_tree_at).
  assert (Hparent : forall q n v, S (q ++ [n]) = Some v -> S q = Some NDir).
  { intros q n v E. apply (HS q n). by rewrite E. }
  destruct (walk_rule src dst x None (Some copy_file_callback) (Some copy_dir_callback) None S
    copying_inv Hsrc HS) with (fuel := fuel) (q := @nil string)
    (D := (∅ : gset (list string))) (t := mkTravel None None fs) as (D' & t' & Hrun & [H1 H2] & HD').
  - intros q D t HI Hq Hfresh. split; [|intros n]; by rewrite <-?Hq; apply (copying_src q D).
  - intros q D t n c Hq HI HSf Hn. eapply copy_file; eauto.
  - apply copy_other.
  - intros q D t n Hq HI HSd Hn. apply copy_dir; eauto. specialize (Hn []). by rewrite app_nil_r in Hn.
  - intros q D t n _ HI _ _ _. by apply copy_leave.
  - done.
  - done.
  - by rewrite below_root.
  - split; [|done]. intros z Hz. rewrite decide_False; [by apply Hempty|].
    intros [?|?%prefix_nil_inv]; [set_solver|done].
  - intros r. apply not_elem_of_empty.
  - unfold RecursiveCopyDir. cbn [Z.eqb negb]. change (relative []) with ""%string in Hrun. rewrite Hrun.
    exists (fs_of t'). split_and!; [done| |done]. intros q Hq. rewrite H1 by done.
    case_decide as Hd; [done|]. destruct (S q) eqn:E; [|done]. exfalso. apply Hd. left. apply HD'. right.
    exists q. by rewrite E.
Qed.
End copying.
End Copying.
