(* ===== verification/Loader.v ===== *)
(** * Reading and reloading configurations

    A configuration object is built in three layers: [BaseConfig] of
    src/phxqueue/config/baseconfig.h rebuilds the tables of a configuration from
    its message, [FileLoader] of src/phxqueue_phxrpc/comm/fileloader.cpp decides when
    a file is read again, and the [BaseConfig] of
    src/phxqueue_phxrpc/config/baseconfig.h joins them.

    What a call sees of its surroundings is an [Env]; a configuration belongs to
    one thread ([GlobalConfig::GetThreadInstance]), so the calls on it are a
    sequence. *)

From S2P Require Import Prelude RetCode TopicConfig.

#[local] Set Default Proof Using "Type".
#[local] Open Scope Z_scope.
#[local] Open Scope phx_scope.

Definition to_i64 (z : Z) : Z := (z + 9223372036854775808) mod 18446744073709551616 - 9223372036854775808.

(** The system clock in milliseconds; [st_ino] and [st_mtime] of a file that can
    be asked for them; the content of a file that can be read. *)
Record Env := mkEnv {
  now_ms : Z;
  env_stat : string -> option (Z * Z);
  env_read : string -> option string;
}.

(** [time(nullptr)] *)
Definition now (e : Env) : Z := now_ms e / 1000.

(** ** Files *)

Module FileConfig.

Record t := mk { file : string; read : bool; content : string }.

Definition new (file : string) : t := mk file false "".

Definition SetFile (file : string) (st : t) : t := mk file false (content st).

(** [fopen], [fstat] and [fread] give the content or fail. *)
Definition Read (e : Env) (st : t) : bool * t :=
  if read st then (true, st)
  else if bool_decide (file st = ""%string) then (false, st)
  else match env_read e (file st) with
       | Some buf => (true, mk (file st) true buf)
       | None => (false, st)
       end.

Definition GetContent (st : t) : bool * string :=
  if read st then (true, content st) else (false, ""%string).
End FileConfig.

Module FileLoader.

Record t := mk {
  file : string;
  check_interval_s : Z;
  refresh_delay_s : Z;
  last_check_time : Z;
  last_mod_time : Z;
  ino : Z;
}.

(** The constructor leaves [ino] as it finds it. *)
Definition new (ino : Z) : t := mk "" 60 60 0 0 ino.

Definition SetCheckInterval (s : Z) (st : t) : t :=
  mk (file st) s (refresh_delay_s st) (last_check_time st) (last_mod_time st) (ino st).

Definition SetRefreshDelay (s : Z) (st : t) : t :=
  mk (file st) (check_interval_s st) s (last_check_time st) (last_mod_time st) (ino st).

Definition set_check (z : Z) (st : t) : t :=
  mk (file st) (check_interval_s st) (refresh_delay_s st) z (last_mod_time st) (ino st).

Definition set_mod (z : Z) (st : t) : t :=
  mk (file st) (check_interval_s st) (refresh_delay_s st) (last_check_time st) z (ino st).

Definition SetFileIfUnset (file0 : string) (st : t) : bool * t :=
  if bool_decide (file st = ""%string)
  then (true, mk file0 (check_interval_s st) (refresh_delay_s st) (last_check_time st) (last_mod_time st) (ino st))
  else (false, st).

Definition ResetTimeByInode (ino0 : Z) (st : t) : t :=
  if ino st =? ino0 then st
  else mk (file st) (check_interval_s st) (refresh_delay_s st) (last_check_time st) 0 ino0.

Section load.
Context {C : Type} (LoadFile : string -> bool -> C -> option (bool * C)).

(** [now_time > last_check_time + check_interval_s] *)
Definition due (now_time : Z) (st : t) : bool := last_check_time st +u check_interval_s st <? to_u64 now_time.

(** Times in the future are forgotten. *)
Definition forget_future (now_time : Z) (st : t) : t :=
  let st := if now_time +u 30 <? last_check_time st then set_check (to_u64 now_time) st else st in
  if now_time +u 30 <? last_mod_time st then set_mod 0 st else st.

(** The condition to read the file, after its inode was compared. *)
Definition changed (now_time st_mtime : Z) (st : t) : bool :=
  let delay := to_i32 (Z.abs (to_i64 (now_time - st_mtime))) in
  let interval := to_i32 (Z.abs (to_i64 (st_mtime - last_mod_time st))) in
  (last_mod_time st =? 0) || ((0 <? interval) && (refresh_delay_s st <? delay)).

(** [LoadFile] is virtual and may fail an assertion ([None]); [c] is the rest of
    the object.  The second of the two equal conditions is the check after the
    lock is taken. *)
Definition LoadIfModified (e : Env) (is_modified : bool) (st : t) (c : C) : option (bool * bool * (t * C)) :=
  if bool_decide (file st = ""%string) then Some (false, is_modified, (st, c)) else
  let now_time := now e in
  let st := forget_future now_time st in
  if due now_time st then
    match env_stat e (file st) with
    | Some (st_ino, st_mtime) =>
        let st := ResetTimeByInode st_ino st in
        if changed now_time st_mtime st && due now_time st then
          '(load_ok, c) ← LoadFile (file st) (0 <? last_mod_time st) c;
          let st := if (load_ok : bool) then set_mod (to_u64 st_mtime) st else st in
          Some (true, true, (set_check (to_u64 now_time) st, c))
        else Some (true, false, (set_check (to_u64 now_time) st, c))
    | None => Some (false, false, (set_check (to_u64 now_time) st, c))
    end
  else Some (true, false, (st, c)).
End load.

Definition GetLastModTime (st : t) : Z := last_mod_time st.
End FileLoader.

(** ** Configuration objects *)

(** What a kind of configuration adds to [BaseConfig]: its message and its tables,
    both empty at first, and its [Rebuild]. *)
Class Empty (P T : Type) := {
  no_proto : P;
  no_tables : T;
}.

Class Kind (P T : Type) `{Empty P T} := {
  Rebuild : Env -> bool -> P -> T -> option (RetCode * T);
}.

(** [google::protobuf::util::JsonStringToMessage]; the flag is
    [ignore_unknown_fields]. *)
Class Json (P : Type) := { JsonStringToMessage : bool -> string -> option P }.

Module BaseConfig.

Record t {P T : Type} := mk {
  build_ : bool;
  last_clear_build_time_ : Z;
  last_mod_time_ : Z;
  proto_ : P;
  need_check_ : bool;
  tables : T;
}.
#[global] Arguments t : clear implicits.

(** An object of a derived class, with the fields [L] that it adds. *)
Definition object (P T L : Type) : Type := t P T * L.

(** The methods a derived class may override. *)
Class Virtual (P T L : Type) := {
  IsModified : Env -> object P T L -> option (bool * object P T L);
  ReadConfig : P -> RetCode * P;
}.

Section base.
Context {P T : Type}.
Implicit Type c : t P T.

Definition new `{Empty P T} : t P T := mk P T false 0 0 no_proto false no_tables.

Definition FillConfig (proto : P) c : t P T :=
  mk P T (build_ c) (last_clear_build_time_ c) (last_mod_time_ c) proto (need_check_ c) (tables c).

Definition SetNeedCheck (need_check : bool) c : t P T :=
  mk P T (build_ c) (last_clear_build_time_ c) (last_mod_time_ c) (proto_ c) need_check (tables c).

Definition set_build (b : bool) c : t P T :=
  mk P T b (last_clear_build_time_ c) (last_mod_time_ c) (proto_ c) (need_check_ c) (tables c).

Definition set_tables (tb : T) c : t P T :=
  mk P T (build_ c) (last_clear_build_time_ c) (last_mod_time_ c) (proto_ c) (need_check_ c) tb.

(** [BaseConfig::IsModified]: once after every clearing of [build_]. *)
Definition base_IsModified c : bool * t P T := if build_ c then (false, c) else (true, set_build true c).

Definition UpdateModTime (e : Env) c : t P T :=
  mk P T (build_ c) (last_clear_build_time_ c) (to_u64 (now_ms e)) (proto_ c) (need_check_ c) (tables c).

(** At most once in ten seconds. *)
Definition NeedRebuild (e : Env) c : t P T :=
  if last_clear_build_time_ c +u 10000 <? to_u64 (now_ms e)
  then mk P T false (to_u64 (now_ms e)) (last_mod_time_ c) (proto_ c) (need_check_ c) (tables c)
  else c.

(** What [Load] does with a modified object. *)
Definition reload {L} `{Kind P T, Virtual P T L} (e : Env) (o : object P T L) : option (RetCode * object P T L) :=
  let '(c, l) := o in
  let '(ret, proto) := ReadConfig (proto_ c) in
  let c := FillConfig proto c in
  if negb (bool_decide (ret = RET_OK)) then Some (ret, (c, l)) else
  '(ret, tb) ← Rebuild e (need_check_ c) (proto_ c) (tables c);
  let c := set_tables tb c in
  if negb (bool_decide (ret = RET_OK)) then Some (ret, (c, l)) else
  Some (RET_OK, (UpdateModTime e c, l)).

Definition Load {L} `{Kind P T, Virtual P T L} (e : Env) (o : object P T L) : option (RetCode * object P T L) :=
  '(modified, o) ← IsModified e o;
  if negb modified then Some (RET_OK, o) else reload e o.
End base.
End BaseConfig.

(** The built-in classes add no fields and have a [ReadConfig] each. *)
Definition builtin {P T} (ReadConfig : P -> RetCode * P) : BaseConfig.Virtual P T unit := {|
  BaseConfig.IsModified _ o := let '(m, c) := BaseConfig.base_IsModified o.1 in Some (m, (c, o.2));
  BaseConfig.ReadConfig := ReadConfig;
|}.

(** [build_] is set before the configuration is read: a failing [ReadConfig] or
    [Rebuild] is reported once, and the next [Load] says [RET_OK]. *)
Lemma load_error_once {P T} `{EM : Empty P T, K : !Kind P T} ReadConfig e e' (o : BaseConfig.object P T unit) ret o' :
  BaseConfig.Load (H := EM) (H0 := K) (H1 := builtin ReadConfig) e o = Some (ret, o') ->
  BaseConfig.Load (H := EM) (H0 := K) (H1 := builtin ReadConfig) e' o' = Some (RET_OK, o').
Proof.
  assert (Hbuilt : forall c u, BaseConfig.build_ c = true ->
    BaseConfig.Load (H := EM) (H0 := K) (H1 := builtin ReadConfig) e' (c, u) = Some (RET_OK, (c, u))).
  { intros c u Hb. unfold BaseConfig.Load. simpl. unfold BaseConfig.base_IsModified. by rewrite Hb. }
  destruct o as [c u]. unfold BaseConfig.Load at 1. simpl. unfold BaseConfig.base_IsModified. destruct (BaseConfig.build_ c) eqn:Hb; simpl.
  - intros [= <- <-]. by apply Hbuilt.
  - destruct (ReadConfig _) as [ret1 p]. case_bool_decide; simpl; [|intros [= <- <-]; by apply Hbuilt].
    destruct (Rebuild _ _ _ _) as [[ret2 tb]|]; [|done]. simpl. case_bool_decide; simpl; intros [= <- <-]; by apply Hbuilt.
Qed.

(** ** Configurations in files (phxqueue_phxrpc/config/baseconfig.h) *)

Module FileBased.
Section filebased.
Context {P T : Type} `{J : Json P}.
Abbreviation object := (BaseConfig.object P T FileLoader.t).

Definition LoadFile (e : Env) (file : string) (is_reload : bool) (c : BaseConfig.t P T)
    : option (bool * BaseConfig.t P T) :=
  let need_check := BaseConfig.need_check_ c in
  let '(ok, config) := FileConfig.Read e (FileConfig.new file) in
  if negb ok then Some (false, c) else
  let '(ok, content) := FileConfig.GetContent config in
  if negb ok then Some (false, c) else
  match JsonStringToMessage (negb need_check) content with
  | None => _ ← TopicConfig.check need_check false; Some (false, c)
  | Some proto => Some (true, BaseConfig.FillConfig proto c)
  end.

Definition LoadIfModified (e : Env) (is_modified : bool) (o : object) : option (bool * bool * object) :=
  '(ok, is_modified, (l, c)) ← FileLoader.LoadIfModified (LoadFile e) e is_modified o.2 o.1;
  Some (ok, is_modified, (c, l)).

Definition IsModified (e : Env) (o : object) : option (bool * object) :=
  '(_, modified, (c, l)) ← LoadIfModified e false o;
  let '(base_modified, c) := BaseConfig.base_IsModified c in
  Some (modified || base_modified, (c, l)).

Definition ReadConfig (proto : P) : RetCode * P := (RET_OK, proto).

#[global] Instance filebased : BaseConfig.Virtual P T FileLoader.t := {|
  BaseConfig.IsModified := IsModified;
  BaseConfig.ReadConfig := ReadConfig;
|}.

(** [ConfigFactory::NewGlobalConfig] and the like: [ino] is what the memory of the
    object held before. *)
Definition New `{Empty P T} (e : Env) (need_check : bool) (path : string) (ino : Z) : option object :=
  let c := BaseConfig.SetNeedCheck need_check BaseConfig.new in
  let l := (FileLoader.SetFileIfUnset path (FileLoader.new ino)).2 in
  '(_, _, o) ← LoadIfModified e false (c, l);
  Some o.

(** The calls of a thread on one object. *)
Definition loads `{Kind P T} (es : list Env) (o : object) : option object :=
  foldM (fun o e => snd <$> BaseConfig.Load e o) o es.
End filebased.
End FileBased.

(** ** A file that changes is loaded again *)

Lemma to_i64_id z : -9223372036854775808 <= z < 9223372036854775808 -> to_i64 z = z.
Proof. unfold to_i64. intros. rewrite Z.mod_small; lia. Qed.

(** Times of [time_t] for which the [int]s of [FileLoader] do not overflow. *)
Definition in_epoch (z : Z) : Prop := 0 <= z < 2147483648.

Module Reload.
Section reload.
Context {P T : Type} `{J : Json P, EM : Empty P T, K : !Kind P T}.
Context (f : string) (need_check : bool) (rebuild : bool -> P -> option (RetCode * T)).
Context (Hf : f <> ""%string) (Hrebuild : forall e b p tb, Rebuild e b p tb = rebuild b p).
Abbreviation object := (BaseConfig.object P T FileLoader.t).

(** What calls saw of the file: no call fell into the second of a modification,
    and an inode with a modification time had one content. *)
Record history (E : list Env) : Prop := {
  hist_now e : e ∈ E -> in_epoch (now e);
  hist_mtime e i m : e ∈ E -> env_stat e f = Some (i, m) -> 0 < m < now e;
  hist_version e1 e2 : e1 ∈ E -> e2 ∈ E -> is_Some (env_stat e1 f) -> env_stat e1 f = env_stat e2 f -> env_read e1 f = env_read e2 f;
}.

Context (E : list Env) (HE : history E).

(** The message [proto] is what the file said when it had the inode and the
    time of the loader. *)
Definition said (ino mtime : Z) (proto : P) : Prop :=
  exists e content, e ∈ E /\ env_stat e f = Some (ino, mtime) /\ env_read e f = Some content /\
    JsonStringToMessage (negb need_check) content = Some proto.

(** The invariant of an object that was last used at [t] or before. *)
Record inv (t : Z) (o : object) : Prop := {
  inv_file : FileLoader.file o.2 = f;
  inv_interval : FileLoader.check_interval_s o.2 = 60;
  inv_delay : FileLoader.refresh_delay_s o.2 = 60;
  inv_check : 0 <= FileLoader.last_check_time o.2 <= t;
  inv_mod : 0 <= FileLoader.last_mod_time o.2 <= t;
  inv_need_check : BaseConfig.need_check_ o.1 = need_check;
  inv_said : FileLoader.last_mod_time o.2 = 0 \/
             said (FileLoader.ino o.2) (FileLoader.last_mod_time o.2) (BaseConfig.proto_ o.1);
}.

(** Up to date with the version [(i, m)]. *)
Definition caught (i m : Z) (o : object) : Prop := FileLoader.ino o.2 = i /\ FileLoader.last_mod_time o.2 = m.

Lemma LoadFile_cases e (c : BaseConfig.t P T) b r : FileBased.LoadFile e f b c = Some r -> BaseConfig.need_check_ c = need_check ->
  (r = (false, c) /\ (env_read e f ≫= JsonStringToMessage (negb need_check)) = None) \/
  exists content proto, env_read e f = Some content /\ JsonStringToMessage (negb need_check) content = Some proto /\
    r = (true, BaseConfig.FillConfig proto c).
Proof using Hf.
  unfold FileBased.LoadFile, FileConfig.Read, FileConfig.GetContent. simpl. intros H <-. rewrite bool_decide_eq_false_2 in H by done.
  destruct (env_read e f) as [content|] eqn:Er; simpl in *; [|injection H as <-; by left].
  destruct (JsonStringToMessage _ content) as [proto|] eqn:Ej; simpl in *.
  - right. exists content, proto. by injection H as <-.
  - left. destruct (TopicConfig.check _ _); [|done]. by injection H as <-.
Qed.

Lemma due_iff now_time t l : FileLoader.check_interval_s l = 60 -> in_epoch now_time -> 0 <= FileLoader.last_check_time l <= t -> t <= now_time ->
  FileLoader.due now_time l = (FileLoader.last_check_time l + 60 <? now_time).
Proof using.
  unfold in_epoch. intros E1 H1 H2 H3. unfold FileLoader.due. rewrite E1, !to_u64_id by ilia. done.
Qed.

Lemma forget_future_id now_time t l : in_epoch now_time -> t <= now_time -> FileLoader.last_check_time l <= t ->
  FileLoader.last_mod_time l <= t -> FileLoader.forget_future now_time l = l.
Proof using.
  unfold in_epoch. intros H1 H2 H3 H4. unfold FileLoader.forget_future. rewrite !to_u64_id by ilia.
  rewrite (proj2 (Z.ltb_ge _ (FileLoader.last_check_time l))) by lia. by rewrite (proj2 (Z.ltb_ge _ _)) by lia.
Qed.

Lemma changed_iff now_time m l : in_epoch now_time -> FileLoader.refresh_delay_s l = 60 -> 0 < m < now_time ->
  0 <= FileLoader.last_mod_time l <= now_time ->
  FileLoader.changed now_time m l =
    (FileLoader.last_mod_time l =? 0) || (negb (FileLoader.last_mod_time l =? m) && (m + 60 <? now_time)).
Proof using.
  unfold in_epoch. intros H1 E1 H2 H3. unfold FileLoader.changed. rewrite E1, !to_i64_id, !to_i32_id by ilia.
  destruct (Z.eqb_spec (FileLoader.last_mod_time l) 0); [done|]. cbn [orb].
  destruct (Z.eqb_spec (FileLoader.last_mod_time l) m), (Z.ltb_spec 0 (Z.abs (m - FileLoader.last_mod_time l))),
    (Z.ltb_spec 60 (Z.abs (now_time - m))), (Z.ltb_spec (m + 60) now_time); simpl; lia.
Qed.

(** A check is made once a minute; between two checks nothing happens. *)
Lemma not_due e t b (o : object) : e ∈ E -> inv t o -> t <= now e -> now e <= FileLoader.last_check_time o.2 + 60 ->
  FileBased.LoadIfModified e b o = Some (true, false, o).
Proof using Hf HE.
  intros He [Ef Ei Er Hc Hm En Hs] Ht Hle. pose proof (hist_now _ HE _ He) as Hn. destruct o as [c l]. simpl in *.
  unfold FileBased.LoadIfModified, FileLoader.LoadIfModified. cbn [fst snd]. rewrite Ef, bool_decide_eq_false_2 by done.
  rewrite (forget_future_id _ t) by (done || lia). rewrite (due_iff _ t) by (done || lia).
  by rewrite (proj2 (Z.ltb_ge _ _)) by lia.
Qed.

(** What a check does, by cases: no file; nothing new or nothing readable; or a
    version is read. *)
Lemma check_cases e t b (o : object) ok b' (o' : object) : e ∈ E -> inv t o -> t <= now e ->
  FileLoader.last_check_time o.2 + 60 < now e -> FileBased.LoadIfModified e b o = Some (ok, b', o') ->
  FileLoader.file o'.2 = f /\ FileLoader.check_interval_s o'.2 = 60 /\ FileLoader.refresh_delay_s o'.2 = 60 /\
  FileLoader.last_check_time o'.2 = now e /\
  match env_stat e f with
  | None => o'.1 = o.1 /\ FileLoader.ino o'.2 = FileLoader.ino o.2 /\ FileLoader.last_mod_time o'.2 = FileLoader.last_mod_time o.2
  | Some (i, m) =>
      let last := if FileLoader.ino o.2 =? i then FileLoader.last_mod_time o.2 else 0 in
      let reads := (last =? 0) || (negb (last =? m) && (m + 60 <? now e)) in
      FileLoader.ino o'.2 = i /\
      ((o'.1 = o.1 /\ FileLoader.last_mod_time o'.2 = last /\
        (reads = false \/ b' = true /\ (env_read e f ≫= JsonStringToMessage (negb need_check)) = None)) \/
       exists content proto, reads = true /\ b' = true /\ env_read e f = Some content /\
         JsonStringToMessage (negb need_check) content = Some proto /\
         o'.1 = BaseConfig.FillConfig proto o.1 /\ FileLoader.last_mod_time o'.2 = m)
  end.
Proof using Hf HE.
  intros He [Ef Ei Er Hc Hm En Hs] Ht Hdue Hl. pose proof (hist_now _ HE _ He) as Hn. destruct o as [c l]. simpl in *.
  unfold FileBased.LoadIfModified, FileLoader.LoadIfModified in Hl. cbn [fst snd] in Hl.
  rewrite Ef, bool_decide_eq_false_2 in Hl by done.
  rewrite (forget_future_id _ t) in Hl by (done || lia). rewrite (due_iff _ t) in Hl by (done || lia).
  rewrite (proj2 (Z.ltb_lt _ _) Hdue), Ef in Hl.
  destruct (env_stat e f) as [[i m]|] eqn:Est.
  2: { simpl in Hl. injection Hl as <- <- <-. simpl. rewrite to_u64_id by (unfold in_epoch in Hn; ilia). by rewrite Ei, Er, Ef. }
  pose proof (hist_mtime _ HE _ _ _ He Est) as Hmt.
  set (l1 := FileLoader.ResetTimeByInode i l) in *.
  set (last := if FileLoader.ino l =? i then FileLoader.last_mod_time l else 0).
  assert (Hl1 : l1 = FileLoader.mk f 60 60 (FileLoader.last_check_time l) last i).
  { unfold l1, FileLoader.ResetTimeByInode, last. destruct (Z.eqb_spec (FileLoader.ino l) i) as [<-|]; destruct l; simpl in *; congruence. }
  rewrite Hl1 in Hl. clearbody l1.
  assert (Hlast : 0 <= last <= now e) by (unfold last; destruct (_ =? _); unfold in_epoch in Hn; lia).
  rewrite (changed_iff (now e) m) in Hl by (simpl; done || lia). rewrite (due_iff _ t) in Hl by (simpl; done || lia).
  cbn [FileLoader.last_mod_time FileLoader.last_check_time FileLoader.file] in Hl. rewrite (proj2 (Z.ltb_lt _ _) Hdue), andb_true_r in Hl.
  assert (Hu : to_u64 (now e) = now e) by (apply to_u64_id; unfold in_epoch in Hn; ilia).
  set (reads := (last =? 0) || _) in *. destruct reads eqn:Hreads.
  - destruct (FileBased.LoadFile e f (0 <? last) c) as [r|] eqn:Hload; [|done].
    apply LoadFile_cases in Hload as [[-> Hnone]|(content & proto & Hr & Hj & ->)]; [| |done]; simpl in Hl; injection Hl as <- <- <-; simpl; rewrite Hu.
    + split_and!; [done..|]. left. split_and!; auto.
    + split_and!; [done..|]. right. exists content, proto. rewrite to_u64_id by (unfold in_epoch in Hn; ilia). split_and!; auto.
  - simpl in Hl. injection Hl as <- <- <-. simpl. rewrite Hu. split_and!; [done..|]. left. split_and!; auto.
Qed.

(** One call of [LoadIfModified]: the invariant is kept, and what is not
    reported as modified is unchanged. *)
Lemma LoadIfModified_inv e t b (o : object) ok b' (o' : object) : e ∈ E -> inv t o -> t <= now e ->
  FileBased.LoadIfModified e b o = Some (ok, b', o') ->
  inv (now e) o' /\ (b' = false -> o'.1 = o.1) /\ (o'.1 = o.1 \/ exists proto, o'.1 = BaseConfig.FillConfig proto o.1).
Proof using Hf HE.
  intros He Hinv Ht Hl. pose proof (hist_now _ HE _ He) as Hn. destruct (Z.le_gt_cases (now e) (FileLoader.last_check_time o.2 + 60)) as [Hle|Hgt].
  - rewrite (not_due e t) in Hl by done. injection Hl as <- <- <-. split; [|auto]. destruct Hinv. split; try done; lia.
  - apply (check_cases e t) in Hl as (E1 & E2 & E3 & E4 & Hl); [|done..]. destruct Hinv as [Ef Ei Er Hc Hm En Hs].
    unfold in_epoch in Hn. destruct (env_stat e f) as [[i m]|] eqn:Est.
    2: { destruct Hl as (Eo & Eino & Emod). split; [|auto]. split; rewrite ?Eo, ?Eino, ?Emod; try done; lia. }
    pose proof (hist_mtime _ HE _ _ _ He Est) as Hmt. destruct Hl as (Eino & [(Eo & Emod & _)|(content & proto & _ & -> & Hr & Hj & Eo & Emod)]).
    + split; [|rewrite Eo; auto]. split; rewrite ?Eo, ?Eino, ?Emod; try done; try lia; destruct (Z.eqb_spec (FileLoader.ino o.2) i) as [<-|]; (lia || auto).
    + split; [|split; [done|eauto]]. split; rewrite ?Eo, ?Eino, ?Emod; try done; try lia. right. by exists e, content.
Qed.

(** With a version that has been there for more than a minute, every check
    brings the object up to date, and it stays so. *)
Lemma LoadIfModified_catches e t b (o : object) ok b' (o' : object) i m content proto : e ∈ E -> inv t o -> t <= now e ->
  FileBased.LoadIfModified e b o = Some (ok, b', o') ->
  env_stat e f = Some (i, m) -> m + 60 < now e ->
  env_read e f = Some content -> JsonStringToMessage (negb need_check) content = Some proto ->
  caught i m o \/ FileLoader.last_check_time o.2 + 60 < now e -> caught i m o'.
Proof using Hf HE.
  intros He Hinv Ht Hl Est Hq Hr Hj Hor. pose proof (hist_mtime _ HE _ _ _ He Est) as Hmt.
  destruct (Z.le_gt_cases (now e) (FileLoader.last_check_time o.2 + 60)) as [Hle|Hgt].
  { rewrite (not_due e t) in Hl by done. injection Hl as <- <- <-. by destruct Hor; [|lia]. }
  apply (check_cases e t) in Hl as (_ & _ & _ & _ & Hl); [|done..]. rewrite Est, Hr in Hl. cbn [mbind option_bind] in Hl.
  destruct Hl as (Eino & [(_ & Emod & [Hno|[_ Hno]])|(? & ? & _ & _ & _ & _ & _ & Emod)]); [|by rewrite Hj in Hno|done].
  split; [done|]. rewrite Emod. apply orb_false_iff in Hno as [H1 H2]. rewrite (proj2 (Z.ltb_lt _ _) Hq), andb_true_r in H2.
  by apply negb_false_iff, Z.eqb_eq in H2.
Qed.

(** An object that is up to date has the message of the file. *)
Lemma caught_proto e t (o : object) i m content proto : e ∈ E -> inv t o -> caught i m o -> env_stat e f = Some (i, m) ->
  env_read e f = Some content -> JsonStringToMessage (negb need_check) content = Some proto ->
  BaseConfig.proto_ o.1 = proto.
Proof using HE.
  intros He Hinv [Hi Hm] Est Hr Hj. pose proof (hist_mtime _ HE _ _ _ He Est).
  destruct (inv_said _ _ Hinv) as [?|(e' & content' & He' & Est' & Hr' & Hj')]; [lia|]. rewrite Hi, Hm in Est'.
  pose proof (hist_version _ HE e e' He He') as Hv. rewrite Est, Est', Hr, Hr' in Hv. specialize (Hv ltac:(done) eq_refl). congruence.
Qed.

(** The tables are those of the message, once the object was built. *)
Definition built (o : object) : Prop :=
  BaseConfig.build_ o.1 = true ->
  exists ret, rebuild need_check (BaseConfig.proto_ o.1) = Some (ret, BaseConfig.tables o.1).

Lemma Load_inv e t (o : object) ret (o' : object) : e ∈ E -> inv t o -> built o -> t <= now e ->
  BaseConfig.Load e o = Some (ret, o') ->
  inv (now e) o' /\ built o' /\ BaseConfig.build_ o'.1 = true /\
  (FileLoader.last_check_time o'.2 = FileLoader.last_check_time o.2 \/ FileLoader.last_check_time o.2 + 60 < now e) /\
  forall i m content proto, env_stat e f = Some (i, m) -> m + 60 < now e ->
    env_read e f = Some content -> JsonStringToMessage (negb need_check) content = Some proto ->
    caught i m o \/ FileLoader.last_check_time o.2 + 60 < now e -> caught i m o'.
Proof using Hf HE Hrebuild.
  intros He Hinv Hb Ht. unfold BaseConfig.Load. cbn [BaseConfig.IsModified FileBased.filebased]. unfold FileBased.IsModified.
  destruct (FileBased.LoadIfModified e false o) as [[[ok b'] o1]|] eqn:Hl; [|done].
  pose proof (LoadIfModified_inv _ _ _ _ _ _ _ He Hinv Ht Hl) as (Hinv1 & Hsame & Hfill).
  assert (Hcheck : FileLoader.last_check_time o1.2 = FileLoader.last_check_time o.2 \/ FileLoader.last_check_time o.2 + 60 < now e).
  { destruct (Z.le_gt_cases (now e) (FileLoader.last_check_time o.2 + 60)) as [Hle|]; [left|by right; lia].
    rewrite (not_due e t) in Hl by done. by injection Hl as <- <- <-. }
  pose proof (fun i m content proto => LoadIfModified_catches _ _ _ _ _ _ _ i m content proto He Hinv Ht Hl) as Hcatch.
  destruct o1 as [c1 l1]. cbn [mbind option_bind]. unfold BaseConfig.base_IsModified.
  assert (Hret : forall c', FileLoader.last_check_time l1 = FileLoader.last_check_time o.2 \/ FileLoader.last_check_time o.2 + 60 < now e ->
    BaseConfig.proto_ c' = BaseConfig.proto_ c1 -> BaseConfig.need_check_ c' = need_check -> BaseConfig.build_ c' = true ->
    (exists ret, rebuild need_check (BaseConfig.proto_ c') = Some (ret, BaseConfig.tables c')) ->
    (inv (now e) (c', l1) /\ built (c', l1) /\ BaseConfig.build_ c' = true /\
    (FileLoader.last_check_time l1 = FileLoader.last_check_time o.2 \/ FileLoader.last_check_time o.2 + 60 < now e) /\
    forall i m content proto, env_stat e f = Some (i, m) -> m + 60 < now e ->
      env_read e f = Some content -> JsonStringToMessage (negb need_check) content = Some proto ->
      caught i m o \/ FileLoader.last_check_time o.2 + 60 < now e -> caught i m (c', l1))).
  { intros c' H1 H2 H3 H4 H5. split_and!; [|by intros _|done|done|done].
    destruct Hinv1. split; try done. cbn [fst]. by rewrite H2. }
  cbn [fst snd] in Hcheck. pose proof (inv_need_check _ _ Hinv1) as Hnc. cbn [fst] in Hnc.
  destruct (b' || negb (BaseConfig.build_ c1)) eqn:Hmod.
  - set (c2 := if BaseConfig.build_ c1 then c1 else BaseConfig.set_build true c1).
    assert (Hc2 : BaseConfig.proto_ c2 = BaseConfig.proto_ c1 /\ BaseConfig.need_check_ c2 = need_check /\ BaseConfig.build_ c2 = true).
    { unfold c2. by destruct (BaseConfig.build_ c1) eqn:Eb. }
    destruct Hc2 as (Hp2 & Hn2 & Hb2). intros Hload.
    assert (Hload' : BaseConfig.reload e (c2, l1) = Some (ret, o')) by (rewrite <-Hload; unfold c2; by destruct (BaseConfig.build_ c1), b').
    clear Hload. unfold BaseConfig.reload in Hload'. simpl in Hload'. rewrite Hrebuild, Hn2, Hp2 in Hload'.
    destruct (rebuild _ _) as [[ret0 tb]|] eqn:Erb; [|done]. simpl in Hload'.
    case_bool_decide; simpl in Hload'; injection Hload' as <- <-; (apply Hret; [done..|]); simpl; eauto.
  - apply orb_false_iff in Hmod as [-> Eb]. apply negb_false_iff in Eb. rewrite Eb. simpl. intros [= <- <-].
    specialize (Hsame eq_refl). cbn [fst] in Hsame. subst c1. apply Hret; [done..|]. by apply Hb.
Qed.

Lemma inv_mono t t' o : inv t o -> t <= t' -> inv t' o.
Proof using. intros [] ?. split; try done; lia. Qed.

Lemma loads_cons e es (o o' : object) : FileBased.loads (e :: es) o = Some o' ->
  exists ret o1, BaseConfig.Load e o = Some (ret, o1) /\ FileBased.loads es o1 = Some o'.
Proof using.
  unfold FileBased.loads. intros (o1 & H1 & H2)%foldM_cons. destruct (BaseConfig.Load e o) as [[ret o2]|]; [|done].
  injection H1 as <-. by exists ret, o2.
Qed.

Lemma loads_app es1 es2 (o o' : object) : FileBased.loads (es1 ++ es2) o = Some o' ->
  exists o1, FileBased.loads es1 o = Some o1 /\ FileBased.loads es2 o1 = Some o'.
Proof using.
  revert o. induction es1 as [|e es1 IH]; intros o Hl; [by exists o|].
  apply loads_cons in Hl as (ret & o1 & H1 & (o2 & H2 & H3)%IH). exists o2. split; [|done].
  unfold FileBased.loads. apply foldM_cons. exists o1. by rewrite H1.
Qed.

(** A sequence of calls that follow [t]. *)
Definition after (t : Z) (es : list Env) : Prop :=
  StronglySorted (fun a b => now a <= now b) es /\ forall e, e ∈ es -> e ∈ E /\ t <= now e.

Lemma after_cons t e es : after t (e :: es) -> e ∈ E /\ t <= now e /\ after (now e) es.
Proof using.
  intros [Hs Ha]. apply StronglySorted_inv in Hs as [Hs He]. rewrite Forall_forall in He. split_and!.
  - apply Ha. left.
  - apply Ha. left.
  - split; [done|]. intros e' He'. split; [apply Ha; by right|by apply He].
Qed.

Lemma after_middle t es1 e es2 : after t (es1 ++ e :: es2) ->
  after t es1 /\ (forall e', e' ∈ es1 -> now e' <= now e) /\ e ∈ E /\ t <= now e /\ after (now e) es2.
Proof using.
  intros [Hs Ha]. pose proof (fun x y => StronglySorted_app_1_elem_of _ es1 (e :: es2) x y Hs) as Hle.
  apply StronglySorted_app in Hs as (_ & Hs1 & Hs2).
  assert (after t (e :: es2)) as (He & Hte & Ha2)%after_cons by (split; [done|intros; apply Ha, elem_of_app; by right]).
  split_and!; try done; [split; [done|intros; apply Ha, elem_of_app; by left]|]. intros e' He'. apply Hle; [done|left].
Qed.

Lemma loads_inv es t t' (o o' : object) : inv t o -> built o -> after t es -> FileBased.loads es o = Some o' ->
  t <= t' -> (forall e, e ∈ es -> now e <= t') -> inv t' o' /\ built o'.
Proof using Hf HE Hrebuild.
  revert t o. induction es as [|e es IH]; intros t o Hinv Hb Ha Hl Ht Hle.
  - injection Hl as <-. split; [by eapply inv_mono|done].
  - apply loads_cons in Hl as (ret & o1 & H1 & H2). apply after_cons in Ha as (He & Hte & Ha).
    apply (Load_inv e t) in H1 as (Hinv1 & Hb1 & _); [|done..].
    apply (IH (now e) o1); try done; [apply Hle; left|intros; apply Hle; by right].
Qed.

(** While a version stays, an object is up to date unless no check was made. *)
Lemma loads_catch es t b (o o' : object) i m content proto : inv t o -> built o -> after t es -> FileBased.loads es o = Some o' ->
  JsonStringToMessage (negb need_check) content = Some proto ->
  (forall e, e ∈ es -> env_stat e f = Some (i, m) /\ env_read e f = Some content /\ m + 60 < now e) ->
  caught i m o \/ FileLoader.last_check_time o.2 <= b -> caught i m o' \/ FileLoader.last_check_time o'.2 <= b.
Proof using Hf HE Hrebuild.
  revert t o. induction es as [|e es IH]; intros t o Hinv Hb Ha Hl Hj Hv Hor; [by injection Hl as <-|].
  apply loads_cons in Hl as (ret & o1 & H1 & H2). apply after_cons in Ha as (He & Hte & Ha).
  apply (Load_inv e t) in H1 as (Hinv1 & Hb1 & _ & Hc & Hcatch); [|done..].
  destruct (Hv e) as (Est & Hr & Hq); [left|]. specialize (Hcatch i m content proto Est Hq Hr Hj).
  apply (IH (now e) o1); try done; [intros; apply Hv; by right|]. destruct Hor as [Hor|Hor]; [auto|]. destruct Hc as [->|Hdue]; auto.
Qed.

Lemma New_inv e ino (o : object) : e ∈ E -> FileBased.New e need_check f ino = Some o -> inv (now e) o /\ built o.
Proof using Hf HE.
  intros He. unfold FileBased.New. pose proof (hist_now _ HE _ He) as Hn.
  set (c := BaseConfig.SetNeedCheck need_check BaseConfig.new). set (l := (FileLoader.SetFileIfUnset f (FileLoader.new ino)).2).
  destruct (FileBased.LoadIfModified e false (c, l)) as [[[ok b'] o1]|] eqn:Hl; [|done]. intros [= <-].
  assert (Hinv : inv 0 (c, l)) by (split; try done; by left).
  apply (LoadIfModified_inv e 0) in Hl as (Hinv1 & _ & Hfill); [|done|done|apply Hn]. split; [done|].
  unfold built. by destruct Hfill as [->|[proto ->]].
Qed.
End reload.

End Reload.

(** ** Loading twice *)

Module Settled.
Section settled.
Context {P T : Type} `{J : Json P, EM : Empty P T, K : !Kind P T}.
Abbreviation object := (BaseConfig.object P T FileLoader.t).

(** Nothing is due for the loader in [e]. *)
Definition settled (e : Env) (l : FileLoader.t) : Prop :=
  FileLoader.file l = ""%string \/ FileLoader.due (now e) (FileLoader.forget_future (now e) l) = false.

Lemma forget_future_idem now_time l : in_epoch now_time ->
  FileLoader.forget_future now_time (FileLoader.forget_future now_time l) = FileLoader.forget_future now_time l.
Proof using.
  unfold in_epoch. intros H. unfold FileLoader.forget_future at 2 3.
  assert (Hu : to_u64 now_time = now_time) by (apply to_u64_id; ilia).
  assert (Hv : now_time +u 30 = now_time + 30) by (apply to_u64_id; ilia).
  destruct (Z.ltb_spec (now_time +u 30) (FileLoader.last_check_time l)) as [H1|H1];
    destruct (Z.ltb_spec (now_time +u 30) (FileLoader.last_mod_time l)) as [H2|H2]; cbn [FileLoader.last_mod_time FileLoader.set_check];
    rewrite ?(proj2 (Z.ltb_lt _ _) H2), ?(proj2 (Z.ltb_ge _ _) H2);
    unfold FileLoader.forget_future; cbn [FileLoader.last_check_time FileLoader.last_mod_time FileLoader.set_check FileLoader.set_mod];
    rewrite ?(proj2 (Z.ltb_ge _ _) H1), ?(proj2 (Z.ltb_ge _ _) H2);
    rewrite ?(proj2 (Z.ltb_ge (now_time +u 30) (to_u64 now_time))) by lia;
    cbn [FileLoader.last_mod_time FileLoader.set_check FileLoader.set_mod];
    rewrite ?(proj2 (Z.ltb_ge _ _) H2), ?(proj2 (Z.ltb_ge (now_time +u 30) 0)) by lia; done.
Qed.

Lemma settled_again e b (o : object) : in_epoch (now e) -> settled e o.2 ->
  exists ok b' l, FileBased.LoadIfModified e b o = Some (ok, b', (o.1, l)) /\ settled e l /\ (b = false -> b' = false).
Proof using.
  destruct o as [c l]. simpl. intros He Hs. unfold FileBased.LoadIfModified, FileLoader.LoadIfModified. simpl.
  case_bool_decide as Hf; [by exists false, b, l|]. destruct Hs as [?|Hs]; [done|]. rewrite Hs. simpl.
  eexists _, _, _. split; [done|]. split; [|done]. right. by rewrite forget_future_idem.
Qed.

(** A second load in the same surroundings changes nothing that can be seen. *)
Lemma settled_Load e (o : object) : in_epoch (now e) -> settled e o.2 -> BaseConfig.build_ o.1 = true ->
  exists l, BaseConfig.Load e o = Some (RET_OK, (o.1, l)) /\ settled e l.
Proof using.
  intros He Hs Hb. destruct (settled_again e false o He Hs) as (ok & b' & l & Hl & Hs' & Hb'). exists l. split; [|done].
  unfold BaseConfig.Load. simpl. unfold FileBased.IsModified. rewrite Hl, Hb' by done. simpl. unfold BaseConfig.base_IsModified. by rewrite Hb.
Qed.

Lemma check_settles e l : in_epoch (now e) -> 0 <= FileLoader.check_interval_s l < 2147483648 ->
  settled e (FileLoader.set_check (to_u64 (now e)) l).
Proof using.
  unfold in_epoch. intros He Hi. right. assert (Hu : to_u64 (now e) = now e) by (apply to_u64_id; ilia).
  unfold FileLoader.due, FileLoader.forget_future. rewrite Hu. cbn [FileLoader.last_check_time FileLoader.set_check].
  rewrite (proj2 (Z.ltb_ge (now e +u 30) (now e))) by (rewrite to_u64_id; ilia).
  assert (Hle : forall l', FileLoader.last_check_time l' = now e -> FileLoader.check_interval_s l' = FileLoader.check_interval_s l ->
    (FileLoader.last_check_time l' +u FileLoader.check_interval_s l' <? now e) = false).
  { intros l' -> ->. rewrite to_u64_id by ilia. apply Z.ltb_ge. lia. }
  destruct (now e +u 30 <? FileLoader.last_mod_time _); by apply Hle.
Qed.

Lemma LoadIfModified_settles e b (o : object) ok b' (o' : object) : in_epoch (now e) -> 0 <= FileLoader.check_interval_s o.2 < 2147483648 ->
  FileBased.LoadIfModified e b o = Some (ok, b', o') -> settled e o'.2 /\ BaseConfig.build_ o'.1 = BaseConfig.build_ o.1.
Proof using.
  destruct o as [c l]. simpl. intros He Hi. unfold FileBased.LoadIfModified, FileLoader.LoadIfModified. simpl.
  case_bool_decide as Hf; [intros [= <- <- <-]; split; [by left|done]|]. pose proof (forget_future_idem (now e) l He) as Hff.
  assert (Hi1 : 0 <= FileLoader.check_interval_s (FileLoader.forget_future (now e) l) < 2147483648).
  { unfold FileLoader.forget_future. by repeat case_match. }
  set (l1 := FileLoader.forget_future (now e) l) in *. clearbody l1.
  destruct (FileLoader.due (now e) l1) eqn:Hdue; simpl; [|intros [= <- <- <-]; split; [right; simpl; by rewrite Hff|done]].
  destruct (env_stat e (FileLoader.file l1)) as [[i m]|]; [|intros [= <- <- <-]; split; [by apply check_settles|done]].
  assert (Hi2 : 0 <= FileLoader.check_interval_s (FileLoader.ResetTimeByInode i l1) < 2147483648).
  { unfold FileLoader.ResetTimeByInode. by case_match. }
  destruct (_ && _); [|intros [= <- <- <-]; split; [by apply check_settles|done]].
  destruct (FileBased.LoadFile _ _ _ _) as [[load_ok c']|] eqn:Hload; [|done]. simpl. intros [= <- <- <-]. split.
  - apply check_settles; [done|]. by destruct load_ok.
  - simpl. unfold FileBased.LoadFile in Hload. destruct (FileConfig.Read _ _) as [[] ?]; [|by injection Hload as <- <-].
    destruct (FileConfig.GetContent _) as [[] ?]; [|by injection Hload as <- <-]. cbn [negb] in Hload.
    destruct (JsonStringToMessage _ _); [by injection Hload as <- <-|]. destruct (TopicConfig.check _ _); [|done]. by injection Hload as <- <-.
Qed.

Lemma Load_settles e (o : object) ret (o' : object) : in_epoch (now e) -> 0 <= FileLoader.check_interval_s o.2 < 2147483648 ->
  BaseConfig.Load e o = Some (ret, o') -> settled e o'.2 /\ BaseConfig.build_ o'.1 = true.
Proof using.
  intros He Hi. unfold BaseConfig.Load. simpl. unfold FileBased.IsModified.
  destruct (FileBased.LoadIfModified e false o) as [[[ok b'] [c l]]|] eqn:Hl; [|done].
  apply LoadIfModified_settles in Hl as [Hs _]; [|done..]. simpl in *. unfold BaseConfig.base_IsModified.
  destruct (BaseConfig.build_ c) eqn:Hb; simpl; [rewrite orb_false_r|rewrite orb_true_r]; simpl.
  - destruct b'; simpl; [|by intros [= <- <-]].
    destruct (Rebuild _ _ _ _) as [[ret0 tb]|]; [|done]. simpl. by case_bool_decide; intros [= <- <-].
  - destruct (Rebuild _ _ _ _) as [[ret0 tb]|]; [|done]. simpl. by case_bool_decide; intros [= <- <-].
Qed.
End settled.
End Settled.
