(* ===== verification/StoreConfig.v ===== *)
(** * Addresses and the store configuration

    [EncodeAddr]/[DecodeAddr] of src/phxqueue/comm/utils/addr_util.cpp, the
    [StoreConfig] of src/phxqueue/config/storeconfig.cpp and
    [GetPubIDsByStoreID] of src/phxqueue/config/utils/pub_util.cpp.

    [GlobalConfig] is the interface through which the server code reaches the
    configuration of a topic: the lookups of [GlobalConfig::GetThreadInstance()]
    at the moment of the call. *)

From S2P Require Import Prelude RetCode TopicConfig.

Record Addr := mkAddr { ip : string; port : Z; paxos_port : Z }.

#[export] Instance Addr_eq_dec : EqDecision Addr.
Proof. solve_decision. Defined.

(** [inet_addr] and [inet_ntoa] of the C library, on dotted-quad strings and
    32-bit addresses. *)
Class Inet := {
  inet_addr : string -> Z;
  inet_ntoa : Z -> string;
}.

Section addr.
Context `{Inet}.

Definition EncodeAddr (addr : Addr) : Z :=
  let res := inet_addr (ip addr) in
  let res := Z.lor (to_u64 (Z.shiftl res 16)) (to_u64 (port addr)) in
  Z.lor (to_u64 (Z.shiftl res 16)) (to_u64 (paxos_port addr)).

Definition DecodeAddr (encoded_addr : Z) : Addr :=
  mkAddr (inet_ntoa (to_u32 (Z.shiftr encoded_addr 32)))
         (Z.land (Z.shiftr encoded_addr 16) 65535)
         (Z.land encoded_addr 65535).

Definition EncodedAddrToIPString (encoded_addr : Z) : string := ip (DecodeAddr encoded_addr).

(** An address as the configuration has it: an IP the library reads and
    prints back, and ports of 16 bits. *)
Definition addr_ok (a : Addr) : Prop :=
  is_u32 (inet_addr (ip a)) /\ inet_ntoa (inet_addr (ip a)) = ip a /\
  0 <= port a < 65536 /\ 0 <= paxos_port a < 65536.

Lemma lor_shift_add a b : 0 <= a -> 0 <= b < 65536 -> Z.lor (Z.shiftl a 16) b = a * 65536 + b.
Proof.
  intros Ha Hb.
  assert (H0 : Z.land (Z.shiftl a 16) b = 0).
  { apply Z.bits_inj'. intros n Hn. rewrite Z.bits_0, Z.land_spec.
    destruct (decide (n < 16)).
    - by rewrite Z.shiftl_spec_low.
    - rewrite (Z.bits_above_log2 b n); [by rewrite andb_false_r|lia|].
      destruct (decide (b = 0)) as [->|]; [simpl; lia|].
      apply Z.log2_lt_pow2; [lia|]. apply Z.lt_le_trans with (2 ^ 16); [lia|].
      apply Z.pow_le_mono_r; lia. }
  pose proof (Z.add_lor_land (Z.shiftl a 16) b) as Hadd. rewrite H0 in Hadd.
  rewrite Z.shiftl_mul_pow2 in * by lia. change (2 ^ 16) with 65536 in *. lia.
Qed.

Lemma EncodeAddr_value a :
  addr_ok a -> EncodeAddr a = inet_addr (ip a) * 4294967296 + port a * 65536 + paxos_port a.
Proof.
  intros ([Hi1 Hi2] & _ & Hp & Hq). unfold EncodeAddr.
  rewrite (to_u64_id (port a)), (to_u64_id (paxos_port a)) by ilia.
  rewrite (to_u64_id (Z.shiftl (inet_addr (ip a)) 16))
    by (rewrite Z.shiftl_mul_pow2 by lia; change (2 ^ 16) with 65536; ilia).
  rewrite lor_shift_add by lia.
  rewrite (to_u64_id (Z.shiftl _ 16))
    by (rewrite Z.shiftl_mul_pow2 by lia; change (2 ^ 16) with 65536; ilia).
  rewrite lor_shift_add by lia. lia.
Qed.

(** An address of the configuration survives encoding: decoding the
    64-bit key gives the address back, so the key identifies the address. *)
Theorem DecodeAddr_EncodeAddr a : addr_ok a -> DecodeAddr (EncodeAddr a) = a.
Proof.
  intros Ha. pose proof Ha as ([Hi1 Hi2] & Hn & Hp & Hq). rewrite EncodeAddr_value by done.
  unfold DecodeAddr. destruct a as [i p q]. cbn [ip port paxos_port] in *.
  change 65535 with (Z.ones 16). rewrite !Z.land_ones, !Z.shiftr_div_pow2 by lia.
  change (2 ^ 32) with 4294967296. change (2 ^ 16) with 65536.
  unfold to_u32. f_equal.
  - rewrite <-Hn at 2. f_equal. Z.div_mod_to_equations; lia.
  - Z.div_mod_to_equations; lia.
  - Z.div_mod_to_equations; lia.
Qed.
End addr.

(** ** [StoreConfig] *)

Record Store_proto := mkStore {
  store_id : Z;
  addrs : list Addr;
  store_pub_ids : list Z;
  store_scale : Z;
}.

Module StoreConfig.
Section with_inet.
Context `{Inet}.

Record t := mk {
  store_id2store : gmap Z Store_proto;
  addr2store_id : gmap Z Z;
}.

Definition add_addr (need_check : bool) (id : Z) (m : gmap Z Z) (addr : Addr) : option (gmap Z Z) :=
  _ ← TopicConfig.check need_check (bool_decide (m !! EncodeAddr addr = None));
  Some (emplace (EncodeAddr addr) id m).

Definition rebuild_store (need_check : bool) (c : t) (store : Store_proto) : option t :=
  if store_id store =? 0 then Some c else
  _ ← TopicConfig.check need_check (bool_decide (store_id2store c !! store_id store = None));
  m ← foldM (add_addr need_check (store_id store)) (addr2store_id c) (addrs store);
  Some (mk (emplace (store_id store) store (store_id2store c)) m).

(** [ReadConfig]: the built-in sample. *)
Definition ReadConfig : RetCode * list Store_proto :=
  (RET_OK, [mkStore 1 [mkAddr "127.0.0.1" 5100 5101; mkAddr "127.0.0.1" 5200 5201; mkAddr "127.0.0.1" 5300 5301] [1; 2] 100]).

Definition Rebuild (need_check : bool) (stores : list Store_proto) : option (RetCode * t) :=
  c ← foldM (rebuild_store need_check) (mk ∅ ∅) stores; Some (RET_OK, c).

Definition GetAllStore (c : t) (stores : list Store_proto) : RetCode * list Store_proto :=
  (RET_OK, stores ++ (snd <$> map_items (store_id2store c))).

Definition GetAllStoreID (c : t) (store_ids : gset Z) : RetCode * gset Z :=
  (RET_OK, store_ids ∪ dom (store_id2store c)).

Definition GetStoreByStoreID (c : t) (store_id : Z) : RetCode * option Store_proto :=
  match store_id2store c !! store_id with
  | None => (RET_ERR_RANGE_STORE, None)
  | Some store => (RET_OK, Some store)
  end.

Definition GetStoreIDByAddr (c : t) (addr : Addr) : RetCode * option Z :=
  match addr2store_id c !! EncodeAddr addr with
  | None => (RET_ERR_RANGE_ADDR, None)
  | Some id => (RET_OK, Some id)
  end.

Definition GetStoreByAddr (c : t) (addr : Addr) : RetCode * option Store_proto :=
  match GetStoreIDByAddr c addr with
  | (RET_OK, Some id) => GetStoreByStoreID c id
  | (ret, _) => (ret, None)
  end.

(** [Rebuild] with checks on: the address table is exactly the addresses of
    the stores in the table, each under the store that lists it. *)
Definition wf (c : t) : Prop :=
  (forall id s, store_id2store c !! id = Some s -> store_id s = id) /\
  (forall a id, addr2store_id c !! a = Some id <->
     exists s addr, store_id2store c !! id = Some s /\ addr ∈ addrs s /\ EncodeAddr addr = a).

Lemma check_true b : TopicConfig.check true b = Some tt <-> b = true.
Proof. unfold TopicConfig.check. by destruct b. Qed.

Lemma add_addrs_lookup id l m m' a :
  foldM (add_addr true id) m l = Some m' ->
  (forall i, m' !! a = Some i <->
     m !! a = Some i \/ (i = id /\ exists addr, addr ∈ l /\ EncodeAddr addr = a)) /\
  ((exists addr, addr ∈ l /\ EncodeAddr addr = a) -> m !! a = None).
Proof.
  revert m. induction l as [|x l IH]; intros m Hf.
  { injection Hf as <-. split; [intros i; split; [by left|intros [?|(_ & ? & ?%elem_of_nil & _)]; done]|].
    intros (? & ?%elem_of_nil & _); done. }
  apply foldM_cons in Hf as (m1 & H1 & H2). apply bind_Some in H1 as ([] & Hc & H1).
  apply check_true, bool_decide_eq_true in Hc. simplify_eq.
  destruct (IH _ H2) as [IH1 IH2]. unfold emplace in IH1, IH2. rewrite Hc in IH1, IH2.
  assert (Hcons : (exists addr, addr ∈ x :: l /\ EncodeAddr addr = a) <->
                  EncodeAddr x = a \/ (exists addr, addr ∈ l /\ EncodeAddr addr = a)).
  { split; [intros (? & [->|?]%elem_of_cons & ?)|intros [?|(? & ? & ?)]]; eauto 7 using list_elem_of_here, list_elem_of_further. }
  rewrite Hcons. split.
  - intros i. rewrite IH1. destruct (decide (EncodeAddr x = a)) as [<-|Hne].
    + rewrite lookup_insert_eq, Hc. naive_solver.
    + rewrite lookup_insert_ne by done. naive_solver.
  - intros [<-|Hex]; [done|]. specialize (IH2 Hex).
    destruct (decide (EncodeAddr x = a)) as [<-|Hne]; [done|]. by rewrite lookup_insert_ne in IH2.
Qed.

Lemma rebuild_store_wf c s c' : wf c -> rebuild_store true c s = Some c' -> wf c'.
Proof.
  intros [Hid Ha] Hr. unfold rebuild_store in Hr. split_if_in Hr; [done|].
  apply bind_Some in Hr as ([] & Hc & Hr). apply check_true, bool_decide_eq_true in Hc.
  apply bind_Some in Hr as (m & Hm & Hr). simplify_eq.
  unfold wf, emplace; simpl. rewrite Hc. split.
  - intros id s'. rewrite lookup_insert_Some. naive_solver.
  - intros a id. destruct (add_addrs_lookup _ _ _ _ a Hm) as [-> _]. rewrite Ha.
    destruct (decide (id = store_id s)) as [->|Hne].
    + rewrite lookup_insert_eq, Hc. naive_solver.
    + rewrite lookup_insert_ne by done. naive_solver.
Qed.

Lemma Rebuild_wf stores ret c : Rebuild true stores = Some (ret, c) -> wf c.
Proof.
  unfold Rebuild. intros (c' & Hf & ?)%bind_Some. simplify_eq.
  apply (foldM_inv wf _ _ _ _ rebuild_store_wf) in Hf; [done|].
  split; simpl; [done|]. intros a id. rewrite lookup_empty. split; [done|].
  by intros (? & ? & ?%lookup_empty_Some & _).
Qed.

(** After a checked [Rebuild], [GetStoreByAddr] finds the store that
    lists the address, and fails with [RET_ERR_RANGE_ADDR] exactly when no
    store lists an address with that key. *)
Theorem GetStoreByAddr_correct stores ret c addr :
  Rebuild true stores = Some (ret, c) ->
  match GetStoreByAddr c addr with
  | (RET_OK, Some s) => exists a, a ∈ addrs s /\ EncodeAddr a = EncodeAddr addr /\
                                  store_id2store c !! store_id s = Some s
  | (ret, None) => ret = RET_ERR_RANGE_ADDR /\
      forall id s a, store_id2store c !! id = Some s -> a ∈ addrs s -> EncodeAddr a <> EncodeAddr addr
  | _ => False
  end.
Proof.
  intros Hr. destruct (Rebuild_wf _ _ _ Hr) as [Hid Ha].
  unfold GetStoreByAddr, GetStoreIDByAddr, GetStoreByStoreID.
  destruct (addr2store_id c !! EncodeAddr addr) as [id|] eqn:E.
  - apply Ha in E as (s & a & Hs & Hin & Heq). rewrite Hs. exists a.
    rewrite (Hid _ _ Hs) in *. done.
  - split; [done|]. intros id s a Hs Hin Heq.
    assert (addr2store_id c !! EncodeAddr addr = Some id) by (apply Ha; eauto). congruence.
Qed.
End with_inet.
End StoreConfig.

(** ** [GlobalConfig] *)

Class GlobalConfig := {
  GetTopicConfigByTopicID : Z -> RetCode * option TopicConfig.t;
  GetStoreConfig : Z -> RetCode * option StoreConfig.t;
  GetLastModTime : Z -> Z;
  (* RET_OK comes with a configuration *)
  GetTopicConfig_found topic_id : GetTopicConfigByTopicID topic_id <> (RET_OK, None);
  GetStoreConfig_found topic_id : GetStoreConfig topic_id <> (RET_OK, None);
}.

Lemma GetStoreByAddr_found `{Inet} c addr : StoreConfig.GetStoreByAddr c addr <> (RET_OK, None).
Proof.
  unfold StoreConfig.GetStoreByAddr, StoreConfig.GetStoreIDByAddr, StoreConfig.GetStoreByStoreID.
  by repeat case_match; simplify_eq.
Qed.

Section pub_util.
Context `{GlobalConfig}.

(** [GetPubIDsByStoreID]: the pubs a store serves, all of them when the
    store names none. *)
Definition GetPubIDsByStoreID (topic_id store_id : Z) : RetCode * gset Z :=
  match GetStoreConfig topic_id with
  | (RET_OK, Some store_config) =>
      match StoreConfig.GetStoreByStoreID store_config store_id with
      | (RET_OK, Some store) =>
          match GetTopicConfigByTopicID topic_id with
          | (RET_OK, Some topic_config) =>
              match store_pub_ids store with
              | [] => TopicConfig.GetAllPubID topic_config
              | ids => (RET_OK, list_to_set (filter (fun id =>
                          TopicConfig.IsValidPubID topic_config id = true) ids))
              end
          | (ret, _) => (ret, ∅)
          end
      | (ret, _) => (ret, ∅)
      end
  | (ret, _) => (ret, ∅)
  end.
End pub_util.
