(* ===== verification/Node.v ===== *)
(** * The environment of a server

    What the store and lock servers share of their environment: the
    [phxpaxos::Node] they run on and the lookups that find their topic.
    [propose_error] is the [switch] that store.cpp and lock.cpp have after every
    proposal (store.cpp 514, lock.cpp 605 and 691). *)

From S2P Require Import Prelude RetCode.

Class PaxosNode := {
  GetMinChosenInstanceID : Z -> Z;
  GetNowInstanceID : Z -> Z;
  GetInstanceValue : Z -> Z -> Z * list (string * Z);
  IsIMMaster : Z -> bool;
  GetMaster : Z -> string * Z;
  Paxos_GetInstanceValue_Value_NotExist : Z;
  Paxos_GetInstanceValue_Value_Not_Chosen_Yet : Z;
}.

(** The codes of [Node::Propose]. *)
Class PaxosRet := {
  PaxosTryCommitRet_OK : Z;
  PaxosTryCommitRet_Timeout : Z;
  PaxosTryCommitRet_TooManyThreadWaiting_Reject : Z;
  PaxosTryCommitRet_Value_Size_TooLarge : Z;
}.

Definition propose_error `{PaxosRet} (paxos_ret : Z) : RetCode :=
  if paxos_ret =? PaxosTryCommitRet_Timeout then RET_ERR_PROPOSE_TIMEOUT
  else if paxos_ret =? PaxosTryCommitRet_TooManyThreadWaiting_Reject then RET_ERR_PROPOSE_FAST_REJECT
  else if paxos_ret =? PaxosTryCommitRet_Value_Size_TooLarge then RET_ERR_SIZE_TOO_LARGE
  else RET_ERR_PROPOSE.

Lemma propose_error_not_ok `{PaxosRet} paxos_ret : propose_error paxos_ret <> RET_OK.
Proof. unfold propose_error. by repeat case_match. Qed.

(** The lookups of [GlobalConfig] that find the topic of a server. *)
Class TopicDirectory := {
  GetTopicIDByTopicName : string -> RetCode * Z;
  GetAllTopicID : RetCode * gset Z;
}.
