(* ===== verification/StoreMeta.v ===== *)
(** * The in-memory index of a queue (src/phxqueue/store/storemeta.cpp)

    A queue of the store is the sequence of paxos instances that carry its
    items.  [StoreMetaQueue] keeps their instance ids (the cursor ids) in a
    [std::set<StoreMeta>] ordered by cursor id, each with its position and a
    CRC chained to the previous one, and remembers the last one that was
    dequeued.  Every operation runs under the queue's mutex, so an operation is
    one step on the state.

    [crc32] of zlib is a parameter: the CRC of the eight bytes of a cursor id,
    started from a previous CRC. *)

From S2P Require Import Prelude.

(** ** [StoreMeta] *)

Record StoreMeta := mkMeta {
  cursor_id : Z;   (* uint64_t *)
  meta_idx : Z;    (* uint64_t *)
  meta_crc : Z;    (* uint32_t *)
}.

#[export] Instance StoreMeta_eq_dec : EqDecision StoreMeta.
Proof. solve_decision. Defined.

(** [StoreMeta(cursor_id)] and [StoreMeta()]. *)
Definition StoreMeta_of (cursor_id : Z) : StoreMeta := mkMeta cursor_id 0 0.
Definition StoreMeta_default : StoreMeta := StoreMeta_of UINT64_MAX.

(** [-1 == meta.GetCursorID()]. *)
Definition no_cursor (c : Z) : bool := c =? UINT64_MAX.

Definition meta_lt (m other : StoreMeta) : bool := cursor_id m <? cursor_id other.

Definition SetIndex (m : StoreMeta) (idx : Z) : StoreMeta :=
  mkMeta (cursor_id m) (to_u64 idx) (meta_crc m).

Definition GetIndex (m : StoreMeta) : Z := to_i32 (meta_idx m).

Module StoreMetaQueue.
Section with_crc.
Context (crc32 : Z -> Z -> Z).

Definition UpdateCrc (m : StoreMeta) (pre_crc : Z) : StoreMeta :=
  if meta_crc m =? 0 then mkMeta (cursor_id m) (meta_idx m) (crc32 pre_crc (cursor_id m)) else m.

Definition CheckCrc (m : StoreMeta) (pre_crc : Z) : bool :=
  meta_crc m =? crc32 pre_crc (cursor_id m).

(** [StoreMetaQueueImpl]: the set, and the meta dequeued last. *)
Record t := mk {
  metas : list StoreMeta;
  last_dequeue_meta : StoreMeta;
}.

Definition empty : t := mk [] StoreMeta_default.

(** The next meta after [meta], whether its CRC fits the meta dequeued last,
    and the new state.  [None] is the result [false]. *)
Definition Next (q : t) (meta : StoreMeta) : option (StoreMeta * bool) * t :=
  match metas q with
  | [] => (None, q)
  | _ =>
      let it_next := if no_cursor (cursor_id meta) then metas q
                     else upper_bound cursor_id (cursor_id meta) (metas q) in
      match it_next with
      | [] => (None, q)
      | next_meta :: _ =>
          let last := last_dequeue_meta q in
          let crc_chk_pass :=
            if negb (no_cursor (cursor_id last)) && meta_lt last next_meta
            then CheckCrc next_meta (meta_crc last) else true in
          let last' := if no_cursor (cursor_id last) || meta_lt last next_meta
                       then next_meta else last in
          (Some (next_meta, crc_chk_pass), mk (metas q) last')
      end
  end.

Definition PushBack (q : t) (meta : StoreMeta) : bool * t :=
  if no_cursor (cursor_id meta) then (false, q) else
  match last (metas q) with
  | Some back =>
      if negb (meta_lt back meta) then (false, q) else
      let meta := UpdateCrc meta (meta_crc back) in
      let meta := SetIndex meta (GetIndex back + 1) in
      (true, mk (set_insert cursor_id meta (metas q)) (last_dequeue_meta q))
  | None =>
      let meta := UpdateCrc meta (meta_crc (last_dequeue_meta q)) in
      let meta := SetIndex meta 0 in
      (true, mk (set_insert cursor_id meta (metas q)) (last_dequeue_meta q))
  end.

Definition Front (q : t) : option StoreMeta := head (metas q).
Definition Back (q : t) : option StoreMeta := last (metas q).

Definition EraseFrontTill (q : t) (meta : StoreMeta) : t :=
  if no_cursor (cursor_id meta) then q else
  match metas q with
  | [] => q
  | _ => mk (upper_bound cursor_id (cursor_id meta) (metas q)) (last_dequeue_meta q)
  end.

Definition EraseFrontUntill (q : t) (meta : StoreMeta) : t :=
  if no_cursor (cursor_id meta) then q else
  match metas q with
  | [] => q
  | _ => mk (lower_bound cursor_id (cursor_id meta) (metas q)) (last_dequeue_meta q)
  end.

Definition LowerBound (q : t) (meta : StoreMeta) : option StoreMeta :=
  if no_cursor (cursor_id meta) then None else
  head (lower_bound cursor_id (cursor_id meta) (metas q)).

(** [UpdateDeuqueStat] in the source. *)
Definition UpdateDeuqueStat (q : t) (meta : StoreMeta) : t :=
  if no_cursor (cursor_id meta) then q else
  match lower_bound cursor_id (cursor_id meta) (metas q) with
  | [] => q
  | it :: _ =>
      if no_cursor (cursor_id (last_dequeue_meta q)) || meta_lt (last_dequeue_meta q) it
      then mk (metas q) it else q
  end.

Definition Size (q : t) : Z := to_i32 (Z.of_nat (length (metas q))).

Definition SizeGT (q : t) (meta : StoreMeta) : Z :=
  match upper_bound cursor_id (cursor_id meta) (metas q), last (metas q) with
  | it :: _, Some back => GetIndex back - GetIndex it + 1
  | _, _ => 0
  end.

Definition Clear (q : t) : t := mk [] (last_dequeue_meta q).

Definition ClearDequeueStat (q : t) : t :=
  if negb (no_cursor (cursor_id (last_dequeue_meta q)))
  then mk (metas q) StoreMeta_default else q.

(** ** Well-formed queues

    The cursor ids increase and are real cursor ids, the indices are
    consecutive, and each CRC is chained to the one before. *)

Definition follows (m1 m2 : StoreMeta) : Prop :=
  cursor_id m1 < cursor_id m2 /\ meta_idx m2 = meta_idx m1 + 1 /\
  meta_crc m2 = crc32 (meta_crc m1) (cursor_id m2).

Fixpoint chained (m : StoreMeta) (l : list StoreMeta) : Prop :=
  match l with
  | [] => True
  | m' :: r => follows m m' /\ chained m' r
  end.

Definition meta_ok (m : StoreMeta) : Prop :=
  0 <= cursor_id m < UINT64_MAX /\ 0 <= meta_idx m < INT32_MAX.

Definition wf (q : t) : Prop :=
  match metas q with
  | [] => True
  | m :: r => chained m r
  end /\ Forall meta_ok (metas q).

Lemma chained_sorted m l : chained m l -> key_sorted cursor_id (m :: l).
Proof.
  revert m. induction l as [|m' l IH]; intros m H; [by repeat constructor|].
  destruct H as [(Hlt & _) H]. specialize (IH _ H). constructor; [done|].
  constructor; [done|]. inversion IH as [|?? _ Hall]; subst.
  eapply Forall_impl; [exact Hall|]. simpl. lia.
Qed.

Lemma wf_sorted q : wf q -> key_sorted cursor_id (metas q).
Proof. intros [H _]. destruct (metas q); [constructor|]. by apply chained_sorted. Qed.

Lemma wf_suffix q l lastm : wf q -> l `suffix_of` metas q -> wf (mk l lastm).
Proof.
  intros [Hc Hok] [k Hk]. rewrite Hk in *. split; cbn [metas]; [|by apply Forall_app in Hok as [_ ?]].
  destruct l as [|m l]; [done|]. clear -Hc. destruct k as [|x k]; [done|]. simpl in Hc.
  revert x Hc. induction k as [|y k IH]; intros x [_ H]; [done|]. by eapply IH.
Qed.

Lemma chained_snoc m l x :
  chained m l -> follows (default m (last l)) x -> chained m (l ++ [x]).
Proof.
  revert m. induction l as [|y l IH]; intros m; [done|].
  intros [Hy H] Hx. split; [done|]. apply IH; [done|].
  rewrite last_cons in Hx. by destruct (last l).
Qed.

Lemma elem_below_last q b c :
  wf q -> last (metas q) = Some b -> cursor_id b < c ->
  forall y, y ∈ metas q -> cursor_id y < c.
Proof.
  intros Hq Hb Hlt y Hy.
  pose proof (key_sorted_last_max cursor_id _ _ _ (wf_sorted q Hq) Hy Hb). lia.
Qed.

(** What [PushBack] of a fresh cursor id does to a well-formed queue. *)
Lemma PushBack_cases q c :
  wf q ->
  PushBack q (StoreMeta_of c) =
    (let m pre i := mkMeta c (to_u64 i) (crc32 pre c) in
     if no_cursor c then (false, q) else
     match last (metas q) with
     | None => (true, mk [m (meta_crc (last_dequeue_meta q)) 0] (last_dequeue_meta q))
     | Some b => if cursor_id b <? c
                 then (true, mk (metas q ++ [m (meta_crc b) (GetIndex b + 1)]) (last_dequeue_meta q))
                 else (false, q)
     end).
Proof.
  intros Hq. unfold PushBack. cbn [StoreMeta_of cursor_id]. destruct (no_cursor c); [done|].
  destruct (last (metas q)) as [b|] eqn:Hb; unfold meta_lt, UpdateCrc, SetIndex; simpl.
  - destruct (cursor_id b <? c) eqn:E; simpl; simpl_bool; [|done].
    do 2 f_equal. apply set_insert_above. simpl. eauto using elem_below_last.
  - apply last_None in Hb. by rewrite Hb.
Qed.

Lemma PushBack_wf q c :
  wf q -> 0 <= c <= UINT64_MAX ->
  (forall b, Back q = Some b -> meta_idx b + 1 < INT32_MAX) ->
  wf (PushBack q (StoreMeta_of c)).2.
Proof.
  intros Hq Hc Hidx. rewrite PushBack_cases by done. simpl. unfold no_cursor.
  split_if; [done|]. destruct (last (metas q)) as [b|] eqn:Hb.
  - split_if; [|done]. destruct Hq as [Hch Hok].
    assert (Hb' : meta_ok b) by (eapply Forall_forall; [done|]; by apply last_Some_elem_of).
    assert (HI : to_u64 (GetIndex b + 1) = meta_idx b + 1).
    { unfold GetIndex. destruct Hb'. specialize (Hidx _ Hb).
      rewrite to_i32_id, to_u64_id by ilia. done. }
    split; cbn [metas].
    + destruct (metas q) as [|m l] eqn:Em; [done|]. simpl. apply chained_snoc; [done|].
      rewrite last_cons in Hb. replace (default m (last l)) with b by (clear -Hb; destruct (last l); simpl in *; congruence).
      split_and!; simpl; [done|by rewrite HI|done].
    + apply Forall_app; split; [done|]. constructor; [|done]. split; simpl; [lia|].
      rewrite HI. specialize (Hidx _ Hb). destruct Hb'. lia.
  - split; cbn [metas]; [done|]. repeat constructor; simpl; ilia.
Qed.

(** A fresh cursor id goes to the end. *)
Lemma PushBack_metas q c :
  key_sorted cursor_id (metas q) -> c <> UINT64_MAX ->
  (forall b, last (metas q) = Some b -> cursor_id b < c) ->
  exists m, cursor_id m = c /\
    PushBack q (StoreMeta_of c) = (true, mk (metas q ++ [m]) (last_dequeue_meta q)).
Proof.
  intros Hs Hc Hb. unfold PushBack, no_cursor, meta_lt, UpdateCrc, SetIndex. simpl.
  rewrite (proj2 (Z.eqb_neq _ _)) by done. destruct (last (metas q)) as [b|] eqn:E; simpl.
  - specialize (Hb b eq_refl). rewrite (proj2 (Z.ltb_lt _ _)) by done. simpl.
    rewrite set_insert_above; [eexists; split; [|reflexivity]; done|]. simpl. intros y Hy.
    pose proof (key_sorted_last_max cursor_id _ _ _ Hs Hy E). lia.
  - apply last_None in E. rewrite E. eexists; split; [|reflexivity]; done.
Qed.

(** The metas after a position: all of them from [-1]. *)
Definition above (c : Z) (l : list StoreMeta) : list StoreMeta :=
  if no_cursor c then l else upper_bound cursor_id c l.

Lemma Next_above q c :
  exists ok q', Next q (StoreMeta_of c) = ((fun m => (m, ok)) <$> head (above c (metas q)), q') /\
                metas q' = metas q.
Proof.
  unfold Next, above. cbn [StoreMeta_of cursor_id]. destruct (metas q) eqn:E.
  - exists true, q. rewrite E. by destruct (no_cursor c).
  - destruct (no_cursor c); [by do 2 eexists|].
    destruct (upper_bound cursor_id c (s :: l)); simpl; [exists true, q|do 2 eexists]; done.
Qed.

Lemma above_next c l m r :
  key_sorted cursor_id l -> above c l = m :: r -> cursor_id m <> UINT64_MAX ->
  above (cursor_id m) l = r /\ (c <> UINT64_MAX -> c < cursor_id m).
Proof.
  unfold above, no_cursor. intros Hs. destruct (c =? UINT64_MAX) eqn:Ec; simpl_bool; intros E Hm;
    rewrite (proj2 (Z.eqb_neq (cursor_id m) _)) by done.
  - subst l c. split; [|done]. apply (upper_bound_next cursor_id (cursor_id m - 1)); [done|].
    simpl. by rewrite (proj2 (Z.ltb_lt _ _)) by lia.
  - split; [by apply (upper_bound_next _ c)|]. intros _. by apply upper_bound_head in E as [? _].
Qed.

(** ** The erasures keep exactly the metas above (from) the cursor *)

Lemma EraseFrontTill_filter q c :
  wf q -> c <> UINT64_MAX ->
  metas (EraseFrontTill q (StoreMeta_of c)) = filter (fun m => c < cursor_id m) (metas q).
Proof.
  intros Hq Hc. unfold EraseFrontTill, no_cursor. cbn [StoreMeta_of cursor_id].
  rewrite (proj2 (Z.eqb_neq _ _)) by done. destruct (metas q) eqn:E; [by rewrite E|].
  cbn [metas]. rewrite <-E, upper_bound_filter by (by apply wf_sorted). done.
Qed.

Lemma EraseFrontTill_wf q m : wf q -> wf (EraseFrontTill q m).
Proof.
  intros Hq. unfold EraseFrontTill. case_match; [done|]. case_match eqn:E; [done|].
  apply (wf_suffix q); [done|]. rewrite E. apply upper_bound_suffix.
Qed.

(** ** Indices count *)

Lemma chained_index m l i x :
  chained m l -> (m :: l) !! i = Some x -> meta_idx x = meta_idx m + Z.of_nat i.
Proof.
  revert m i. induction l as [|y l IH]; intros m [|i] H Hx; simpl in Hx; simplify_eq; try lia.
  destruct H as [(_ & Hi & _) H]. rewrite (IH _ _ H Hx). lia.
Qed.

Lemma wf_back_index m l b :
  chained m l -> last (m :: l) = Some b -> meta_idx b - meta_idx m + 1 = Z.of_nat (length (m :: l)).
Proof.
  intros Hc Hb. rewrite last_lookup in Hb. apply (chained_index _ _ _ _ Hc) in Hb.
  simpl in Hb. simpl. lia.
Qed.

(** [SizeGT], which the code computes as a difference of indices, is the
    number of metas above the cursor. *)
Theorem SizeGT_counts q c :
  wf q -> SizeGT q (StoreMeta_of c) =
          Z.of_nat (length (filter (fun m => c < cursor_id m) (metas q))).
Proof.
  intros Hq. unfold SizeGT. cbn [StoreMeta_of cursor_id].
  rewrite <-upper_bound_filter by (by apply wf_sorted).
  destruct (upper_bound cursor_id c (metas q)) as [|it r] eqn:E; [done|].
  pose proof (upper_bound_suffix cursor_id c (metas q)) as Hsuf. rewrite E in Hsuf.
  destruct (wf_suffix q _ (last_dequeue_meta q) Hq Hsuf) as [Hch Hok]. cbn [metas] in *.
  destruct Hsuf as [k Hk].
  assert (Hlast : last (metas q) = last (it :: r)).
  { rewrite Hk, last_app. by rewrite last_cons; destruct (last r). }
  rewrite Hlast. destruct (last (it :: r)) as [b|] eqn:Hb; [|by apply last_None in Hb].
  assert (Hbok : meta_ok b) by (eapply Forall_forall; [exact Hok|]; by apply last_Some_elem_of).
  assert (Hiok : meta_ok it) by (by inversion Hok).
  unfold GetIndex. destruct Hbok, Hiok. rewrite !to_i32_id by ilia.
  by apply wf_back_index.
Qed.

(** [Next] is the successor in the queue: after [-1] it gives the first
    meta, after [c] the least one above [c], and nothing exactly when there
    is none. *)
Theorem Next_successor q c :
  wf q ->
  match Next q (StoreMeta_of c) with
  | (None, q') => q' = q /\ (c <> UINT64_MAX \/ metas q = []) /\
                  (c <> UINT64_MAX -> forall m, m ∈ metas q -> cursor_id m <= c)
  | (Some (m, _), q') =>
      m ∈ metas q /\ metas q' = metas q /\ (c <> UINT64_MAX -> c < cursor_id m) /\
      forall m', m' ∈ metas q -> (c <> UINT64_MAX -> c < cursor_id m') -> cursor_id m <= cursor_id m'
  end.
Proof.
  intros Hq. pose proof (wf_sorted q Hq) as Hs. unfold Next, no_cursor. cbn [StoreMeta_of cursor_id].
  destruct (metas q) as [|m0 l] eqn:E.
  { split_and!; [done|by right|]. intros _ m Hm. by apply elem_of_nil in Hm. }
  destruct (c =? UINT64_MAX) eqn:Ec; simpl_bool.
  - cbn [metas]. split_and!; [left|done..|]. intros m' Hm' _. by eapply key_sorted_head_min.
  - destruct (upper_bound cursor_id c (m0 :: l)) as [|m r] eqn:Eu.
    + split_and!; [done|by left|]. intros _. by apply upper_bound_nil.
    + apply upper_bound_head in Eu as (H1 & H2 & H3); [|done]. cbn [metas].
      split_and!; [done|done|done|]. auto.
Qed.

(** ** Producers, one consumer and the checkpoint on one queue

    The interleavings of the three users of a queue: [Add] pushes the
    instance ids of the paxos group, which increase; a consumer reads with
    [Next] from the cursor it got last ([pos], [-1] at first); the
    checkpoint erases up to a cursor that was consumed.  [pushed] and
    [popped] are the histories, [crc_ok] whether every check passed. *)

Record sys := mkSys {
  queue : t; pos : Z; pushed : list Z; popped : list Z; crc_ok : bool }.

Definition sys_init : sys := mkSys empty UINT64_MAX [] [] true.

Inductive sys_step : sys -> sys -> Prop :=
| step_push s c :
    0 <= c < UINT64_MAX -> (forall x, x ∈ pushed s -> x < c) ->
    sys_step s (mkSys (PushBack (queue s) (StoreMeta_of c)).2 (pos s)
                  (pushed s ++ [c]) (popped s) (crc_ok s))
| step_next s m ok q :
    Next (queue s) (StoreMeta_of (pos s)) = (Some (m, ok), q) ->
    sys_step s (mkSys q (cursor_id m) (pushed s) (popped s ++ [cursor_id m]) (crc_ok s && ok))
| step_erase s c :
    pos s <> UINT64_MAX -> 0 <= c <= pos s ->
    sys_step s (mkSys (EraseFrontTill (queue s) (StoreMeta_of c)) (pos s)
                  (pushed s) (popped s) (crc_ok s)).

(** The metas whose CRCs are chained, starting from a CRC. *)
Fixpoint crc_chain (crc : Z) (l : list StoreMeta) : Prop :=
  match l with
  | [] => True
  | m :: r => meta_crc m = crc32 crc (cursor_id m) /\ crc_chain (meta_crc m) r
  end.

Lemma crc_chain_snoc crc l m :
  crc_chain crc l ->
  meta_crc m = crc32 (default crc (meta_crc <$> last l)) (cursor_id m) ->
  crc_chain crc (l ++ [m]).
Proof.
  revert crc. induction l as [|x l IH]; intros crc; [done|].
  intros [Hx H] Hm. split; [done|]. apply IH; [done|].
  rewrite last_cons in Hm. by destruct (last l).
Qed.

(** The queue is what was consumed and not yet erased, then what is pending. *)
Record sys_inv (s : sys) (old pending : list StoreMeta) : Prop := {
  inv_metas : metas (queue s) = old ++ pending;
  inv_pushed : pushed s = popped s ++ (cursor_id <$> pending);
  inv_sorted : key_sorted cursor_id (old ++ pending);
  inv_bound : Forall (fun m => 0 <= cursor_id m < UINT64_MAX) pending;
  inv_old : Forall (fun m => cursor_id m <= pos s) old;
  inv_crc : crc_chain (meta_crc (last_dequeue_meta (queue s))) pending;
  inv_last_old : old = [] \/ last old = Some (last_dequeue_meta (queue s));
  inv_pos : pos s = cursor_id (last_dequeue_meta (queue s));
  inv_start : pos s = UINT64_MAX -> old = [];
  inv_pending : pos s <> UINT64_MAX ->
     0 <= pos s < UINT64_MAX /\ pos s ∈ popped s /\
     Forall (fun m => pos s < cursor_id m) pending;
  inv_ok : crc_ok s = true;
}.

Lemma sys_inv_push s old pending c :
  sys_inv s old pending -> 0 <= c < UINT64_MAX -> (forall x, x ∈ pushed s -> x < c) ->
  exists m, cursor_id m = c /\
    sys_inv (mkSys (PushBack (queue s) (StoreMeta_of c)).2 (pos s)
               (pushed s ++ [c]) (popped s) (crc_ok s)) old (pending ++ [m]).
Proof.
  intros [Hm Hp Hs Hb Ho Hcrc Hlo Hpos Hst Hpe Hok] Hc Hfresh.
  assert (Hbelow : forall y, y ∈ old ++ pending -> cursor_id y < c).
  { intros y [Hy|Hy]%elem_of_app.
    - rewrite Forall_forall in Ho. specialize (Ho _ Hy).
      destruct (decide (pos s = UINT64_MAX)) as [E|E]; [rewrite Hst in Hy by done; by apply elem_of_nil in Hy|].
      destruct (Hpe E) as (_ & Hin & _).
      assert (pos s < c) by (apply Hfresh; rewrite Hp; apply elem_of_app; by left). lia.
    - apply Hfresh. rewrite Hp. apply elem_of_app. right. by apply list_elem_of_fmap_2. }
  set (b := default (last_dequeue_meta (queue s)) (last (old ++ pending))).
  set (i := match last (old ++ pending) with Some b => GetIndex b + 1 | None => 0 end).
  set (m := mkMeta c (to_u64 i) (crc32 (meta_crc b) c)).
  assert (HP : PushBack (queue s) (StoreMeta_of c) =
               (true, mk (old ++ pending ++ [m]) (last_dequeue_meta (queue s)))).
  { unfold PushBack, no_cursor. cbn [StoreMeta_of cursor_id].
    rewrite (proj2 (Z.eqb_neq _ _)) by lia. rewrite Hm.
    subst m b i. unfold UpdateCrc, SetIndex, meta_lt; simpl.
    destruct (last (old ++ pending)) as [b|] eqn:Eb; simpl.
    - rewrite (proj2 (Z.ltb_lt _ _)) by (by apply Hbelow, last_Some_elem_of). simpl.
      rewrite set_insert_above, app_assoc by done. done.
    - apply last_None in Eb. rewrite Eb. apply app_nil in Eb as [-> ->]. done. }
  exists m. split; [done|]. rewrite HP. cbn [snd].
  constructor; simpl; rewrite ?fmap_app, ?app_assoc; simpl; try done.
  - by rewrite Hp.
  - by apply key_sorted_snoc.
  - apply Forall_app; split; [done|]. by constructor.
  - apply crc_chain_snoc; [done|]. simpl. f_equal. subst b.
    destruct pending as [|x l _] using rev_ind.
    + rewrite app_nil_r. simpl. destruct Hlo as [E|E]; by rewrite E.
    + by rewrite app_assoc, !last_snoc.
  - intros E. destruct (Hpe E) as (? & ? & ?). split_and!; [lia..|done|].
    apply Forall_app; split; [done|]. constructor; [|done]. simpl.
    apply Hfresh. rewrite Hp. apply elem_of_app; by left.
Qed.

Lemma sys_inv_upper s old pending :
  sys_inv s old pending ->
  (if no_cursor (pos s) then old ++ pending
   else upper_bound cursor_id (pos s) (old ++ pending)) = pending.
Proof.
  intros [_ _ Hs _ Ho _ _ _ Hst Hpe _]. unfold no_cursor.
  destruct (pos s =? UINT64_MAX) eqn:E; simpl_bool; [by rewrite Hst|].
  rewrite upper_bound_filter, filter_app by done. destruct (Hpe E) as (_ & _ & Hall).
  rewrite filter_none, filter_all; [done|done|].
  eapply Forall_impl; [exact Ho|]. simpl. lia.
Qed.

Lemma sys_inv_next s old pending m ok q :
  sys_inv s old pending -> Next (queue s) (StoreMeta_of (pos s)) = (Some (m, ok), q) ->
  exists rest, pending = m :: rest /\ ok = true /\
    sys_inv (mkSys q (cursor_id m) (pushed s) (popped s ++ [cursor_id m]) (crc_ok s && ok))
            (old ++ [m]) rest.
Proof.
  intros [Hm Hp Hs Hb Ho Hcrc Hlo Hpos Hst Hpe Hok] HN.
  assert (Hit := sys_inv_upper s old pending ltac:(by constructor)).
  unfold Next in HN. cbn [StoreMeta_of cursor_id] in HN. rewrite Hm in HN.
  destruct (old ++ pending) as [|x0 l0] eqn:E0; [done|]. rewrite <-E0 in *. rewrite Hit in HN.
  destruct pending as [|m' rest]; [done|].
  set (lastm := last_dequeue_meta (queue s)) in *.
  destruct Hcrc as [Hcrcm Hcrc]. inversion Hb as [|?? Hbm Hbr]; subst.
  assert (Hnew : no_cursor (cursor_id lastm) || meta_lt lastm m' = true).
  { apply orb_true_iff. rewrite <-Hpos. unfold no_cursor, meta_lt. rewrite <-Hpos.
    destruct (decide (pos s = UINT64_MAX)) as [E|E]; [left; lia|right].
    destruct (Hpe E) as (_ & _ & Hall). inversion Hall; subst. lia. }
  rewrite Hnew in HN.
  assert (Hchk : (if negb (no_cursor (cursor_id lastm)) && meta_lt lastm m'
                  then CheckCrc m' (meta_crc lastm) else true) = true).
  { split_if; [|done]. unfold CheckCrc. lia. }
  rewrite Hchk in HN. injection HN as <- <- <-.
  exists rest. split_and!; [done..|].
  assert (Hs2 : key_sorted cursor_id (m' :: rest))
    by (apply (key_sorted_suffix _ _ (old ++ m' :: rest)); [by exists old|done]).
  inversion Hs2 as [|?? _ Hgt]; subst.
  constructor; simpl; rewrite <-?app_assoc; try done.
  - rewrite Forall_app. split; [|by repeat constructor].
    rewrite Forall_forall in Ho |- *. intros y Hy. specialize (Ho y Hy).
    destruct (decide (pos s = UINT64_MAX)) as [E|E].
    + rewrite (Hst E) in Hy. by apply elem_of_nil in Hy.
    + destruct (Hpe E) as (_ & _ & Hall). inversion Hall; subst. lia.
  - right. by rewrite last_snoc.
  - intros E. lia.
  - intros _. split_and!; [lia..| |done].
    apply elem_of_app; right. constructor.
  - by rewrite Hok.
Qed.

Lemma sys_inv_erase s old pending c :
  sys_inv s old pending -> pos s <> UINT64_MAX -> 0 <= c <= pos s ->
  exists old', sys_inv (mkSys (EraseFrontTill (queue s) (StoreMeta_of c)) (pos s)
                          (pushed s) (popped s) (crc_ok s)) old' pending.
Proof.
  intros [Hm Hp Hs Hb Ho Hcrc Hlo Hpos Hst Hpe Hok] Hne Hc.
  destruct (Hpe Hne) as (Hrng & _ & Hall).
  set (old' := upper_bound cursor_id c old). exists old'.
  assert (Hso : key_sorted cursor_id old) by (by apply StronglySorted_app in Hs as (_ & ? & _)).
  assert (HE : metas (EraseFrontTill (queue s) (StoreMeta_of c)) = old' ++ pending /\
               last_dequeue_meta (EraseFrontTill (queue s) (StoreMeta_of c)) =
               last_dequeue_meta (queue s)).
  { unfold EraseFrontTill, no_cursor. cbn [StoreMeta_of cursor_id].
    rewrite (proj2 (Z.eqb_neq _ _)) by lia. rewrite Hm.
    destruct (old ++ pending) as [|x l] eqn:E.
    - apply app_nil in E as [-> ->]. by rewrite Hm.
    - rewrite <-E in *. cbn [metas last_dequeue_meta]. split; [|done].
      unfold old'. rewrite !upper_bound_filter, filter_app by done. f_equal.
      apply filter_all. eapply Forall_impl; [exact Hall|]. simpl. lia. }
  destruct HE as [HE1 HE2].
  destruct (upper_bound_suffix cursor_id c old) as [k Hk]. fold old' in Hk.
  constructor; cbn [queue pos pushed popped crc_ok]; rewrite ?HE2; try done.
  - apply (key_sorted_suffix cursor_id _ (old ++ pending)); [|done].
    exists k. by rewrite app_assoc, <-Hk.
  - rewrite Hk in Ho. by apply Forall_app in Ho as [_ ?].
  - destruct Hlo as [E|E]; [left; rewrite E in Hk; by apply symmetry, app_nil in Hk as [_ ?]|].
    destruct old' as [|y l] eqn:Eo; [by left|right]. rewrite <-E, Hk.
    rewrite last_app, !last_cons. by destruct (last l).
Qed.

Lemma sys_reachable_inv s :
  rtc sys_step sys_init s -> exists old pending, sys_inv s old pending.
Proof.
  intros H. apply rtc_ind_r with (P := fun s => exists old pending, sys_inv s old pending) in H; [done| |].
  - exists [], []. constructor; simpl; try done; [constructor|by left].
  - intros s1 s2 _ Hstep (old & pending & Hinv). destruct Hstep.
    + destruct (sys_inv_push _ _ _ c Hinv) as (m & _ & ?); eauto.
    + destruct (sys_inv_next _ _ _ _ _ _ Hinv H0) as (rest & _ & _ & ?); eauto.
    + destruct (sys_inv_erase _ _ _ c Hinv) as (old' & ?); eauto.
Qed.

(** The consumer never starves: as long as something was added that it
    has not read, its next read succeeds. *)
Theorem dequeue_progress s :
  rtc sys_step sys_init s -> pushed s <> popped s ->
  exists m ok q, Next (queue s) (StoreMeta_of (pos s)) = (Some (m, ok), q).
Proof.
  intros H Hne. destruct (sys_reachable_inv s H) as (old & pending & Hinv).
  pose proof (sys_inv_upper _ _ _ Hinv) as Hit.
  assert (Hm := inv_metas _ _ _ Hinv).
  destruct pending as [|m rest].
  { pose proof (inv_pushed _ _ _ Hinv) as Hp. rewrite app_nil_r in Hp. done. }
  unfold Next. cbn [StoreMeta_of cursor_id]. rewrite Hm, Hit.
  destruct (old ++ m :: rest) eqn:E; [by apply app_nil in E as [_ ?]|]. eauto.
Qed.

(** C11: strictly ordered dequeue.  Whatever the interleaving of producers,
    consumer and checkpoint, what the consumer has read is a prefix of what
    was added, in the order it was added, without gap or repetition; what is
    left is still in the queue above the consumer's cursor; and no CRC check
    ever fails. *)
Theorem dequeue_ordered s :
  rtc sys_step sys_init s ->
  exists pending, pushed s = popped s ++ (cursor_id <$> pending) /\
    pending `suffix_of` metas (queue s) /\ crc_ok s = true /\
    StronglySorted Z.lt (pushed s).
Proof.
  intros H. assert (Hs : StronglySorted Z.lt (pushed s)).
  { clear -H. apply rtc_ind_r with (P := fun s => StronglySorted Z.lt (pushed s)) in H; [done|constructor|].
    intros s1 s2 _ Hstep Hs. destruct Hstep; simpl; try done.
    apply StronglySorted_app_2; [|done|repeat constructor].
    intros x y Hx ->%list_elem_of_singleton. eauto. }
  destruct (sys_reachable_inv s H) as (old & pending & Hinv). exists pending.
  split_and!; [apply Hinv|rewrite (inv_metas _ _ _ Hinv); by exists old|apply Hinv|done].
Qed.
End with_crc.
End StoreMetaQueue.
