(* ===== verification/SyncCtrl.v ===== *)
(** * Consumer positions (src/phxqueue/store/syncctrl.cpp) and checkpoints
      (src/phxqueue/store/checkpointstat.cpp)

    [SyncCtrl] keeps, in a memory-mapped array, the positions of every consumer
    group on every queue: [prev_cursor_id], up to which the items are processed,
    and [next_cursor_id], up to which they were handed out.  Each is valid when
    its magic number is set.  The array is the state; an access outside it is
    undefined, and the result is [None].  Every operation holds the mutex of its
    item, so it is one step.

    [CheckPointStat] is the record of one paxos group's checkpoint. *)

From S2P Require Import Prelude RetCode TopicConfig StoreConfig StoreMeta.

Record StoreOption := mkStoreOption {
  opt_addr : Addr;             (* ip, port, paxos_port *)
  opt_ngroup : Z;
  opt_nconsumer_group : Z;
  opt_nqueue : Z;
}.

(** The dimensions an [int] product of the code does not overflow on. *)
Definition opt_ok (opt : StoreOption) : Prop :=
  0 < opt_ngroup opt /\ 0 < opt_nconsumer_group opt /\ 0 < opt_nqueue opt /\
  opt_nconsumer_group opt * opt_nqueue opt <= INT32_MAX.

Definition SYNCCTRL_MAGIC : Z := 9980256.

Record SyncCtrlItem := mkItem {
  prev_magic : Z;
  next_magic : Z;
  prev_cursor_id : Z;
  next_cursor_id : Z;
}.

#[export] Instance SyncCtrlItem_eq_dec : EqDecision SyncCtrlItem.
Proof. solve_decision. Defined.

Definition zero_item : SyncCtrlItem := mkItem 0 0 0 0.

Definition prev_valid (item : SyncCtrlItem) : bool := prev_magic item =? SYNCCTRL_MAGIC.
Definition next_valid (item : SyncCtrlItem) : bool := next_magic item =? SYNCCTRL_MAGIC.

Definition set_prev (item : SyncCtrlItem) (c : Z) : SyncCtrlItem :=
  mkItem SYNCCTRL_MAGIC (next_magic item) c (next_cursor_id item).

Definition set_next (item : SyncCtrlItem) (c : Z) : SyncCtrlItem :=
  mkItem (prev_magic item) SYNCCTRL_MAGIC (prev_cursor_id item) c.

Module SyncCtrl.

(** The mapped file, cut or zero-extended by [ftruncate] to one item per
    pair; the flags are the outcomes of [open], [ftruncate] and [mmap]. *)
Definition Init (opt : StoreOption) (file : list SyncCtrlItem)
    (open_ok ftruncate_ok mmap_ok : bool) : RetCode * option (list SyncCtrlItem) :=
  if negb open_ok then (RET_ERR_SYS, None) else
  if negb ftruncate_ok then (RET_ERR_SYS, None) else
  if negb mmap_ok then (RET_ERR_SYS, None) else
  (RET_OK, Some (resize (Z.to_nat (opt_nconsumer_group opt * opt_nqueue opt)) zero_item file)).

(** [GetIdx]: an [int] expression stored in a [size_t]. *)
Definition GetIdx (nconsumer_group consumer_group_id queue_id : Z) : Z :=
  to_u64 (queue_id * nconsumer_group + consumer_group_id - 1).

Definition bad_arg (opt : StoreOption) (consumer_group_id queue_id : Z) : bool :=
  (consumer_group_id =? 0) || (opt_nconsumer_group opt <? consumer_group_id) ||
  (opt_nqueue opt <=? queue_id).

Definition idx (opt : StoreOption) (consumer_group_id queue_id : Z) : nat :=
  Z.to_nat (GetIdx (opt_nconsumer_group opt) consumer_group_id queue_id).

Definition AdjustNextCursorID (opt : StoreOption) (buf : list SyncCtrlItem)
    (consumer_group_id queue_id prev next : Z) : option (RetCode * Z * Z) :=
  if bad_arg opt consumer_group_id queue_id then Some (RET_ERR_ARG, prev, next) else
  item ← buf !! idx opt consumer_group_id queue_id;
  let reset := negb (next_valid item) || negb (next_cursor_id item =? next) ||
               (negb (no_cursor prev) && (next <? prev)) in
  if reset && negb (prev_valid item) then Some (RET_ERR_CURSOR_NOT_FOUND, prev, next) else
  let prev := if reset then prev_cursor_id item else prev in
  let next := if reset then prev_cursor_id item else next in
  let prev := if prev_valid item && (no_cursor prev || (prev <? prev_cursor_id item))
              then prev_cursor_id item else prev in
  Some (RET_OK, prev, next).

Definition UpdateCursorID (opt : StoreOption) (buf : list SyncCtrlItem)
    (consumer_group_id queue_id cursor_id : Z) (is_prev : bool)
    : option (RetCode * list SyncCtrlItem) :=
  if bad_arg opt consumer_group_id queue_id then Some (RET_ERR_ARG, buf) else
  let i := idx opt consumer_group_id queue_id in
  item ← buf !! i;
  Some (RET_OK, <[i := if is_prev then set_prev item cursor_id else set_next item cursor_id]> buf).

Definition GetCursorID (opt : StoreOption) (buf : list SyncCtrlItem)
    (consumer_group_id queue_id : Z) (is_prev : bool) : option (RetCode * Z) :=
  if bad_arg opt consumer_group_id queue_id then Some (RET_ERR_ARG, UINT64_MAX) else
  item ← buf !! idx opt consumer_group_id queue_id;
  Some (if is_prev
        then if negb (prev_valid item) then (RET_ERR_CURSOR_NOT_FOUND, UINT64_MAX)
             else (RET_OK, prev_cursor_id item)
        else if negb (next_valid item) then (RET_ERR_CURSOR_NOT_FOUND, UINT64_MAX)
             else (RET_OK, next_cursor_id item)).

Definition ClearCursorID (opt : StoreOption) (buf : list SyncCtrlItem)
    (consumer_group_id queue_id : Z) : option (RetCode * list SyncCtrlItem) :=
  if bad_arg opt consumer_group_id queue_id then Some (RET_ERR_ARG, buf) else
  let i := idx opt consumer_group_id queue_id in
  _ ← buf !! i; Some (RET_OK, <[i := zero_item]> buf).

(** [msync] of the item; [msync_ok] is its outcome. *)
Definition Flush (opt : StoreOption) (buf : list SyncCtrlItem)
    (consumer_group_id queue_id : Z) (msync_ok : bool) : option RetCode :=
  if bad_arg opt consumer_group_id queue_id then Some RET_ERR_ARG else
  _ ← buf !! idx opt consumer_group_id queue_id;
  Some (if msync_ok then RET_OK else RET_ERR_SYS).

(** [BaseMgr::GetMetaQueue]: null from [nqueue] on. *)
Definition GetMetaQueue (opt : StoreOption) (queues : list StoreMetaQueue.t) (queue_id : Z)
    : option (option StoreMetaQueue.t) :=
  if opt_nqueue opt <=? queue_id then Some None
  else q ← queues !! Z.to_nat (to_u64 queue_id); Some (Some q).

Definition GetBackLogByCursorID (opt : StoreOption) (queues : list StoreMetaQueue.t)
    (queue_id cursor_id : Z) : option (RetCode * Z) :=
  mq ← GetMetaQueue opt queues queue_id;
  Some match mq with
       | None => (RET_ERR_RANGE_QUEUE, 0)
       | Some q => (RET_OK, if no_cursor cursor_id then StoreMetaQueue.Size q
                            else StoreMetaQueue.SizeGT q (StoreMeta_of cursor_id))
       end.

(** *** [ClearSyncCtrl]: forget the positions of pairs the topic no longer has *)

Definition valid_for_any (topic_config : TopicConfig.t) (pub_ids : gset Z)
    (queue_id consumer_group_id : Z) : bool :=
  existsb (fun pub_id => TopicConfig.IsValidQueue topic_config queue_id pub_id consumer_group_id)
          (set_items pub_ids).

(** The pairs in the order of the two loops. *)
Definition all_pairs (opt : StoreOption) : list (Z * Z) :=
  q ← seqZ 0 (opt_nqueue opt); g ← seqZ 1 (opt_nconsumer_group opt); [(q, g)].

Definition clear_pair (opt : StoreOption) (topic_config : TopicConfig.t) (pub_ids : gset Z)
    (buf : list SyncCtrlItem) (qg : Z * Z) : option (list SyncCtrlItem) :=
  if valid_for_any topic_config pub_ids qg.1 qg.2 then Some buf else
  r ← GetCursorID opt buf qg.2 qg.1 true;
  if is_ok r.1 then r' ← ClearCursorID opt buf qg.2 qg.1; Some r'.2 else Some buf.

(** [last_mod_time] is the thread-local time of the configuration seen last;
    the calls to the configuration return early on failure. *)
Definition ClearSyncCtrl `{Inet, GlobalConfig} (opt : StoreOption) (topic_id : Z)
    (config_mod_time last_mod_time : Z) (buf : list SyncCtrlItem)
    : option (Z * list SyncCtrlItem) :=
  match GetTopicConfigByTopicID topic_id with
  | (RET_OK, Some topic_config) =>
      if last_mod_time =? config_mod_time then Some (last_mod_time, buf) else
      match GetStoreConfig topic_id with
      | (RET_OK, Some store_config) =>
          match StoreConfig.GetStoreIDByAddr store_config (opt_addr opt) with
          | (RET_OK, Some store_id) =>
              match GetPubIDsByStoreID topic_id store_id with
              | (RET_OK, pub_ids) =>
                  buf ← foldM (clear_pair opt topic_config pub_ids) buf (all_pairs opt);
                  Some (config_mod_time, buf)
              | _ => Some (config_mod_time, buf)
              end
          | _ => Some (config_mod_time, buf)
          end
      | _ => Some (config_mod_time, buf)
      end
  | _ => Some (last_mod_time, buf)
  end.

(** *** [SyncCursorID]: a follower takes over the positions of the master *)

Record ConsumerGroupDetail := mkDetail { d_consumer_group_id : Z; d_prev_cursor_id : Z }.
Record QueueDetail := mkQueueDetail { d_queue_id : Z; d_details : list ConsumerGroupDetail }.

(** One round of the inner loop: the code so far and the new array.  A code
    other than [RET_OK] ends the function. *)
Definition sync_detail (opt : StoreOption) (queue_id : Z) (buf : list SyncCtrlItem)
    (d : ConsumerGroupDetail) : option (RetCode * list SyncCtrlItem) :=
  r ← GetCursorID opt buf (d_consumer_group_id d) queue_id true;
  if negb (is_err r.1) && (as_integer r.1 =? 0) && (d_prev_cursor_id d <=? r.2)
  then Some (RET_OK, buf) else
  u ← UpdateCursorID opt buf (d_consumer_group_id d) queue_id (d_prev_cursor_id d) true;
  if is_ok u.1
  then UpdateCursorID opt u.2 (d_consumer_group_id d) queue_id (d_prev_cursor_id d) false
  else Some u.

Fixpoint sync_details (opt : StoreOption) (queue_id : Z) (buf : list SyncCtrlItem)
    (l : list ConsumerGroupDetail) : option (RetCode * list SyncCtrlItem) :=
  match l with
  | [] => Some (RET_OK, buf)
  | d :: r =>
      u ← sync_detail opt queue_id buf d;
      if is_ok u.1 then sync_details opt queue_id u.2 r else Some u
  end.

(** [max_prev_cursor_id] at the end of the inner loop. *)
Definition max_prev (l : list ConsumerGroupDetail) : Z :=
  foldl (fun m d => if no_cursor m || (m <? d_prev_cursor_id d) then d_prev_cursor_id d else m)
        UINT64_MAX l.

Fixpoint SyncCursorID (opt : StoreOption) (buf : list SyncCtrlItem)
    (queues : list StoreMetaQueue.t) (l : list QueueDetail)
    : option (RetCode * list SyncCtrlItem * list StoreMetaQueue.t) :=
  match l with
  | [] => Some (RET_OK, buf, queues)
  | qd :: r =>
      u ← sync_details opt (d_queue_id qd) buf (d_details qd);
      if negb (is_ok u.1) then Some (u.1, u.2, queues) else
      (* a null queue is dereferenced: undefined *)
      mq ← GetMetaQueue opt queues (d_queue_id qd);
      q ← mq;
      let m := max_prev (d_details qd) in
      let q' := if no_cursor m then StoreMetaQueue.ClearDequeueStat q
                else StoreMetaQueue.UpdateDeuqueStat q (StoreMeta_of m) in
      SyncCursorID opt u.2 (<[Z.to_nat (to_u64 (d_queue_id qd)) := q']> queues) r
  end.

(** ** The array as a table of pairs *)

Definition pair_ok (opt : StoreOption) (consumer_group_id queue_id : Z) : Prop :=
  1 <= consumer_group_id <= opt_nconsumer_group opt /\ 0 <= queue_id < opt_nqueue opt.

Definition buf_ok (opt : StoreOption) (buf : list SyncCtrlItem) : Prop :=
  Z.of_nat (length buf) = opt_nconsumer_group opt * opt_nqueue opt.

Lemma bad_arg_pair_ok opt g q : pair_ok opt g q -> bad_arg opt g q = false.
Proof. intros [? ?]. unfold bad_arg. lia. Qed.

Lemma idx_value opt g q :
  opt_ok opt -> pair_ok opt g q ->
  Z.of_nat (idx opt g q) = q * opt_nconsumer_group opt + (g - 1) /\
  q * opt_nconsumer_group opt + (g - 1) < opt_nconsumer_group opt * opt_nqueue opt.
Proof.
  intros (_ & Hn & _ & Hm) [Hg Hq]. unfold idx, GetIdx.
  set (n := opt_nconsumer_group opt) in *. set (nq := opt_nqueue opt) in *.
  assert (H1 : 0 <= q * n) by (apply Z.mul_nonneg_nonneg; lia).
  assert (H2 : (q + 1) * n <= nq * n) by (apply Z.mul_le_mono_nonneg_r; lia).
  rewrite to_u64_id by ilia. rewrite Z2Nat.id by lia. lia.
Qed.

Lemma idx_inj opt g q g' q' :
  opt_ok opt -> pair_ok opt g q -> pair_ok opt g' q' ->
  Z.of_nat (idx opt g q) < opt_nconsumer_group opt * opt_nqueue opt /\
  (idx opt g q = idx opt g' q' -> g = g' /\ q = q').
Proof.
  intros Ho Hp Hp'. destruct (idx_value _ _ _ Ho Hp) as [E1 ?].
  destruct (idx_value _ _ _ Ho Hp') as [E2 ?]. split; [lia|]. intros E. rewrite E in E1.
  destruct Ho as (_ & Hn & _). destruct Hp as [? ?], Hp' as [? ?].
  set (n := opt_nconsumer_group opt) in *.
  destruct (Z.lt_trichotomy q q') as [Hlt|[->|Hlt]]; [|lia|].
  - assert ((q + 1) * n <= q' * n) by (apply Z.mul_le_mono_nonneg_r; lia). lia.
  - assert ((q' + 1) * n <= q * n) by (apply Z.mul_le_mono_nonneg_r; lia). lia.
Qed.

(** Every pair within the dimensions has its own item inside the array:
    no access of the positions is out of bounds and no two pairs share an
    item. *)
Theorem idx_bounds_inj opt g q g' q' :
  opt_ok opt -> pair_ok opt g q -> pair_ok opt g' q' ->
  Z.of_nat (idx opt g q) < opt_nconsumer_group opt * opt_nqueue opt /\
  (idx opt g q = idx opt g' q' -> g = g' /\ q = q').
Proof. apply idx_inj. Qed.

Lemma lookup_item opt buf g q :
  opt_ok opt -> buf_ok opt buf -> pair_ok opt g q -> is_Some (buf !! idx opt g q).
Proof.
  intros Ho Hb Hp. apply lookup_lt_is_Some. destruct (idx_value _ _ _ Ho Hp). unfold buf_ok in Hb. lia.
Qed.

(** The guard of the operations lets negative consumer groups through:
    group [-1] of queue 0 passes it and the access lands outside the array. *)
Theorem negative_group_out_of_bounds opt buf :
  opt_ok opt -> buf_ok opt buf ->
  bad_arg opt (-1) 0 = false /\ buf !! idx opt (-1) 0 = None /\
  GetCursorID opt buf (-1) 0 true = None.
Proof.
  intros (_ & Hn & Hq & Hm) Hb.
  assert (Hbad : bad_arg opt (-1) 0 = false) by (unfold bad_arg; lia).
  assert (Hidx : buf !! idx opt (-1) 0 = None).
  { apply lookup_ge_None. unfold idx, GetIdx, buf_ok in *.
    replace (0 * opt_nconsumer_group opt + -1 - 1) with (-2) by lia. change (to_u64 (-2)) with 18446744073709551614. ilia. }
  split_and!; [done..|]. unfold GetCursorID. by rewrite Hbad, Hidx.
Qed.

Definition item_of (opt : StoreOption) (buf : list SyncCtrlItem) (g q : Z) : SyncCtrlItem :=
  default zero_item (buf !! idx opt g q).

Section ops.
Context (opt : StoreOption) (Hopt : opt_ok opt).

Lemma item_of_lookup buf g q :
  buf_ok opt buf -> pair_ok opt g q -> buf !! idx opt g q = Some (item_of opt buf g q).
Proof. intros Hb Hp. unfold item_of. by destruct (lookup_item _ _ _ _ Hopt Hb Hp) as [? ->]. Qed.

Lemma item_of_insert buf g q g' q' x :
  buf_ok opt buf -> pair_ok opt g q -> pair_ok opt g' q' ->
  item_of opt (<[idx opt g q := x]> buf) g' q' =
    if decide (g = g' /\ q = q') then x else item_of opt buf g' q'.
Proof.
  intros Hb Hp Hp'. unfold item_of. destruct (idx_inj _ _ _ _ _ Hopt Hp Hp') as [? Hinj].
  case_decide as E.
  - destruct E as [<- <-]. rewrite list_lookup_insert_eq; [done|]. unfold buf_ok in Hb. lia.
  - rewrite list_lookup_insert_ne; [done|]. naive_solver.
Qed.

Lemma buf_ok_insert buf i x : buf_ok opt buf -> buf_ok opt (<[i := x]> buf).
Proof. unfold buf_ok. by rewrite length_insert. Qed.

Lemma GetCursorID_item buf g q b :
  buf_ok opt buf -> pair_ok opt g q ->
  GetCursorID opt buf g q b =
    let item := item_of opt buf g q in
    Some (if b then if prev_valid item then (RET_OK, prev_cursor_id item)
                    else (RET_ERR_CURSOR_NOT_FOUND, UINT64_MAX)
          else if next_valid item then (RET_OK, next_cursor_id item)
               else (RET_ERR_CURSOR_NOT_FOUND, UINT64_MAX)).
Proof.
  intros Hb Hp. unfold GetCursorID. rewrite bad_arg_pair_ok, item_of_lookup by done. simpl.
  by destruct b, (prev_valid (item_of opt buf g q)), (next_valid (item_of opt buf g q)).
Qed.

Lemma UpdateCursorID_item buf g q c b :
  buf_ok opt buf -> pair_ok opt g q ->
  UpdateCursorID opt buf g q c b =
    Some (RET_OK, <[idx opt g q := (if b then set_prev else set_next) (item_of opt buf g q) c]> buf).
Proof.
  intros Hb Hp. unfold UpdateCursorID. rewrite bad_arg_pair_ok, item_of_lookup by done.
  by destruct b.
Qed.

(** A position written by [UpdateCursorID] is what [GetCursorID] reads
    for that group, queue and kind, and every other position is untouched. *)
Theorem GetCursorID_UpdateCursorID buf g q c b g' q' b' :
  buf_ok opt buf -> pair_ok opt g q -> pair_ok opt g' q' ->
  exists buf', UpdateCursorID opt buf g q c b = Some (RET_OK, buf') /\ buf_ok opt buf' /\
    GetCursorID opt buf' g' q' b' =
      if decide (g = g' /\ q = q' /\ b = b') then Some (RET_OK, c)
      else GetCursorID opt buf g' q' b'.
Proof.
  intros Hb Hp Hp'. rewrite UpdateCursorID_item by done. eexists. split; [done|].
  split; [by apply buf_ok_insert|].
  rewrite !GetCursorID_item, item_of_insert by auto using buf_ok_insert.
  destruct (decide (g = g' /\ q = q')) as [[<- <-]|Hne].
  - destruct b, b'; simpl; try (rewrite decide_False by naive_solver; done);
      rewrite decide_True by done; done.
  - rewrite decide_False by naive_solver. done.
Qed.

(** The positions of an item: processed up to [prev], handed out up to
    [next], never further back than processed. *)
Definition ordered (item : SyncCtrlItem) : Prop :=
  prev_valid item = true -> next_valid item = true -> prev_cursor_id item <= next_cursor_id item.

(** [AdjustNextCursorID]: when the client's [next] is the server's it is
    kept, otherwise reading restarts at the server's [prev]; [prev] never
    falls behind the server's; and the pair handed back is in order, so no
    item between the two positions is lost. *)
Theorem AdjustNextCursorID_correct buf g q prev next :
  buf_ok opt buf -> pair_ok opt g q ->
  is_u64 prev -> is_u64 next -> is_u64 (prev_cursor_id (item_of opt buf g q)) ->
  ordered (item_of opt buf g q) ->
  let item := item_of opt buf g q in
  exists ret prev' next',
    AdjustNextCursorID opt buf g q prev next = Some (ret, prev', next') /\
    (ret = RET_ERR_CURSOR_NOT_FOUND /\ prev_valid item = false /\ prev' = prev /\ next' = next \/
     ret = RET_OK /\
     (next' = next /\ next_valid item = true /\ next_cursor_id item = next \/
      next' = prev_cursor_id item /\ prev' = prev_cursor_id item /\ prev_valid item = true) /\
     (prev_valid item = true -> prev_cursor_id item <= prev') /\
     (prev_valid item = true \/ prev <> UINT64_MAX -> prev' <= next')).
Proof.
  intros Hb Hp Hpr Hne Hip Hord item. unfold AdjustNextCursorID.
  rewrite bad_arg_pair_ok, item_of_lookup by done. fold item. simpl.
  unfold ordered in Hord. fold item in Hord, Hip.
  destruct (negb (next_valid item) || negb (next_cursor_id item =? next) ||
            (negb (no_cursor prev) && (next <? prev))) eqn:Er; cbn [andb].
  - destruct (prev_valid item) eqn:Ep; cbn [negb andb]; do 3 eexists; (split; [reflexivity|]);
      [right|left; by split_and!].
    assert (E : (if no_cursor (prev_cursor_id item) || (prev_cursor_id item <? prev_cursor_id item)
                 then prev_cursor_id item else prev_cursor_id item) = prev_cursor_id item)
      by (by case_match).
    rewrite E. split_and!; [done|by right|done|done].
  - apply orb_false_iff in Er as [[En%negb_false_iff Eq%negb_false_iff]%orb_false_iff Ec].
    apply Z.eqb_eq in Eq. unfold no_cursor in *.
    do 3 eexists; (split; [reflexivity|]); right.
    destruct (prev_valid item) eqn:Ep; cbn [andb].
    + specialize (Hord eq_refl En). destruct (prev =? UINT64_MAX) eqn:E1; simpl_bool; cbn [orb negb] in *.
      * split_and!; [done|by left|done|lia].
      * destruct (prev <? prev_cursor_id item) eqn:E2; simpl_bool; split_and!;
          [done|by left|lia|lia|done|by left|lia|lia].
    + split_and!; [done|by left|done|]. intros [?|Hne']; [done|].
      rewrite (proj2 (Z.eqb_neq _ _)) in Ec by done. cbn [negb andb] in Ec. lia.
Qed.

(** ** Positions only move forward on a follower *)

Definition advances (item item' : SyncCtrlItem) : Prop :=
  (prev_valid item = true -> prev_valid item' = true /\ prev_cursor_id item <= prev_cursor_id item') /\
  (ordered item -> ordered item').

Definition all_advance (buf buf' : list SyncCtrlItem) : Prop :=
  buf_ok opt buf' /\
  forall g q, pair_ok opt g q -> advances (item_of opt buf g q) (item_of opt buf' g q).

#[local] Instance advances_preorder : PreOrder advances.
Proof.
  split; [by intros i; split|]. intros i1 i2 i3 [H1 O1] [H2 O2]. split; [|auto].
  intros Hv. destruct (H1 Hv) as [Hv2 ?]. destruct (H2 Hv2). split; [done|lia].
Qed.

Lemma all_advance_refl buf : buf_ok opt buf -> all_advance buf buf.
Proof. intros Hb. split; [done|]. done. Qed.

Lemma all_advance_trans b1 b2 b3 : all_advance b1 b2 -> all_advance b2 b3 -> all_advance b1 b3.
Proof. intros [? H1] [? H2]. split; [done|]. intros g q Hp. etrans; eauto. Qed.

(** Where a position is at least [c]. *)
Definition reached (buf : list SyncCtrlItem) (q : Z) (d : ConsumerGroupDetail) : Prop :=
  let item := item_of opt buf (d_consumer_group_id d) q in
  prev_valid item = true /\ d_prev_cursor_id d <= prev_cursor_id item.

Lemma reached_advance b1 b2 q d :
  pair_ok opt (d_consumer_group_id d) q -> all_advance b1 b2 -> reached b1 q d -> reached b2 q d.
Proof.
  intros Hp [_ H] [Hv Hc]. destruct (H _ _ Hp) as [Ha _]. destruct (Ha Hv). split; [done|lia].
Qed.

Lemma sync_detail_advances buf q d :
  buf_ok opt buf -> pair_ok opt (d_consumer_group_id d) q ->
  exists buf', sync_detail opt q buf d = Some (RET_OK, buf') /\ all_advance buf buf' /\
               reached buf' q d.
Proof.
  intros Hb Hp. destruct d as [g c]. cbn [d_consumer_group_id d_prev_cursor_id] in *.
  unfold sync_detail. cbn [d_consumer_group_id d_prev_cursor_id].
  rewrite GetCursorID_item by done. set (item := item_of opt buf g q). cbn [mbind option_bind].
  destruct (decide (prev_valid item = true /\ c <= prev_cursor_id item)) as [[Hv Hc]|Hn].
  - rewrite Hv. cbn [fst snd]. change (is_err RET_OK) with false. change (as_integer RET_OK =? 0) with true.
    rewrite (proj2 (Z.leb_le _ _)) by done. exists buf. split; [done|].
    split; [by apply all_advance_refl|]. by split.
  - assert (Hc : negb (is_err (if prev_valid item then (RET_OK, prev_cursor_id item)
                   else (RET_ERR_CURSOR_NOT_FOUND, UINT64_MAX)).1) &&
                 (as_integer (if prev_valid item then (RET_OK, prev_cursor_id item)
                   else (RET_ERR_CURSOR_NOT_FOUND, UINT64_MAX)).1 =? 0) &&
                 (c <=? (if prev_valid item then (RET_OK, prev_cursor_id item)
                   else (RET_ERR_CURSOR_NOT_FOUND, UINT64_MAX)).2) = false).
    { destruct (prev_valid item) eqn:Ev; [|done]. cbn.
      apply Z.leb_gt. destruct (decide (c <= prev_cursor_id item)); [|lia]. naive_solver. }
    rewrite Hc. rewrite UpdateCursorID_item by done. fold item. cbn [mbind option_bind fst snd].
    change (is_ok RET_OK) with true.
    assert (Hb1 : buf_ok opt (<[idx opt g q:=set_prev item c]> buf)) by (by apply buf_ok_insert).
    cbn iota. rewrite UpdateCursorID_item, item_of_insert by done. rewrite decide_True by done.
    eexists. split; [reflexivity|].
    assert (Hit : forall g' q', pair_ok opt g' q' ->
       item_of opt (<[idx opt g q:=set_next (set_prev item c) c]> (<[idx opt g q:=set_prev item c]> buf)) g' q' =
       if decide (g = g' /\ q = q') then set_next (set_prev item c) c else item_of opt buf g' q').
    { intros g' q' Hp'. rewrite !item_of_insert by done. by case_decide. }
    split; [split; [by apply buf_ok_insert|]|].
    + intros g' q' Hp'. rewrite Hit by done. case_decide as E; [destruct E as [<- <-]|done].
      fold item. split; [|intros _ _ _; simpl; lia].
      intros Hv. split; [done|]. simpl. destruct (decide (c <= prev_cursor_id item)); [|lia]. naive_solver.
    + unfold reached. cbn [d_consumer_group_id d_prev_cursor_id]. rewrite Hit, decide_True by done.
      split; [done|]. simpl. lia.
Qed.

Lemma sync_details_advance buf q l :
  buf_ok opt buf -> Forall (fun d => pair_ok opt (d_consumer_group_id d) q) l ->
  exists buf', sync_details opt q buf l = Some (RET_OK, buf') /\ all_advance buf buf' /\
               Forall (reached buf' q) l.
Proof.
  intros Hb Hl. revert buf Hb. induction Hl as [|d l Hd _ IH]; intros buf Hb.
  { exists buf. split; [done|]. by split; [apply all_advance_refl|]. }
  destruct (sync_detail_advances buf q d Hb Hd) as (b1 & H1 & Ha1 & Hr1).
  destruct (IH b1) as (b2 & H2 & Ha2 & Hr2); [apply Ha1|].
  exists b2. cbn [sync_details]. rewrite H1. cbn. split; [done|].
  split; [by eapply all_advance_trans|]. constructor; [|done]. by eapply reached_advance.
Qed.

Definition details_ok (l : list QueueDetail) : Prop :=
  Forall (fun qd => 0 <= d_queue_id qd < opt_nqueue opt /\
    Forall (fun d => pair_ok opt (d_consumer_group_id d) (d_queue_id qd)) (d_details qd)) l.

Lemma SyncCursorID_ok buf queues l :
  buf_ok opt buf -> Z.of_nat (length queues) = opt_nqueue opt -> details_ok l ->
  exists buf' queues', SyncCursorID opt buf queues l = Some (RET_OK, buf', queues') /\
    all_advance buf buf' /\
    Forall (fun qd => Forall (reached buf' (d_queue_id qd)) (d_details qd)) l /\
    (StoreMetaQueue.metas <$> queues') = (StoreMetaQueue.metas <$> queues).
Proof.
  intros Hb Hq Hl. revert buf queues Hb Hq. induction Hl as [|[qid ds] l [Hqid Hds] Hrest IH]; intros buf queues Hb Hq.
  { exists buf, queues. split; [done|]. split; [by apply all_advance_refl|done]. }
  cbn [d_queue_id d_details] in *.
  destruct (sync_details_advance buf qid ds Hb Hds) as (b1 & H1 & Ha1 & Hr1).
  cbn [SyncCursorID d_queue_id d_details]. rewrite H1. cbn [mbind option_bind fst snd].
  change (is_ok RET_OK) with true. cbn [negb].
  assert (Hu : is_u64 qid) by (destruct Hopt as (? & ? & ? & ?); unfold_ints; nia).
  unfold GetMetaQueue. rewrite (proj2 (Z.leb_gt _ _)) by lia. rewrite to_u64_id by done.
  destruct (lookup_lt_is_Some_2 queues (Z.to_nat qid)) as [mq Hmq]; [lia|].
  rewrite Hmq. cbn [mbind option_bind].
  set (q' := if no_cursor (max_prev ds) then _ else _).
  destruct (IH b1 (<[Z.to_nat qid := q']> queues)) as (b2 & qs2 & H2 & Ha2 & Hr2 & Hm2);
    [apply Ha1|by rewrite length_insert|].
  exists b2, qs2. split; [exact H2|]. split; [by eapply all_advance_trans|]. split.
  - constructor; [|done]. cbn [d_queue_id d_details].
    eapply Forall_impl; [apply Forall_and; split; [exact Hds|exact Hr1]|].
    intros d [Hp Hr]. by eapply reached_advance.
  - rewrite Hm2, list_fmap_insert. apply list_insert_id. rewrite list_lookup_fmap, Hmq. simpl. f_equal.
    subst q'. unfold StoreMetaQueue.ClearDequeueStat, StoreMetaQueue.UpdateDeuqueStat.
    repeat case_match; done.
Qed.

(** A follower that applies the master's positions succeeds, ends with
    every position at least where the master's is, and never moves a
    position back; positions that were in order stay in order. *)
Theorem SyncCursorID_advances buf queues l :
  buf_ok opt buf -> Z.of_nat (length queues) = opt_nqueue opt -> details_ok l ->
  exists buf' queues', SyncCursorID opt buf queues l = Some (RET_OK, buf', queues') /\
    all_advance buf buf' /\
    Forall (fun qd => Forall (reached buf' (d_queue_id qd)) (d_details qd)) l /\
    (StoreMetaQueue.metas <$> queues') = (StoreMetaQueue.metas <$> queues).
Proof. exact (SyncCursorID_ok buf queues l). Qed.

(** ** Clearing *)

Definition cleared (topic_config : TopicConfig.t) (pub_ids : gset Z) (qg : Z * Z)
    (item : SyncCtrlItem) : SyncCtrlItem :=
  if valid_for_any topic_config pub_ids qg.1 qg.2 then item
  else if prev_valid item then zero_item else item.

Lemma clear_pairs_items tc pubs l buf :
  buf_ok opt buf -> Forall (fun qg => pair_ok opt qg.2 qg.1) l ->
  exists buf', foldM (clear_pair opt tc pubs) buf l = Some buf' /\ buf_ok opt buf' /\
    forall g q, pair_ok opt g q ->
      item_of opt buf' g q = if decide ((q, g) ∈ l) then cleared tc pubs (q, g) (item_of opt buf g q)
                             else item_of opt buf g q.
Proof.
  intros Hb Hl. revert buf Hb. induction Hl as [|[q0 g0] l Hp0 _ IH]; intros buf Hb.
  { exists buf. split_and!; [done..|]. intros. by rewrite decide_False by apply not_elem_of_nil. }
  cbn [fst snd] in Hp0.
  assert (H1 : exists b1, clear_pair opt tc pubs buf (q0, g0) = Some b1 /\ buf_ok opt b1 /\
    forall g q, pair_ok opt g q -> item_of opt b1 g q =
      if decide ((q, g) = (q0, g0)) then cleared tc pubs (q, g) (item_of opt buf g q) else item_of opt buf g q).
  { unfold clear_pair, cleared. cbn [fst snd].
    destruct (valid_for_any tc pubs q0 g0) eqn:Ev.
    { exists buf. split_and!; [done..|]. intros g q _. case_decide as E; [|done].
      injection E as -> ->. by rewrite Ev. }
    rewrite GetCursorID_item by done. cbn [mbind option_bind].
    destruct (prev_valid (item_of opt buf g0 q0)) eqn:Ep; cbn [fst].
    - change (is_ok RET_OK) with true. cbn iota. unfold ClearCursorID.
      rewrite bad_arg_pair_ok, item_of_lookup by done. cbn [mbind option_bind snd].
      eexists. split; [done|]. split; [by apply buf_ok_insert|]. intros g q Hp.
      rewrite item_of_insert by done. case_decide as E.
      + destruct E as [<- <-]. rewrite decide_True by done. by rewrite Ev, Ep.
      + rewrite decide_False by naive_solver. done.
    - change (is_ok RET_ERR_CURSOR_NOT_FOUND) with false. cbn iota. exists buf. split_and!; [done..|].
      intros g q _. case_decide as E; [|done]. injection E as -> ->. by rewrite Ev, Ep. }
  destruct H1 as (b1 & H1 & Hb1 & Hi1). destruct (IH b1 Hb1) as (b2 & H2 & Hb2 & Hi2).
  exists b2. split; [apply foldM_cons; eauto|]. split; [done|]. intros g q Hp.
  rewrite Hi2, Hi1 by done.
  assert (Hidem : forall i, cleared tc pubs (q, g) (cleared tc pubs (q, g) i) = cleared tc pubs (q, g) i).
  { intros i. unfold cleared. cbn [fst snd]. destruct (valid_for_any tc pubs q g); [done|].
    destruct (prev_valid i) eqn:E; [done|by rewrite E]. }
  destruct (decide ((q, g) = (q0, g0))) as [E|Hne].
  - injection E as -> ->. rewrite (decide_True (P := (q0, g0) ∈ (q0, g0) :: l)) by constructor.
    case_decide; [apply Hidem|done].
  - destruct (decide ((q, g) ∈ l)) as [Hin|Hin].
    + rewrite decide_True; [done|]. by apply list_elem_of_further.
    + rewrite decide_False; [done|]. by intros [?|?]%elem_of_cons.
Qed.

Lemma elem_of_all_pairs g q : (q, g) ∈ all_pairs opt <-> pair_ok opt g q.
Proof.
  unfold all_pairs, pair_ok. rewrite list_elem_of_bind. split.
  - intros (q' & (g' & E%list_elem_of_singleton & Hg)%list_elem_of_bind & Hq); simplify_eq.
    apply elem_of_seqZ in Hg, Hq. lia.
  - intros [? ?]. exists q. rewrite list_elem_of_bind. split; [|apply elem_of_seqZ; lia].
    exists g. split; [constructor|apply elem_of_seqZ; lia].
Qed.

(** When the configuration of the topic changed, [ClearSyncCtrl] erases
    exactly the positions of the (queue, group) pairs that no pub of this
    store consumes any more, and keeps every other position. *)
Theorem ClearSyncCtrl_correct `{Inet, GlobalConfig} topic_id tc sc sid pubs cmt lmt buf :
  buf_ok opt buf ->
  GetTopicConfigByTopicID topic_id = (RET_OK, Some tc) ->
  GetStoreConfig topic_id = (RET_OK, Some sc) ->
  StoreConfig.GetStoreIDByAddr sc (opt_addr opt) = (RET_OK, Some sid) ->
  GetPubIDsByStoreID topic_id sid = (RET_OK, pubs) ->
  exists buf', ClearSyncCtrl opt topic_id cmt lmt buf = Some (cmt, buf') /\
    forall g q, pair_ok opt g q ->
      item_of opt buf' g q = if lmt =? cmt then item_of opt buf g q
                             else cleared tc pubs (q, g) (item_of opt buf g q).
Proof.
  intros Hb E1 E2 E3 E4. unfold ClearSyncCtrl. rewrite E1. case_match eqn:El.
  { simpl_bool. subst. by exists buf. }
  rewrite E2, E3, E4.
  destruct (clear_pairs_items tc pubs (all_pairs opt) buf Hb) as (b' & Hf & _ & Hi).
  { apply Forall_forall. intros [q g] Hin. by apply elem_of_all_pairs. }
  exists b'. rewrite Hf. split; [done|]. intros g q Hp. rewrite Hi by done.
  by rewrite decide_True by (by apply elem_of_all_pairs).
Qed.
End ops.
End SyncCtrl.

(** ** [CheckPointStat] *)

Definition CHECKPOINTSTAT_MAGIC : Z := 9970256.

Module CheckPointStat.
Record t := mk { magic : Z; cp : Z }.

Definition zero : t := mk 0 0.

Definition Init (dir file : string) (content : option t) (open_ok ftruncate_ok mmap_ok : bool)
    : RetCode * option t :=
  if bool_decide (dir = ""%string) || bool_decide (file = ""%string) then (RET_ERR_ARG, None) else
  if negb open_ok then (RET_ERR_SYS, None) else
  if negb ftruncate_ok then (RET_ERR_SYS, None) else
  if negb mmap_ok then (RET_ERR_SYS, None) else
  (RET_OK, Some (default zero content)).

Definition GetCheckPoint (s : t) : RetCode * Z :=
  (RET_OK, if magic s =? CHECKPOINTSTAT_MAGIC then cp s else UINT64_MAX).

(** The record is written before [msync]; its failure is reported. *)
Definition UpdateCheckPointAndFlush (s : t) (cp : Z) (msync_ok : bool) : RetCode * t :=
  (if msync_ok then RET_OK else RET_ERR_SYS, mk CHECKPOINTSTAT_MAGIC cp).

(** [CheckPointStatMgr::GetCheckPointStat]: null from [nstat] on. *)
Definition GetCheckPointStat (stats : list t) (paxos_group_id : Z) : option (option t) :=
  if Z.of_nat (length stats) <=? paxos_group_id then Some None
  else s ← stats !! Z.to_nat (to_u64 paxos_group_id); Some (Some s).
End CheckPointStat.
