(* ===== verification/BaseMgr.v ===== *)
(** * The queues of a store (src/phxqueue/store/basemgr.cpp)

    [BaseMgr] adds the paxos instances that carry items to the queues of
    StoreMeta.v and serves the reads of consumers: it walks the cursor ids after
    the consumer's position, fetches the items of each instance from the paxos
    log, filters them for the consumer group and records the position in the
    array of SyncCtrl.v.

    phxpaxos and protobuf are interfaces: [PaxosNode] is the part of
    [phxpaxos::Node] the store reads, [StoreCodec] the generated code of
    store.proto and comm.proto. *)

From S2P Require Import Prelude RetCode TopicConfig StoreConfig Node StoreMeta SyncCtrl.

(** ** Messages *)

Record AddRequest := mkAddRequest {
  ar_topic_id : Z;
  ar_store_id : Z;
  ar_queue_id : Z;
  ar_items : list QItem;
}.

Record GetRequest := mkGetRequest {
  gr_topic_id : Z;
  gr_store_id : Z;
  gr_queue_id : Z;
  gr_limit : Z;
  gr_atime : Z;
  gr_consumer_group_id : Z;
  gr_atime_ms : Z;
  gr_prev_cursor_id : Z;
  gr_next_cursor_id : Z;
  gr_random : bool;
}.

Record GetResponse := mkGetResponse {
  resp_items : list QItem;
  resp_prev_cursor_id : Z;
  resp_next_cursor_id : Z;
}.

Record StorePaxosArgs := mkStorePaxosArgs {
  args_add_req : option AddRequest;
  args_sync_ctrl_info : option (list SyncCtrl.QueueDetail);
  args_master_addr : Addr;      (* empty ip: absent *)
  args_timestamp : Z;
}.

Class StoreCodec := {
  ParseFromString : string -> option StorePaxosArgs;
  SerializeToString : StorePaxosArgs -> string;
  ByteSize : QItem -> Z;
}.

(** [StoreSM::ID]. *)
Definition StoreSM_ID : Z := 1.

(** What the parts of a store share: the queues of [BaseMgr], the array of
    [SyncCtrl] and the checkpoint records of [CheckPointStatMgr]. *)
Record Store := mkStoreState {
  st_queues : list StoreMetaQueue.t;
  st_sync : list SyncCtrlItem;
  st_cps : list CheckPointStat.t;
}.

Definition set_queue (s : Store) (queue_id : Z) (q : StoreMetaQueue.t) : Store :=
  mkStoreState (<[Z.to_nat (to_u64 queue_id) := q]> (st_queues s)) (st_sync s) (st_cps s).

(** [impl_->meta_queues[queue_id]]. *)
Definition queue_at (s : Store) (queue_id : Z) : option StoreMetaQueue.t :=
  st_queues s !! Z.to_nat (to_u64 queue_id).

(** [queue_id % ngroup]. *)
Definition paxos_group_of (opt : StoreOption) (queue_id : Z) : Z := Z.rem queue_id (opt_ngroup opt).

(** [Store::SkipGet] (store.cpp).  Shifting by a negative count or by 64 and
    more is undefined. *)
Definition SkipGet (item : QItem) (req : GetRequest) : option bool :=
  if negb (meta_topic_id item =? gr_topic_id req) then Some true else
  let n := gr_consumer_group_id req - 1 in
  if (n <? 0) || (64 <=? n) then None else
  Some (Z.land (Z.shiftl 1 n) (item_consumer_group_ids item) =? 0).

Module BaseMgr.
Section store.
Context (crc32 : Z -> Z -> Z) `{GC : GlobalConfig, PN : PaxosNode, SC : StoreCodec}.
Context (opt : StoreOption) (topic_id : Z).

Definition Init : RetCode * list StoreMetaQueue.t :=
  (RET_OK, replicate (Z.to_nat (opt_nqueue opt)) StoreMetaQueue.empty).

Definition NeedSkipAdd (s : Store) (cursor_id : Z) (req : AddRequest) : option bool :=
  if bool_decide (ar_items req = []) then Some true else
  meta_queue ← queue_at s (ar_queue_id req);
  if match StoreMetaQueue.Back meta_queue with
     | Some back => cursor_id <=? StoreMeta.cursor_id back
     | None => false
     end then Some true else
  match GetTopicConfigByTopicID topic_id with
  | (RET_OK, Some topic_config) =>
      Some (negb (TopicConfig.IsValidQueue topic_config (ar_queue_id req) (-1) (-1)))
  | (RET_OK, None) => None
  | _ => Some true
  end.

Definition Add (s : Store) (cursor_id : Z) (req : AddRequest) : option (RetCode * Store) :=
  match GetTopicConfigByTopicID topic_id with
  | (RET_OK, Some topic_config) =>
      match TopicConfig.GetQueueInfoByQueue topic_config (ar_queue_id req) with
      | (RET_OK, Some _) =>
          if bool_decide (ar_items req = []) then Some (RET_OK, s) else
          skip ← NeedSkipAdd s cursor_id req;
          if (skip : bool) then Some (RET_ADD_SKIP, s) else
          meta_queue ← queue_at s (ar_queue_id req);
          Some (RET_OK, set_queue s (ar_queue_id req)
                          (StoreMetaQueue.PushBack crc32 meta_queue (StoreMeta_of cursor_id)).2)
      | (RET_OK, None) => None
      | (ret, _) => Some (ret, s)
      end
  | (RET_OK, None) => None   (* a null configuration is dereferenced *)
  | (ret, _) => Some (ret, s)
  end.

(** ** Reading the items of an instance *)

Definition set_cursor_id (cursor_id : Z) (item : QItem) : QItem :=
  mkQItem (item_buffer item) (item_pub_id item) (item_consumer_group_ids item) (item_atime item)
    (item_atime_ms item) (item_count item) cursor_id (meta_topic_id item) (meta_handle_id item)
    (meta_uin item) (meta_hash item) (item_buffer_type item) (meta_consumer_group_ids item)
    (meta_pub_id item) (meta_atime item) (meta_atime_ms item) (meta_client_id item).

(** The loop over the values of the instance. *)
Fixpoint items_of_values (queue_id cursor_id : Z) (values : list (string * Z)) (items : list QItem)
    : RetCode * list QItem :=
  match values with
  | [] => (RET_OK, items)
  | (value, smid) :: r =>
      if negb (smid =? StoreSM_ID) then items_of_values queue_id cursor_id r items else
      match ParseFromString value with
      | None => (RET_ERR_PAXOS_VALUE_PARSE, items)
      | Some args =>
          match args_add_req args with
          | Some req =>
              if bool_decide (ar_items req = []) || negb (queue_id =? ar_queue_id req)
              then items_of_values queue_id cursor_id r items
              else items_of_values queue_id cursor_id r
                     (items ++ (set_cursor_id cursor_id <$> ar_items req))
          | None => items_of_values queue_id cursor_id r items
          end
      end
  end.

Definition GetItemsByCursorID (queue_id cursor_id : Z) : RetCode * list QItem :=
  let '(paxos_ret, values) := GetInstanceValue (paxos_group_of opt queue_id) cursor_id in
  if Paxos_GetInstanceValue_Value_Not_Chosen_Yet =? paxos_ret then (RET_ERR_PAXOS_NOT_CHOSEN, []) else
  if Paxos_GetInstanceValue_Value_NotExist =? paxos_ret then (RET_OK, []) else
  if negb (paxos_ret =? 0) then (RET_ERR_PAXOS_GET_INSTANCE_VALUE, []) else
  items_of_values queue_id cursor_id values [].

(** ** The loop of [Get] *)

(** What the loop reads and does not change. *)
Record env := mkEnv {
  e_req : GetRequest;
  e_topic_config : TopicConfig.t;
  e_queue_info_id : Z;
  e_cp : Z;
  e_min_instance_id : Z;
  e_prev_cursor_id : Z;
  e_clock : nat -> Z;          (* the readings of the steady clock, in ms *)
}.

(** What the loop changes. *)
Record loop := mkLoop {
  l_next_cursor_id : Z;
  l_items : list QItem;
  l_byte_size : Z;
  l_start_ts : Z;
  l_queue : StoreMetaQueue.t;
}.

Inductive outcome :=
| Continue (l : loop)
| Break (l : loop)
| Return (ret : RetCode) (l : loop).

Definition with_next (l : loop) (c : Z) : loop :=
  mkLoop c (l_items l) (l_byte_size l) (l_start_ts l) (l_queue l).

(** The cursor id after the current one: from the queue at or above the
    checkpoint, the next instance below it.  [None]: no more item. *)
Definition advance (e : env) (cur : Z) (q : StoreMetaQueue.t) : option Z * StoreMetaQueue.t :=
  if no_cursor (e_cp e) || (e_cp e <=? cur) then
    match StoreMetaQueue.Next crc32 q (StoreMeta_of cur) with
    | (None, q') => (None, q')
    | (Some (meta, _), q') => (Some (StoreMeta.cursor_id meta), q')
    end
  else if negb (no_cursor (e_min_instance_id e)) && (cur <? e_min_instance_id e)
       then (Some (e_min_instance_id e), q)
       else (Some (cur +u 1), q).

(** [item]s are skipped for the consumer group or swapped into the response. *)
Definition keep_item (e : env) (item : QItem) : option bool :=
  skip ← SkipGet item (e_req e);
  Some (negb (skip || TopicConfig.ShouldSkip (e_topic_config e) item
                        (gr_consumer_group_id (e_req e)) (e_queue_info_id e))).

Fixpoint keep_items (e : env) (items : list QItem) : option (list QItem) :=
  match items with
  | [] => Some []
  | item :: r => b ← keep_item e item; r' ← keep_items e r; Some (if (b : bool) then item :: r' else r')
  end.

Definition bytes_of (items : list QItem) : Z :=
  foldl (fun n item => n +u ByteSize item) 0 items.

Definition too_late (req : GetRequest) (item : QItem) : bool :=
  (gr_atime req <? item_atime item) ||
  ((item_atime item =? gr_atime req) && (gr_atime_ms req <? item_atime_ms item)).

(** The rest of the body once the items of [cur] are there. *)
Definition take_items (e : env) (l : loop) (cur : Z) (items : list QItem) : option outcome :=
  let req := e_req e in
  match items with
  | [] => Some (Continue (with_next l cur))
  | item0 :: _ =>
      if negb (bool_decide (l_items l = [])) &&
         (to_u64 (gr_limit req) <? Z.of_nat (length (l_items l)) + Z.of_nat (length items))
      then Some (Break l) else
      if negb (gr_atime req =? 0) && too_late req item0 then Some (Break l) else
      kept ← keep_items e items;
      let bytes := foldl (fun n item => n +u ByteSize item) (l_byte_size l) kept in
      let l' := mkLoop cur (l_items l ++ kept) bytes (l_start_ts l) (l_queue l) in
      if to_u64 (TopicConfig.items_byte_size_limit
                   (TopicConfig.topic (TopicConfig.proto (e_topic_config e)))) <=? bytes
      then Some (Break l') else Some (Continue l')
  end.

(** Processed already: the group's position is at or above [cur]. *)
Definition behind (e : env) (cur : Z) : bool :=
  negb (no_cursor (e_prev_cursor_id e)) && (cur <=? e_prev_cursor_id e).

(** One round after the clock was read. *)
Definition get_round (e : env) (l : loop) : option outcome :=
  let '(next, q) := advance e (l_next_cursor_id l) (l_queue l) in
  let l := mkLoop (l_next_cursor_id l) (l_items l) (l_byte_size l) (l_start_ts l) q in
  match next with
  | None => Some (Break l)
  | Some cur =>
      if behind e cur
      then Some (Continue (with_next l cur)) else
      let '(ret, items) := GetItemsByCursorID (gr_queue_id (e_req e)) cur in
      if is_err ret then Some (Return RET_ERR_GET_ITEM_BY_CURSOR_ID l) else
      if is_soft ret then Some (Break l) else
      take_items e l cur items
  end.

(** The clock: the first reading that is not 0 starts the loop's time. *)
Definition max_time (e : env) : Z :=
  to_u64 (TopicConfig.store_get_loop_max_time_ms
            (TopicConfig.topic (TopicConfig.proto (e_topic_config e)))).

Definition get_step (e : env) (i : nat) (l : loop) : option outcome :=
  let now_ts := e_clock e i in
  if l_start_ts l =? 0 then
    get_round e (mkLoop (l_next_cursor_id l) (l_items l) (l_byte_size l) now_ts (l_queue l))
  else if (l_start_ts l +u max_time e) <? now_ts then Some (Break l)
  else get_round e l.

(** At most [n] more rounds; the first one reads the clock for the [i]-th
    time. *)
Fixpoint get_loop (e : env) (n i : nat) (l : loop) : option (RetCode * loop) :=
  match n with
  | O => Some (RET_OK, l)
  | S n' =>
      if negb (Z.of_nat (length (l_items l)) <? gr_limit (e_req e)) then Some (RET_OK, l) else
      o ← get_step e i l;
      match o with
      | Continue l' => get_loop e n' (S i) l'
      | Break l' => Some (RET_OK, l')
      | Return ret l' => Some (ret, l')
      end
  end.

(** The checkpoint and the oldest instance of the queue's paxos group. *)
Definition get_cp (s : Store) (queue_id : Z) : option (Z * Z) :=
  let paxos_group_id := paxos_group_of opt queue_id in
  stat ← CheckPointStat.GetCheckPointStat (st_cps s) paxos_group_id;
  Some match stat with
       | None => (UINT64_MAX, UINT64_MAX)
       | Some stat =>
           match CheckPointStat.GetCheckPoint stat with
           | (RET_OK, cp) => (cp, GetMinChosenInstanceID paxos_group_id)
           | _ => (UINT64_MAX, UINT64_MAX)
           end
       end.

(** The positions of the client after [AdjustNextCursorID]; a code below 0
    ends [Get]. *)
Definition adjust (s : Store) (req : GetRequest) : option (RetCode * Z * Z) :=
  let prev := gr_prev_cursor_id req in
  let next := gr_next_cursor_id req in
  if gr_random req then Some (RET_OK, prev, next) else
  a ← SyncCtrl.AdjustNextCursorID opt (st_sync s) (gr_consumer_group_id req) (gr_queue_id req) prev next;
  let '(ret, prev', next') := a in
  Some (if is_err ret then (RET_ERR_GET_ADJUST_CURSOR_ID_FAIL, prev', next')
        else if is_soft ret then (RET_OK, UINT64_MAX, UINT64_MAX)
        else (RET_OK, prev', next')).

(** The positions the loop starts from. *)
Definition start_cursors (req : GetRequest) (cli_prev cli_next svr_prev : Z) : Z * Z :=
  if gr_random req then (svr_prev, if cli_next <? svr_prev then svr_prev else cli_next)
  else (cli_prev, cli_next).

(** The positions recorded at the end: [prev] for the group, then [next]. *)
Definition record_cursors (sync : list SyncCtrlItem) (req : GetRequest) (prev next : Z)
    : option (RetCode * list SyncCtrlItem) :=
  if gr_random req then Some (RET_OK, sync) else
  let g := gr_consumer_group_id req in
  let q := gr_queue_id req in
  u ← (if negb (no_cursor prev) then SyncCtrl.UpdateCursorID opt sync g q prev true
       else Some (RET_OK, sync));
  if negb (is_ok u.1) then Some (RET_ERR_GET_UPDATE_CURSOR_ID_FAIL, u.2) else
  v ← (if negb (no_cursor next) then SyncCtrl.UpdateCursorID opt u.2 g q next false
       else Some (RET_OK, u.2));
  Some (if negb (is_ok v.1) then RET_ERR_GET_UPDATE_CURSOR_ID_FAIL else RET_OK, v.2).

Definition Get (s : Store) (clock : nat -> Z) (req : GetRequest) (resp : GetResponse)
    : option (RetCode * GetResponse * Store) :=
  match GetTopicConfigByTopicID topic_id with
  | (RET_OK, Some topic_config) =>
      match TopicConfig.GetQueueInfoByQueue topic_config (gr_queue_id req) with
      | (RET_OK, Some queue_info) =>
          if opt_nqueue opt <=? gr_queue_id req then Some (RET_ERR_RANGE_QUEUE, resp, s) else
          meta_queue ← queue_at s (gr_queue_id req);
          a ← adjust s req;
          let '(ret, cli_prev, cli_next) := a in
          if negb (is_ok ret) then Some (ret, resp, s) else
          g ← SyncCtrl.GetCursorID opt (st_sync s) (gr_consumer_group_id req) (gr_queue_id req) true;
          cp ← get_cp s (gr_queue_id req);
          let '(prev, next) := start_cursors req cli_prev cli_next g.2 in
          let e := mkEnv req topic_config (qi_queue_info_id queue_info) cp.1 cp.2 prev clock in
          r ← get_loop e 512 0 (mkLoop next (resp_items resp) 0 0 meta_queue);
          let '(ret, l) := r in
          let s := set_queue s (gr_queue_id req) (l_queue l) in
          if negb (is_ok ret)
          then Some (ret, mkGetResponse (l_items l) (resp_prev_cursor_id resp) (resp_next_cursor_id resp), s)
          else
            let resp := mkGetResponse (l_items l) prev (l_next_cursor_id l) in
            u ← record_cursors (st_sync s) req prev (l_next_cursor_id l);
            Some (u.1, resp, mkStoreState (st_queues s) u.2 (st_cps s))
      | (RET_OK, None) => None
      | (ret, _) => Some (ret, resp, s)
      end
  | (RET_OK, None) => None
  | (ret, _) => Some (ret, resp, s)
  end.

(** ** Adding *)

(** What [Add] needs of the configuration to reach the queue. *)
Definition known_queue (tc : TopicConfig.t) (queue_id : Z) : Prop :=
  exists qi, TopicConfig.GetQueueInfoByQueue tc queue_id = (RET_OK, Some qi).

(** [cursor_id] is at or below the newest of the queue. *)
Definition stale (q : StoreMetaQueue.t) (cursor_id : Z) : bool :=
  match StoreMetaQueue.Back q with
  | Some back => cursor_id <=? StoreMeta.cursor_id back
  | None => false
  end.

Lemma Add_cases s c req tc q :
  GetTopicConfigByTopicID topic_id = (RET_OK, Some tc) -> known_queue tc (ar_queue_id req) ->
  queue_at s (ar_queue_id req) = Some q ->
  Add s c req = Some
    (if bool_decide (ar_items req = []) then (RET_OK, s) else
     if stale q c || negb (TopicConfig.IsValidQueue tc (ar_queue_id req) (-1) (-1))
     then (RET_ADD_SKIP, s)
     else (RET_OK, set_queue s (ar_queue_id req)
                     (StoreMetaQueue.PushBack crc32 q (StoreMeta_of c)).2)).
Proof.
  intros Ht [qi Hq] Hs. unfold Add, NeedSkipAdd, stale. rewrite Ht, Hq, Hs.
  destruct (bool_decide (ar_items req = [])); [done|]. simpl.
  destruct (match StoreMetaQueue.Back q with Some _ => _ | None => _ end); [done|]. simpl.
  by destruct (negb _).
Qed.

(** The cursor ids of a queue. *)
Definition cursors (q : StoreMetaQueue.t) : list Z := StoreMeta.cursor_id <$> StoreMetaQueue.metas q.

Definition sorted_queue (q : StoreMetaQueue.t) : Prop :=
  key_sorted StoreMeta.cursor_id (StoreMetaQueue.metas q).

(** A fresh instance is appended to its queue. *)
Lemma push_fresh q c :
  sorted_queue q -> c <> UINT64_MAX -> stale q c = false ->
  let q' := (StoreMetaQueue.PushBack crc32 q (StoreMeta_of c)).2 in
  cursors q' = cursors q ++ [c] /\ sorted_queue q' /\ stale q' c = true /\
  StoreMetaQueue.last_dequeue_meta q' = StoreMetaQueue.last_dequeue_meta q.
Proof.
  intros Hs Hc Hst. unfold stale, StoreMetaQueue.Back in Hst.
  assert (Hb : forall b, last (StoreMetaQueue.metas q) = Some b -> StoreMeta.cursor_id b < c).
  { intros b E. rewrite E in Hst. simpl_bool. lia. }
  destruct (StoreMetaQueue.PushBack_metas crc32 q c Hs Hc Hb) as (m & <- & E).
  cbn zeta. rewrite E. unfold cursors, sorted_queue, stale, StoreMetaQueue.Back. simpl.
  rewrite fmap_app, last_snoc. split_and!; [done| |lia|done].
  apply key_sorted_snoc; [|done]. intros y Hy.
  destruct (last (StoreMetaQueue.metas q)) as [b|] eqn:El.
  - pose proof (key_sorted_last_max _ _ _ _ Hs Hy El). specialize (Hb b eq_refl). lia.
  - apply last_None in El. rewrite El in Hy. by apply elem_of_nil in Hy.
Qed.

(** ** Reading *)

(** The cursor id [advance] moves to, from the metas of the queue. *)
Definition succ (e : env) (metas : list StoreMeta) (cur : Z) : option Z :=
  if no_cursor (e_cp e) || (e_cp e <=? cur)
  then StoreMeta.cursor_id <$> head (StoreMetaQueue.above cur metas)
  else if negb (no_cursor (e_min_instance_id e)) && (cur <? e_min_instance_id e)
       then Some (e_min_instance_id e) else Some (cur +u 1).

Lemma advance_succ e cur q :
  exists q', advance e cur q = (succ e (StoreMetaQueue.metas q) cur, q') /\
             StoreMetaQueue.metas q' = StoreMetaQueue.metas q.
Proof.
  unfold advance, succ. case_match; [|case_match; by eexists].
  destruct (StoreMetaQueue.Next_above crc32 q cur) as (ok & q' & -> & Hm).
  exists q'. split; [|done].
  destruct (head (StoreMetaQueue.above cur (StoreMetaQueue.metas q))); done.
Qed.

(** [c], then the cursor ids [cs] one after another. *)
Fixpoint path (e : env) (metas : list StoreMeta) (c : Z) (cs : list Z) : Prop :=
  match cs with
  | [] => True
  | c' :: r => succ e metas c = Some c' /\ path e metas c' r
  end.

(** What a request may see: items of its topic that its consumer group
    subscribes and that no skip rule of the topic hides. *)
Definition visible (e : env) (item : QItem) : Prop :=
  meta_topic_id item = gr_topic_id (e_req e) /\
  Z.testbit (item_consumer_group_ids item) (gr_consumer_group_id (e_req e) - 1) = true /\
  TopicConfig.ShouldSkip (e_topic_config e) item (gr_consumer_group_id (e_req e)) (e_queue_info_id e) = false.

#[export] Instance visible_dec e item : Decision (visible e item).
Proof. unfold visible. apply _. Defined.

Lemma land_bit n x : 0 <= n -> (Z.land (Z.shiftl 1 n) x =? 0) = negb (Z.testbit x n).
Proof.
  intros Hn. rewrite Z.shiftl_1_l. destruct (Z.testbit x n) eqn:E; simpl.
  - apply Z.eqb_neq. intros H0. apply (f_equal (fun z => Z.testbit z n)) in H0.
    rewrite Z.land_spec, Z.pow2_bits_true, E, Z.bits_0 in H0 by done. done.
  - apply Z.eqb_eq, Z.bits_inj'. intros m Hm. rewrite Z.land_spec, Z.bits_0.
    destruct (decide (n = m)) as [<-|Hne]; [by rewrite E, andb_false_r|].
    by rewrite Z.pow2_bits_false.
Qed.

Lemma keep_item_visible e item b : keep_item e item = Some b -> b = bool_decide (visible e item).
Proof.
  intros Hk. unfold keep_item in Hk. apply bind_Some in Hk as (skip & Hs & [= <-]).
  unfold SkipGet in Hs. split_if_in Hs; simplify_eq; simpl.
  { symmetry. apply bool_decide_eq_false_2. intros [? _]. simpl_bool. lia. }
  split_if_in Hs; simplify_eq. simpl_bool. rewrite land_bit by lia.
  rewrite negb_orb, negb_involutive. symmetry.
  destruct (Z.testbit _ _) eqn:E1, (TopicConfig.ShouldSkip _ _ _ _) eqn:E2; simpl;
    case_bool_decide as Hv; try done; unfold visible in Hv; rewrite ?E1, ?E2 in Hv; naive_solver lia.
Qed.

Lemma keep_items_filter e raw kept : keep_items e raw = Some kept -> kept = filter (visible e) raw.
Proof.
  revert kept. induction raw as [|x r IH]; intros kept Hk; simpl in Hk; [by injection Hk|].
  apply bind_Some in Hk as (b & Hb & Hk). apply bind_Some in Hk as (r' & Hr & Hk).
  rewrite filter_cons. apply keep_item_visible in Hb as ->. rewrite <-(IH r' Hr).
  by case_bool_decide; case_decide; simplify_eq.
Qed.

(** What one cursor id contributes to the response: nothing up to the
    processed position, from there on its items that the request may see. *)
Definition delivers (e : env) (c : Z) (items : list QItem) : Prop :=
  (e_prev_cursor_id e <> UINT64_MAX /\ c <= e_prev_cursor_id e /\ items = []) \/
  ((e_prev_cursor_id e = UINT64_MAX \/ e_prev_cursor_id e < c) /\
   exists raw, GetItemsByCursorID (gr_queue_id (e_req e)) c = (RET_OK, raw) /\
               items = filter (visible e) raw).

Lemma delivers_behind e c : behind e c = true -> delivers e c [].
Proof. unfold behind, no_cursor. intros H. left. split_and!; [| |done]; lia. Qed.

Lemma delivers_items e c raw kept :
  behind e c = false -> GetItemsByCursorID (gr_queue_id (e_req e)) c = (RET_OK, raw) ->
  keep_items e raw = Some kept -> delivers e c kept.
Proof.
  unfold behind, no_cursor. intros H Hr Hk. right. split; [lia|]. exists raw. split; [done|].
  by apply keep_items_filter.
Qed.

(** The response grows from [items] to [items'] by [batches] within the
    limit, or holds one batch only. *)
Definition within_limit (e : env) (items items' : list QItem) (batches : list (list QItem)) : Prop :=
  Z.of_nat (length items') <= gr_limit (e_req e) \/ items' = items \/
  (items = [] /\ items' ∈ batches).

Lemma keep_items_length e items kept : keep_items e items = Some kept -> (length kept <= length items)%nat.
Proof.
  revert kept. induction items as [|x l IH]; intros kept Hk; simpl in Hk; [by simplify_eq|].
  apply bind_Some in Hk as (b & _ & Hk). apply bind_Some in Hk as (r & Hr & Hk).
  specialize (IH _ Hr). destruct b; simplify_eq; simpl; lia.
Qed.

(** One round: where it continues or stops, at most one more cursor id was
    consumed. *)
Definition after_round (e : env) (l l' : loop) : Prop :=
  StoreMetaQueue.metas (l_queue l') = StoreMetaQueue.metas (l_queue l) /\
  ((l_next_cursor_id l' = l_next_cursor_id l /\ l_items l' = l_items l) \/
   exists items, succ e (StoreMetaQueue.metas (l_queue l)) (l_next_cursor_id l) =
                   Some (l_next_cursor_id l') /\
     delivers e (l_next_cursor_id l') items /\ l_items l' = l_items l ++ items /\
     (l_items l = [] \/ items = [] \/ Z.of_nat (length (l_items l')) <= gr_limit (e_req e))).

Lemma take_items_after e l cur items o :
  is_i32 (gr_limit (e_req e)) -> 0 < gr_limit (e_req e) ->
  behind e cur = false ->
  succ e (StoreMetaQueue.metas (l_queue l)) (l_next_cursor_id l) = Some cur ->
  GetItemsByCursorID (gr_queue_id (e_req e)) cur = (RET_OK, items) ->
  take_items e l cur items = Some o ->
  exists l', (o = Continue l' \/ o = Break l') /\ after_round e l l' /\
             (o = Continue l' -> l_next_cursor_id l' = cur).
Proof.
  intros Hl Hl0 Hp Hs Hi Ht. unfold take_items in Ht. destruct items as [|x items].
  { simplify_eq. exists (with_next l cur). split; [by left|]. split; [|done]. split; [done|]. right.
    exists []. rewrite app_nil_r. split_and!; [done| |done|by right; left].
    by eapply delivers_items. }
  split_if_in Ht; [exists l; split_and!; [by right|by split; [|left]|done]|].
  split_if_in Ht; [exists l; split_and!; [by right|by split; [|left]|done]|].
  apply bind_Some in Ht as (kept & Hk & Ht).
  set (l' := mkLoop cur (l_items l ++ kept) _ _ _) in Ht.
  assert (Ha : after_round e l l').
  { split; [done|]. right. exists kept. split_and!; [done| |done|].
    - by eapply delivers_items.
    - apply (keep_items_length e (x :: items)) in Hk. simpl in Hk. unfold l'; simpl.
      destruct (decide (l_items l = [])) as [?|Hne]; [by left|right; right].
      destruct Heqb as [Hb|Hb]; simpl_bool; [done|].
      rewrite to_u64_id in Hb by ilia. rewrite length_app. lia. }
  exists l'. split_if_in Ht; split_and!; auto.
Qed.

Lemma get_round_after e l o :
  is_i32 (gr_limit (e_req e)) -> 0 < gr_limit (e_req e) -> get_round e l = Some o ->
  match o with
  | Continue l' | Break l' => after_round e l l'
  | Return ret _ => ret = RET_ERR_GET_ITEM_BY_CURSOR_ID
  end.
Proof.
  intros Hl Hl0 Hr. unfold get_round in Hr.
  destruct (advance_succ e (l_next_cursor_id l) (l_queue l)) as (q & E & Hq). rewrite E in Hr.
  destruct (succ e (StoreMetaQueue.metas (l_queue l)) (l_next_cursor_id l)) as [cur|] eqn:Es.
  2:{ simplify_eq. split; [done|by left]. }
  assert (Hmove : forall l', after_round e (mkLoop (l_next_cursor_id l) (l_items l) (l_byte_size l)
                                          (l_start_ts l) q) l' -> after_round e l l').
  { intros l' [Hm Ha]. simpl in *. rewrite Hq in *. split; [done|exact Ha]. }
  destruct (behind e cur) eqn:Ep.
  { simplify_eq. split; [done|]. right. exists []. simpl. rewrite app_nil_r.
    split_and!; [done|by apply delivers_behind|done|by right; left]. }
  destruct (GetItemsByCursorID (gr_queue_id (e_req e)) cur) as [ret items] eqn:Ei.
  destruct (is_err ret) eqn:Ee; [by simplify_eq|].
  destruct (is_soft ret) eqn:Eso; [simplify_eq; apply Hmove; split; [done|by left]|].
  assert (ret = RET_OK) as ->.
  { apply as_integer_zero. unfold is_err, is_soft in *. simpl_bool. lia. }
  eapply take_items_after in Hr as (l' & [-> | ->] & Ha & _); simpl; eauto. by rewrite Hq.
Qed.

Lemma get_step_after e i l o :
  is_i32 (gr_limit (e_req e)) -> 0 < gr_limit (e_req e) -> get_step e i l = Some o ->
  match o with
  | Continue l' | Break l' => after_round e l l'
  | Return ret _ => ret = RET_ERR_GET_ITEM_BY_CURSOR_ID
  end.
Proof.
  intros Hl Hl0 Hr. unfold get_step in Hr. split_if_in Hr.
  - apply get_round_after in Hr; done.
  - split_if_in Hr; [split; [done|by left]|]. by apply get_round_after in Hr.
Qed.

Lemma get_loop_path e n i l l' :
  is_i32 (gr_limit (e_req e)) -> get_loop e n i l = Some (RET_OK, l') ->
  exists cs batches,
    path e (StoreMetaQueue.metas (l_queue l)) (l_next_cursor_id l) cs /\
    Forall2 (delivers e) cs batches /\ l_items l' = l_items l ++ concat batches /\
    l_next_cursor_id l' = default (l_next_cursor_id l) (last cs) /\
    StoreMetaQueue.metas (l_queue l') = StoreMetaQueue.metas (l_queue l) /\
    within_limit e (l_items l) (l_items l') batches.
Proof.
  intros Hl. revert i l. induction n as [|n IH]; intros i l Hg.
  { injection Hg as <-. exists [], []. rewrite app_nil_r. split_and!; try done. right; by left. }
  cbn [get_loop] in Hg. split_if_in Hg.
  { exists [], []. rewrite app_nil_r. split_and!; try done. right; by left. }
  apply bind_Some in Hg as (o & Ho & Hg). apply get_step_after in Ho; [|done|lia].
  assert (Hstep : forall l1, after_round e l l1 ->
    (l1 = l' \/ get_loop e n (S i) l1 = Some (RET_OK, l')) ->
    exists cs batches,
    path e (StoreMetaQueue.metas (l_queue l)) (l_next_cursor_id l) cs /\
    Forall2 (delivers e) cs batches /\ l_items l' = l_items l ++ concat batches /\
    l_next_cursor_id l' = default (l_next_cursor_id l) (last cs) /\
    StoreMetaQueue.metas (l_queue l') = StoreMetaQueue.metas (l_queue l) /\
    within_limit e (l_items l) (l_items l') batches).
  2:{ destruct o; [by apply (Hstep l0); auto|injection Hg as <-; by apply (Hstep l0); auto|].
      by simplify_eq. }
  clear Ho Hg o. intros l1 [Hm Ha] Hrest.
  assert (exists cs batches,
    path e (StoreMetaQueue.metas (l_queue l)) (l_next_cursor_id l1) cs /\
    Forall2 (delivers e) cs batches /\ l_items l' = l_items l1 ++ concat batches /\
    l_next_cursor_id l' = default (l_next_cursor_id l1) (last cs) /\
    StoreMetaQueue.metas (l_queue l') = StoreMetaQueue.metas (l_queue l) /\
    within_limit e (l_items l1) (l_items l') batches) as (cs & bs & H1 & H2 & H3 & H4 & H5 & H6).
  { destruct Hrest as [->|Hrest].
    - exists [], []. rewrite app_nil_r. split_and!; try done. right; by left.
    - destruct (IH _ _ Hrest) as (cs & bs & ? & ? & ? & ? & E & ?). rewrite Hm in *. by exists cs, bs. }
  destruct Ha as [[E1 E2]|(items & Hs & Hd & E2 & Hlim)].
  - rewrite E1, E2 in *. by exists cs, bs.
  - exists (l_next_cursor_id l1 :: cs), (items :: bs). split_and!; [by split|by constructor| | |done|].
    + rewrite H3, E2. simpl. by rewrite app_assoc.
    + rewrite last_cons, H4. by destruct (last cs).
    + unfold within_limit in *. destruct H6 as [?|[Eq|[E0 ?]]]; [by left| |].
      * rewrite Eq, E2. destruct Hlim as [->|[->|?]]; [|right; left; by rewrite app_nil_r|left; congruence].
        right; right. split; [done|]. constructor.
      * rewrite E0 in E2. symmetry in E2. apply app_eq_nil in E2 as [-> _]. right; right. split; [done|by right].
Qed.

(** ** The order of the reads *)

Definition real (c : Z) : Prop := 0 <= c < UINT64_MAX.

Definition real_queue (q : StoreMetaQueue.t) : Prop := Forall real (cursors q).

Lemma above_real c (metas : list StoreMeta) m r :
  Forall real (StoreMeta.cursor_id <$> metas) -> StoreMetaQueue.above c metas = m :: r ->
  real (StoreMeta.cursor_id m).
Proof.
  intros Hr E. rewrite Forall_fmap in Hr. eapply Forall_forall in Hr; [exact Hr|].
  assert (Hin : m ∈ StoreMetaQueue.above c metas) by (rewrite E; constructor).
  unfold StoreMetaQueue.above in Hin. split_if_in Hin; [done|].
  destruct (upper_bound_suffix StoreMeta.cursor_id c metas) as [k ->]. apply elem_of_app; by right.
Qed.

(** The loop reads the queue, not the log below the checkpoint. *)
Definition queue_side (e : env) (c : Z) : Prop :=
  e_cp e = UINT64_MAX \/ (c <> UINT64_MAX /\ e_cp e <= c).

Lemma path_prefix e metas c cs :
  key_sorted StoreMeta.cursor_id metas -> Forall real (StoreMeta.cursor_id <$> metas) ->
  queue_side e c -> path e metas c cs ->
  cs `prefix_of` (StoreMeta.cursor_id <$> StoreMetaQueue.above c metas).
Proof.
  intros Hs Hr. revert c. induction cs as [|c' cs IH]; intros c Hq Hp; [apply prefix_nil|].
  destruct Hp as [Hc Hp]. unfold succ, no_cursor in Hc.
  assert (Hcond : (e_cp e =? UINT64_MAX) || (e_cp e <=? c) = true) by (destruct Hq; lia).
  rewrite Hcond in Hc.
  destruct (StoreMetaQueue.above c metas) as [|m r] eqn:Ea; [done|].
  simpl in Hc. injection Hc as <-. pose proof (above_real _ _ _ _ Hr Ea) as [Hm0 Hm].
  destruct (StoreMetaQueue.above_next c metas m r Hs Ea) as [En Hlt]; [lia|].
  simpl. apply prefix_cons. rewrite <-En. apply IH; [|done].
  destruct Hq as [?|[? ?]]; [by left|right; lia].
Qed.

Lemma succ_real e metas c c' :
  is_u64 (e_cp e) -> is_u64 (e_min_instance_id e) ->
  key_sorted StoreMeta.cursor_id metas -> Forall real (StoreMeta.cursor_id <$> metas) ->
  c = UINT64_MAX \/ real c -> succ e metas c = Some c' ->
  real c' /\ (c <> UINT64_MAX -> c < c').
Proof.
  intros Hcp Hmin Hs Hr Hc. unfold succ, no_cursor. destruct ((e_cp e =? UINT64_MAX) || (e_cp e <=? c)) eqn:Eb.
  - destruct (StoreMetaQueue.above c metas) as [|m r] eqn:Ea; [done|]. intros [= <-].
    pose proof (above_real _ _ _ _ Hr Ea) as Hm. split; [done|].
    apply (StoreMetaQueue.above_next c metas m r Hs Ea). unfold real in Hm. lia.
  - simpl_bool. destruct Hc as [->|Hc]; [ilia|].
    destruct (negb (e_min_instance_id e =? UINT64_MAX) && (c <? e_min_instance_id e)) eqn:Em; simpl_bool;
      intros [= <-]; unfold real in *; [ilia|]. rewrite to_u64_id by ilia. ilia.
Qed.

Lemma path_forward e metas c cs :
  is_u64 (e_cp e) -> is_u64 (e_min_instance_id e) ->
  key_sorted StoreMeta.cursor_id metas -> Forall real (StoreMeta.cursor_id <$> metas) ->
  c = UINT64_MAX \/ real c -> path e metas c cs ->
  let c' := default c (last cs) in
  (c' = UINT64_MAX \/ real c') /\ (c <> UINT64_MAX -> c' <> UINT64_MAX /\ c <= c').
Proof.
  intros Hcp Hmin Hs Hr. revert c. induction cs as [|c1 cs IH]; intros c Hc Hp.
  { simpl. split; [done|lia]. }
  destruct Hp as [H1 Hp]. apply succ_real in H1 as [Hr1 Hlt]; [|done..].
  destruct (IH c1 (or_intror Hr1) Hp) as [IH1 IH2]. cbn zeta in *. rewrite last_cons.
  unfold real in Hr1. destruct (last cs); simpl in *; split; try done; try (by right);
    intros Hne; specialize (Hlt Hne); lia.
Qed.

(** The environment and the start of the loop of a [Get]. *)
Definition started (s : Store) (clock : nat -> Z) (req : GetRequest) (e : env) (next : Z) : Prop :=
  exists tc qi cli_prev cli_next svr cp,
    GetTopicConfigByTopicID topic_id = (RET_OK, Some tc) /\
    TopicConfig.GetQueueInfoByQueue tc (gr_queue_id req) = (RET_OK, Some qi) /\
    gr_queue_id req < opt_nqueue opt /\
    adjust s req = Some (RET_OK, cli_prev, cli_next) /\
    SyncCtrl.GetCursorID opt (st_sync s) (gr_consumer_group_id req) (gr_queue_id req) true = Some svr /\
    get_cp s (gr_queue_id req) = Some cp /\
    next = (start_cursors req cli_prev cli_next svr.2).2 /\
    e = mkEnv req tc (qi_queue_info_id qi) cp.1 cp.2 (start_cursors req cli_prev cli_next svr.2).1 clock.

(** A [Get] that returns [RET_OK], taken apart. *)
Lemma Get_inv s clock req resp0 resp s' :
  Get s clock req resp0 = Some (RET_OK, resp, s') ->
  exists e next q l sync,
    started s clock req e next /\ queue_at s (gr_queue_id req) = Some q /\
    get_loop e 512 0 (mkLoop next (resp_items resp0) 0 0 q) = Some (RET_OK, l) /\
    record_cursors (st_sync s) req (e_prev_cursor_id e) (l_next_cursor_id l) = Some (RET_OK, sync) /\
    resp = mkGetResponse (l_items l) (e_prev_cursor_id e) (l_next_cursor_id l) /\
    s' = mkStoreState (st_queues (set_queue s (gr_queue_id req) (l_queue l))) sync (st_cps s).
Proof.
  unfold Get. generalize 512%nat as fuel. intros fuel Hg.
  destruct (GetTopicConfigByTopicID topic_id) as [[] [tc|]] eqn:Et; try done.
  destruct (TopicConfig.GetQueueInfoByQueue tc (gr_queue_id req)) as [[] [qi|]] eqn:Eq; try done.
  split_if_in Hg. apply bind_Some in Hg as (q & Hq & Hg).
  apply bind_Some in Hg as ([[ret cp] cn] & Ha & Hg). split_if_in Hg.
  assert (ret = RET_OK) as -> by (by apply is_ok_true).
  apply bind_Some in Hg as (g & Hgc & Hg). apply bind_Some in Hg as (cps & Hcp & Hg).
  destruct (start_cursors req cp cn g.2) as [prev next] eqn:Es.
  apply bind_Some in Hg as ([ret l] & Hl & Hg). split_if_in Hg.
  assert (ret = RET_OK) as -> by (by apply is_ok_true).
  apply bind_Some in Hg as ([ret sync] & Hr & Hg). simpl in Hg. injection Hg as -> <- <-.
  exists (mkEnv req tc (qi_queue_info_id qi) cps.1 cps.2 prev clock), next, q, l, sync.
  split_and!; try assumption; try reflexivity.
  exists tc, qi, cp, cn, g, cps. rewrite Es. by split_and!.
Qed.

(** C4: [Get] neither loses, repeats nor reorders items.  What it returns is,
    in order, what a run of consecutive cursor ids contributes: each its items
    the request may see, or nothing when the group has processed it; the
    returned [next] is the last of the run.  Read from the queue (not from the
    log below the checkpoint) the run is exactly the next cursor ids of the
    queue, without gap.  The response keeps the limit, unless a single batch
    exceeds it alone. *)
Theorem Get_no_gap s clock req resp s' q :
  queue_at s (gr_queue_id req) = Some q -> sorted_queue q -> real_queue q -> is_i32 (gr_limit req) ->
  Get s clock req (mkGetResponse [] 0 0) = Some (RET_OK, resp, s') ->
  exists e next cs batches,
    started s clock req e next /\ e_prev_cursor_id e = resp_prev_cursor_id resp /\
    path e (StoreMetaQueue.metas q) next cs /\ Forall2 (delivers e) cs batches /\
    resp_items resp = concat batches /\ resp_next_cursor_id resp = default next (last cs) /\
    (queue_side e next -> cs `prefix_of` (StoreMeta.cursor_id <$> StoreMetaQueue.above next (StoreMetaQueue.metas q))) /\
    (Z.of_nat (length (resp_items resp)) <= gr_limit req \/ resp_items resp = [] \/ resp_items resp ∈ batches) /\
    (forall q', queue_at s' (gr_queue_id req) = Some q' -> cursors q' = cursors q).
Proof.
  intros Hq Hs Hr Hlim Hg. apply Get_inv in Hg as (e & next & q1 & l & sync & Hst & Hq1 & Hl & _ & -> & ->).
  rewrite Hq in Hq1. injection Hq1 as <-.
  assert (e_req e = req) as He by (by destruct Hst as (? & ? & ? & ? & ? & ? & _ & _ & _ & _ & _ & _ & _ & ->)).
  apply get_loop_path in Hl as (cs & bs & H1 & H2 & H3 & H4 & H5 & H6); [|by rewrite He].
  cbn [l_items l_next_cursor_id l_queue] in *. exists e, next, cs, bs. split_and!; try done.
  - intros Hqs. by eapply path_prefix.
  - unfold within_limit in H6. rewrite He in H6. simpl. tauto.
  - intros q'. unfold queue_at, set_queue, cursors; simpl. unfold queue_at in Hq.
    rewrite list_lookup_insert_eq by (by eapply lookup_lt_Some). intros [= <-]. by rewrite H5.
Qed.

(** ** Sessions *)

(** The recorded positions of a group are cursor ids in order. *)
Definition item_ok (i : SyncCtrlItem) : Prop :=
  (prev_valid i = true -> real (prev_cursor_id i)) /\
  (next_valid i = true -> real (next_cursor_id i)) /\ SyncCtrl.ordered i.

Definition cursor (c : Z) : Prop := c = UINT64_MAX \/ real c.

(** The positions after [AdjustNextCursorID] are in order, and [-1] only for
    a group without a processed position. *)
Definition cursors_ok (i : SyncCtrlItem) (prev next : Z) : Prop :=
  cursor prev /\ cursor next /\ (prev <> UINT64_MAX -> next <> UINT64_MAX /\ prev <= next) /\
  (prev_valid i = true -> prev <> UINT64_MAX /\ prev_cursor_id i <= prev).

Lemma adjust_ok s req ret prev next :
  opt_ok opt -> SyncCtrl.buf_ok opt (st_sync s) ->
  SyncCtrl.pair_ok opt (gr_consumer_group_id req) (gr_queue_id req) -> gr_random req = false ->
  let i := SyncCtrl.item_of opt (st_sync s) (gr_consumer_group_id req) (gr_queue_id req) in
  item_ok i -> cursor (gr_prev_cursor_id req) -> cursor (gr_next_cursor_id req) ->
  adjust s req = Some (ret, prev, next) -> ret = RET_OK /\ cursors_ok i prev next.
Proof.
  intros Ho Hb Hp Hr i (Hip & Hin & Hord) Hcp Hcn. unfold adjust. rewrite Hr.
  unfold SyncCtrl.AdjustNextCursorID, no_cursor.
  rewrite SyncCtrl.bad_arg_pair_ok, SyncCtrl.item_of_lookup by done. fold i. cbn [mbind option_bind].
  unfold SyncCtrl.ordered, cursors_ok, cursor, real in *.
  destruct (prev_valid i) eqn:Ep, (next_valid i) eqn:En; cbn [negb andb orb];
    repeat match goal with
    | |- context [if ?b then _ else _] => destruct b eqn:?
    end; cbn; intros [= <- <- <-]; simpl_bool; split; try done;
    repeat match goal with Htt : true = true -> _ |- _ => specialize (Htt eq_refl) end;
    split_and!; try done; lia.
Qed.

Lemma record_item sync req prev next sync' :
  opt_ok opt -> SyncCtrl.buf_ok opt sync ->
  SyncCtrl.pair_ok opt (gr_consumer_group_id req) (gr_queue_id req) -> gr_random req = false ->
  record_cursors sync req prev next = Some (RET_OK, sync') ->
  let item b := SyncCtrl.item_of opt b (gr_consumer_group_id req) (gr_queue_id req) in
  SyncCtrl.buf_ok opt sync' /\
  item sync' = (let i := if no_cursor prev then item sync else set_prev (item sync) prev in
                if no_cursor next then i else set_next i next).
Proof.
  intros Ho Hb Hp Hr. unfold record_cursors. rewrite Hr.
  destruct (no_cursor prev), (no_cursor next); cbn [negb];
    rewrite ?SyncCtrl.UpdateCursorID_item by done; cbn;
    rewrite ?SyncCtrl.UpdateCursorID_item by auto using SyncCtrl.buf_ok_insert; cbn; intros [= <-];
    (split; [auto using SyncCtrl.buf_ok_insert|]);
    rewrite ?SyncCtrl.item_of_insert, ?decide_True by auto using SyncCtrl.buf_ok_insert; done.
Qed.

(** The positions after a read are in order again. *)
Lemma recorded_ok i prev next :
  item_ok i -> cursor prev -> cursor next ->
  (prev <> UINT64_MAX -> next <> UINT64_MAX /\ prev <= next) ->
  (prev_valid i = true -> prev <> UINT64_MAX /\ prev_cursor_id i <= prev) ->
  item_ok (let i := if no_cursor prev then i else set_prev i prev in if no_cursor next then i else set_next i next).
Proof.
  intros (Hi1 & Hi2 & Hi3) Hc1 Hc2 Hnew Hpv. unfold no_cursor, cursor, item_ok, SyncCtrl.ordered in *.
  destruct (prev =? UINT64_MAX) eqn:E1, (next =? UINT64_MAX) eqn:E2; simpl_bool; cbn; split_and!; try done;
    unfold prev_valid, next_valid, real in *; cbn; intros; try lia; tauto || naive_solver lia.
Qed.

(** C24: sessions.  When a client hands back the positions a [Get] returned,
    the next [Get] starts exactly there: it neither reads an item again nor
    jumps over one.  The recorded positions stay cursor ids in order, so this
    holds for every further [Get] of the session. *)
Theorem Get_resume s clock req resp s' q req' :
  opt_ok opt -> SyncCtrl.buf_ok opt (st_sync s) ->
  SyncCtrl.pair_ok opt (gr_consumer_group_id req) (gr_queue_id req) -> gr_random req = false ->
  (forall cp, get_cp s (gr_queue_id req) = Some cp -> is_u64 cp.1 /\ is_u64 cp.2) ->
  queue_at s (gr_queue_id req) = Some q -> sorted_queue q -> real_queue q -> is_i32 (gr_limit req) ->
  item_ok (SyncCtrl.item_of opt (st_sync s) (gr_consumer_group_id req) (gr_queue_id req)) ->
  cursor (gr_prev_cursor_id req) -> cursor (gr_next_cursor_id req) ->
  Get s clock req (mkGetResponse [] 0 0) = Some (RET_OK, resp, s') ->
  SyncCtrl.buf_ok opt (st_sync s') /\
  item_ok (SyncCtrl.item_of opt (st_sync s') (gr_consumer_group_id req) (gr_queue_id req)) /\
  (resp_next_cursor_id resp <> UINT64_MAX ->
   gr_consumer_group_id req' = gr_consumer_group_id req -> gr_queue_id req' = gr_queue_id req ->
   gr_random req' = false ->
   gr_prev_cursor_id req' = resp_prev_cursor_id resp ->
   gr_next_cursor_id req' = resp_next_cursor_id resp ->
   adjust s' req' = Some (RET_OK, resp_prev_cursor_id resp, resp_next_cursor_id resp)).
Proof.
  intros Ho Hb Hp Hrand Hcp Hq Hs Hr Hlim Hi Hp0 Hn0 Hg.
  apply Get_inv in Hg as (e & next & q1 & l & sync & Hst & Hq1 & Hl & Hrec & -> & ->).
  rewrite Hq in Hq1. injection Hq1 as <-.
  destruct Hst as (tc & qi & prev & nx & svr & cp & _ & _ & _ & Hadj & _ & Hgcp & Hnext & He).
  unfold start_cursors in Hnext, He. rewrite Hrand in Hnext, He. cbn [fst snd] in *. subst next.
  apply adjust_ok in Hadj as [_ (Hc1 & Hc2 & Hord & Hpv)]; [|done..].
  destruct (Hcp _ Hgcp) as [Hcp1 Hcp2].
  apply get_loop_path in Hl as (cs & bs & H1 & _ & _ & H4 & _); [|by rewrite He].
  cbn [l_queue l_next_cursor_id] in *.
  apply path_forward in H1 as [Hreal Hfwd]; [|by rewrite He|by rewrite He|done..].
  rewrite <-H4 in Hreal, Hfwd. set (n := l_next_cursor_id l) in *.
  assert (e_prev_cursor_id e = prev) as Hep by (by rewrite He). rewrite Hep in *.
  apply record_item in Hrec as [Hb' Hi']; [|done..]. cbn [st_sync]. split; [done|]. rewrite Hi'.
  set (i := SyncCtrl.item_of opt (st_sync s) _ _) in *. destruct Hi as (Hi1 & Hi2 & Hi3).
  assert (Hnew : prev <> UINT64_MAX -> n <> UINT64_MAX /\ prev <= n).
  { intros Hne. destruct (Hord Hne). specialize (Hfwd ltac:(done)). unfold cursor, real in *. lia. }
  split; [apply recorded_ok; try done; by split_and!|].
  unfold no_cursor, cursor in *.
  intros Hne Eg Eq Er Epr Enx. unfold adjust. rewrite Er, Eg, Eq, Epr, Enx. cbn [resp_prev_cursor_id resp_next_cursor_id] in *.
  unfold SyncCtrl.AdjustNextCursorID. rewrite SyncCtrl.bad_arg_pair_ok, SyncCtrl.item_of_lookup by done.
  cbn [st_sync]. rewrite Hi'. unfold no_cursor.
  rewrite (proj2 (Z.eqb_neq n _)) by done. cbn [mbind option_bind set_next next_valid next_magic next_cursor_id prev_cursor_id].
    rewrite Z.eqb_refl. cbn [negb orb].
    destruct (prev =? UINT64_MAX) eqn:E1; cbn; simpl_bool.
    + destruct (prev_valid i) eqn:Epv; [destruct (Hpv eq_refl); done|].
      change (prev_valid (set_next i n)) with (prev_valid i). rewrite Epv. reflexivity.
    + destruct (Hnew E1). rewrite (proj2 (Z.ltb_ge n prev)), Z.ltb_irrefl by lia. cbn. by destruct (_ || _).
Qed.

(** ** Definedness *)

Lemma get_loop_defined e n i l :
  1 <= gr_consumer_group_id (e_req e) <= 64 -> is_Some (get_loop e n i l).
Proof.
  intros Hg.
  assert (Hk : forall items, is_Some (keep_items e items)).
  { induction items as [|x items IH]; [by eexists|]. simpl. unfold keep_item, SkipGet.
    destruct IH as [r ->]. case_match; [by eexists|]. case_match; [lia|]. by eexists. }
  assert (Hr : forall l, is_Some (get_round e l)).
  { intros l0. unfold get_round. destruct (advance e _ _) as [[cur|] q]; [|by eexists].
    case_match; [by eexists|]. destruct (GetItemsByCursorID _ _) as [ret items].
    repeat (case_match; [by eexists|]). unfold take_items. destruct items as [|x items]; [by eexists|].
    repeat (case_match; [by eexists|]). destruct (Hk (x :: items)) as [k ->]. simpl.
    case_match; by eexists. }
  revert i l. induction n as [|n IH]; intros i l; simpl; [by eexists|].
  case_match; [by eexists|].
  assert (is_Some (get_step e i l)) as [o ->].
  { unfold get_step. case_match; [apply Hr|]. case_match; [by eexists|apply Hr]. }
  simpl. destruct o; [apply IH|by eexists..].
Qed.

(** C25: a read of an existing queue for one of the 64 consumer groups is
    defined on every path: it never leaves the arrays, never shifts by an
    undefined amount, and returns. *)
Theorem Get_defined s clock req resp tc :
  opt_ok opt -> SyncCtrl.buf_ok opt (st_sync s) ->
  SyncCtrl.pair_ok opt (gr_consumer_group_id req) (gr_queue_id req) ->
  gr_consumer_group_id req <= 64 -> opt_nqueue opt <= Z.of_nat (length (st_queues s)) ->
  opt_ngroup opt <= Z.of_nat (length (st_cps s)) ->
  GetTopicConfigByTopicID topic_id = (RET_OK, Some tc) ->
  is_Some (Get s clock req resp).
Proof.
  intros Ho Hb Hp Hg Hq Hc Ht. pose proof Ho as (Hng & ? & ? & ?). pose proof Hp as [Hp1 Hp2].
  unfold Get. rewrite Ht. destruct (TopicConfig.GetQueueInfoByQueue tc (gr_queue_id req)) as [ret qi] eqn:Eq.
  assert (Hqi : ret = RET_OK -> is_Some qi).
  { unfold TopicConfig.GetQueueInfoByQueue, TopicConfig.GetQueueInfoByQueueInfoID in Eq.
    repeat case_match; simplify_eq; eauto; done. }
  destruct ret; try by eexists. destruct (Hqi eq_refl) as [qi' ->]. case_match; [by eexists|].
  destruct (lookup_lt_is_Some_2 (st_queues s) (Z.to_nat (to_u64 (gr_queue_id req)))) as [q Hqq].
  { rewrite to_u64_id by (unfold_ints; nia). lia. }
  unfold queue_at. rewrite Hqq. cbn [mbind option_bind].
  assert (is_Some (adjust s req)) as [[[ret prev] next] ->].
  { unfold adjust. case_match; [by eexists|]. unfold SyncCtrl.AdjustNextCursorID.
    rewrite SyncCtrl.bad_arg_pair_ok, SyncCtrl.item_of_lookup by done. simpl.
    repeat case_match; by eexists. }
  cbn [mbind option_bind]. case_match; [by eexists|].
  rewrite SyncCtrl.GetCursorID_item by done. cbn [mbind option_bind].
  assert (is_Some (get_cp s (gr_queue_id req))) as [cp ->].
  { unfold get_cp, CheckPointStat.GetCheckPointStat, paxos_group_of.
    pose proof (Z.rem_bound_pos (gr_queue_id req) (opt_ngroup opt)) as Hrem.
    pose proof (Z.rem_le (gr_queue_id req) (opt_ngroup opt)) as Hle. case_match; [by eexists|].
    simpl_bool. destruct (lookup_lt_is_Some_2 (st_cps s) (Z.to_nat (to_u64 (Z.rem (gr_queue_id req) (opt_ngroup opt))))) as [x ->].
    { rewrite to_u64_id by (unfold_ints; nia). lia. } simpl. by eexists. }
  cbn [mbind option_bind]. destruct (start_cursors req prev next _) as [prev' next'].
  set (e := mkEnv _ _ _ _ _ _ _).
  destruct (get_loop_defined e 512 0 (mkLoop next' (resp_items resp) 0 0 q)) as [[ret' l] ->]; [simpl; lia|].
  cbn [mbind option_bind]. case_match; [by eexists|].
  unfold record_cursors. case_match; [by eexists|].
  destruct (no_cursor prev'), (no_cursor (l_next_cursor_id l)); cbn [negb];
    rewrite ?SyncCtrl.UpdateCursorID_item by done; cbn;
    rewrite ?SyncCtrl.UpdateCursorID_item by auto using SyncCtrl.buf_ok_insert; cbn; by eexists.
Qed.
End store.
End BaseMgr.
