(* ===== verification/StoreSM.v ===== *)
(** * The replicated store (src/phxqueue/store/storesm.cpp and store.cpp)

    [StoreSM] applies the values of the paxos log to a replica, [StoreService]
    is the interface of [class Store] to producers and consumers.  What a
    replica holds is a function of its log; the theorems say which.

    phxpaxos calls [Execute] with the instances of a group in order, from the
    one after the group's checkpoint. *)

From S2P Require Import Prelude RetCode TopicConfig StoreConfig Node StoreMeta SyncCtrl BaseMgr.

Module StoreSM.
Section store.
Context (crc32 : Z -> Z -> Z) `{GC : GlobalConfig, PN : PaxosNode, SC : StoreCodec}.
Context (opt : StoreOption) (topic_id : Z).

(** What [Execute] returns: its result, the code of the [StoreContext] and
    whether the group's mastership is dropped. *)
Record result := mkResult { res_ok : bool; res_sc : RetCode; res_drop_master : bool }.

Definition addr_eq (a b : Addr) : bool :=
  bool_decide (ip a = ip b) && (port a =? port b) && (paxos_port a =? paxos_port b).

(** Another store announced itself as the master. *)
Definition other_master (master_addr : Addr) : bool :=
  negb (bool_decide (ip master_addr = ""%string)) && negb (addr_eq (opt_addr opt) master_addr).

Definition execute_add (s : Store) (instance_id : Z) (args : StorePaxosArgs) : option (RetCode * Store) :=
  match args_add_req args with
  | Some req => BaseMgr.Add crc32 topic_id s instance_id req
  | None => Some (RET_OK, s)
  end.

Definition execute_sync (s : Store) (args : StorePaxosArgs) : option (RetCode * Store) :=
  match args_sync_ctrl_info args with
  | Some info =>
      r ← SyncCtrl.SyncCursorID opt (st_sync s) (st_queues s) info;
      let '(ret, sync, queues) := r in Some (ret, mkStoreState queues sync (st_cps s))
  | None => Some (RET_OK, s)
  end.

(** [node_ready]: [GetNode()] is not null yet while [RunNode] replays. *)
Definition Execute (node_ready : bool) (s : Store) (instance_id : Z) (paxos_value : string)
    : option (result * Store) :=
  match ParseFromString paxos_value with
  | None => Some (mkResult false RET_ERR_ARG false, s)
  | Some args =>
      a ← execute_add s instance_id args;
      if is_err a.1 then Some (mkResult false a.1 false, a.2) else
      b ← execute_sync a.2 args;
      if is_err b.1 then Some (mkResult false b.1 false, b.2) else
      Some (mkResult true RET_OK (other_master (args_master_addr args) && node_ready), b.2)
  end.

Definition GetCheckpointInstanceID (s : Store) (paxos_group_id : Z) : option Z :=
  stat ← CheckPointStat.GetCheckPointStat (st_cps s) paxos_group_id;
  Some match stat with
       | None => UINT64_MAX
       | Some stat => match CheckPointStat.GetCheckPoint stat with
                      | (RET_OK, cp) => cp
                      | _ => UINT64_MAX
                      end
       end.

(** The directory and file of the checkpoint; [dir_of] and [file_of] are
    [GetDir] and [GetFile] of the record. *)
Definition GetCheckpointState (dir_of file_of : Z -> string) (s : Store) (paxos_group_id : Z)
    : option (Z * string * list string) :=
  stat ← CheckPointStat.GetCheckPointStat (st_cps s) paxos_group_id;
  Some match stat with
       | None => (-1, ""%string, [])
       | Some _ => (0, dir_of paxos_group_id, [file_of paxos_group_id])
       end.

Definition LoadCheckpointState (s : Store) (paxos_group_id cp : Z) (msync_ok : bool)
    : option (Z * Store) :=
  if no_cursor cp then Some (0, s) else
  stat ← CheckPointStat.GetCheckPointStat (st_cps s) paxos_group_id;
  Some match stat with
       | None => (-1, s)
       | Some stat =>
           let '(ret, stat') := CheckPointStat.UpdateCheckPointAndFlush stat cp msync_ok in
           (if is_ok ret then 0 else -2,
            mkStoreState (st_queues s) (st_sync s)
              (<[Z.to_nat (to_u64 paxos_group_id) := stat']> (st_cps s)))
       end.

(** ** Executing a log *)

(** The log as phxpaxos replays it; a value that fails stops the replica. *)
Fixpoint execute_log (node_ready : bool) (s : Store) (log : list (Z * string)) : option (bool * Store) :=
  match log with
  | [] => Some (true, s)
  | (instance_id, value) :: r =>
      e ← Execute node_ready s instance_id value;
      if res_ok e.1 then execute_log node_ready e.2 r else Some (false, e.2)
  end.

(** The value adds items to the queue. *)
Definition adds_to (queue_id : Z) (value : string) : bool :=
  match ParseFromString value with
  | Some args => match args_add_req args with
                 | Some req => negb (bool_decide (ar_items req = [])) && (ar_queue_id req =? queue_id)
                 | None => false
                 end
  | None => false
  end.

(** A value a store proposed: queues of the configuration, positions of
    existing pairs. *)
Definition value_ok (tc : TopicConfig.t) (value : string) : Prop :=
  exists args, ParseFromString value = Some args /\
    (forall req, args_add_req args = Some req ->
       BaseMgr.known_queue tc (ar_queue_id req) /\ 0 <= ar_queue_id req < opt_nqueue opt /\
       TopicConfig.IsValidQueue tc (ar_queue_id req) (-1) (-1) = true) /\
    (forall info, args_sync_ctrl_info args = Some info -> SyncCtrl.details_ok opt info).

Definition replica_ok (s : Store) : Prop :=
  SyncCtrl.buf_ok opt (st_sync s) /\ Z.of_nat (length (st_queues s)) = opt_nqueue opt /\
  Forall BaseMgr.sorted_queue (st_queues s).

Definition queue_cursors (s : Store) (queue_id : Z) : list Z :=
  default [] (BaseMgr.cursors <$> st_queues s !! Z.to_nat queue_id).

(** The queue is at most at the instance. *)
Definition up_to (s : Store) (instance_id : Z) : Prop :=
  forall queue_id c, c ∈ queue_cursors s queue_id -> c <= instance_id.

Lemma execute_add_queues s tc id args :
  GetTopicConfigByTopicID topic_id = (RET_OK, Some tc) -> opt_ok opt -> replica_ok s ->
  BaseMgr.real id -> up_to s id ->
  (forall req, args_add_req args = Some req ->
       BaseMgr.known_queue tc (ar_queue_id req) /\ 0 <= ar_queue_id req < opt_nqueue opt /\
       TopicConfig.IsValidQueue tc (ar_queue_id req) (-1) (-1) = true) ->
  exists ret s', execute_add s id args = Some (ret, s') /\ is_err ret = false /\ replica_ok s' /\
    forall queue_id, 0 <= queue_id ->
      queue_cursors s' queue_id =
        queue_cursors s queue_id ++
          (if match args_add_req args with
              | Some req => negb (bool_decide (ar_items req = [])) && (ar_queue_id req =? queue_id)
              | None => false
              end && negb (bool_decide (id ∈ queue_cursors s queue_id)) then [id] else []).
Proof.
  intros Ht Ho Hr Hid Hup Hargs. unfold execute_add. destruct (args_add_req args) as [req|].
  2:{ exists RET_OK, s. split_and!; try done. intros. by rewrite app_nil_r. }
  destruct (Hargs req eq_refl) as (Hk & Hqr & Hv). destruct Hr as (Hb & Hlen & Hs).
  set (qid := ar_queue_id req) in *.
  assert (Hu : to_u64 qid = qid) by (apply to_u64_id; destruct Ho as (? & ? & ? & ?); unfold_ints; nia).
  destruct (lookup_lt_is_Some_2 (st_queues s) (Z.to_nat qid)) as [q Hq]; [lia|].
  assert (Hqa : queue_at s qid = Some q) by (unfold queue_at; by rewrite Hu).
  assert (Hsq : BaseMgr.sorted_queue q) by (by eapply Forall_lookup_1 in Hs).
  rewrite (BaseMgr.Add_cases crc32 topic_id s id req tc q Ht Hk Hqa). fold qid. rewrite Hv.
  destruct (bool_decide (ar_items req = [])) eqn:Ei; cbn [negb andb orb].
  { exists RET_OK, s. split_and!; try done. intros. by rewrite app_nil_r. }
  rewrite orb_false_r.
  assert (Hqc : queue_cursors s qid = BaseMgr.cursors q) by (unfold queue_cursors; by rewrite Hq).
  destruct (BaseMgr.stale q id) eqn:Est.
  - exists RET_ADD_SKIP, s. split_and!; try done. intros queue_id Hq0.
    destruct (qid =? queue_id) eqn:E; simpl_bool; [|by rewrite app_nil_r]. subst queue_id.
    rewrite bool_decide_eq_true_2; [by rewrite app_nil_r|]. rewrite Hqc.
    unfold BaseMgr.stale, StoreMetaQueue.Back in Est.
    destruct (last (StoreMetaQueue.metas q)) as [b|] eqn:El; [|done]. simpl_bool.
    assert (Hin : StoreMeta.cursor_id b ∈ BaseMgr.cursors q)
      by (apply list_elem_of_fmap_2; by apply last_Some_elem_of).
    assert (StoreMeta.cursor_id b <= id) by (apply (Hup qid); by rewrite Hqc).
    by replace id with (StoreMeta.cursor_id b) by lia.
  - destruct Hid as [Hid0 Hid1].
    destruct (BaseMgr.push_fresh crc32 q id Hsq ltac:(lia) Est) as (Hc & Hs' & _ & _).
    set (q' := (StoreMetaQueue.PushBack crc32 q (StoreMeta_of id)).2) in *.
    exists RET_OK, (set_queue s qid q'). split_and!; [done|done| |].
    + unfold replica_ok, set_queue; cbn [st_sync st_queues]. rewrite length_insert. split_and!; [done..|].
      by apply Forall_insert.
    + intros queue_id Hq0. destruct (qid =? queue_id) eqn:E; simpl_bool.
      * subst queue_id. unfold queue_cursors at 1, set_queue. cbn [st_queues]. rewrite Hu.
        rewrite list_lookup_insert_eq by lia. simpl. rewrite Hc, Hqc, bool_decide_eq_false_2; [done|].
        intros Hin. unfold BaseMgr.stale, StoreMetaQueue.Back in Est.
        apply list_elem_of_fmap in Hin as (y & -> & Hy).
        destruct (last (StoreMetaQueue.metas q)) as [b|] eqn:El; simpl_bool.
        -- pose proof (key_sorted_last_max _ _ _ _ Hsq Hy El). lia.
        -- apply last_None in El. rewrite El in Hy. by apply elem_of_nil in Hy.
      * rewrite app_nil_r. unfold queue_cursors, set_queue. cbn [st_queues]. rewrite Hu.
        rewrite list_lookup_insert_ne by lia. done.
Qed.

Lemma execute_sync_queues s args :
  opt_ok opt -> replica_ok s ->
  (forall info, args_sync_ctrl_info args = Some info -> SyncCtrl.details_ok opt info) ->
  exists s', execute_sync s args = Some (RET_OK, s') /\ replica_ok s' /\
    (forall queue_id, queue_cursors s' queue_id = queue_cursors s queue_id) /\
    SyncCtrl.all_advance opt (st_sync s) (st_sync s').
Proof.
  intros Ho (Hb & Hlen & Hs) Hd. unfold execute_sync.
  destruct (args_sync_ctrl_info args) as [info|].
  2:{ exists s. split; [done|]. split; [done|]. split; [done|]. by apply SyncCtrl.all_advance_refl. }
  destruct (SyncCtrl.SyncCursorID_ok opt Ho _ _ _ Hb Hlen (Hd _ eq_refl)) as (buf & qs & -> & Ha & _ & Hm).
  simpl. eexists. split; [reflexivity|].
  assert (Hlen' : length qs = length (st_queues s)).
  { rewrite <-(length_fmap StoreMetaQueue.metas qs), Hm. apply length_fmap. }
  assert (Hi : forall i : nat, StoreMetaQueue.metas <$> qs !! i = StoreMetaQueue.metas <$> st_queues s !! i).
  { intros i. by rewrite <-!list_lookup_fmap, Hm. }
  split_and!; [split_and!; simpl| |done].
  - apply Ha.
  - by rewrite Hlen'.
  - apply Forall_lookup. intros i q Hq. specialize (Hi i). rewrite Hq in Hi.
    destruct (st_queues s !! i) as [q0|] eqn:E; [|done]. injection Hi as Hi.
    unfold BaseMgr.sorted_queue. rewrite Hi. by eapply Forall_lookup_1 in Hs.
  - intros queue_id. unfold queue_cursors, BaseMgr.cursors. simpl. specialize (Hi (Z.to_nat queue_id)).
    destruct (qs !! Z.to_nat queue_id), (st_queues s !! Z.to_nat queue_id); simpl in *; congruence.
Qed.

Lemma Execute_queues node_ready s tc id value :
  GetTopicConfigByTopicID topic_id = (RET_OK, Some tc) -> opt_ok opt -> replica_ok s ->
  BaseMgr.real id -> up_to s id -> value_ok tc value ->
  exists res s', Execute node_ready s id value = Some (res, s') /\ res_ok res = true /\ replica_ok s' /\
    forall queue_id, 0 <= queue_id ->
      queue_cursors s' queue_id =
        queue_cursors s queue_id ++
          (if adds_to queue_id value && negb (bool_decide (id ∈ queue_cursors s queue_id)) then [id] else []).
Proof.
  intros Ht Ho Hr Hid Hup (args & Hp & Hadd & Hsync). unfold Execute. rewrite Hp.
  destruct (execute_add_queues s tc id args) as (ret & s1 & -> & He & Hr1 & Hq1); [done..|].
  cbn [mbind option_bind fst snd]. rewrite He.
  destruct (execute_sync_queues s1 args) as (s2 & -> & Hr2 & Hq2 & _); [done..|].
  cbn [mbind option_bind fst snd]. change (is_err RET_OK) with false.
  do 2 eexists. split; [reflexivity|]. split_and!; [done|done|].
  intros queue_id Hq. rewrite Hq2, Hq1 by done. unfold adds_to. by rewrite Hp.
Qed.

(** The ids of a log do not decrease (one instance can carry several
    values). *)
Definition log_ids_ok (log : list (Z * string)) : Prop :=
  Forall (fun e => BaseMgr.real e.1) log /\ StronglySorted Z.le log.*1.

Lemma execute_log_queues node_ready s tc log :
  GetTopicConfigByTopicID topic_id = (RET_OK, Some tc) -> opt_ok opt -> replica_ok s ->
  log_ids_ok log -> Forall (fun e => value_ok tc e.2) log ->
  Forall (fun e => up_to s e.1) log ->
  (forall queue_id, 0 <= queue_id -> StronglySorted Z.lt (queue_cursors s queue_id)) ->
  exists s', execute_log node_ready s log = Some (true, s') /\ replica_ok s' /\
    forall queue_id, 0 <= queue_id ->
      StronglySorted Z.lt (queue_cursors s' queue_id) /\
      forall c, c ∈ queue_cursors s' queue_id <->
        c ∈ queue_cursors s queue_id \/ exists v, (c, v) ∈ log /\ adds_to queue_id v = true.
Proof.
  intros Ht Ho Hr [Hreal Hsort] Hv Hup. revert s Hr Hup.
  induction log as [|[id v] log IH]; intros s Hr Hup Hs.
  { exists s. split_and!; [done..|]. intros queue_id Hq. split; [auto|]. intros c.
    split; [by left|]. intros [?|(? & ?%elem_of_nil & _)]; done. }
  apply Forall_cons in Hreal as [Hid Hreal], Hv as [Hvi Hv], Hup as [Hupi Hup]. simpl in *.
  apply StronglySorted_cons in Hsort as [Hall Hsort].
  destruct (Execute_queues node_ready s tc id v Ht Ho Hr Hid Hupi Hvi) as (res & s1 & -> & Hok & Hr1 & Hq1).
  cbn [mbind option_bind fst snd]. rewrite Hok.
  assert (Hup1 : Forall (fun e => up_to s1 e.1) log).
  { apply Forall_forall. intros [id' v'] Hin queue_id c. simpl.
    destruct (decide (0 <= queue_id)) as [Hq|Hq].
    - rewrite Hq1 by done. intros [Hc|Hc]%elem_of_app.
      + eapply Forall_forall in Hup; [|exact Hin]. by apply (Hup queue_id).
      + split_if_in Hc; [|by apply elem_of_nil in Hc]. apply list_elem_of_singleton in Hc as ->.
        rewrite Forall_forall in Hall. apply Hall. by apply (list_elem_of_fmap_2 fst _ (id', v')).
    - assert (queue_cursors s1 queue_id = queue_cursors s1 0) as ->
        by (unfold queue_cursors; by rewrite Z2Nat.nonpos by lia).
      rewrite Hq1 by done. intros [Hc|Hc]%elem_of_app.
      + eapply Forall_forall in Hup; [|exact Hin]. by apply (Hup 0).
      + split_if_in Hc; [|by apply elem_of_nil in Hc]. apply list_elem_of_singleton in Hc as ->.
        rewrite Forall_forall in Hall. apply Hall. by apply (list_elem_of_fmap_2 fst _ (id', v')). }
  assert (Hs1 : forall queue_id, 0 <= queue_id -> StronglySorted Z.lt (queue_cursors s1 queue_id)).
  { intros queue_id Hq. rewrite Hq1 by done. split_if; [|by rewrite app_nil_r; apply Hs].
    apply StronglySorted_app_2; [|by apply Hs|repeat constructor].
    intros x y Hx ->%list_elem_of_singleton. specialize (Hupi _ _ Hx).
    assert (x <> id) by (by intros ->). lia. }
  destruct (IH Hreal Hsort Hv s1 Hr1 Hup1 Hs1) as (s2 & -> & Hr2 & Hq2).
  exists s2. split_and!; [done..|]. intros queue_id Hq. destruct (Hq2 _ Hq) as [Hs2 Hc2].
  split; [done|]. intros c. rewrite Hc2, Hq1 by done. rewrite elem_of_app. split.
  - intros [[?|Hc]|(v' & ? & ?)]; [by left| |right; exists v'; split; [by right|done]].
    split_if_in Hc; [|by apply elem_of_nil in Hc]. apply list_elem_of_singleton in Hc as ->.
    right. exists v. split; [by left|done].
  - intros [?|(v' & [E|?]%elem_of_cons & Ha)]; [by left; left| |right; eauto].
    injection E as -> ->. left.
    destruct (decide (id ∈ queue_cursors s queue_id)); [by left|right].
    rewrite bool_decide_eq_false_2 by done. rewrite Ha. simpl. constructor.
Qed.

(** C12: what a replica's queues hold is determined by the log alone.  After
    executing a log of well-formed values from an empty store, [Execute]
    never failed, and the cursor ids of each queue are, in increasing order
    and without repetition, exactly the instances that carry a value adding
    items to it, however many values were batched in one instance. *)
Theorem execute_log_complete node_ready tc log sync cps :
  GetTopicConfigByTopicID topic_id = (RET_OK, Some tc) -> opt_ok opt -> SyncCtrl.buf_ok opt sync ->
  log_ids_ok log -> Forall (fun e => value_ok tc e.2) log ->
  exists s', execute_log node_ready (mkStoreState (BaseMgr.Init opt).2 sync cps) log = Some (true, s') /\
    forall queue_id, 0 <= queue_id ->
      StronglySorted Z.lt (queue_cursors s' queue_id) /\
      forall c, c ∈ queue_cursors s' queue_id <-> exists v, (c, v) ∈ log /\ adds_to queue_id v = true.
Proof.
  intros Ht Ho Hb Hids Hv. set (s0 := mkStoreState _ sync cps).
  assert (H0 : forall queue_id, queue_cursors s0 queue_id = []).
  { intros queue_id. unfold queue_cursors, s0; simpl.
    destruct (replicate (Z.to_nat (opt_nqueue opt)) StoreMetaQueue.empty !! Z.to_nat queue_id) eqn:E; [|done].
    by apply lookup_replicate_1 in E as [-> _]. }
  destruct (execute_log_queues node_ready s0 tc log) as (s' & He & _ & Hq); try done.
  - split_and!; simpl; [done|rewrite length_replicate; destruct Ho; lia|].
    apply Forall_replicate. constructor.
  - apply Forall_forall. intros e _ queue_id c. rewrite H0. by intros ?%elem_of_nil.
  - intros. rewrite H0. constructor.
  - exists s'. split; [done|]. intros queue_id Hq0. destruct (Hq _ Hq0) as [? Hc]. split; [done|].
    intros c. rewrite Hc, H0. split; [intros [?%elem_of_nil|?]; done|auto].
Qed.
End store.
End StoreSM.

(** ** [class Store] *)

(** [phxpaxos::Node::BatchPropose]: the paxos code, the instance id and the
    code that [Execute] left in the context; the store as [Execute] left it. *)
Class PaxosBatchPropose := {
  BatchPropose : Store -> Z -> string -> Z * Z * RetCode * Store;
}.

Module StoreService.
Section store.
Context (crc32 : Z -> Z -> Z) `{GC : GlobalConfig, PN : PaxosNode, SC : StoreCodec, IN : Inet}.
Context `{TD : TopicDirectory, PR : PaxosRet, PP : PaxosBatchPropose}.
Context (opt : StoreOption).

(** [InitTopicID]: by name, or the first topic whose configuration lists the
    address of this store. *)
Definition InitTopicID (opt_topic : string) : RetCode * option Z :=
  if negb (bool_decide (opt_topic = ""%string)) then
    match GetTopicIDByTopicName opt_topic with
    | (RET_OK, id) => (RET_OK, Some id)
    | (ret, _) => (ret, None)
    end
  else
    match GetAllTopicID with
    | (RET_OK, topic_ids) =>
        match list_find (fun id =>
                match GetStoreConfig id with
                | (RET_OK, Some store_config) =>
                    is_ok (StoreConfig.GetStoreIDByAddr store_config (opt_addr opt)).1
                | _ => false
                end = true) (set_items topic_ids) with
        | Some (_, id) => (RET_OK, Some id)
        | None => (RET_ERR_RANGE_ADDR, None)
        end
    | (ret, _) => (ret, None)
    end.

Context (topic_id : Z).

Definition CheckRequestComm (req_store_id queue_id : Z) : RetCode :=
  match GetStoreConfig topic_id with
  | (RET_OK, Some store_config) =>
      match StoreConfig.GetStoreByAddr store_config (opt_addr opt) with
      | (RET_OK, Some store) =>
          if negb (store_id store =? req_store_id) then RET_ERR_RANGE_STORE else
          match GetTopicConfigByTopicID topic_id with
          | (RET_OK, Some topic_config) =>
              if negb (TopicConfig.IsValidQueue topic_config queue_id (-1) (-1))
              then RET_ERR_RANGE_PUB else RET_OK
          | (ret, _) => ret
          end
      | (ret, _) => ret
      end
  | (ret, _) => ret
  end.

Definition CheckAddRequest (req : AddRequest) : RetCode :=
  let ret := CheckRequestComm (ar_store_id req) (ar_queue_id req) in
  if negb (is_ok ret) then ret else
  match GetTopicConfigByTopicID topic_id with
  | (RET_OK, Some topic_config) =>
      if to_u64 (items_byte_size_limit (topic (TopicConfig.proto topic_config)))
           <? BaseMgr.bytes_of (ar_items req)
      then RET_ERR_SIZE_TOO_LARGE else RET_OK
  | (ret, _) => ret
  end.

Definition CheckGetRequest (req : GetRequest) : RetCode :=
  CheckRequestComm (gr_store_id req) (gr_queue_id req).

(** [CheckMaster]: the address to redirect to goes with
    [RET_ERR_NOT_MASTER]. *)
Definition CheckMaster (paxos_group_id : Z) : RetCode * option Addr :=
  if IsIMMaster paxos_group_id then (RET_OK, None) else
  let '(node_ip, node_port) := GetMaster paxos_group_id in
  if bool_decide (node_ip = ""%string) || (node_port =? 0) || bool_decide (node_ip = "0.0.0.0"%string)
  then (RET_ERR_NO_MASTER, None) else
  match GetStoreConfig topic_id with
  | (RET_OK, Some store_config) =>
      match StoreConfig.GetStoreByAddr store_config (opt_addr opt) with
      | (RET_OK, Some store) =>
          match list_find (fun a => ip a = node_ip /\ paxos_port a = node_port) (addrs store) with
          | Some (_, a) => (RET_ERR_NOT_MASTER, Some a)
          | None => (RET_ERR_RANGE_ADDR, None)
          end
      | (ret, _) => (ret, None)
      end
  | (ret, _) => (ret, None)
  end.

(** [now] is [time(nullptr)].  The cursor id of the response is set when the
    proposal went through. *)
Definition PaxosAdd (now : Z) (s : Store) (req : AddRequest) : RetCode * option Z * Store :=
  let args := mkStorePaxosArgs (Some req) None (mkAddr "" 0 0) (to_u64 now) in
  let '(paxos_ret, instance_id, sc_result, s') :=
    BatchPropose s (paxos_group_of opt (ar_queue_id req)) (SerializeToString args) in
  if negb (PaxosTryCommitRet_OK =? paxos_ret) then (propose_error paxos_ret, None, s')
  else (sc_result, Some instance_id, s').

Record AddResponse := mkAddResponse { addr_cursor_id : option Z; addr_redirect : option Addr }.

Definition Add (now : Z) (s : Store) (req : AddRequest) : RetCode * AddResponse * Store :=
  if bool_decide (ar_items req = []) then (RET_OK, mkAddResponse None None, s) else
  let ret := CheckAddRequest req in
  if negb (is_ok ret) then (ret, mkAddResponse None None, s) else
  let '(ret, redirect) := CheckMaster (paxos_group_of opt (ar_queue_id req)) in
  if negb (is_ok ret) then (ret, mkAddResponse None redirect, s) else
  let '(ret, cursor, s') := PaxosAdd now s req in
  (ret, mkAddResponse cursor redirect, s').

Definition Get (clock : nat -> Z) (s : Store) (req : GetRequest) (resp : GetResponse)
    : option (RetCode * GetResponse * option Addr * Store) :=
  let ret := CheckGetRequest req in
  if negb (is_ok ret) then Some (ret, resp, None, s) else
  let '(ret, redirect) := CheckMaster (paxos_group_of opt (gr_queue_id req)) in
  if negb (is_ok ret) then Some (ret, resp, redirect, s) else
  r ← BaseMgr.Get crc32 opt topic_id s clock req resp;
  let '(ret, resp, s') := r in Some (ret, resp, redirect, s').

Definition NeedDropMaster (paxos_group_id : Z) : bool := false.

(** ** Properties *)


End store.
End StoreService.
