(* ===== verification/KeepSync.v ===== *)
(** * The background thread of a store (src/phxqueue/store/keepsyncthread.cpp)

    Once a second the thread forgets positions the configuration dropped,
    moves the checkpoints of the paxos groups, proposes the master's positions
    to the followers, replays queues on request and reports the backlog.  The
    theorems say that a checkpoint never passes an item some consumer group has
    not processed, that it never moves back, and that a follower that executes
    the proposed positions is at least where the master was. *)

From S2P Require Import Prelude RetCode TopicConfig StoreConfig Node StoreMeta SyncCtrl BaseMgr StoreSM.

Definition NoCheckpoint : Z := UINT64_MAX.

(** [consumer::Queue_t] as this thread fills it. *)
Record Queue_t := mkQueue_t { qt_consumer_group_id : Z; qt_store_id : Z; qt_queue_id : Z }.

Module KeepSyncThread.
Section store.
Context (crc32 : Z -> Z -> Z) `{GC : GlobalConfig, PN : PaxosNode, SC : StoreCodec, IN : Inet}.
Context (opt : StoreOption) (topic_id : Z).

(** [KeepSyncThreadImpl]. *)
Record t := mk {
  last_clear_time : Z;
  next_make_cp_times : list Z;
  next_sync_times : list Z;
}.

(** [DoRun] before its loop. *)
Definition init : t :=
  mk 0 (replicate (Z.to_nat (opt_ngroup opt)) 0) (replicate (Z.to_nat (opt_ngroup opt)) 0).

(** The thread clears when the configuration changed; [last_mod_time] is the
    thread-local variable of [SyncCtrl::ClearSyncCtrl]. *)
Definition ClearSyncCtrl (k : t) (last_mod_time : Z) (s : Store) : option (t * Z * Store) :=
  let mod_time := GetLastModTime topic_id in
  if last_clear_time k =? mod_time then Some (k, last_mod_time, s) else
  r ← SyncCtrl.ClearSyncCtrl opt topic_id mod_time last_mod_time (st_sync s);
  Some (mk mod_time (next_make_cp_times k) (next_sync_times k), r.1,
        mkStoreState (st_queues s) r.2 (st_cps s)).

(** The values of [for (int i = first; i < last; i += step)]. *)
Definition step_range (first last step : Z) : list Z :=
  (fun k => first + k * step) <$> seqZ 0 ((last - first + step - 1) / step).

Definition queues_of_group (paxos_group_id : Z) : list Z :=
  step_range paxos_group_id (opt_nqueue opt) (opt_ngroup opt).

(** The configuration every duty of the thread starts from. *)
Definition local_pubs : option (TopicConfig.t * Z * gset Z) :=
  match GetTopicConfigByTopicID topic_id with
  | (RET_OK, Some topic_config) =>
      match GetStoreConfig topic_id with
      | (RET_OK, Some store_config) =>
          match StoreConfig.GetStoreIDByAddr store_config (opt_addr opt) with
          | (RET_OK, Some store_id) =>
              match GetPubIDsByStoreID topic_id store_id with
              | (RET_OK, pub_ids) => Some (topic_config, store_id, pub_ids)
              | _ => None
              end
          | _ => None
          end
      | _ => None
      end
  | _ => None
  end.

(** ** [MakeCheckPoint] *)

Definition DumpCheckPoint (s : Store) (paxos_group_id cp : Z) (msync_ok : bool)
    : option (RetCode * Store) :=
  if cp =? UINT64_MAX then Some (RET_ERR_NO_NEED_DUMP_CHECKPOINT, s) else
  stat ← CheckPointStat.GetCheckPointStat (st_cps s) paxos_group_id;
  Some match stat with
       | None => (RET_ERR_LOGIC, s)
       | Some stat =>
           let '(ret, tmp_cp) := CheckPointStat.GetCheckPoint stat in
           if negb (is_ok ret) then (ret, s) else
           if negb (tmp_cp =? UINT64_MAX) && (cp <? tmp_cp)
           then (RET_ERR_NO_NEED_DUMP_CHECKPOINT, s) else
           let '(ret, stat') := CheckPointStat.UpdateCheckPointAndFlush stat cp msync_ok in
           (ret, mkStoreState (st_queues s) (st_sync s)
                   (<[Z.to_nat (to_u64 paxos_group_id) := stat']> (st_cps s)))
       end.

(** The loop over the consumer groups of a queue: the least processed
    position of the valid ones, and whether all of them have one. *)
Definition min_prev_step (tc : TopicConfig.t) (pub_ids : gset Z) (sync : list SyncCtrlItem)
    (queue_id : Z) (acc : Z * bool) (consumer_group_id : Z) : option (Z * bool) :=
  if negb (SyncCtrl.valid_for_any tc pub_ids queue_id consumer_group_id) then Some acc else
  r ← SyncCtrl.GetCursorID opt sync consumer_group_id queue_id true;
  let '(min_prev, need_update) := acc in
  Some (if is_ok r.1 then (if (min_prev =? UINT64_MAX) || (r.2 <? min_prev) then r.2 else min_prev, need_update)
        else if is_soft r.1 then (min_prev, false) else (min_prev, need_update)).

Definition min_prev_of (tc : TopicConfig.t) (pub_ids : gset Z) (sync : list SyncCtrlItem)
    (queue_id : Z) : option (Z * bool) :=
  foldM (min_prev_step tc pub_ids sync queue_id) (UINT64_MAX, true)
        (seqZ 1 (opt_nconsumer_group opt)).

Definition trim_queue (q : StoreMetaQueue.t) (min_prev : Z) (need_update : bool) : StoreMetaQueue.t :=
  if need_update then
    if min_prev =? UINT64_MAX then StoreMetaQueue.Clear q
    else StoreMetaQueue.EraseFrontTill q (StoreMeta_of min_prev)
  else q.

(** What the front of the queue does to [cp] and [finish]. *)
Definition cp_of_front (q : StoreMetaQueue.t) (cp : Z) : Z * bool :=
  match StoreMetaQueue.Front q with
  | Some meta =>
      if 0 <? StoreMetaQueue.Size q then
        let tmp := StoreMeta.cursor_id meta -u 1 in
        let finish := tmp =? UINT64_MAX in
        let cp := if finish then UINT64_MAX else cp in
        (if (cp =? UINT64_MAX) || (tmp <? cp) then tmp else cp, finish)
      else (cp, false)
  | None => (cp, false)
  end.

(** The loop over the queues of a group; [finish] ends it. *)
Fixpoint cp_queues (tc : TopicConfig.t) (pub_ids : gset Z) (s : Store) (ids : list Z) (cp : Z)
    : option (Z * bool * Store) :=
  match ids with
  | [] => Some (cp, false, s)
  | queue_id :: r =>
      m ← min_prev_of tc pub_ids (st_sync s) queue_id;
      mq ← SyncCtrl.GetMetaQueue opt (st_queues s) queue_id;
      q ← mq;
      let q' := trim_queue q m.1 m.2 in
      let s' := set_queue s queue_id q' in
      let '(cp', finish) := cp_of_front q' cp in
      if (finish : bool) then Some (cp', true, s') else cp_queues tc pub_ids s' r cp'
  end.

(** The checkpoint of one group. *)
Definition make_cp (tc : TopicConfig.t) (pub_ids : gset Z) (s : Store) (paxos_group_id : Z)
    (now_instance_id : Z) : option (Z * Store) :=
  r ← cp_queues tc pub_ids s (queues_of_group paxos_group_id) NoCheckpoint;
  let '(cp, finish, s') := r in
  Some (if (cp =? UINT64_MAX) && negb finish then now_instance_id -u 1 else cp, s').

(** The readings the thread makes for one group: the clock, the random
    number and the outcome of [msync]. *)
Record tick := mkTick { tk_now : Z; tk_rand : Z; tk_msync_ok : bool }.

Definition next_time (tk : tick) (interval : Z) : Z :=
  let interval := if interval =? 0 then 1 else interval in
  tk_now tk + interval + tk_rand tk mod to_u32 interval.

Definition make_cp_group (tc : TopicConfig.t) (pub_ids : gset Z) (k : t) (s : Store)
    (paxos_group_id : Z) (tk : tick) : option (t * Store) :=
  let i := Z.to_nat paxos_group_id in
  due ← next_make_cp_times k !! i;
  if tk_now tk <? due then Some (k, s) else
  let k' := mk (last_clear_time k)
               (<[i := next_time tk (store_make_cp_interval_s (topic (TopicConfig.proto tc)))]>
                  (next_make_cp_times k)) (next_sync_times k) in
  r ← make_cp tc pub_ids s paxos_group_id (GetNowInstanceID paxos_group_id);
  d ← DumpCheckPoint r.2 paxos_group_id r.1 (tk_msync_ok tk);
  Some (k', d.2).

Definition MakeCheckPoint (k : t) (s : Store) (ticks : Z -> tick) : option (t * Store) :=
  match local_pubs with
  | Some (tc, _, pub_ids) =>
      foldM (fun ks g => make_cp_group tc pub_ids ks.1 ks.2 g (ticks g)) (k, s) (seqZ 0 (opt_ngroup opt))
  | None => Some (k, s)
  end.

(** ** The checkpoint never passes an unprocessed item *)

Lemma elem_of_step_range first last step x :
  0 <= first -> 0 < step ->
  (x ∈ step_range first last step <-> first <= x < last /\ (x - first) mod step = 0).
Proof.
  intros Hf Hs. unfold step_range. rewrite list_elem_of_fmap. setoid_rewrite elem_of_seqZ. split.
  - intros (k & -> & Hk).
    assert (k + 1 <= (last - first + step - 1) / step) by lia.
    assert (step * ((last - first + step - 1) / step) <= last - first + step - 1)
      by (apply Z.mul_div_le; lia).
    replace (first + k * step - first) with (k * step) by lia. rewrite Z.mod_mul by lia. split; [nia|done].
  - intros [Hx Hm]. exists ((x - first) / step).
    pose proof (Z.div_mod (x - first) step ltac:(lia)) as Hd. rewrite Hm in Hd. split; [lia|].
    split; [apply Z.div_pos; lia|].
    assert (0 <= (x - first) / step) by (apply Z.div_pos; lia).
    set (k := (x - first) / step) in *.
    assert (k + 1 <= (last - first + step - 1) / step); [|lia].
    apply Z.div_le_lower_bound; [lia|]. nia.
Qed.

Lemma NoDup_step_range first last step : 0 < step -> NoDup (step_range first last step).
Proof.
  intros Hs. unfold step_range. apply NoDup_fmap_2_strong; [|apply NoDup_seqZ].
  intros a b _ _ H. nia.
Qed.

(** Some valid consumer group of the queue has not processed cursor id [c]. *)
Definition unprocessed (tc : TopicConfig.t) (pub_ids : gset Z) (sync : list SyncCtrlItem)
    (queue_id c : Z) : Prop :=
  exists g, SyncCtrl.pair_ok opt g queue_id /\ SyncCtrl.valid_for_any tc pub_ids queue_id g = true /\
    let i := SyncCtrl.item_of opt sync g queue_id in prev_valid i = false \/ prev_cursor_id i < c.

Definition positions_real (sync : list SyncCtrlItem) : Prop :=
  forall g q, SyncCtrl.pair_ok opt g q -> prev_valid (SyncCtrl.item_of opt sync g q) = true ->
    BaseMgr.real (prev_cursor_id (SyncCtrl.item_of opt sync g q)).

Lemma min_prev_spec tc pub_ids sync queue_id m need :
  opt_ok opt -> SyncCtrl.buf_ok opt sync -> positions_real sync -> 0 <= queue_id < opt_nqueue opt ->
  min_prev_of tc pub_ids sync queue_id = Some (m, need) -> need = true ->
  forall g, SyncCtrl.pair_ok opt g queue_id -> SyncCtrl.valid_for_any tc pub_ids queue_id g = true ->
    let i := SyncCtrl.item_of opt sync g queue_id in
    prev_valid i = true /\ m <> UINT64_MAX /\ m <= prev_cursor_id i.
Proof.
  intros Ho Hb Hreal Hq. unfold min_prev_of.
  assert (Hgen : forall l m0 need0, Forall (fun g => SyncCtrl.pair_ok opt g queue_id) l ->
    foldM (min_prev_step tc pub_ids sync queue_id) (m0, need0) l = Some (m, need) -> need = true ->
    need0 = true /\ (m0 = UINT64_MAX \/ (m <> UINT64_MAX /\ m <= m0)) /\
    forall g, g ∈ l -> SyncCtrl.valid_for_any tc pub_ids queue_id g = true ->
      let i := SyncCtrl.item_of opt sync g queue_id in
      prev_valid i = true /\ m <> UINT64_MAX /\ m <= prev_cursor_id i).
  { induction l as [|g l IH]; intros m0 need0 Hl Hf Hneed.
    { injection Hf as -> ->. split_and!; [done| |by intros g ?%elem_of_nil].
      destruct (decide (m = UINT64_MAX)); [by left|by right]. }
    apply Forall_cons in Hl as [Hg Hl]. apply foldM_cons in Hf as ([m1 need1] & H1 & Hf).
    destruct (IH m1 need1 Hl Hf Hneed) as (Hn1 & Hm1 & Hall). unfold min_prev_step in H1.
    destruct (SyncCtrl.valid_for_any tc pub_ids queue_id g) eqn:Ev; cbn [negb] in H1.
    2:{ injection H1 as -> ->. split_and!; [done..|].
        intros g' [->|Hin]%elem_of_cons Hv; [congruence|by apply Hall]. }
    rewrite SyncCtrl.GetCursorID_item in H1 by done. cbn [mbind option_bind] in H1.
    set (i := SyncCtrl.item_of opt sync g queue_id) in *.
    destruct (prev_valid i) eqn:Ep; cbn [fst snd] in H1.
    2:{ change (is_ok RET_ERR_CURSOR_NOT_FOUND) with false in H1.
        change (is_soft RET_ERR_CURSOR_NOT_FOUND) with true in H1. injection H1 as <- <-. done. }
    change (is_ok RET_OK) with true in H1. injection H1 as <- <-.
    destruct (Hreal g queue_id Hg Ep) as [Hr0 Hr1]. fold i in Hr0, Hr1.
    assert (Hmi : m <> UINT64_MAX /\ m <= prev_cursor_id i /\ (m0 = UINT64_MAX \/ m <= m0)).
    { destruct ((m0 =? UINT64_MAX) || (prev_cursor_id i <? m0)) eqn:E; simpl_bool; lia. }
    destruct Hmi as (? & ? & ?). split_and!; [done|tauto|].
    intros g' [->|Hin]%elem_of_cons Hv; [done|by apply Hall]. }
  intros Hf Hneed g Hg Hv.
  apply Hgen in Hf as (_ & _ & Hall); [|apply Forall_forall; intros g' Hin%elem_of_seqZ; split; lia|done].
  apply Hall; [|done]. apply elem_of_seqZ. destruct Hg. lia.
Qed.

(** ** Trimming one queue *)

Definition queue_ok (q : StoreMetaQueue.t) : Prop :=
  BaseMgr.sorted_queue q /\ BaseMgr.real_queue q /\ Z.of_nat (length (StoreMetaQueue.metas q)) <= INT32_MAX.

Lemma trim_queue_metas q min_prev need :
  BaseMgr.sorted_queue q ->
  StoreMetaQueue.metas (trim_queue q min_prev need) =
    if need then (if min_prev =? UINT64_MAX then []
                  else filter (fun m => min_prev < StoreMeta.cursor_id m) (StoreMetaQueue.metas q))
    else StoreMetaQueue.metas q.
Proof.
  intros Hs. unfold trim_queue. destruct need; [|done]. destruct (min_prev =? UINT64_MAX) eqn:E; [done|].
  unfold StoreMetaQueue.EraseFrontTill, no_cursor. cbn [StoreMeta_of StoreMeta.cursor_id]. rewrite E.
  rewrite <-upper_bound_filter by done. by destruct (StoreMetaQueue.metas q) eqn:Em.
Qed.

Lemma trim_queue_sub q min_prev need :
  BaseMgr.sorted_queue q ->
  StoreMetaQueue.metas (trim_queue q min_prev need) `suffix_of` StoreMetaQueue.metas q.
Proof.
  intros Hs. rewrite trim_queue_metas by done. destruct need; [|done].
  case_match; [apply suffix_nil|]. rewrite <-upper_bound_filter by done. apply upper_bound_suffix.
Qed.

Lemma suffix_queue_ok q q' :
  StoreMetaQueue.metas q' `suffix_of` StoreMetaQueue.metas q -> queue_ok q -> queue_ok q'.
Proof.
  intros Hsuf (Hs & Hr & Hl). unfold queue_ok, BaseMgr.sorted_queue, BaseMgr.real_queue, BaseMgr.cursors in *.
  split_and!; [by eapply key_sorted_suffix| |].
  - destruct Hsuf as [k E]. rewrite E, fmap_app in Hr. by apply Forall_app in Hr as [_ ?].
  - apply suffix_length in Hsuf. lia.
Qed.

(** [cp_of_front]: [cp] ends up below the front, and [finish] says that
    there is no room below it. *)
Lemma cp_of_front_spec q cp cp' finish :
  queue_ok q -> cp_of_front q cp = (cp', finish) ->
  (finish = true -> cp' = UINT64_MAX) /\
  (finish = false ->
    (cp = UINT64_MAX \/ (cp' <> UINT64_MAX /\ cp' <= cp)) /\
    forall m, m ∈ StoreMetaQueue.metas q -> cp' <> UINT64_MAX /\ cp' < StoreMeta.cursor_id m).
Proof.
  intros (Hs & Hr & Hl) E. unfold cp_of_front, StoreMetaQueue.Front, StoreMetaQueue.Size in E.
  unfold BaseMgr.sorted_queue, BaseMgr.real_queue, BaseMgr.cursors in *.
  destruct (StoreMetaQueue.metas q) as [|m0 l] eqn:Em; cbn [head] in E.
  { injection E as <- <-. split; [done|]. intros _. split; [|by intros m ?%elem_of_nil].
    destruct (decide (cp = UINT64_MAX)); [by left|right; lia]. }
  rewrite to_i32_id in E by (unfold_ints; lia).
  rewrite (proj2 (Z.ltb_lt 0 _)) in E by (cbn [length]; lia).
  apply Forall_cons in Hr as [[Hm0 Hm1] _].
  assert (Hmin : forall m, m ∈ m0 :: l -> StoreMeta.cursor_id m0 <= StoreMeta.cursor_id m)
    by (intros m Hm; by eapply key_sorted_head_min).
  destruct (decide (StoreMeta.cursor_id m0 = 0)) as [E0|E0].
  - rewrite E0 in E. change (0 -u 1) with UINT64_MAX in E. rewrite Z.eqb_refl in E. cbn in E.
    injection E as <- <-. split; [done|]. done.
  - rewrite to_u64_id in E by ilia. rewrite (proj2 (Z.eqb_neq (_ - 1) _)) in E by lia.
    injection E as <- <-. split; [done|]. intros _. split.
    + destruct ((cp =? UINT64_MAX) || _) eqn:Ec; simpl_bool; lia.
    + intros m Hm. specialize (Hmin m Hm).
      destruct ((cp =? UINT64_MAX) || _) eqn:Ec; simpl_bool; lia.
Qed.

(** ** The groups *)

Definition store_ok (s : Store) : Prop :=
  SyncCtrl.buf_ok opt (st_sync s) /\ positions_real (st_sync s) /\
  Z.of_nat (length (st_queues s)) = opt_nqueue opt /\ Forall queue_ok (st_queues s).

Definition metas_at (s : Store) (queue_id : Z) : list StoreMeta :=
  default [] (StoreMetaQueue.metas <$> queue_at s queue_id).

Lemma queue_at_set s queue_id q queue_id' :
  opt_ok opt -> Z.of_nat (length (st_queues s)) = opt_nqueue opt ->
  0 <= queue_id < opt_nqueue opt -> 0 <= queue_id' < opt_nqueue opt ->
  queue_at (set_queue s queue_id q) queue_id' =
    if decide (queue_id = queue_id') then Some q else queue_at s queue_id'.
Proof.
  intros (Ho1 & Ho2 & Ho3 & Ho4) Hl Hi1 Hi2. unfold queue_at, set_queue; cbn [st_queues].
  rewrite !to_u64_id by (unfold_ints; nia). case_decide.
  - subst. rewrite list_lookup_insert_eq; [done|lia].
  - rewrite list_lookup_insert_ne; [done|lia].
Qed.

Lemma queue_at_ok s queue_id :
  opt_ok opt -> store_ok s -> 0 <= queue_id < opt_nqueue opt ->
  exists q, queue_at s queue_id = Some q /\ queue_ok q /\ metas_at s queue_id = StoreMetaQueue.metas q.
Proof.
  intros (? & ? & ? & ?) (_ & _ & Hl & Hok) Hq. unfold metas_at, queue_at.
  rewrite !to_u64_id by (unfold_ints; nia).
  destruct (lookup_lt_is_Some_2 (st_queues s) (Z.to_nat queue_id)) as [q E]; [lia|].
  exists q. rewrite E. split_and!; [done|by eapply Forall_lookup_1 in Hok|done].
Qed.

Lemma store_ok_set s queue_id q :
  store_ok s -> queue_ok q -> store_ok (set_queue s queue_id q).
Proof.
  intros (Hb & Hr & Hl & Hok) Hq. unfold store_ok, set_queue; cbn [st_sync st_queues].
  rewrite length_insert. split_and!; [done..|]. by apply Forall_insert.
Qed.

(** Between two states of a group's round: every queue keeps what is
    unprocessed. *)
Definition keeps (tc : TopicConfig.t) (pub_ids : gset Z) (s s' : Store) (queue_id : Z) : Prop :=
  forall m, m ∈ metas_at s queue_id -> unprocessed tc pub_ids (st_sync s) queue_id (StoreMeta.cursor_id m) ->
    m ∈ metas_at s' queue_id.

Lemma trim_keeps tc pub_ids s queue_id m need q :
  opt_ok opt -> store_ok s -> 0 <= queue_id < opt_nqueue opt ->
  min_prev_of tc pub_ids (st_sync s) queue_id = Some (m, need) -> queue_at s queue_id = Some q ->
  keeps tc pub_ids s (set_queue s queue_id (trim_queue q m need)) queue_id.
Proof.
  intros Ho Hs Hq Hm Hqa x Hx Hun. pose proof Hs as (Hb & Hreal & Hl & _).
  unfold metas_at in *. rewrite queue_at_set, decide_True by done. rewrite Hqa in Hx. simpl in *.
  destruct (queue_at_ok s queue_id Ho Hs Hq) as (q0 & E0 & (Hsort & _) & _).
  rewrite Hqa in E0. injection E0 as <-.
  rewrite trim_queue_metas by done. destruct need eqn:En; [|done].
  destruct Hun as (g & Hg & Hv & Hun).
  destruct (min_prev_spec tc pub_ids _ _ _ _ Ho Hb Hreal Hq Hm eq_refl g Hg Hv) as (Hpv & Hne & Hle).
  rewrite (proj2 (Z.eqb_neq _ _) Hne). apply list_elem_of_filter. split; [|done].
  destruct Hun; [congruence|lia].
Qed.

Lemma cp_queues_spec tc pub_ids ids s cp cp' finish s' :
  opt_ok opt -> store_ok s -> Forall (fun q => 0 <= q < opt_nqueue opt) ids -> NoDup ids ->
  cp_queues tc pub_ids s ids cp = Some (cp', finish, s') ->
  store_ok s' /\ st_sync s' = st_sync s /\ st_cps s' = st_cps s /\
  (forall q, 0 <= q < opt_nqueue opt -> q ∉ ids -> metas_at s' q = metas_at s q) /\
  (forall q, 0 <= q < opt_nqueue opt -> keeps tc pub_ids s s' q) /\
  (finish = true -> cp' = UINT64_MAX) /\
  (finish = false -> (cp = UINT64_MAX \/ (cp' <> UINT64_MAX /\ cp' <= cp)) /\
     forall q m, q ∈ ids -> m ∈ metas_at s' q -> cp' <> UINT64_MAX /\ cp' < StoreMeta.cursor_id m).
Proof.
  intros Ho Hs Hr Hnd H. revert s cp Hs Hr Hnd H. induction ids as [|i ids IH]; intros s cp Hs Hr Hnd H.
  { injection H as <- <- <-. split_and!; try done; [by intros q _ m|].
    intros _. split; [|by intros q m ?%elem_of_nil].
    destruct (decide (cp = UINT64_MAX)); [by left|right; lia]. }
  apply Forall_cons in Hr as [Hi Hr]. apply NoDup_cons in Hnd as [Hni Hnd].
  cbn [cp_queues] in H. apply bind_Some in H as ([m need] & Hm & H).
  apply bind_Some in H as (mq & Hmq & H). apply bind_Some in H as (q & Hq & H). cbn [fst snd] in H.
  assert (Hqa : queue_at s i = Some q).
  { unfold SyncCtrl.GetMetaQueue in Hmq. rewrite (proj2 (Z.leb_gt _ _)) in Hmq by lia.
    subst mq. apply bind_Some in Hmq as (x & Hx & Hxq). by simplify_eq. }
  destruct (queue_at_ok s i Ho Hs Hi) as (q0 & E0 & Hqok & _). rewrite Hqa in E0. injection E0 as <-.
  set (q' := trim_queue q m need) in *. set (s1 := set_queue s i q') in *.
  assert (Hq'ok : queue_ok q') by (eapply suffix_queue_ok; [apply trim_queue_sub, Hqok|done]).
  assert (Hs1 : store_ok s1) by (by apply store_ok_set).
  assert (Hk1 : keeps tc pub_ids s s1 i) by (by apply trim_keeps).
  assert (Hm1 : forall j, 0 <= j < opt_nqueue opt -> metas_at s1 j =
            if decide (i = j) then StoreMetaQueue.metas q' else metas_at s j).
  { intros j Hj. unfold metas_at, s1. rewrite queue_at_set by (done || apply Hs). by case_decide. }
  destruct (cp_of_front q' cp) as [cp1 fin1] eqn:Ec.
  destruct (cp_of_front_spec _ _ _ _ Hq'ok Ec) as [Hf1 Hf0]. destruct fin1.
  { injection H as <- <- <-. split_and!; try done.
    - intros j Hj Hnj. rewrite Hm1, decide_False by set_solver. done.
    - intros j Hj x Hx Hun. rewrite Hm1 by done. destruct (decide (i = j)) as [->|]; [|done].
      specialize (Hk1 x Hx Hun). by rewrite Hm1, decide_True in Hk1. }
  destruct (Hf0 eq_refl) as [Hc1 Hall1].
  destruct (IH s1 cp1 Hs1 Hr Hnd H) as (Hs' & Hsy & Hcp & Hout & Hk & Hft & Hff).
  split_and!; [done|done|done| | |done|].
  - intros j Hj Hnj. rewrite Hout, Hm1, decide_False by set_solver. done.
  - intros j Hj x Hx Hun. apply Hk; [done| |done]. rewrite Hm1 by done.
    destruct (decide (i = j)) as [->|]; [|done]. specialize (Hk1 x Hx Hun). by rewrite Hm1, decide_True in Hk1.
  - intros Hfin. destruct (Hff Hfin) as [Hc2 Hall2]. split; [destruct Hc1, Hc2; lia|].
    intros j x [->|Hj]%elem_of_cons Hx; [|by eapply Hall2].
    rewrite Hout, Hm1, decide_True in Hx by done. destruct (Hall1 x Hx). destruct Hc2; lia.
Qed.

Lemma queues_of_group_in g q :
  opt_ok opt -> 0 <= g < opt_ngroup opt ->
  (q ∈ queues_of_group g <-> 0 <= q < opt_nqueue opt /\ paxos_group_of opt q = g).
Proof.
  intros (Hn & _) Hg. unfold queues_of_group, paxos_group_of. rewrite elem_of_step_range by lia.
  split.
  - intros [Hq Hm]. split; [lia|]. rewrite Z.rem_mod_nonneg by lia.
    replace q with ((q - g) + g) by lia. rewrite Zplus_mod, Hm, Z.add_0_l, Z.mod_mod, Z.mod_small; lia.
  - intros [Hq Hm]. rewrite Z.rem_mod_nonneg in Hm by lia.
    pose proof (Z.div_mod q (opt_ngroup opt) ltac:(lia)) as Hd. rewrite Hm in Hd.
    assert (0 <= q / opt_ngroup opt) by (apply Z.div_pos; lia). split; [nia|].
    replace (q - g) with (q / opt_ngroup opt * opt_ngroup opt) by lia. apply Z.mod_mul. lia.
Qed.

(** C6: the checkpoint of a paxos group is safe.  After the round of a group,
    every meta that some valid consumer group of its queue has not processed
    is still in the queue and lies above the new checkpoint, so neither
    erasing the queue nor dropping the log up to the checkpoint loses an
    item. *)
Theorem make_cp_safe tc pub_ids s g now_instance_id cp s' queue_id m :
  opt_ok opt -> store_ok s -> 0 <= g < opt_ngroup opt ->
  make_cp tc pub_ids s g now_instance_id = Some (cp, s') ->
  0 <= queue_id < opt_nqueue opt -> paxos_group_of opt queue_id = g ->
  m ∈ metas_at s queue_id -> unprocessed tc pub_ids (st_sync s) queue_id (StoreMeta.cursor_id m) ->
  m ∈ metas_at s' queue_id /\ (cp <> UINT64_MAX -> cp < StoreMeta.cursor_id m).
Proof.
  intros Ho Hs Hg H Hq Hgq Hm Hun. unfold make_cp in H.
  apply bind_Some in H as ([[cp0 finish] s1] & H & E). injection E as <- <-.
  apply cp_queues_spec in H as (_ & _ & _ & _ & Hk & Hft & Hff); [|done..| |].
  2:{ apply Forall_forall. intros q Hin. by apply queues_of_group_in in Hin as [? _]. }
  2:{ apply NoDup_step_range. apply Ho. }
  assert (Hin : m ∈ metas_at s1 queue_id) by (by apply Hk). split; [done|].
  destruct finish; [rewrite Hft by done; done|].
  destruct (Hff eq_refl) as [_ Hall]. destruct (Hall queue_id m) as [Hne Hlt]; [by apply queues_of_group_in|done|].
  rewrite (proj2 (Z.eqb_neq _ _) Hne). done.
Qed.

(** The recorded checkpoint of a group never moves back: [DumpCheckPoint]
    records the new one exactly when there is none yet or it is not below the
    old one, and otherwise changes nothing. *)
Theorem DumpCheckPoint_monotone s g cp msync_ok stat :
  0 <= g < Z.of_nat (length (st_cps s)) -> is_u64 g -> st_cps s !! Z.to_nat g = Some stat ->
  exists ret s' stat', DumpCheckPoint s g cp msync_ok = Some (ret, s') /\
    st_cps s' = <[Z.to_nat g := stat']> (st_cps s) /\ st_queues s' = st_queues s /\ st_sync s' = st_sync s /\
    let old := (CheckPointStat.GetCheckPoint stat).2 in
    let new := (CheckPointStat.GetCheckPoint stat').2 in
    new = (if negb (cp =? UINT64_MAX) && ((old =? UINT64_MAX) || (old <=? cp)) then cp else old) /\
    (old <> UINT64_MAX -> old <= new) /\
    (ret = RET_OK -> new = cp).
Proof.
  intros Hg Hu Hst. unfold DumpCheckPoint.
  assert (Hsame : forall ret, ret <> RET_OK ->
    (if negb (cp =? UINT64_MAX) && (((CheckPointStat.GetCheckPoint stat).2 =? UINT64_MAX) ||
        ((CheckPointStat.GetCheckPoint stat).2 <=? cp)) then cp else (CheckPointStat.GetCheckPoint stat).2)
      = (CheckPointStat.GetCheckPoint stat).2 ->
    exists ret' s' stat', Some (ret, s) = Some (ret', s') /\
    st_cps s' = <[Z.to_nat g := stat']> (st_cps s) /\ st_queues s' = st_queues s /\ st_sync s' = st_sync s /\
    let old := (CheckPointStat.GetCheckPoint stat).2 in
    let new := (CheckPointStat.GetCheckPoint stat').2 in
    new = (if negb (cp =? UINT64_MAX) && ((old =? UINT64_MAX) || (old <=? cp)) then cp else old) /\
    (old <> UINT64_MAX -> old <= new) /\ (ret' = RET_OK -> new = cp)).
  { intros ret Hret E. exists ret, s, stat. split_and!; try done. symmetry. by apply list_insert_id. }
  destruct (cp =? UINT64_MAX) eqn:Ecp; [by apply Hsame|].
  unfold CheckPointStat.GetCheckPointStat. rewrite (proj2 (Z.leb_gt _ _)), to_u64_id, Hst by (done || lia).
  cbn [mbind option_bind]. unfold CheckPointStat.GetCheckPoint at 1. cbn iota. cbn [is_ok negb].
  change (is_ok RET_OK) with true. cbn [negb].
  fold (CheckPointStat.GetCheckPoint stat).2.
  set (old := if CheckPointStat.magic stat =? CHECKPOINTSTAT_MAGIC then CheckPointStat.cp stat else UINT64_MAX).
  assert (Hold : (CheckPointStat.GetCheckPoint stat).2 = old) by done.
  destruct (negb (old =? UINT64_MAX) && (cp <? old)) eqn:Eo.
  { apply Hsame; [done|]. rewrite Hold. simpl_bool. simpl.
    rewrite (proj2 (Z.eqb_neq _ _)), (proj2 (Z.leb_gt _ _)) by done. done. }
  cbn. do 3 eexists. split; [reflexivity|]. cbn [st_cps st_queues st_sync]. split_and!; try reflexivity.
  all: cbn; fold old; simpl_bool.
  - destruct (old =? UINT64_MAX) eqn:E1; simpl_bool; [done|]. simpl. rewrite (proj2 (Z.leb_le _ _)) by (destruct Eo; lia). done.
  - intros. destruct Eo; simpl_bool; lia.
Qed.

(** ** [SyncCursorID]: the master proposes its positions *)

Definition queue_detail (sync : list SyncCtrlItem) (queue_id : Z) : option SyncCtrl.QueueDetail :=
  ds ← mapM (fun g => r ← SyncCtrl.GetCursorID opt sync g queue_id true;
                      Some (if as_integer r.1 =? 0 then [SyncCtrl.mkDetail g r.2] else []))
            (seqZ 1 (opt_nconsumer_group opt));
  Some (SyncCtrl.mkQueueDetail queue_id (concat ds)).

(** A queue without positions is left out. *)
Definition sync_ctrl_info (sync : list SyncCtrlItem) (paxos_group_id : Z)
    : option (list SyncCtrl.QueueDetail) :=
  qds ← mapM (queue_detail sync) (queues_of_group paxos_group_id);
  Some (filter (fun qd => SyncCtrl.d_details qd <> []) qds).

(** The value proposed for a group, [None] when the group is not due;
    [Propose] and its outcome are phxpaxos's. *)
Definition sync_group (tc : TopicConfig.t) (k : t) (s : Store) (paxos_group_id : Z) (tk : tick)
    : option (t * option string) :=
  if negb (IsIMMaster paxos_group_id) then Some (k, None) else
  let i := Z.to_nat paxos_group_id in
  due ← next_sync_times k !! i;
  if tk_now tk <? due then Some (k, None) else
  let k' := mk (last_clear_time k) (next_make_cp_times k)
               (<[i := next_time tk (store_sync_interval_s (topic (TopicConfig.proto tc)))]>
                  (next_sync_times k)) in
  info ← sync_ctrl_info (st_sync s) paxos_group_id;
  Some (k', Some (SerializeToString
                    (mkStorePaxosArgs None (Some info) (mkAddr "" 0 0) (to_u64 (tk_now tk))))).

(** The proposals of one round, a value per group. *)
Definition SyncCursorID (k : t) (s : Store) (ticks : Z -> tick) : option (t * list (Z * string)) :=
  match GetTopicConfigByTopicID topic_id with
  | (RET_OK, Some tc) =>
      foldM (fun '(k, out) g =>
               r ← sync_group tc k s g (ticks g);
               Some (r.1, match r.2 with Some v => out ++ [(g, v)] | None => out end))
            (k, []) (seqZ 0 (opt_ngroup opt))
  | _ => Some (k, [])
  end.

(** ** [Replay] *)

Definition matches_replay (tc : TopicConfig.t) (queue : Queue_t) (pub_ids : gset Z) (ri : ReplayInfo) : bool :=
  (bool_decide (ri_consumer_group_ids ri = []) ||
   bool_decide (qt_consumer_group_id queue ∈ ri_consumer_group_ids ri)) &&
  (bool_decide (ri_pub_ids ri = []) ||
   existsb (fun p => bool_decide (p ∈ pub_ids) && TopicConfig.IsValidQueue tc (qt_queue_id queue) p (-1))
           (ri_pub_ids ri)).

(** The index of the first replay info that names the queue. *)
Definition QueueNeedReplay (queue : Queue_t) (pub_ids : gset Z) (replay_infos : list ReplayInfo)
    : option (nat * ReplayInfo) :=
  match GetTopicConfigByTopicID topic_id with
  | (RET_OK, Some tc) => list_find (fun ri => matches_replay tc queue pub_ids ri = true) replay_infos
  | _ => None
  end.

(** The probe of the binary search: does the instance lie before the
    timestamp ([l = mid]) or not ([r = mid - 1])? *)
Fixpoint first_before (timestamp : Z) (values : list (string * Z)) : bool :=
  match values with
  | [] => false
  | (value, smid) :: r =>
      if negb (smid =? StoreSM_ID) then first_before timestamp r else
      match ParseFromString value with
      | None => first_before timestamp r
      | Some args => args_timestamp args <? timestamp
      end
  end.

Definition probe (paxos_group_id timestamp mid : Z) : bool :=
  let '(paxos_ret, values) := GetInstanceValue paxos_group_id mid in
  if Paxos_GetInstanceValue_Value_Not_Chosen_Yet =? paxos_ret then false else
  if Paxos_GetInstanceValue_Value_NotExist =? paxos_ret then true else
  if negb (paxos_ret =? 0) then false else first_before timestamp values.

(** The loop; [None] when the fuel runs out. *)
Fixpoint replay_search (before : Z -> bool) (fuel : nat) (l r mid : Z) : option (Z * Z) :=
  if negb (l <? r) then Some (l, mid) else
  match fuel with
  | O => None
  | S fuel =>
      let mid := l +u Z.shiftr (r +u 1 -u l) 1 in
      if before mid then replay_search before fuel mid r mid
      else replay_search before fuel l (mid -u 1) mid
  end.

(** 64 halvings exhaust any interval of [uint64_t]. *)
Definition replay_fuel : nat := 65.

(** The instance to restart from; [None] when the queue is not replayed. *)
Definition replay_instance (ri : ReplayInfo) (paxos_group_id : Z) : option (option Z) :=
  let min_instance_id := GetMinChosenInstanceID paxos_group_id in
  let now_instance_id := GetNowInstanceID paxos_group_id in
  if now_instance_id =? UINT64_MAX then Some None else
  let start := if min_instance_id =? UINT64_MAX then 0 else min_instance_id in
  if negb (ri_cursor_id ri =? UINT64_MAX) then
    if now_instance_id <? ri_cursor_id ri then Some None
    else Some (Some (if start <? ri_cursor_id ri then ri_cursor_id ri else start))
  else
    r ← replay_search (probe paxos_group_id (ri_timestamp ri)) replay_fuel start now_instance_id UINT64_MAX;
    Some (Some (if negb (r.2 =? UINT64_MAX) then r.2 else start)).

Definition replay_queue (pub_ids : gset Z) (replay_infos : list ReplayInfo)
    (sync : list SyncCtrlItem) (queue : Queue_t) : option (list SyncCtrlItem) :=
  match QueueNeedReplay queue pub_ids replay_infos with
  | None => Some sync
  | Some (_, ri) =>
      ro ← replay_instance ri (paxos_group_of opt (qt_queue_id queue));
      match ro with
      | None => Some sync
      | Some id =>
          let g := qt_consumer_group_id queue in
          let q := qt_queue_id queue in
          c ← SyncCtrl.GetCursorID opt sync g q true;
          if negb (is_ok c.1) || (c.2 =? UINT64_MAX) then Some sync else
          u ← SyncCtrl.UpdateCursorID opt sync g q id true;
          v ← SyncCtrl.UpdateCursorID opt u.2 g q id false;
          Some v.2
      end
  end.

Definition GetAllLocalQueue : list Queue_t :=
  match local_pubs with
  | Some (tc, store_id, pub_ids) =>
      q ← seqZ 0 (opt_nqueue opt); g ← seqZ 1 (opt_nconsumer_group opt);
      if SyncCtrl.valid_for_any tc pub_ids q g then [mkQueue_t g store_id q] else []
  | None => []
  end.

(** The replay infos are moved out of the shared configuration: the second
    component is what is left there. *)
Definition Replay (s : Store) : option (Store * option TopicConfig.t) :=
  match local_pubs with
  | None => Some (s, None)
  | Some (tc, _, pub_ids) =>
      let '(_, replay_infos, tc') := TopicConfig.GetAllReplayInfo tc [] in
      if bool_decide (replay_infos = []) then Some (s, Some tc') else
      sync ← foldM (replay_queue pub_ids replay_infos) (st_sync s) GetAllLocalQueue;
      Some (mkStoreState (st_queues s) sync (st_cps s), Some tc')
  end.

(** What [ReportBacklog] hands to [OnBackLogReport]: (group, queue, backlog)
    for the queues this replica is master of. *)
Definition report_queue (s : Store) (queue : Queue_t) : option (list (Z * Z * Z)) :=
  let g := qt_consumer_group_id queue in
  let q := qt_queue_id queue in
  c ← SyncCtrl.GetCursorID opt (st_sync s) g q true;
  if is_err c.1 then Some [] else
  b ← SyncCtrl.GetBackLogByCursorID opt (st_queues s) q c.2;
  Some (if is_ok b.1 && IsIMMaster (paxos_group_of opt q) then [(g, q, b.2)] else []).

Definition ReportBacklog (s : Store) : option (list (Z * Z * Z)) :=
  rs ← mapM (report_queue s) GetAllLocalQueue; Some (concat rs).

(** One round of [DoRun]. *)
Definition round (k : t) (last_mod_time : Z) (s : Store) (cp_ticks sync_ticks : Z -> tick)
    : option (t * Z * Store * list (Z * string) * list (Z * Z * Z)) :=
  a ← ClearSyncCtrl k last_mod_time s;
  let '(k, last_mod_time, s) := a in
  b ← MakeCheckPoint k s cp_ticks;
  c ← SyncCursorID b.1 b.2 sync_ticks;
  d ← Replay b.2;
  e ← ReportBacklog d.1;
  Some (c.1, last_mod_time, d.1, c.2, e).

(** ** What the proposals of the master do *)

Lemma queue_detail_spec sync queue_id :
  opt_ok opt -> SyncCtrl.buf_ok opt sync -> 0 <= queue_id < opt_nqueue opt ->
  exists ds, queue_detail sync queue_id = Some (SyncCtrl.mkQueueDetail queue_id ds) /\
    forall d, d ∈ ds <->
      SyncCtrl.pair_ok opt (SyncCtrl.d_consumer_group_id d) queue_id /\
      let i := SyncCtrl.item_of opt sync (SyncCtrl.d_consumer_group_id d) queue_id in
      prev_valid i = true /\ SyncCtrl.d_prev_cursor_id d = prev_cursor_id i.
Proof.
  intros Ho Hb Hq. unfold queue_detail.
  set (pick := fun g => let i := SyncCtrl.item_of opt sync g queue_id in
                        if prev_valid i then [SyncCtrl.mkDetail g (prev_cursor_id i)] else []).
  assert (Hm : mapM (fun g => r ← SyncCtrl.GetCursorID opt sync g queue_id true;
                  Some (if as_integer r.1 =? 0 then [SyncCtrl.mkDetail g r.2] else []))
                (seqZ 1 (opt_nconsumer_group opt)) = Some (pick <$> seqZ 1 (opt_nconsumer_group opt))).
  { apply mapM_Some, Forall2_fmap_r, Forall_Forall2_diag, Forall_forall.
    intros g Hg%elem_of_seqZ. rewrite SyncCtrl.GetCursorID_item by (done || split; lia).
    unfold pick. simpl. by destruct (prev_valid _). }
  rewrite Hm. cbn [mbind option_bind]. eexists. split; [reflexivity|]. intros [g c].
  cbn [SyncCtrl.d_consumer_group_id SyncCtrl.d_prev_cursor_id].
  rewrite list_elem_of_In, in_concat. setoid_rewrite <-list_elem_of_In.
  setoid_rewrite list_elem_of_fmap. setoid_rewrite elem_of_seqZ. unfold pick. split.
  - intros (x & (g' & -> & Hg') & Hin). case_match eqn:Ep; [|by apply elem_of_nil in Hin].
    apply list_elem_of_singleton in Hin. injection Hin as -> ->. split; [split; lia|done].
  - intros ([Hg _] & Hv & ->). eexists. split; [exists g; split; [reflexivity|lia]|].
    cbn zeta. rewrite Hv. constructor.
Qed.

Lemma sync_ctrl_info_spec sync g :
  opt_ok opt -> SyncCtrl.buf_ok opt sync -> 0 <= g < opt_ngroup opt ->
  exists info, sync_ctrl_info sync g = Some info /\ SyncCtrl.details_ok opt info /\
    forall cg q, SyncCtrl.pair_ok opt cg q -> paxos_group_of opt q = g ->
      prev_valid (SyncCtrl.item_of opt sync cg q) = true ->
      exists qd, qd ∈ info /\ SyncCtrl.d_queue_id qd = q /\
        SyncCtrl.mkDetail cg (prev_cursor_id (SyncCtrl.item_of opt sync cg q)) ∈ SyncCtrl.d_details qd.
Proof.
  intros Ho Hb Hg. unfold sync_ctrl_info.
  assert (Hqs : Forall (fun q => 0 <= q < opt_nqueue opt) (queues_of_group g)).
  { apply Forall_forall. intros q Hq. by apply queues_of_group_in in Hq as [? _]. }
  assert (exists qds, mapM (queue_detail sync) (queues_of_group g) = Some qds) as [qds Hm].
  { clear -Ho Hb Hqs. induction Hqs as [|q l Hq _ [qds IH]]; [by eexists|].
    destruct (queue_detail_spec sync q Ho Hb Hq) as (ds & E & _). simpl. rewrite E, IH. by eexists. }
  rewrite Hm. cbn [mbind option_bind]. eexists. split; [reflexivity|]. apply mapM_Some in Hm.
  assert (Hel : forall qd, qd ∈ qds -> exists q, q ∈ queues_of_group g /\ queue_detail sync q = Some qd).
  { intros qd Hin. apply list_elem_of_lookup in Hin as [k Hk].
    destruct (Forall2_lookup_r _ _ _ _ _ Hm Hk) as (q & Hq & E). exists q.
    split; [by eapply list_elem_of_lookup_2|done]. }
  split.
  - apply Forall_forall. intros qd [_ Hin]%list_elem_of_filter.
    apply Hel in Hin as (q & Hq & E). rewrite Forall_forall in Hqs. specialize (Hqs _ Hq).
    destruct (queue_detail_spec sync q Ho Hb Hqs) as (ds & E' & Hds). rewrite E in E'. injection E' as ->.
    split; [done|]. apply Forall_forall. intros d Hd. by apply Hds in Hd as [? _].
  - intros cg q Hp Hgq Hv.
    assert (Hq : q ∈ queues_of_group g) by (apply queues_of_group_in; [done|done|]; split; [apply Hp|done]).
    destruct (queue_detail_spec sync q Ho Hb) as (ds & E & Hds); [apply Hp|].
    apply list_elem_of_lookup in Hq as [k Hk].
    destruct (Forall2_lookup_l _ _ _ _ _ Hm Hk) as (qd & Hqd & E'). rewrite E in E'. injection E' as <-.
    assert (Hd : SyncCtrl.mkDetail cg (prev_cursor_id (SyncCtrl.item_of opt sync cg q)) ∈ ds) by (by apply Hds).
    exists (SyncCtrl.mkQueueDetail q ds). split; [|by split]. apply list_elem_of_filter. split.
    + simpl. intros ->. by apply elem_of_nil in Hd.
    + by eapply list_elem_of_lookup_2.
Qed.


(** ** The search of [Replay] *)

Lemma replay_search_spec before fuel l r mid :
  0 <= l <= r -> r < UINT64_MAX -> r - l < 2 ^ Z.of_nat fuel ->
  (forall i j, i < j -> before j = true -> before i = true) ->
  exists l' mid', replay_search before fuel l r mid = Some (l', mid') /\ l <= l' <= r /\
    (l' = l \/ before l' = true) /\ (forall i, l' < i <= r -> before i = false) /\
    ((l = r /\ mid' = mid) \/ (l < mid' <= r /\ l' <= mid' <= l' + 1)).
Proof.
  intros Hl Hr Hf Hmono. revert l r mid Hl Hr Hf. induction fuel as [|fuel IH]; intros l r mid Hl Hr Hf.
  { cbn in Hf. assert (l = r) as -> by lia. cbn. rewrite Z.ltb_irrefl. cbn. exists r, mid.
    split_and!; [done|lia|lia|by left|lia|by left]. }
  cbn [replay_search]. destruct (l <? r) eqn:E; cbn [negb]; simpl_bool.
  2:{ exists l, mid. split_and!; [done|lia|lia|by left|lia|left; lia]. }
  set (m := l +u Z.shiftr (r +u 1 -u l) 1).
  assert (Hm : m = l + (r - l + 1) / 2).
  { unfold m. rewrite (to_u64_id (r + 1)), (to_u64_id (r + 1 - l)) by ilia.
    rewrite Z.shiftr_div_pow2 by lia. change (2 ^ 1) with 2.
    replace (r + 1 - l) with (r - l + 1) by lia. apply to_u64_id. unfold_ints. Z.div_mod_to_equations; lia. }
  rewrite Nat2Z.inj_succ, Z.pow_succ_r in Hf by lia.
  assert (Hb : l < m <= r) by (rewrite Hm; Z.div_mod_to_equations; lia).
  destruct (before m) eqn:Eb.
  - destruct (IH m r m) as (l' & mid' & -> & H1 & H2 & H3 & H4); [lia|done|rewrite Hm; Z.div_mod_to_equations; lia|].
    exists l', mid'. split_and!; [done|lia|lia| |done|right; lia].
    right. destruct H2 as [->|]; done.
  - rewrite (to_u64_id (m - 1)) by ilia.
    destruct (IH l (m - 1) m) as (l' & mid' & -> & H1 & H2 & H3 & H4);
      [lia|lia|rewrite Hm; Z.div_mod_to_equations; lia|].
    exists l', mid'. split_and!; [done|lia|lia|done| |right; lia].
    intros i Hi. destruct (decide (i <= m - 1)); [apply H3; lia|].
    destruct (decide (i = m)) as [->|]; [done|]. destruct (before i) eqn:Ei; [|done].
    rewrite (Hmono m i) in Eb; [done|lia|done].
Qed.

(** The search ends within its fuel on every interval of instances, and
    when the timestamps grow with the instances it finds the last instance
    [l] before the timestamp; the instance [Replay] restarts from is [l] or
    the one after it. *)
Theorem replay_search_correct before start now :
  0 <= start <= now -> now < UINT64_MAX -> (forall i j, i < j -> before j = true -> before i = true) ->
  exists l mid, replay_search before replay_fuel start now UINT64_MAX = Some (l, mid) /\
    start <= l <= now /\ (l = start \/ before l = true) /\ (forall i, l < i <= now -> before i = false) /\
    (start = now -> mid = UINT64_MAX) /\ (start < now -> l <= mid <= l + 1).
Proof.
  intros H1 H2 Hm. destruct (replay_search_spec before replay_fuel start now UINT64_MAX)
    as (l & mid & E & Hl & Hb & Ha & Hmid); [done..| |done|].
  { unfold replay_fuel. change (Z.of_nat 65) with 65. unfold_ints. change (2 ^ 65) with 36893488147419103232. lia. }
  exists l, mid. split_and!; [done|lia|lia|done|done|lia|lia].
Qed.

Lemma replay_search_ext before before' fuel l r mid :
  (forall i, before i = before' i) -> replay_search before fuel l r mid = replay_search before' fuel l r mid.
Proof.
  intros H. revert l r mid. induction fuel as [|fuel IH]; intros l r mid; cbn [replay_search]; [done|].
  case_match; [done|]. cbn zeta. by rewrite H, !IH.
Qed.

(** Restarting from the last probe instead of the search's result skips
    an instance.  With the instances 0 to 9 of a group of which 3 is the first
    at or after the timestamp, the positions are set to 3 itself, so that the
    consumer goes on after it and instance 3 is not replayed. *)
Theorem replay_skips_one ri paxos_group_id :
  ri_cursor_id ri = UINT64_MAX -> GetMinChosenInstanceID paxos_group_id = 0 ->
  GetNowInstanceID paxos_group_id = 9 ->
  (forall i, probe paxos_group_id (ri_timestamp ri) i = (i <? 3)) ->
  replay_instance ri paxos_group_id = Some (Some 3).
Proof.
  intros Hc Hmin Hnow Hp. unfold replay_instance. rewrite Hc, Hmin, Hnow. cbn zeta.
  rewrite (replay_search_ext _ (fun i => i <? 3) _ _ _ _ Hp). vm_compute. reflexivity.
Qed.
End store.
End KeepSyncThread.
