(* ===== verification/LockConfig.v ===== *)
(** * The lock configuration (src/phxqueue/config/lockconfig.cpp)

    The tables of the locks and of their addresses, and the interface
    [LockDirectory] through which the lock server reaches them. *)

From S2P Require Import Prelude RetCode TopicConfig StoreConfig.

Record Lock_proto := mkLock {
  lock_id : Z;
  lock_addrs : list Addr;
  lock_scale : Z;
}.

Module LockConfig.
Section with_inet.
Context `{Inet}.

Record t := mk {
  lock_id2lock : gmap Z Lock_proto;
  addr2lock_id : gmap Z Z;
}.

(** [ReadConfig]: the built-in sample. *)
Definition ReadConfig : RetCode * list Lock_proto :=
  (RET_OK, [mkLock 1 [mkAddr "127.0.0.1" 7100 7101; mkAddr "127.0.0.1" 7200 7201;
                      mkAddr "127.0.0.1" 7300 7301] 100]).

(** The loop over the addresses is the one of [StoreConfig]. *)
Definition rebuild_lock (need_check : bool) (c : t) (lock : Lock_proto) : option t :=
  if lock_id lock =? 0 then Some c else
  _ ← TopicConfig.check need_check (bool_decide (lock_id2lock c !! lock_id lock = None));
  m ← foldM (StoreConfig.add_addr need_check (lock_id lock)) (addr2lock_id c) (lock_addrs lock);
  Some (mk (emplace (lock_id lock) lock (lock_id2lock c)) m).

Definition Rebuild (need_check : bool) (locks : list Lock_proto) : option (RetCode * t) :=
  c ← foldM (rebuild_lock need_check) (mk ∅ ∅) locks; Some (RET_OK, c).

Definition GetAllLock (c : t) (locks : list Lock_proto) : RetCode * list Lock_proto :=
  (RET_OK, locks ++ (snd <$> map_items (lock_id2lock c))).

Definition GetAllLockID (c : t) (lock_ids : gset Z) : RetCode * gset Z :=
  (RET_OK, lock_ids ∪ dom (lock_id2lock c)).

Definition GetLockByLockID (c : t) (lock_id : Z) : RetCode * option Lock_proto :=
  match lock_id2lock c !! lock_id with
  | None => (RET_ERR_RANGE_LOCK, None)
  | Some lock => (RET_OK, Some lock)
  end.

Definition GetLockIDByAddr (c : t) (addr : Addr) : RetCode * option Z :=
  match addr2lock_id c !! EncodeAddr addr with
  | None => (RET_ERR_RANGE_ADDR, None)
  | Some id => (RET_OK, Some id)
  end.

Definition GetLockByAddr (c : t) (addr : Addr) : RetCode * option Lock_proto :=
  match GetLockIDByAddr c addr with
  | (RET_OK, Some id) => GetLockByLockID c id
  | (ret, _) => (ret, None)
  end.

(** Every address of the table belongs to a lock of the table that lists it. *)
Definition wf (c : t) : Prop :=
  (forall id s, lock_id2lock c !! id = Some s -> lock_id s = id) /\
  (forall a id, addr2lock_id c !! a = Some id <->
     exists s addr, lock_id2lock c !! id = Some s /\ addr ∈ lock_addrs s /\ EncodeAddr addr = a).

Lemma rebuild_lock_wf c s c' : wf c -> rebuild_lock true c s = Some c' -> wf c'.
Proof.
  intros [Hid Ha] Hr. unfold rebuild_lock in Hr. split_if_in Hr; [done|].
  apply bind_Some in Hr as ([] & Hc & Hr). apply StoreConfig.check_true, bool_decide_eq_true in Hc.
  apply bind_Some in Hr as (m & Hm & Hr). simplify_eq.
  unfold wf, emplace; simpl. rewrite Hc. split.
  - intros id s'. rewrite lookup_insert_Some. naive_solver.
  - intros a id. destruct (StoreConfig.add_addrs_lookup _ _ _ _ a Hm) as [-> _]. rewrite Ha.
    destruct (decide (id = lock_id s)) as [->|Hne].
    + rewrite lookup_insert_eq, Hc. naive_solver.
    + rewrite lookup_insert_ne by done. naive_solver.
Qed.

Lemma lock_Rebuild_wf locks ret c : Rebuild true locks = Some (ret, c) -> wf c.
Proof.
  unfold Rebuild. intros (c' & Hf & ?)%bind_Some. simplify_eq.
  apply (foldM_inv wf _ _ _ _ rebuild_lock_wf) in Hf; [done|].
  split; simpl; [done|]. intros a id. rewrite lookup_empty. split; [done|].
  by intros (? & ? & ?%lookup_empty_Some & _).
Qed.

(** The lock configuration resolves addresses as the store configuration
    does: after a checked [Rebuild], [GetLockByAddr] finds the lock that lists
    the address and otherwise fails with [RET_ERR_RANGE_ADDR]. *)
Theorem GetLockByAddr_correct locks ret c addr :
  Rebuild true locks = Some (ret, c) ->
  match GetLockByAddr c addr with
  | (RET_OK, Some s) => exists a, a ∈ lock_addrs s /\ EncodeAddr a = EncodeAddr addr /\
                                  lock_id2lock c !! lock_id s = Some s
  | (ret, None) => ret = RET_ERR_RANGE_ADDR /\
      forall id s a, lock_id2lock c !! id = Some s -> a ∈ lock_addrs s -> EncodeAddr a <> EncodeAddr addr
  | _ => False
  end.
Proof.
  intros Hr. destruct (lock_Rebuild_wf _ _ _ Hr) as [Hid Ha].
  unfold GetLockByAddr, GetLockIDByAddr, GetLockByLockID.
  destruct (addr2lock_id c !! EncodeAddr addr) as [id|] eqn:E.
  - apply Ha in E as (s & a & Hs & Hin & Heq). rewrite Hs. exists a.
    rewrite (Hid _ _ Hs) in *. done.
  - split; [done|]. intros id s a Hs Hin Heq.
    assert (addr2lock_id c !! EncodeAddr addr = Some id) by (apply Ha; eauto). congruence.
Qed.

Lemma GetLockByAddr_found c addr : GetLockByAddr c addr <> (RET_OK, None).
Proof.
  unfold GetLockByAddr, GetLockIDByAddr, GetLockByLockID. by repeat case_match; simplify_eq.
Qed.
End with_inet.
End LockConfig.

Class LockDirectory := {
  GetLockConfig : Z -> RetCode * option LockConfig.t;
  (* RET_OK comes with a configuration *)
  GetLockConfig_found topic_id : GetLockConfig topic_id <> (RET_OK, None);
}.
