(* ===== verification/SchedulerConfig.v ===== *)
(** * The scheduler configuration (src/phxqueue/config/schedulerconfig.cpp)

    The addresses of the scheduler of a topic, and the interface through which
    the clients of the scheduler reach them. *)

From S2P Require Import Prelude RetCode TopicConfig StoreConfig.

Module SchedulerConfig.

(** [scheduler]: the addresses of the [proto::Scheduler]. *)
Definition t : Type := list Addr.

Definition ReadConfig : RetCode * list Addr :=
  (RET_OK, (fun port => mkAddr "127.0.0.1" port 0) <$> [6100; 6200; 6300]).

Definition Rebuild (scheduler : list Addr) : RetCode * t := (RET_OK, scheduler).

Definition GetScheduler (c : t) : RetCode * list Addr := (RET_OK, c).
End SchedulerConfig.

Class SchedulerDirectory := {
  GetSchedulerConfig : Z -> RetCode * option SchedulerConfig.t;
  (* RET_OK comes with a configuration *)
  GetSchedulerConfig_found topic_id : GetSchedulerConfig topic_id <> (RET_OK, None);
}.
