(* ===== verification/MasterClient.v ===== *)
(** * Calling the master of a paxos group

    [MasterClient::ClientCall] of src/phxqueue/comm/masterclient.h and the
    address cache of masterclient.cpp, with the route keys and candidate
    addresses of the store, lock and scheduler clients.

    A call interacts with an outside world of type [W]: the clock, the random
    numbers and the remote procedure, which may do anything to the world. *)

From S2P Require Import Prelude Keys RetCode TopicConfig StoreConfig LockConfig SchedulerConfig.

Class ClientEnv (W : Type) := {
  time_now : W -> Z * W;
  FastRand : W -> Z * W;
  FastRand_nonneg w : 0 <= (FastRand w).1;
}.

Module MasterClient.
Section client.
Context {W Resp : Type} `{ClientEnv W}.
Context (redirect_addr : Resp -> Addr) (rpc_func : Addr -> Resp -> W -> RetCode * Resp * W).

(** [addr_cache_]: an address and when it expires. *)
#[local] Notation cache := (gmap string (Addr * Z)).

Definition PutAddrToCache (key : string) (addr : Addr) (c : cache) (w : W) : cache * W :=
  let '(now, w) := time_now w in
  let '(r, w) := FastRand w in
  (<[key := (addr, to_u64 (now + 3600 + r mod 1800))]> c, w).

Definition GetAddrFromCache (key : string) (c : cache) (w : W) : option Addr * W :=
  match c !! key with
  | Some (addr, expire) =>
      let '(now, w) := time_now w in
      if expire <? to_u64 now then (None, w) else (Some addr, w)
  | None => (None, w)
  end.

Definition RemoveCache (key : string) (c : cache) : cache := delete key c.

Definition same_host (a b : Addr) : bool := bool_decide (ip a = ip b) && (port a =? port b).

Definition has_redirect (resp : Resp) : bool :=
  negb (bool_decide (ip (redirect_addr resp) = ""%string)) && negb (0 =? port (redirect_addr resp)).

(** The loop over the candidates: [addr] is called next, [addrs_idx] is the
    candidate that was tried last. *)
Fixpoint call_loop (n : nat) (route_key : string) (addrs : list Addr) (addrs_idx : nat) (addr : Addr)
    (ret : RetCode) (resp : Resp) (c : cache) (w : W) : RetCode * Resp * cache * W :=
  match n with
  | O => (ret, resp, c, w)
  | S n =>
      let '(ret, resp, w) := rpc_func addr resp w in
      let next := Nat.modulo (addrs_idx + 1) (length addrs) in
      let try_next := call_loop n route_key addrs next (default addr (addrs !! next)) ret resp c w in
      match ret with
      | RET_OK => let '(c, w) := PutAddrToCache route_key addr c w in (RET_OK, resp, c, w)
      | RET_ERR_NOT_MASTER =>
          if has_redirect resp then
            let addr := redirect_addr resp in
            let '(c, w) := PutAddrToCache route_key addr c w in
            call_loop n route_key addrs addrs_idx addr ret resp c w
          else try_next
      | RET_ERR_NO_MASTER | RET_ERR_SVR_BLOCK | RET_ERR_SYS => try_next
      | _ => (ret, resp, c, w)
      end
  end.

(** The first candidate that [addr] is, else the first one. *)
Definition index_of_host (addr : Addr) (addrs : list Addr) : nat :=
  match list_find (fun a => same_host addr a = true) addrs with Some (i, _) => i | None => 0%nat end.

Definition no_master_addr : Addr := mkAddr "" 0 0.

(** After the cached master did not answer: [None] when the call ends with
    [ret], else the candidates are tried. *)
Definition after_cached (route_key : string) (master_addr : Addr) (ret : RetCode) (resp : Resp) (c : cache) (w : W)
    : bool * cache * W :=
  match ret with
  | RET_OK => let '(c, w) := PutAddrToCache route_key master_addr c w in (false, c, w)
  | RET_ERR_NOT_MASTER =>
      if has_redirect resp then let '(c, w) := PutAddrToCache route_key (redirect_addr resp) c w in (true, c, w)
      else (true, RemoveCache route_key c, w)
  | RET_ERR_NO_MASTER | RET_ERR_SVR_BLOCK => (true, RemoveCache route_key c, w)
  | RET_ERR_SYS => (true, c, w)
  | _ => (false, c, w)
  end.

Definition try_candidates (route_key : string) (candidates : RetCode * list Addr) (master_addr : Addr)
    (ret : RetCode) (resp : Resp) (c : cache) (w : W) : RetCode * Resp * cache * W :=
  match candidates with
  | (RET_OK, []) => (RET_ERR_LOGIC, resp, c, w)
  | (RET_OK, addrs) =>
      let n := length addrs in
      let '(cached, w) := if bool_decide (ret = RET_ERR_NOT_MASTER) then GetAddrFromCache route_key c w else (None, w) in
      match cached with
      | Some addr => call_loop n route_key addrs (index_of_host addr addrs) addr ret resp c w
      | None =>
          let '(r, w) := FastRand w in
          let i := Nat.modulo (Z.to_nat r) n in
          let i := match addrs !! i with
                   | Some addr => if same_host addr master_addr then Nat.modulo (i + 1) n else i
                   | None => i
                   end in
          call_loop n route_key addrs i (default no_master_addr (addrs !! i)) ret resp c w
      end
  | (ret1, _) => (ret1, resp, c, w)
  end.

Definition ClientCall (route_key : string) (candidates : RetCode * list Addr) (resp : Resp) (c : cache) (w : W)
    : RetCode * Resp * cache * W :=
  match GetAddrFromCache route_key c w with
  | (None, w) => try_candidates route_key candidates no_master_addr RET_OK resp c w
  | (Some master_addr, w) =>
      let '(ret, resp, w) := rpc_func master_addr resp w in
      match after_cached route_key master_addr ret resp c w with
      | (true, c, w) => try_candidates route_key candidates master_addr ret resp c w
      | (false, c, w) => (ret, resp, c, w)
      end
  end.

(** ** What a call does to the world *)

(** The remote calls, with their results, on the way from a world to another. *)
Inductive trace : W -> list (Addr * RetCode) -> W -> Prop :=
| trace_nil w : trace w [] w
| trace_time w l w' : trace (time_now w).2 l w' -> trace w l w'
| trace_rand w l w' : trace (FastRand w).2 l w' -> trace w l w'
| trace_rpc w addr resp ret resp1 w1 l w' :
    rpc_func addr resp w = (ret, resp1, w1) -> trace w1 l w' -> trace w ((addr, ret) :: l) w'.

Lemma trace_app w1 l1 w2 l2 w3 : trace w1 l1 w2 -> trace w2 l2 w3 -> trace w1 (l1 ++ l2) w3.
Proof. intros H1 H2. induction H1; simpl; eauto using trace. Qed.

Lemma PutAddrToCache_trace key addr c w c' w' :
  PutAddrToCache key addr c w = (c', w') -> trace w [] w' /\ exists e, c' = <[key := (addr, e)]> c.
Proof.
  unfold PutAddrToCache. destruct (time_now w) as [now w1] eqn:E1. destruct (FastRand w1) as [r w2] eqn:E2.
  intros ?; simplify_eq. split; [|by eexists].
  apply trace_time. rewrite E1. apply trace_rand. simpl. rewrite E2. apply trace_nil.
Qed.

Lemma GetAddrFromCache_trace key c w o w' :
  GetAddrFromCache key c w = (o, w') -> trace w [] w' /\ (forall a, o = Some a -> exists e, c !! key = Some (a, e)).
Proof.
  unfold GetAddrFromCache. destruct (c !! key) as [[a e]|]; [|intros; simplify_eq; split; [apply trace_nil|done]].
  destruct (time_now w) as [now w1] eqn:E1. intros Hg. assert (trace w [] w1).
  { apply trace_time. rewrite E1. apply trace_nil. }
  case_match; simplify_eq; (split; [done|]); [done|]. intros ? [= ->]. by eexists.
Qed.

(** The calls made, when the code that is returned is [ret]. *)
Definition outcome (key : string) (ret : RetCode) (c : cache) (l : list (Addr * RetCode)) : Prop :=
  (ret = RET_OK /\ exists l0 a e, l = l0 ++ [(a, RET_OK)] /\ Forall (fun p => p.2 <> RET_OK) l0 /\
                                 c !! key = Some (a, e)) \/
  (ret <> RET_OK /\ Forall (fun p => p.2 <> RET_OK) l).

Lemma outcome_cons key ret c a r l : r <> RET_OK -> outcome key ret c l -> outcome key ret c ((a, r) :: l).
Proof.
  intros Hr [(-> & l0 & b & e & -> & Hl & Hc)|[Hret Hl]]; [left|right; split; [done|by constructor]].
  split; [done|]. exists ((a, r) :: l0), b, e. split_and!; [done|by constructor|done].
Qed.

Lemma call_loop_trace n key addrs idx addr ret resp c w ret' resp' c' w' :
  (0 < n)%nat \/ ret <> RET_OK ->
  call_loop n key addrs idx addr ret resp c w = (ret', resp', c', w') ->
  exists l, trace w l w' /\ (length l <= n)%nat /\ outcome key ret' c' l.
Proof.
  revert idx addr ret resp c w. induction n as [|n IH]; intros idx addr ret resp c w Hn Hl; simpl in Hl.
  { simplify_eq. exists []. split_and!; [apply trace_nil|done|]. right. split; [|done]. destruct Hn; [lia|done]. }
  destruct (rpc_func addr resp w) as [[r1 resp1] w1] eqn:Er.
  assert (Hstep : forall idx addr' c1 w2, r1 <> RET_OK -> trace w1 [] w2 ->
    call_loop n key addrs idx addr' r1 resp1 c1 w2 = (ret', resp', c', w') ->
    exists l, trace w l w' /\ (length l <= S n)%nat /\ outcome key ret' c' l).
  { intros i a c1 w2 Hr Ht Hc. destruct (IH _ _ _ _ _ _ (or_intror Hr) Hc) as (l & Hl1 & Hl2 & Ho).
    exists ((addr, r1) :: l). split_and!; [|simpl; lia|by apply outcome_cons].
    eapply trace_rpc; [exact Er|]. by apply (trace_app _ [] w2). }
  assert (Hfail : r1 <> RET_OK -> (r1, resp1, c, w1) = (ret', resp', c', w') ->
    exists l, trace w l w' /\ (length l <= S n)%nat /\ outcome key ret' c' l).
  { intros Hr Hq. simplify_eq. exists [(addr, ret')]. split_and!; [|simpl; lia|].
    - eapply trace_rpc; [exact Er|apply trace_nil].
    - right. split; [done|]. by constructor. }
  destruct r1; try (by apply Hfail); try (by eapply Hstep; [done|apply trace_nil|exact Hl]).
  - destruct (PutAddrToCache key addr c w1) as [c2 w2] eqn:Ep. simplify_eq.
    apply PutAddrToCache_trace in Ep as (Ht & e & ->). exists [(addr, RET_OK)]. split_and!; [|simpl; lia|].
    + by eapply trace_rpc.
    + left. split; [done|]. exists [], addr, e. split_and!; [done..|]. apply lookup_insert_eq.
  - destruct (has_redirect resp1); [|by eapply Hstep; [done|apply trace_nil|exact Hl]].
    destruct (PutAddrToCache key (redirect_addr resp1) c w1) as [c2 w2] eqn:Ep.
    apply PutAddrToCache_trace in Ep as (Ht & _). by eapply Hstep.
Qed.

Lemma try_candidates_trace key cands master ret resp c w ret' resp' c' w' :
  try_candidates key cands master ret resp c w = (ret', resp', c', w') ->
  exists l, trace w l w' /\ (length l <= length cands.2)%nat /\ outcome key ret' c' l.
Proof.
  unfold try_candidates. intros Ht.
  assert (Hno : forall r, r <> RET_OK -> (r, resp, c, w) = (ret', resp', c', w') ->
    exists l, trace w l w' /\ (length l <= length cands.2)%nat /\ outcome key ret' c' l).
  { intros r Hr Hq. simplify_eq. exists []. split_and!; [apply trace_nil|simpl; lia|]. right. by split. }
  destruct cands as [[] addrs]; try by eapply Hno, Ht. destruct addrs as [|a addrs]; [by eapply Hno, Ht|].
  set (l := a :: addrs) in *. assert (Hpos : (0 < length l)%nat) by (simpl; lia).
  destruct (if bool_decide _ then _ else _) as [cached w1] eqn:Eg.
  assert (Ht1 : trace w [] w1).
  { case_bool_decide; simplify_eq; [by eapply GetAddrFromCache_trace|apply trace_nil]. }
  assert (Hrun : forall i b w2, trace w [] w2 ->
    call_loop (length l) key l i b ret resp c w2 = (ret', resp', c', w') ->
    exists l', trace w l' w' /\ (length l' <= length l)%nat /\ outcome key ret' c' l').
  { intros i b w2 Hw2 Hc. apply call_loop_trace in Hc as (l' & H1 & H2 & H3); [|by left].
    exists l'. split_and!; [by apply (trace_app _ [] w2)|done..]. }
  destruct cached as [b|]; [by eapply Hrun, Ht|]. destruct (FastRand w1) as [r w2] eqn:Ef.
  eapply Hrun; [|exact Ht]. apply (trace_app _ [] w1 []); [done|]. apply trace_rand. rewrite Ef. apply trace_nil.
Qed.

Lemma ClientCall_calls key cands resp c w ret resp' c' w' :
  ClientCall key cands resp c w = (ret, resp', c', w') ->
  exists l, trace w l w' /\ (length l <= S (length cands.2))%nat /\ outcome key ret c' l.
Proof.
  unfold ClientCall. destruct (GetAddrFromCache key c w) as [[a|] w0] eqn:Eg;
    apply GetAddrFromCache_trace in Eg as [Ht0 _]; intros Hc.
  2: { apply try_candidates_trace in Hc as (l & H1 & H2 & H3). exists l.
       split_and!; [by apply (trace_app _ [] w0)|lia|done]. }
  destruct (rpc_func a resp w0) as [[r1 resp1] w1] eqn:Er.
  destruct (after_cached key a r1 resp1 c w1) as [[b c2] w2] eqn:Ea.
  assert (Hw2 : trace w1 [] w2 /\ (b = true -> r1 <> RET_OK) /\
                (b = false -> outcome key r1 c2 [(a, r1)])).
  { assert (Hbad : r1 <> RET_OK -> (false, c, w1) = (b, c2, w2) -> trace w1 [] w2 /\ (b = true -> r1 <> RET_OK) /\
                (b = false -> outcome key r1 c2 [(a, r1)])).
    { intros Hr ?. simplify_eq. split_and!; [apply trace_nil|done|]. intros _. right. split; [done|by constructor]. }
    unfold after_cached in Ea. destruct r1; try (by apply Hbad); try (simplify_eq; split_and!; [apply trace_nil|done..]).
    - destruct (PutAddrToCache key a c w1) as [c3 w3] eqn:Ep. simplify_eq.
      apply PutAddrToCache_trace in Ep as (? & e & ->). split_and!; [done..|]. intros _. left. split; [done|].
      exists [], a, e. split_and!; [done..|]. apply lookup_insert_eq.
    - destruct (has_redirect resp1); [|simplify_eq; split_and!; [apply trace_nil|done..]].
      destruct (PutAddrToCache key (redirect_addr resp1) c w1) as [c3 w3] eqn:Ep. simplify_eq.
      apply PutAddrToCache_trace in Ep as (? & _). done. }
  destruct Hw2 as (Ht2 & Hgo & Hstop).
  assert (Hcons : forall l, trace w2 l w' -> trace w ((a, r1) :: l) w').
  { intros l Hl. apply (trace_app _ [] w0); [done|]. eapply trace_rpc; [exact Er|]. by apply (trace_app _ [] w2). }
  destruct b.
  - apply try_candidates_trace in Hc as (l & H1 & H2 & H3). exists ((a, r1) :: l).
    split_and!; [by apply Hcons|simpl; lia|]. apply outcome_cons; [by apply Hgo|done].
  - simplify_eq. exists [(a, ret)]. split_and!; [by apply Hcons, trace_nil|simpl; lia|by apply Hstop].
Qed.

(** What a call to the master does.  It makes at most one remote call more
    than there are candidate addresses, whatever the servers answer; it
    returns RET_OK exactly when the last remote call returned RET_OK, no
    earlier one did, and then the cache names that server for the next
    call. *)
Theorem ClientCall_trace key cands resp c w ret resp' c' w' :
  ClientCall key cands resp c w = (ret, resp', c', w') ->
  exists l, trace w l w' /\ (length l <= S (length cands.2))%nat /\ outcome key ret c' l.
Proof. apply ClientCall_calls. Qed.

Lemma trace_snoc w l a ret w' :
  trace w (l ++ [(a, ret)]) w' ->
  exists w1 resp resp1 w2, trace w l w1 /\ rpc_func a resp w1 = (ret, resp1, w2) /\ trace w2 [] w'.
Proof.
  remember (l ++ [(a, ret)]) as l' eqn:El. intros Ht. revert l El.
  induction Ht as [w|w l' w' Ht IH|w l' w' Ht IH|w b resp r resp1 w1 l' w' Hr Ht IH]; intros l El.
  - by destruct l.
  - destruct (IH l El) as (w1 & ? & ? & ? & ? & ? & ?). eexists w1, _, _, _. split; [by apply trace_time|done].
  - destruct (IH l El) as (w1 & ? & ? & ? & ? & ? & ?). eexists w1, _, _, _. split; [by apply trace_rand|done].
  - destruct l as [|p l]; simplify_eq/=.
    + exists w, resp, resp1, w1. split_and!; [apply trace_nil|done..].
    + destruct (IH l eq_refl) as (w2 & ? & ? & ? & ? & ? & ?). eexists w2, _, _, _. split; [by eapply trace_rpc|done].
Qed.

(** A call that succeeds ends with a server that said so. *)
Lemma ClientCall_ok key cands resp c w resp' c' w' :
  ClientCall key cands resp c w = (RET_OK, resp', c', w') ->
  exists l a w1 resp1 resp2 w2, trace w l w1 /\ rpc_func a resp1 w1 = (RET_OK, resp2, w2) /\ trace w2 [] w'.
Proof.
  intros (l & Ht & _ & [(_ & l0 & a & e & -> & _)|[? _]])%ClientCall_calls; [|done].
  apply trace_snoc in Ht as (w1 & r1 & r2 & w2 & ?). by exists l0, a, w1, r1, r2, w2.
Qed.

(** ** Finding the master *)

Section master.
Context (m : Addr).
Hypothesis master_answers : forall resp w, (rpc_func m resp w).1.1 = RET_OK.

(** What a server that is not the master may answer. *)
Definition declines (ret : RetCode) (resp : Resp) : Prop :=
  ret = RET_ERR_NO_MASTER \/ ret = RET_ERR_SVR_BLOCK \/ ret = RET_ERR_SYS \/
  (ret = RET_ERR_NOT_MASTER /\ (has_redirect resp = true -> redirect_addr resp = m)).

Hypothesis others_decline : forall a resp w, a <> m -> declines (rpc_func a resp w).1.1 (rpc_func a resp w).1.2.

Lemma call_loop_finds n key addrs idx addr ret resp c w :
  (addr = m /\ (0 < n)%nat) \/
  (addrs !! idx = Some addr /\ exists j, (j < n)%nat /\ addrs !! Nat.modulo (idx + j) (length addrs) = Some m) ->
  (call_loop n key addrs idx addr ret resp c w).1.1.1 = RET_OK.
Proof.
  revert idx addr ret resp c w. induction n as [|n IH]; intros idx addr ret resp c w Hc.
  { destruct Hc as [[_ ?]|(_ & j & ? & _)]; lia. }
  simpl. pose proof (master_answers resp w) as Hm. pose proof (others_decline addr resp w) as Ho.
  destruct (decide (addr = m)) as [->|Hne].
  { destruct (rpc_func m resp w) as [[r1 resp1] w1]. simpl in Hm. subst r1. by case_match. }
  specialize (Ho Hne). destruct Hc as [[? _]|(Hidx & j & Hj & Hjm)]; [done|].
  assert (Hl : (idx < length addrs)%nat) by by eapply lookup_lt_Some.
  destruct j as [|j].
  { rewrite Nat.add_0_r, Nat.mod_small in Hjm by done. congruence. }
  destruct (rpc_func addr resp w) as [[r1 resp1] w1]. simpl in Ho.
  set (next := Nat.modulo (idx + 1) (length addrs)).
  assert (Hnext : (next < length addrs)%nat) by (apply Nat.mod_upper_bound; lia).
  assert (Htry : forall c w, (call_loop n key addrs next (default addr (addrs !! next)) r1 resp1 c w).1.1.1 = RET_OK).
  { intros c0 w0. apply IH. right. destruct (lookup_lt_is_Some_2 _ _ Hnext) as [b Hb]. rewrite Hb. split; [done|].
    exists j. split; [lia|]. unfold next. rewrite Nat.Div0.add_mod_idemp_l. by replace (idx + 1 + j)%nat with (idx + S j)%nat by lia. }
  destruct Ho as [->|[->|[->|[-> Hr]]]]; [apply Htry..|].
  destruct (has_redirect resp1); [|apply Htry]. specialize (Hr eq_refl). rewrite Hr.
  destruct (PutAddrToCache key m c w1) as [c2 w2]. apply IH. left. split; [done|lia].
Qed.

Lemma try_candidates_finds key addrs master ret resp c w :
  m ∈ addrs ->
  (ret = RET_ERR_NOT_MASTER -> forall a e, c !! key = Some (a, e) -> a = m) ->
  (try_candidates key (RET_OK, addrs) master ret resp c w).1.1.1 = RET_OK.
Proof.
  intros Hin Hcache. unfold try_candidates. destruct addrs as [|a addrs]; [by apply elem_of_nil in Hin|].
  set (l := a :: addrs) in *. assert (Hpos : (0 < length l)%nat) by (simpl; lia).
  destruct (if bool_decide _ then _ else _) as [cached w1] eqn:Eg.
  destruct cached as [b|].
  { apply call_loop_finds. left. split; [|done]. case_bool_decide as Hr; [|done].
    apply GetAddrFromCache_trace in Eg as [_ Hg]. destruct (Hg _ eq_refl) as [e He]. by eapply Hcache. }
  destruct (FastRand w1) as [r w2]. set (i0 := Nat.modulo (Z.to_nat r) (length l)).
  set (i := match l !! i0 with Some addr => _ | None => _ end).
  assert (Hi : (i < length l)%nat).
  { unfold i. assert ((i0 < length l)%nat) by (apply Nat.mod_upper_bound; lia).
    repeat case_match; try done; apply Nat.mod_upper_bound; lia. }
  destruct (lookup_lt_is_Some_2 _ _ Hi) as [b Hb]. rewrite Hb. apply call_loop_finds. right. split; [done|].
  apply list_elem_of_lookup in Hin as [k Hk]. pose proof (lookup_lt_Some _ _ _ Hk) as Hkl.
  destruct (decide (i <= k)%nat).
  - exists (k - i)%nat. split; [lia|]. rewrite Nat.mod_small by lia. by replace (i + (k - i))%nat with k by lia.
  - exists (k + length l - i)%nat. split; [lia|]. replace (i + (k + length l - i))%nat with (k + 1 * length l)%nat by lia.
    by rewrite Nat.Div0.mod_add, Nat.mod_small.
Qed.

(** C26: A call finds the master.  When the master is one of the candidates and
    answers, and every other server is unreachable, blocked, knows no master
    or redirects to the master, a call returns RET_OK, whatever the cache
    holds, wherever the search starts and however the clock moves. *)
Theorem ClientCall_finds_master key addrs resp c w :
  m ∈ addrs -> (ClientCall key (RET_OK, addrs) resp c w).1.1.1 = RET_OK.
Proof.
  intros Hin. unfold ClientCall. destruct (GetAddrFromCache key c w) as [[a|] w0]; [|by apply try_candidates_finds].
  pose proof (master_answers resp w0) as Hm. pose proof (others_decline a resp w0) as Ho.
  destruct (decide (a = m)) as [->|Hne].
  { destruct (rpc_func m resp w0) as [[r1 resp1] w1]. simpl in Hm. subst r1. simpl. destruct (PutAddrToCache key m c w1). done. }
  specialize (Ho Hne). destruct (rpc_func a resp w0) as [[r1 resp1] w1]. simpl in Ho.
  destruct Ho as [->|[->|[->|[-> Hr]]]]; cbn [after_cached]; try by apply try_candidates_finds.
  destruct (has_redirect resp1).
  - destruct (PutAddrToCache key (redirect_addr resp1) c w1) as [c2 w2] eqn:Ep.
    apply PutAddrToCache_trace in Ep as (_ & e & ->). apply try_candidates_finds; [done|].
    intros _ b e'. rewrite lookup_insert_eq. intros [= <- _]. by apply Hr.
  - apply try_candidates_finds; [done|]. intros _ b e. unfold RemoveCache. by rewrite lookup_delete_eq.
Qed.
End master.
End client.
End MasterClient.

(** ** The clients of the stores, the locks and the scheduler *)

Definition store_route_key (topic_id store_id queue_id : Z) : string :=
  GetRouteKey [print topic_id; print store_id; print queue_id].

Definition lock_route_key (topic_id lock_id : Z) (key : string) : string :=
  GetRouteKey [print topic_id; print lock_id; key].

Definition scheduler_route_key (topic_id : Z) : string := GetRouteKey [print topic_id].

Lemma store_route_key_inj t s q t' s' q' :
  store_route_key t s q = store_route_key t' s' q' -> t = t' /\ s = s' /\ q = q'.
Proof.
  unfold store_route_key. intros [-> [-> Hq]%route_key_cons_inj]%route_key_cons_inj. by apply print_inj in Hq as ->.
Qed.

Lemma lock_route_key_inj t l k t' l' k' :
  lock_route_key t l k = lock_route_key t' l' k' -> t = t' /\ l = l' /\ k = k'.
Proof. unfold lock_route_key. by intros [-> [-> Hk]%route_key_cons_inj]%route_key_cons_inj. Qed.

Section candidates.
Context `{GlobalConfig, LockDirectory, SchedulerDirectory}.

Definition store_candidates (topic_id store_id : Z) : RetCode * list Addr :=
  match GetStoreConfig topic_id with
  | (RET_OK, Some store_config) =>
      match StoreConfig.GetStoreByStoreID store_config store_id with
      | (RET_OK, Some store) => (RET_OK, addrs store)
      | (ret, _) => (ret, [])
      end
  | (ret, _) => (ret, [])
  end.

Definition lock_candidates (topic_id lock_id : Z) : RetCode * list Addr :=
  match GetLockConfig topic_id with
  | (RET_OK, Some lock_config) =>
      match LockConfig.GetLockByLockID lock_config lock_id with
      | (RET_OK, Some lock) => (RET_OK, lock_addrs lock)
      | (ret, _) => (ret, [])
      end
  | (ret, _) => (ret, [])
  end.

Definition scheduler_candidates (topic_id : Z) : RetCode * list Addr :=
  match GetSchedulerConfig topic_id with
  | (RET_OK, Some scheduler_config) =>
      let '(ret, addrs) := SchedulerConfig.GetScheduler scheduler_config in (ret, addrs)
  | (ret, _) => (ret, [])
  end.
End candidates.
