(* ===== verification/LockDb.v ===== *)
(** * The storage of a lock server (src/phxqueue/lock/lockdb.cpp)

    [LockDb] stores the records of a paxos group, in a [std::map] or in a
    LevelDB database behind the same operations.  Setting a record is a
    compare-and-swap on its version.  The clock readings of an operation are
    arguments ([now]).

    LevelDB and protobuf are interfaces: [LevelDB] is the part of [leveldb::DB]
    the code calls and [LevelDBLaws] what it relies on; [RecordCodec] is the
    generated code of [proto::LocalRecordInfo].  [None] as a result stands for
    the dereference of a null pointer. *)

From S2P Require Import Prelude RetCode.
From Stdlib Require Import OrderedTypeEx.

(** ** Keys in the order of [std::string] *)

Definition key_le (a b : string) : Prop := String.compare a b <> Gt.
Definition key_lt (a b : string) : Prop := String.compare a b = Lt.

#[export] Instance key_le_dec : RelDecision key_le.
Proof. intros a b. unfold key_le. apply _. Defined.

#[export] Instance key_lt_dec : RelDecision key_lt.
Proof. intros a b. unfold key_lt. apply _. Defined.

Lemma key_lt_trans a b c : key_lt a b -> key_lt b c -> key_lt a c.
Proof.
  unfold key_lt. intros Hab%String_as_OT.cmp_lt Hbc%String_as_OT.cmp_lt.
  apply String_as_OT.cmp_lt. revert Hab Hbc. apply String_as_OT.lt_trans.
Qed.

Lemma string_compare_refl a : String.compare a a = Eq.
Proof. by apply String_as_OT.cmp_eq. Qed.

Lemma key_le_lt_eq a b : key_le a b <-> key_lt a b \/ a = b.
Proof.
  unfold key_le, key_lt. destruct (String.compare a b) eqn:E; split; try naive_solver.
  - intros _. right. by apply String.compare_eq_iff.
  - intros [H| ->]; [done|]. by rewrite string_compare_refl in E.
Qed.

Lemma key_lt_irrefl a : ~ key_lt a a.
Proof. unfold key_lt. by rewrite string_compare_refl. Qed.

Lemma key_trichotomy a b : key_lt a b \/ a = b \/ key_lt b a.
Proof.
  unfold key_lt. destruct (String.compare a b) eqn:E; [|by left|].
  - right; left. by apply String.compare_eq_iff.
  - right; right. rewrite String.compare_antisym, E. done.
Qed.

#[export] Instance key_le_trans : Transitive key_le.
Proof.
  intros a b c. rewrite !key_le_lt_eq. intros [Hab| ->] [Hbc| ->]; eauto using key_lt_trans.
Qed.

#[export] Instance key_le_total : Total key_le.
Proof.
  intros a b. rewrite !key_le_lt_eq. destruct (key_trichotomy a b) as [?|[?|?]]; auto.
Qed.

(** ** Records *)

Record LocalRecordInfo := mkRecord {
  rec_version : Z;
  rec_value : string;
  rec_lease_time_ms : Z;
  rec_expire_time_ms : Z;
}.

#[export] Instance LocalRecordInfo_eq_dec : EqDecision LocalRecordInfo.
Proof. solve_decision. Defined.

Definition empty_record : LocalRecordInfo := mkRecord 0 "" 0 0.

Record RecordKeyInfo := mkRecordKey { rk_version : Z; rk_key : string }.

(** [clear_expire_time_ms]. *)
Definition strip (r : LocalRecordInfo) : LocalRecordInfo :=
  mkRecord (rec_version r) (rec_value r) (rec_lease_time_ms r) 0.

Inductive Status := StatusOk | StatusNotFound | StatusError.

Class LevelDB := {
  leveldb : Type;
  ldb_Open : bool -> string -> option leveldb;
  ldb_Get : leveldb -> string -> Status * string;
  ldb_Put : leveldb -> bool -> string -> string -> Status * leveldb;
  ldb_Delete : leveldb -> bool -> string -> Status * leveldb;
  ldb_entries : leveldb -> list (string * string);   (* what a new iterator runs over *)
}.

Class RecordCodec := {
  rec_ParseFromString : string -> option LocalRecordInfo;
  rec_SerializeToString : LocalRecordInfo -> option string;
}.

(** A working database: a finite map with an iterator in key order. *)
Class LevelDBLaws (L : LevelDB) := {
  contents : leveldb -> gmap string string;
  ldb_Get_spec d k : ldb_Get d k = match contents d !! k with
                                   | Some v => (StatusOk, v) | None => (StatusNotFound, ""%string)
                                   end;
  ldb_Put_spec d sync k v : (ldb_Put d sync k v).1 = StatusOk /\
                            contents (ldb_Put d sync k v).2 = <[k := v]> (contents d);
  ldb_Delete_spec d sync k : (ldb_Delete d sync k).1 = StatusOk /\
                             contents (ldb_Delete d sync k).2 = delete k (contents d);
  ldb_entries_spec d : StronglySorted key_lt (ldb_entries d).*1 /\
                       forall k v, (k, v) ∈ ldb_entries d <-> contents d !! k = Some v;
}.

Class RecordCodecLaws (C : RecordCodec) := {
  rec_roundtrip r : exists s, rec_SerializeToString r = Some s /\ rec_ParseFromString s = Some r;
}.

Definition KEY_IGNORE_PREFIX : string := "__ignore__".
Definition KEY_IGNORE_SYNC_TRIGGER : string := "__ignore__:__sync_trigger__".
Definition KEY_USER_STRING_PREFIX : string := "".
Definition KEY_USER_LOCK_PREFIX : string := "".

Inductive StorageType := ST_NONE | ST_MAP | ST_LEVELDB | ST_MAX.
Inductive DataType := DT_NONE | DT_IGNORE | DT_USER | DT_MAX.

#[export] Instance StorageType_eq_dec : EqDecision StorageType.
Proof. solve_decision. Defined.
#[export] Instance DataType_eq_dec : EqDecision DataType.
Proof. solve_decision. Defined.

(** The keys of a [std::map] in order. *)
Definition map_keys {A} (m : gmap string A) : list string := merge_sort key_le (elements (dom m)).

Module LockDb.
Section db.
Context `{LDB : LevelDB, RC : RecordCodec}.

(** [map_it_] is the key it points at, [None] for [end()];
    [leveldb_it_] is what is left of the iteration. *)
Record t := mk {
  storage_type_ : StorageType;
  map_ : gmap string LocalRecordInfo;
  map_it_ : option string;
  leveldb_ : option leveldb;
  leveldb_it_ : option (list (string * string));
  leveldb_checks_ : bool;
  prev_loop_key_ : string;
}.

Definition new : t := mk ST_NONE ∅ None None None true "".

Definition set_storage_type (d : t) (x : StorageType) : t :=
  mk x (map_ d) (map_it_ d) (leveldb_ d) (leveldb_it_ d) (leveldb_checks_ d) (prev_loop_key_ d).
Definition set_map (d : t) (x : gmap string LocalRecordInfo) : t :=
  mk (storage_type_ d) x (map_it_ d) (leveldb_ d) (leveldb_it_ d) (leveldb_checks_ d) (prev_loop_key_ d).
Definition set_map_it (d : t) (x : option string) : t :=
  mk (storage_type_ d) (map_ d) x (leveldb_ d) (leveldb_it_ d) (leveldb_checks_ d) (prev_loop_key_ d).
Definition set_leveldb (d : t) (x : option leveldb) : t :=
  mk (storage_type_ d) (map_ d) (map_it_ d) x (leveldb_it_ d) (leveldb_checks_ d) (prev_loop_key_ d).
Definition set_leveldb_it (d : t) (x : option (list (string * string))) : t :=
  mk (storage_type_ d) (map_ d) (map_it_ d) (leveldb_ d) x (leveldb_checks_ d) (prev_loop_key_ d).
Definition set_prev_loop_key (d : t) (x : string) : t :=
  mk (storage_type_ d) (map_ d) (map_it_ d) (leveldb_ d) (leveldb_it_ d) (leveldb_checks_ d) x.

Definition Init (d : t) (type : StorageType) (leveldb_file : string) : RetCode * t :=
  let d := set_storage_type d type in
  match type with
  | ST_MAP => (RET_OK, d)
  | ST_LEVELDB =>
      match ldb_Open (leveldb_checks_ d) leveldb_file with
      | Some l => (RET_OK, set_leveldb d (Some l))
      | None => (RET_ERR_LEVELDB, d)
      end
  | _ => (RET_ERR_NO_IMPL, d)
  end.

Definition Dispose (d : t) : RetCode * t :=
  match storage_type_ d with
  | ST_MAP => (RET_OK, set_map d ∅)
  | ST_LEVELDB => (RET_OK, set_leveldb d None)
  | _ => (RET_ERR_NO_IMPL, d)
  end.

(** ** Disk *)

Definition DiskGet (d : t) (k : string) : option (RetCode * string) :=
  if bool_decide (k = ""%string) then Some (RET_ERR_KEY, ""%string) else
  match storage_type_ d with
  | ST_LEVELDB =>
      l ← leveldb_ d;
      let '(status, vstr) := ldb_Get l k in
      Some match status with
           | StatusOk => (RET_OK, vstr)
           | StatusNotFound => (RET_ERR_KEY_NOT_EXIST, vstr)
           | StatusError => (RET_ERR_LEVELDB, vstr)
           end
  | _ => Some (RET_ERR_NO_IMPL, ""%string)
  end.

Definition DiskSet (d : t) (k vstr : string) (sync : bool) : option (RetCode * t) :=
  if bool_decide (k = ""%string) then Some (RET_ERR_KEY, d) else
  match storage_type_ d with
  | ST_LEVELDB =>
      l ← leveldb_ d;
      let '(status, l') := ldb_Put l sync k vstr in
      Some (match status with StatusOk => RET_OK | _ => RET_ERR_LEVELDB end, set_leveldb d (Some l'))
  | _ => Some (RET_ERR_NO_IMPL, d)
  end.

Definition DiskDelete (d : t) (k : string) (sync : bool) : option (RetCode * t) :=
  if bool_decide (k = ""%string) then Some (RET_ERR_KEY, d) else
  match storage_type_ d with
  | ST_LEVELDB =>
      l ← leveldb_ d;
      let '(status, l') := ldb_Delete l sync k in
      Some (match status with
            | StatusOk => RET_OK
            | StatusNotFound => RET_ERR_KEY_NOT_EXIST
            | StatusError => RET_ERR_LEVELDB
            end, set_leveldb d (Some l'))
  | _ => Some (RET_ERR_NO_IMPL, d)
  end.

Definition Sync (d : t) : option (RetCode * t) :=
  match storage_type_ d with
  | ST_MAP => Some (RET_OK, d)
  | ST_LEVELDB =>
      l ← leveldb_ d;
      let '(status, l') := ldb_Put l true KEY_IGNORE_SYNC_TRIGGER "" in
      Some (match status with StatusOk => RET_OK | _ => RET_ERR_LEVELDB end, set_leveldb d (Some l'))
  | _ => Some (RET_ERR_NO_IMPL, d)
  end.

(** ** Records *)

Definition GetRecord (d : t) (k : string) : option (RetCode * LocalRecordInfo) :=
  if bool_decide (k = ""%string) then Some (RET_ERR_KEY, empty_record) else
  match storage_type_ d with
  | ST_MAP => Some match map_ d !! k with
                   | None => (RET_ERR_KEY_NOT_EXIST, empty_record)
                   | Some v => (RET_OK, v)
                   end
  | ST_LEVELDB =>
      r ← DiskGet d k;
      if negb (is_ok r.1) then Some (r.1, empty_record) else
      Some match rec_ParseFromString r.2 with
           | None => (RET_ERR_PROTOBUF_PARSE, empty_record)
           | Some v => (RET_OK, v)
           end
  | _ => Some (RET_ERR_NO_IMPL, empty_record)
  end.

Definition SetRecord (d : t) (k : string) (v : LocalRecordInfo) (sync : bool) : option (RetCode * t) :=
  if bool_decide (k = ""%string) then Some (RET_ERR_KEY, d) else
  match storage_type_ d with
  | ST_MAP => Some (RET_OK, set_map d (<[k := v]> (map_ d)))
  | ST_LEVELDB =>
      match rec_SerializeToString (strip v) with
      | None => Some (RET_ERR_PROTOBUF_SERIALIZE, d)
      | Some vstr => DiskSet d k vstr sync
      end
  | _ => Some (RET_ERR_NO_IMPL, d)
  end.

Definition DeleteRecord (d : t) (k : string) (sync : bool) : option (RetCode * t) :=
  if bool_decide (k = ""%string) then Some (RET_ERR_KEY, d) else
  match storage_type_ d with
  | ST_MAP => Some (RET_OK, set_map d (delete k (map_ d)))
  | ST_LEVELDB => DiskDelete d k sync
  | _ => Some (RET_ERR_NO_IMPL, d)
  end.

Definition GetString (d : t) (k : string) : option (RetCode * LocalRecordInfo) :=
  if bool_decide (k = ""%string) then Some (RET_ERR_KEY, empty_record)
  else GetRecord d (KEY_USER_STRING_PREFIX +:+ k).
Definition SetString (d : t) (k : string) (v : LocalRecordInfo) (sync : bool) : option (RetCode * t) :=
  if bool_decide (k = ""%string) then Some (RET_ERR_KEY, d)
  else SetRecord d (KEY_USER_STRING_PREFIX +:+ k) v sync.
Definition DeleteString (d : t) (k : string) (sync : bool) : option (RetCode * t) :=
  if bool_decide (k = ""%string) then Some (RET_ERR_KEY, d)
  else DeleteRecord d (KEY_USER_STRING_PREFIX +:+ k) sync.

Definition GetLock (d : t) (k : string) : option (RetCode * LocalRecordInfo) :=
  if bool_decide (k = ""%string) then Some (RET_ERR_KEY, empty_record)
  else GetRecord d (KEY_USER_LOCK_PREFIX +:+ k).
Definition SetLock (d : t) (k : string) (v : LocalRecordInfo) (sync : bool) : option (RetCode * t) :=
  if bool_decide (k = ""%string) then Some (RET_ERR_KEY, d)
  else SetRecord d (KEY_USER_LOCK_PREFIX +:+ k) v sync.
Definition DeleteLock (d : t) (k : string) (sync : bool) : option (RetCode * t) :=
  if bool_decide (k = ""%string) then Some (RET_ERR_KEY, d)
  else DeleteRecord d (KEY_USER_LOCK_PREFIX +:+ k) sync.

(** ** Compare-and-swap *)

(** The record to store: a lease of [-1] never expires. *)
Definition leased (now : Z) (v : LocalRecordInfo) : LocalRecordInfo :=
  mkRecord (rec_version v) (rec_value v) (rec_lease_time_ms v)
    (if rec_lease_time_ms v =? UINT64_MAX then 0 else now +u rec_lease_time_ms v).

Definition VersionSetString (now : Z) (d : t) (rk : RecordKeyInfo) (v : LocalRecordInfo) (sync : bool)
    : option (RetCode * t) :=
  r ← GetString d (rk_key rk);
  let '(ret, localv) := r in
  let absent := bool_decide (ret = RET_ERR_KEY_NOT_EXIST) in
  if negb absent && negb (is_ok ret) then Some (ret, d) else
  if negb absent && negb (rk_version rk =? UINT64_MAX) && negb (rec_version localv =? rk_version rk)
  then Some (RET_ERR_VERSION_NOT_EQUAL, d) else
  if rec_lease_time_ms v =? 0 then DeleteString d (rk_key rk) sync
  else SetString d (rk_key rk) (leased now v) sync.

Definition VersionDeleteString (d : t) (rk : RecordKeyInfo) (sync : bool) : option (RetCode * t) :=
  r ← GetString d (rk_key rk);
  let '(ret, localv) := r in
  if bool_decide (ret = RET_ERR_KEY_NOT_EXIST) then Some (RET_OK, d) else
  if negb (is_ok ret) then Some (ret, d) else
  if negb (rk_version rk =? UINT64_MAX) && negb (rec_version localv =? rk_version rk)
  then Some (RET_ERR_VERSION_NOT_EQUAL, d) else
  DeleteString d (rk_key rk) sync.

Definition AcquireLock (now : Z) (d : t) (rk : RecordKeyInfo) (v : LocalRecordInfo) (sync : bool)
    : option (RetCode * t) :=
  r ← GetLock d (rk_key rk);
  let '(ret, localv) := r in
  let absent := bool_decide (ret = RET_ERR_KEY_NOT_EXIST) in
  if negb absent && negb (is_ok ret) then Some (ret, d) else
  if negb absent && negb (rec_version localv =? rk_version rk)
  then Some (RET_ERR_VERSION_NOT_EQUAL, d) else
  if rec_lease_time_ms v =? 0 then DeleteLock d (rk_key rk) sync
  else SetLock d (rk_key rk) (leased now v) sync.

Definition AcquireLock_str (now : Z) (d : t) (rk : RecordKeyInfo) (vstr : string) (sync : bool)
    : option (RetCode * t) :=
  match storage_type_ d with
  | ST_LEVELDB => match rec_ParseFromString vstr with
                  | None => Some (RET_ERR_LOGIC, d)
                  | Some v => AcquireLock now d rk v sync
                  end
  | _ => Some (RET_ERR_NO_IMPL, d)
  end.

(** ** Iteration *)

Definition GetSizeRecord (d : t) : Z :=
  match storage_type_ d with ST_MAP => to_i32 (Z.of_nat (size (map_ d))) | _ => 0 end.

(** [upper_bound]: the least key above [k]. *)
Definition key_after (m : gmap string LocalRecordInfo) (k : string) : option string :=
  head (filter (key_lt k) (map_keys m)).

Definition DiskSeekToFirst (d : t) : option t :=
  match storage_type_ d with
  | ST_LEVELDB => l ← leveldb_ d; Some (set_leveldb_it d (Some (ldb_entries l)))
  | _ => Some d
  end.

Definition DiskNext (d : t) : option t :=
  match storage_type_ d with
  | ST_LEVELDB => it ← leveldb_it_ d;
                  match it with [] => None | _ :: r => Some (set_leveldb_it d (Some r)) end
  | _ => Some d
  end.

Definition DiskValid (d : t) : option bool :=
  match storage_type_ d with
  | ST_LEVELDB => it ← leveldb_it_ d; Some (negb (bool_decide (it = [])))
  | _ => Some false
  end.

Definition data_type_of (k : string) : DataType :=
  if String.prefix KEY_IGNORE_PREFIX k then DT_IGNORE else DT_USER.

Definition DiskGetCurrent (d : t) : option (RetCode * string * string * DataType) :=
  match storage_type_ d with
  | ST_LEVELDB => it ← leveldb_it_ d;
                  match it with
                  | [] => None
                  | (k, vstr) :: _ => Some (RET_OK, k, vstr, data_type_of k)
                  end
  | _ => Some (RET_ERR_NO_IMPL, ""%string, ""%string, DT_NONE)
  end.

Definition SeekToFirstRecord (d : t) : option t :=
  match storage_type_ d with
  | ST_MAP => Some (set_map_it d (head (map_keys (map_ d))))
  | ST_LEVELDB => DiskSeekToFirst d
  | _ => Some d
  end.

(** Advancing past the end, or from an erased element, is undefined. *)
Definition NextRecord (d : t) : option t :=
  match storage_type_ d with
  | ST_MAP => k ← map_it_ d; _ ← map_ d !! k; Some (set_map_it d (key_after (map_ d) k))
  | ST_LEVELDB => DiskNext d
  | _ => Some d
  end.

Definition ValidRecord (d : t) : option bool :=
  match storage_type_ d with
  | ST_MAP => Some (bool_decide (is_Some (map_it_ d)))
  | ST_LEVELDB => DiskValid d
  | _ => Some false
  end.

Definition GetCurrentRecord (d : t) : option (RetCode * string * LocalRecordInfo) :=
  match storage_type_ d with
  | ST_MAP => k ← map_it_ d; v ← map_ d !! k; Some (RET_OK, k, v)
  | ST_LEVELDB =>
      r ← DiskGetCurrent d;
      let '(ret, k, vstr, data_type) := r in
      if negb (is_ok ret) then Some (ret, k, empty_record) else
      if bool_decide (data_type = DT_IGNORE) then Some (RET_KEY_IGNORE, k, empty_record) else
      Some match rec_ParseFromString vstr with
           | None => (RET_ERR_LOGIC, k, empty_record)
           | Some v => (RET_OK, k, v)
           end
  | _ => Some (RET_ERR_NO_IMPL, ""%string, empty_record)
  end.

Definition ForwardLoopKey (d : t) : RetCode * option string * t :=
  match storage_type_ d with
  | ST_MAP =>
      match head (map_keys (map_ d)) with
      | None => (RET_ERR_RANGE, None, d)
      | Some first =>
          let next := match map_ d !! prev_loop_key_ d with
                      | None => first
                      | Some _ => default first (key_after (map_ d) (prev_loop_key_ d))
                      end in
          (RET_OK, Some next, set_prev_loop_key d next)
      end
  | _ => (RET_ERR_NO_IMPL, None, d)
  end.

(** ** Both storages implement the same compare-and-swap

    [view] is what a storage holds under the keys of users, without the
    expiry times, which only the map keeps. *)

Definition user_key (k : string) : bool :=
  negb (bool_decide (k = ""%string)) && negb (String.prefix KEY_IGNORE_PREFIX k).

Context {LL : LevelDBLaws LDB} {RL : RecordCodecLaws RC}.

Definition view (d : t) (k : string) : option LocalRecordInfo :=
  if user_key k then
    match storage_type_ d with
    | ST_MAP => strip <$> map_ d !! k
    | ST_LEVELDB => l ← leveldb_ d; s ← contents l !! k; rec_ParseFromString s
    | _ => None
    end
  else None.

(** An open storage; in the database every record of a user was written by
    [SetRecord]. *)
Definition open_db (d : t) : Prop :=
  match storage_type_ d with
  | ST_MAP => True
  | ST_LEVELDB => exists l, leveldb_ d = Some l /\
      forall k s, user_key k = true -> contents l !! k = Some s ->
                  exists r, rec_ParseFromString s = Some r /\ strip r = r
  | _ => False
  end.

Lemma user_key_nonempty k : user_key k = true -> bool_decide (k = ""%string) = false.
Proof. unfold user_key. intros H. simpl_bool. by apply bool_decide_eq_false_2. Qed.

Lemma strip_strip r : strip (strip r) = strip r.
Proof. done. Qed.

Lemma GetRecord_view d k :
  open_db d -> user_key k = true ->
  exists r, GetRecord d k = Some (match view d k with None => RET_ERR_KEY_NOT_EXIST | Some _ => RET_OK end, r) /\
            forall r', view d k = Some r' -> strip r = r'.
Proof.
  intros Ho Hk. unfold GetRecord, view, DiskGet. rewrite Hk, (user_key_nonempty k Hk).
  unfold open_db in Ho. destruct (storage_type_ d); try done.
  - destruct (map_ d !! k) as [v|]; simpl; eexists; (split; [reflexivity|]); naive_solver.
  - destruct Ho as (l & -> & Hc). cbn [mbind option_bind]. rewrite ldb_Get_spec.
    destruct (contents l !! k) as [s|] eqn:E; cbn.
    + destruct (Hc k s Hk E) as (r & -> & Hr). eexists. split; [reflexivity|]. naive_solver.
    + by eexists.
Qed.

Lemma SetRecord_view d k v sync :
  open_db d -> user_key k = true ->
  exists d', SetRecord d k v sync = Some (RET_OK, d') /\ open_db d' /\
    storage_type_ d' = storage_type_ d /\
    forall k', view d' k' = if decide (k' = k) then Some (strip v) else view d k'.
Proof.
  intros Ho Hk. unfold SetRecord, DiskSet, view. rewrite (user_key_nonempty k Hk).
  unfold open_db in *. destruct (storage_type_ d) eqn:Est; try done.
  - eexists. split; [reflexivity|]. cbn. rewrite Est. split_and!; [done..|]. intros k'.
    destruct (decide (k' = k)) as [->|Hne]; [by rewrite Hk, lookup_insert_eq|].
    by rewrite lookup_insert_ne.
  - destruct Ho as (l & El & Hc). rewrite El. destruct (rec_roundtrip (strip v)) as (s & -> & Hs).
    cbn [mbind option_bind]. destruct (ldb_Put_spec l sync k s) as [H1 H2].
    destruct (ldb_Put l sync k s) as [st l'] eqn:Ep. cbn [fst snd] in *. subst st.
    eexists. split; [reflexivity|]. cbn. rewrite Est. split_and!; [|done|].
    + exists l'. split; [done|]. intros k' s'. rewrite H2. intros Hk' [[<- <-]|[? ?]]%lookup_insert_Some; eauto.
    + intros k'. rewrite H2. destruct (decide (k' = k)) as [->|Hne].
      * rewrite Hk, lookup_insert_eq. simpl. by rewrite Hs.
      * by rewrite lookup_insert_ne.
Qed.

Lemma DeleteRecord_view d k sync :
  open_db d -> user_key k = true ->
  exists d', DeleteRecord d k sync = Some (RET_OK, d') /\ open_db d' /\
    storage_type_ d' = storage_type_ d /\
    forall k', view d' k' = if decide (k' = k) then None else view d k'.
Proof.
  intros Ho Hk. unfold DeleteRecord, DiskDelete, view. rewrite (user_key_nonempty k Hk).
  unfold open_db in *. destruct (storage_type_ d) eqn:Est; try done.
  - eexists. split; [reflexivity|]. cbn. rewrite Est. split_and!; [done..|]. intros k'.
    destruct (decide (k' = k)) as [->|Hne]; [by rewrite Hk, lookup_delete_eq|].
    by rewrite lookup_delete_ne.
  - destruct Ho as (l & El & Hc). rewrite El.
    cbn [mbind option_bind]. destruct (ldb_Delete_spec l sync k) as [H1 H2].
    destruct (ldb_Delete l sync k) as [st l'] eqn:Ep. cbn [fst snd] in *. subst st.
    eexists. split; [reflexivity|]. cbn. rewrite Est. split_and!; [|done|].
    + exists l'. split; [done|]. intros k' s'. rewrite H2. intros Hk' [? ?]%lookup_delete_Some; eauto.
    + intros k'. rewrite H2. destruct (decide (k' = k)) as [->|Hne].
      * by rewrite Hk, lookup_delete_eq.
      * by rewrite lookup_delete_ne.
Qed.

(** The specification: a map under compare-and-swap on the version.  With
    [force] a requested version of [-1] always matches. *)
Definition version_ok (force : bool) (cur : option LocalRecordInfo) (version : Z) : bool :=
  match cur with
  | None => true
  | Some r => (force && (version =? UINT64_MAX)) || (rec_version r =? version)
  end.

Definition cas (force : bool) (m : string -> option LocalRecordInfo) (rk : RecordKeyInfo)
    (v : LocalRecordInfo) : RetCode * (string -> option LocalRecordInfo) :=
  if version_ok force (m (rk_key rk)) (rk_version rk) then
    (RET_OK, fun k => if decide (k = rk_key rk)
                      then (if rec_lease_time_ms v =? 0 then None else Some (strip v)) else m k)
  else (RET_ERR_VERSION_NOT_EQUAL, m).

Lemma write_refines now d rk v sync :
  open_db d -> user_key (rk_key rk) = true ->
  exists d', (if rec_lease_time_ms v =? 0 then DeleteRecord d (rk_key rk) sync
              else SetRecord d (rk_key rk) (leased now v) sync) = Some (RET_OK, d') /\ open_db d' /\
    storage_type_ d' = storage_type_ d /\
    forall k', view d' k' = if decide (k' = rk_key rk)
                            then (if rec_lease_time_ms v =? 0 then None else Some (strip v)) else view d k'.
Proof.
  intros Ho Hk. destruct (rec_lease_time_ms v =? 0).
  - by apply DeleteRecord_view.
  - destruct (SetRecord_view d (rk_key rk) (leased now v) sync Ho Hk) as (d' & ? & ? & ? & Hv).
    exists d'. split_and!; try done.
Qed.

(** The conclusion shared by the two operations. *)
Definition refines (d : t) (spec : RetCode * (string -> option LocalRecordInfo))
    (r : option (RetCode * t)) : Prop :=
  exists d', r = Some (spec.1, d') /\ open_db d' /\ storage_type_ d' = storage_type_ d /\
             forall k, view d' k = spec.2 k.

Lemma AcquireLock_cas now d rk v sync :
  open_db d -> user_key (rk_key rk) = true ->
  refines d (cas false (view d) rk v) (AcquireLock now d rk v sync).
Proof.
  intros Ho Hk. unfold AcquireLock, GetLock, DeleteLock, SetLock, KEY_USER_LOCK_PREFIX, refines, cas.
  rewrite (user_key_nonempty _ Hk). cbn [String.append app].
  change (""%string +:+ rk_key rk) with (rk_key rk).
  destruct (GetRecord_view d (rk_key rk) Ho Hk) as (r & -> & Hr). cbn [mbind option_bind].
  destruct (view d (rk_key rk)) as [cur|] eqn:Ev; cbn [version_ok andb orb].
  - rewrite <-(Hr cur eq_refl). cbn [strip rec_version]. change (is_ok RET_OK) with true. cbn.
    destruct (rec_version r =? rk_version rk); cbn.
    + destruct (write_refines now d rk v sync Ho Hk) as (d' & ? & ? & ? & ?). by exists d'.
    + exists d. done.
  - cbn. destruct (write_refines now d rk v sync Ho Hk) as (d' & ? & ? & ? & ?). by exists d'.
Qed.

Lemma VersionSetString_cas now d rk v sync :
  open_db d -> user_key (rk_key rk) = true ->
  refines d (cas true (view d) rk v) (VersionSetString now d rk v sync).
Proof.
  intros Ho Hk. unfold VersionSetString, GetString, DeleteString, SetString, KEY_USER_STRING_PREFIX, refines, cas.
  rewrite (user_key_nonempty _ Hk). cbn [String.append app].
  change (""%string +:+ rk_key rk) with (rk_key rk).
  destruct (GetRecord_view d (rk_key rk) Ho Hk) as (r & -> & Hr). cbn [mbind option_bind].
  destruct (view d (rk_key rk)) as [cur|] eqn:Ev; cbn [version_ok andb orb].
  - rewrite <-(Hr cur eq_refl). cbn [strip rec_version]. change (is_ok RET_OK) with true. cbn.
    destruct (rk_version rk =? UINT64_MAX); cbn; [|destruct (rec_version r =? rk_version rk); cbn].
    1, 2: destruct (write_refines now d rk v sync Ho Hk) as (d' & ? & ? & ? & ?); by exists d'.
    exists d. done.
  - cbn. destruct (write_refines now d rk v sync Ho Hk) as (d' & ? & ? & ? & ?). by exists d'.
Qed.

(** C10: refinement.  On the map and on LevelDB alike, acquiring a lock and
    setting a string are a compare-and-swap on the record's version, whatever
    the clock and the sync flag: they succeed when the key is free or the
    request names the current version (for a string, also when it names [-1]),
    then store the record, or delete it for a lease of 0; otherwise they fail
    with [RET_ERR_VERSION_NOT_EQUAL] and change nothing. *)
Theorem LockDb_refines_cas now d rk v sync :
  open_db d -> user_key (rk_key rk) = true ->
  refines d (cas false (view d) rk v) (AcquireLock now d rk v sync) /\
  refines d (cas true (view d) rk v) (VersionSetString now d rk v sync).
Proof. intros Ho Hk. split; [by apply AcquireLock_cas|by apply VersionSetString_cas]. Qed.

(** ** The clean thread's walk over the keys *)

Lemma map_keys_sorted {A} (m : gmap string A) : StronglySorted key_lt (map_keys m).
Proof.
  assert (Hs : StronglySorted key_le (map_keys m)) by (apply (StronglySorted_merge_sort key_le)).
  assert (Hd : NoDup (map_keys m)).
  { unfold map_keys. rewrite merge_sort_Permutation. apply NoDup_elements. }
  induction Hs as [|x l Hs IH Hall]; constructor; apply NoDup_cons in Hd as [Hx Hd]; [by apply IH|].
  rewrite Forall_forall in *. intros y Hy. specialize (Hall y Hy).
  apply key_le_lt_eq in Hall as [?| ->]; done.
Qed.

Lemma elem_of_map_keys {A} (m : gmap string A) k : k ∈ map_keys m <-> is_Some (m !! k).
Proof. unfold map_keys. by rewrite merge_sort_Permutation, elem_of_elements, elem_of_dom. Qed.

Lemma sorted_after (l : list string) i k :
  StronglySorted key_lt l -> l !! i = Some k -> head (filter (key_lt k) l) = l !! S i.
Proof.
  intros Hs. revert i. induction Hs as [|x l Hs IH Hall]; intros i Hi; [done|].
  rewrite filter_cons. destruct i as [|i]; simpl in Hi.
  - injection Hi as ->. rewrite decide_False by apply key_lt_irrefl. simpl.
    rewrite filter_all by done. by destruct l.
  - rewrite decide_False; [by apply IH|]. intros Hlt.
    rewrite Forall_forall in Hall. apply list_elem_of_lookup_2 in Hi.
    apply (key_lt_irrefl x), (key_lt_trans x k x); auto.
Qed.

(** [n] calls one after another and the keys they give. *)
Fixpoint loop_keys (d : t) (n : nat) : list (option string) :=
  match n with
  | O => []
  | S n => let '(_, k, d') := ForwardLoopKey d in k :: loop_keys d' n
  end.

Lemma ForwardLoopKey_step d i k :
  storage_type_ d = ST_MAP -> map_keys (map_ d) !! i = Some k -> prev_loop_key_ d = k ->
  let n := length (map_keys (map_ d)) in
  exists k', map_keys (map_ d) !! ((i + 1) mod n)%nat = Some k' /\
             ForwardLoopKey d = (RET_OK, Some k', set_prev_loop_key d k').
Proof.
  intros Hst Hi Hp n. unfold ForwardLoopKey. rewrite Hst, Hp.
  assert (Hin : is_Some (map_ d !! k)) by (apply elem_of_map_keys; by eapply list_elem_of_lookup_2).
  assert (Hlt : (i < n)%nat) by (by eapply lookup_lt_Some).
  assert (Hn : n = length (map_keys (map_ d))) by done. clearbody n.
  unfold key_after. rewrite (sorted_after _ i k (map_keys_sorted _) Hi).
  destruct Hin as [v ->]. destruct (map_keys (map_ d)) as [|first r] eqn:Ek; [done|].
  cbn [head]. rewrite <-Ek in *. destruct (decide (i + 1 = n)%nat) as [E|E].
  - rewrite E, Nat.Div0.mod_same. exists first. rewrite (lookup_ge_None_2 _ (S i)) by lia.
    split; [by rewrite Ek|done].
  - rewrite Nat.mod_small by lia. destruct (lookup_lt_is_Some_2 (map_keys (map_ d)) (S i)) as [k' Hk']; [lia|].
    exists k'. rewrite Nat.add_1_r, Hk'. done.
Qed.

Lemma loop_keys_cycle d m i k :
  storage_type_ d = ST_MAP -> map_keys (map_ d) !! i = Some k -> prev_loop_key_ d = k ->
  forall j, (j < m)%nat ->
    loop_keys d m !! j = Some (map_keys (map_ d) !! ((i + 1 + j) mod length (map_keys (map_ d)))%nat).
Proof.
  revert d i k. induction m as [|m IH]; intros d i k Hst Hi Hp j Hj; [lia|].
  destruct (ForwardLoopKey_step d i k Hst Hi Hp) as (k' & Hk' & E). cbn [loop_keys]. rewrite E.
  set (n := length (map_keys (map_ d))) in *. destruct j as [|j].
  - rewrite Nat.add_0_r. simpl. by rewrite <-Hk'.
  - simpl. rewrite (IH (set_prev_loop_key d k') ((i + 1) mod n)%nat k'); [|done..|lia].
    do 2 f_equal. cbn [set_prev_loop_key map_]. fold n.
    replace (i + 1 + S j)%nat with ((i + 1) + (1 + j))%nat by lia.
    rewrite <-Nat.add_assoc, Nat.Div0.add_mod_idemp_l. done.
Qed.

(** The clean thread's cursor goes round robin: on an unchanged map the
    calls of [ForwardLoopKey] give the keys in increasing order, cyclically,
    from wherever the last round stopped; so as many calls as there are keys
    visit every key exactly once. *)
Theorem ForwardLoopKey_round_robin d m :
  storage_type_ d = ST_MAP -> map_ d <> ∅ ->
  let keys := map_keys (map_ d) in
  exists start, forall j, (j < m)%nat ->
    loop_keys d m !! j = Some (keys !! ((start + j) mod length keys)%nat) /\
    is_Some (keys !! ((start + j) mod length keys)%nat).
Proof.
  intros Hst Hne keys.
  assert (Hlen : (0 < length keys)%nat).
  { destruct keys eqn:E; simpl; [|lia]. exfalso. apply Hne, map_empty. intros k.
    destruct (map_ d !! k) eqn:Ek; [|done]. assert (k ∈ keys) by (apply elem_of_map_keys; eauto).
    rewrite E in H. by apply elem_of_nil in H. }
  assert (Hsome : forall x, is_Some (keys !! (x mod length keys)%nat)).
  { intros x. apply lookup_lt_is_Some_2. apply Nat.mod_upper_bound. lia. }
  destruct (map_ d !! prev_loop_key_ d) as [v|] eqn:Ep.
  - assert (Hin : prev_loop_key_ d ∈ keys) by (apply elem_of_map_keys; eauto).
    apply list_elem_of_lookup in Hin as [i Hi]. exists (i + 1)%nat. intros j Hj. split; [|done].
    by apply (loop_keys_cycle d m i (prev_loop_key_ d)).
  - destruct keys as [|first r] eqn:Ek; [simpl in Hlen; lia|]. rewrite <-Ek in *.
    assert (E : ForwardLoopKey d = (RET_OK, Some first, set_prev_loop_key d first)).
    { unfold ForwardLoopKey. rewrite Hst, Ep. fold keys. by rewrite Ek. }
    exists 0%nat. intros j Hj. split; [|done]. destruct m as [|m]; [lia|]. cbn [loop_keys]. rewrite E.
    destruct j as [|j].
    + cbn. rewrite Nat.Div0.mod_0_l. by rewrite Ek.
    + simpl lookup. rewrite (loop_keys_cycle (set_prev_loop_key d first) m 0 first); [|done| |done|lia].
      * cbn [set_prev_loop_key map_]. fold keys. done.
      * cbn [set_prev_loop_key map_]. fold keys. by rewrite Ek.
Qed.
End db.
End LockDb.
