(* ===== verification/LockMgr.v ===== *)
(** * The groups of a lock server (src/phxqueue/lock/lockmgr.cpp)

    Per paxos group the server keeps the records twice, in a map that every
    chosen instance is executed on and in a LevelDB mirror that lags behind,
    with the instance id each of them has reached.  [Init] rebuilds the map from
    the mirror after a restart; the checkpoints are decimal strings under
    reserved keys of the mirror.  [None] stands for a failed [assert] or the
    dereference of a null pointer. *)

From S2P Require Import Prelude RetCode TopicConfig LockDb.

Definition NoCheckpoint : Z := UINT64_MAX.

Definition KEY_IGNORE_CHECKPOINT : string := "__ignore__:__checkpoint__".
Definition KEY_IGNORE_RESTART_CHECKPOINT : string := "__ignore__:__restart_checkpoint__".
Definition KEY_IGNORE_CHECKPOINT_DEPRECATED : string := "__ignore__.__checkpoint__".
Definition KEY_IGNORE_RESTART_CHECKPOINT_DEPRECATED : string := "__ignore__.__restart_checkpoint__".

(** ** [std::to_string] and [strtoul] *)

Definition digit_char (d : Z) : Ascii.ascii := Ascii.ascii_of_nat (Z.to_nat (48 + d)).

(** 20 digits hold every [uint64_t]. *)
Fixpoint to_string_go (fuel : nat) (z : Z) (acc : string) : string :=
  match fuel with
  | O => acc
  | S fuel => if z <? 10 then String (digit_char z) acc
              else to_string_go fuel (z / 10) (String (digit_char (z mod 10)) acc)
  end.

Definition to_string (z : Z) : string :=
  if z <? 0 then String "-" (to_string_go 20 (- z) "") else to_string_go 20 z "".

(** [strtoul(s, nullptr, 10)]: 0 without digits, [ULONG_MAX] out of range, the
    negation of a number after a minus sign. *)
Definition strtoul (s : string) : Z :=
  let clamp v := Z.min v UINT64_MAX in
  match skip_space s with
  | String c r =>
      if Ascii.eqb c "-"%char
      then let v := default 0 (read_digits None r) in
           if UINT64_MAX <? v then UINT64_MAX else to_u64 (- v)
      else if Ascii.eqb c "+"%char then clamp (default 0 (read_digits None r))
      else clamp (default 0 (read_digits None (String c r)))
  | EmptyString => 0
  end.

Lemma digit_of_digit_char d : 0 <= d < 10 -> digit_of (digit_char d) = Some d.
Proof.
  intros H. assert (d = 0 \/ d = 1 \/ d = 2 \/ d = 3 \/ d = 4 \/ d = 5 \/ d = 6 \/ d = 7 \/ d = 8 \/ d = 9) as Hd by lia.
  repeat (destruct Hd as [->|Hd]; [reflexivity|]). by subst.
Qed.

Lemma to_string_go_head fuel z acc :
  0 <= z -> (0 < fuel)%nat -> exists d r, 0 <= d < 10 /\ to_string_go fuel z acc = String (digit_char d) r \/
                                            acc = String (digit_char d) r /\ to_string_go fuel z acc = acc.
Proof.
  revert z acc. induction fuel as [|fuel IH]; intros z acc Hz Hf; [lia|]. simpl.
  destruct (z <? 10) eqn:E; simpl_bool; [exists z, acc; left; split; [lia|done]|].
  assert (Hm : 0 <= z mod 10 < 10) by (apply Z.mod_pos_bound; lia).
  destruct fuel as [|fuel]; [exists (z mod 10), acc; left; done|].
  destruct (IH (z / 10) (String (digit_char (z mod 10)) acc)) as (d & r & [[Hd E1]|[E1 E2]]);
    [apply Z.div_pos; lia|lia| |].
  - exists d, r. left. done.
  - exists (z mod 10), acc. left. by rewrite E2.
Qed.

Lemma read_to_string_go fuel z acc :
  0 <= z < 10 ^ Z.of_nat fuel -> (0 < fuel)%nat ->
  read_digits (Some 0) (to_string_go fuel z acc) = read_digits (Some z) acc.
Proof.
  revert z acc. induction fuel as [|fuel IH]; intros z acc Hz Hf; [lia|].
  rewrite Nat2Z.inj_succ, Z.pow_succ_r in Hz by lia. cbn [to_string_go].
  destruct (z <? 10) eqn:E; simpl_bool.
  - cbn [read_digits]. by rewrite digit_of_digit_char by lia.
  - assert (Hm : 0 <= z mod 10 < 10) by (apply Z.mod_pos_bound; lia).
    destruct fuel as [|fuel]; [cbn in Hz; lia|].
    rewrite IH; [|split; [apply Z.div_pos; lia|apply Z.div_lt_upper_bound; lia]|lia].
    cbn [read_digits]. rewrite digit_of_digit_char by done. do 2 f_equal. simpl.
    rewrite (Z.div_mod z 10) at 3 by lia. lia.
Qed.

Lemma strtoul_to_string z : is_u64 z -> strtoul (to_string z) = z.
Proof.
  intros Hz. unfold to_string. rewrite (proj2 (Z.ltb_ge _ _)) by ilia.
  destruct (to_string_go_head 20 z "" ltac:(ilia) ltac:(lia)) as (d & r & [[Hd E]|[E _]]); [|done].
  assert (Hr : read_digits None (to_string_go 20 z "") = Some z).
  { pose proof (read_to_string_go 20 z "" ltac:(ilia) ltac:(lia)) as Hrd.
    rewrite E in Hrd |- *. cbn [read_digits] in *. rewrite digit_of_digit_char in * by done. exact Hrd. }
  assert (Hc : is_space (digit_char d) = false /\ Ascii.eqb (digit_char d) "-"%char = false /\
               Ascii.eqb (digit_char d) "+"%char = false).
  { assert (d = 0 \/ d = 1 \/ d = 2 \/ d = 3 \/ d = 4 \/ d = 5 \/ d = 6 \/ d = 7 \/ d = 8 \/ d = 9) as H by lia.
    clear -H. repeat (destruct H as [->|H]; [by vm_compute|]). subst. by vm_compute. }
  destruct Hc as (H1 & H2 & H3). unfold strtoul. rewrite E in *. cbn [skip_space]. rewrite H1, H2, H3, Hr.
  simpl. ilia.
Qed.

Module LockMgr.
Section mgr.
Context `{LDB : LevelDB, RC : RecordCodec}.

Record GroupData := mkGroup {
  map : LockDb.t;
  ldb : LockDb.t;
  last_instance_id : Z;
  memory_checkpoint : Z;
  disk_checkpoint : Z;
}.

Definition set_map (g : GroupData) (d : LockDb.t) : GroupData :=
  mkGroup d (ldb g) (last_instance_id g) (memory_checkpoint g) (disk_checkpoint g).
Definition set_ldb (g : GroupData) (d : LockDb.t) : GroupData :=
  mkGroup (map g) d (last_instance_id g) (memory_checkpoint g) (disk_checkpoint g).
Definition set_last_instance_id (g : GroupData) (id : Z) : GroupData :=
  mkGroup (map g) (ldb g) id (memory_checkpoint g) (disk_checkpoint g).
Definition set_memory_checkpoint (g : GroupData) (cp : Z) : GroupData :=
  mkGroup (map g) (ldb g) (last_instance_id g) cp (disk_checkpoint g).
Definition set_checkpoints (g : GroupData) (cp : Z) : GroupData :=
  mkGroup (map g) (ldb g) (last_instance_id g) cp cp.

(** The value under [key], or under the deprecated name of it. *)
Definition read_checkpoint (d : LockDb.t) (key deprecated : string) : option (RetCode * Z) :=
  r ← LockDb.DiskGet d key;
  if bool_decide (r.1 = RET_ERR_KEY_NOT_EXIST) then
    r' ← LockDb.DiskGet d deprecated;
    Some (r'.1, if is_ok r'.1 then strtoul r'.2 else NoCheckpoint)
  else Some (r.1, if is_ok r.1 then strtoul r.2 else NoCheckpoint).

Definition ReadDiskCheckpoint (g : GroupData) : option (RetCode * Z * GroupData) :=
  r ← read_checkpoint (ldb g) KEY_IGNORE_CHECKPOINT KEY_IGNORE_CHECKPOINT_DEPRECATED;
  Some (r.1, r.2, set_checkpoints g r.2).

Definition WriteDiskCheckpoint (g : GroupData) (disk_checkpoint : Z) : option (RetCode * GroupData) :=
  if disk_checkpoint =? NoCheckpoint then Some (RET_OK, g) else
  r ← LockDb.DiskSet (ldb g) KEY_IGNORE_CHECKPOINT (to_string disk_checkpoint) true;
  let g' := set_ldb g r.2 in
  Some (r.1, if is_ok r.1 then set_checkpoints g' disk_checkpoint else g').

Definition ReadRestartCheckpoint (g : GroupData) : option (RetCode * Z) :=
  read_checkpoint (ldb g) KEY_IGNORE_RESTART_CHECKPOINT KEY_IGNORE_RESTART_CHECKPOINT_DEPRECATED.

Definition WriteRestartCheckpoint (g : GroupData) (restart_checkpoint : Z) : option (RetCode * GroupData) :=
  if restart_checkpoint =? NoCheckpoint then Some (RET_OK, g) else
  r ← LockDb.DiskSet (ldb g) KEY_IGNORE_RESTART_CHECKPOINT (to_string restart_checkpoint) true;
  Some (r.1, set_ldb g r.2).

(** The loop of [Init] over the mirror; [clock i] is the [i]-th reading of
    the clock.  The lease starts again from the restart. *)
Definition restart_lease (now : Z) (r : LocalRecordInfo) : LocalRecordInfo :=
  mkRecord (rec_version r) (rec_value r) (rec_lease_time_ms r) (now +u rec_lease_time_ms r).

Fixpoint recover_map (fuel : nat) (clock : nat -> Z) (ldb map : LockDb.t) : option (LockDb.t * LockDb.t) :=
  valid ← LockDb.DiskValid ldb;
  if negb valid then Some (ldb, map) else
  match fuel with
  | O => None
  | S fuel =>
      cur ← LockDb.DiskGetCurrent ldb;
      let '(ret, key, value, data_type) := cur in
      if negb (is_ok ret) then None else
      map' ← (if negb (bool_decide (data_type = DT_IGNORE)) then
                local_record_info ← rec_ParseFromString value;
                r ← LockDb.SetRecord map key (restart_lease (clock fuel) local_record_info) true;
                Some r.2
              else Some map);
      ldb' ← LockDb.DiskNext ldb;
      recover_map fuel clock ldb' map'
  end.

(** The entries of the iterator bound the rounds. *)
Definition recover_fuel (d : LockDb.t) : nat := length (default [] (LockDb.leveldb_it_ d)).

(** One round of the loop of [Init] over the groups. *)
Definition init_group (clock : nat -> Z) (mirror_dir_path : string) (paxos_group_id : Z)
    : option GroupData :=
  let '(ret, ldb) := LockDb.Init LockDb.new ST_LEVELDB (mirror_dir_path +:+ to_string paxos_group_id) in
  if negb (is_ok ret) then None else
  let '(ret, map) := LockDb.Init LockDb.new ST_MAP "" in
  if negb (is_ok ret) then None else
  ldb ← LockDb.DiskSeekToFirst ldb;
  lm ← recover_map (recover_fuel ldb) clock ldb map;
  let g := mkGroup lm.2 lm.1 NoCheckpoint NoCheckpoint NoCheckpoint in
  rd ← ReadDiskCheckpoint g;
  let '(ret, disk, g) := rd in
  if negb (is_ok ret) && negb (bool_decide (ret = RET_ERR_KEY_NOT_EXIST)) then None else
  rr ← ReadRestartCheckpoint g;
  let restart := rr.2 in
  g ← (if negb (restart =? NoCheckpoint) && ((disk =? NoCheckpoint) || (disk <? restart))
       then w ← WriteDiskCheckpoint g restart; Some w.2 else Some g);
  Some (set_last_instance_id g (disk_checkpoint g)).

Definition Init (clock : Z -> nat -> Z) (nr_group : Z) (mirror_dir_path : string)
    : option (RetCode * list GroupData) :=
  gs ← mapM (fun i => init_group (clock i) mirror_dir_path i) (seqZ 0 nr_group);
  Some (RET_OK, gs).

(** The code of the last group, [RET_ERR_UNINIT] without groups. *)
Definition Dispose (groups : list GroupData) : RetCode * list GroupData :=
  foldl (fun '(_, out) g =>
           let '(_, l) := LockDb.Dispose (ldb g) in
           let '(ret, m) := LockDb.Dispose (map g) in
           (ret, out ++ [set_map (set_ldb g l) m]))
        (RET_ERR_UNINIT, []) groups.

(** ** Properties *)

Context {LL : LevelDBLaws LDB} {RL : RecordCodecLaws RC}.

(** The mirror of a running group. *)
Definition mirror (d : LockDb.t) : Prop :=
  LockDb.storage_type_ d = ST_LEVELDB /\ LockDb.open_db d.

(** Writing a reserved key does not touch the records of users. *)
Lemma DiskSet_reserved d k v sync :
  mirror d -> k <> ""%string -> String.prefix KEY_IGNORE_PREFIX k = true ->
  exists l d', LockDb.DiskSet d k v sync = Some (RET_OK, d') /\ mirror d' /\
    (forall k', LockDb.view d' k' = LockDb.view d k') /\
    LockDb.leveldb_ d = Some l /\
    exists l', LockDb.leveldb_ d' = Some l' /\ contents l' = <[k := v]> (contents l).
Proof.
  intros [Hst Ho] Hne Hpre. unfold LockDb.open_db in Ho. rewrite Hst in Ho. destruct Ho as (l & El & Hc).
  unfold LockDb.DiskSet. rewrite (bool_decide_eq_false_2 _ Hne), Hst, El. cbn [mbind option_bind].
  destruct (ldb_Put_spec l sync k v) as [H1 H2]. destruct (ldb_Put l sync k v) as [st l'] eqn:Ep.
  cbn [fst snd] in *. subst st. exists l. eexists. split; [reflexivity|].
  assert (Hother : forall k', LockDb.user_key k' = true -> contents l' !! k' = contents l !! k').
  { intros k' Hk'. rewrite H2, lookup_insert_ne; [done|]. intros ->. unfold LockDb.user_key in Hk'.
    rewrite Hpre in Hk'. by rewrite andb_false_r in Hk'. }
  split_and!; [| |done|by exists l'].
  - split; [done|]. unfold LockDb.open_db. cbn. rewrite Hst. exists l'. split; [done|].
    intros k' s Hk'. rewrite Hother by done. by apply Hc.
  - intros k'. unfold LockDb.view. destruct (LockDb.user_key k') eqn:Hk'; [|done]. cbn. rewrite Hst, El.
    simpl. by rewrite Hother.
Qed.

Lemma read_checkpoint_contents d l key deprecated :
  mirror d -> LockDb.leveldb_ d = Some l -> key <> ""%string -> deprecated <> ""%string ->
  read_checkpoint d key deprecated =
    Some (match contents l !! key with
          | Some v => (RET_OK, strtoul v)
          | None => match contents l !! deprecated with
                    | Some v => (RET_OK, strtoul v)
                    | None => (RET_ERR_KEY_NOT_EXIST, NoCheckpoint)
                    end
          end).
Proof.
  intros [Hst _] El Hk Hd. unfold read_checkpoint, LockDb.DiskGet.
  rewrite (bool_decide_eq_false_2 _ Hk), (bool_decide_eq_false_2 _ Hd), Hst, El. cbn [mbind option_bind].
  rewrite !ldb_Get_spec. by destruct (contents l !! key), (contents l !! deprecated).
Qed.

(** A disk checkpoint that was written is the one that is read back: the
    decimal string survives [to_string] and [strtoul] for every instance id,
    and writing it leaves the records of users as they were. *)
Theorem disk_checkpoint_roundtrip g cp :
  mirror (ldb g) -> is_u64 cp -> cp <> NoCheckpoint ->
  exists g', WriteDiskCheckpoint g cp = Some (RET_OK, g') /\
    ReadDiskCheckpoint g' = Some (RET_OK, cp, g') /\ disk_checkpoint g' = cp /\ memory_checkpoint g' = cp /\
    map g' = map g /\ mirror (ldb g') /\ forall k, LockDb.view (ldb g') k = LockDb.view (ldb g) k.
Proof.
  intros Hm Hu Hne. unfold WriteDiskCheckpoint. rewrite (proj2 (Z.eqb_neq _ _) Hne).
  destruct (DiskSet_reserved (ldb g) KEY_IGNORE_CHECKPOINT (to_string cp) true Hm)
    as (l & d' & -> & Hm' & Hv & El & l' & El' & Hc); [done|reflexivity|].
  cbn [mbind option_bind fst snd]. change (is_ok RET_OK) with true. cbn iota.
  eexists. split; [reflexivity|]. unfold ReadDiskCheckpoint. cbn [set_checkpoints set_ldb ldb].
  rewrite (read_checkpoint_contents d' l' _ _ Hm' El'), Hc, lookup_insert_eq by done.
  cbn [mbind option_bind fst snd]. by rewrite strtoul_to_string.
Qed.

Lemma recover_map_spec fuel clock d m l :
  (length l <= fuel)%nat -> LockDb.storage_type_ d = ST_LEVELDB -> LockDb.leveldb_it_ d = Some l ->
  LockDb.storage_type_ m = ST_MAP -> NoDup l.*1 ->
  (forall k v, (k, v) ∈ l -> String.prefix KEY_IGNORE_PREFIX k = false -> exists r, rec_ParseFromString v = Some r /\ strip r = r) ->
  exists m', recover_map fuel clock d m = Some (LockDb.set_leveldb_it d (Some []), m') /\
    LockDb.storage_type_ m' = ST_MAP /\
    (forall k v, (k, v) ∈ l -> LockDb.user_key k = true -> LockDb.view m' k = rec_ParseFromString v) /\
    (forall k, k ∉ l.*1 -> LockDb.view m' k = LockDb.view m k).
Proof.
  revert fuel d m. induction l as [|[k v] l IH]; intros fuel d m Hf Hd Hit Hm Hnd Hp.
  { exists m. destruct fuel; cbn; unfold LockDb.DiskValid; rewrite Hd, Hit; cbn;
      (split; [by destruct d; cbn in *; subst|]); (split; [done|]);
      (split; [by intros k v ?%elem_of_nil|done]). }
  destruct fuel as [|fuel]; [simpl in Hf; lia|]. apply NoDup_cons in Hnd as [Hk Hnd].
  assert (Hwrite : exists m1, (if negb (bool_decide (LockDb.data_type_of k = DT_IGNORE)) then
                local_record_info ← rec_ParseFromString v;
                r ← LockDb.SetRecord m k (restart_lease (clock fuel) local_record_info) true;
                Some r.2 else Some m) = Some m1 /\ LockDb.storage_type_ m1 = ST_MAP /\
             (LockDb.user_key k = true -> LockDb.view m1 k = rec_ParseFromString v) /\
             (forall k', k' <> k -> LockDb.view m1 k' = LockDb.view m k')).
  { unfold LockDb.data_type_of. destruct (String.prefix KEY_IGNORE_PREFIX k) eqn:Epre; cbn.
    - exists m. split_and!; try done. unfold LockDb.user_key. rewrite Epre. by rewrite andb_false_r.
    - destruct (Hp k v) as (r & Hr & Hstrip); [constructor|done|]. rewrite Hr. cbn [mbind option_bind].
      destruct (LockDb.user_key k) eqn:Eu.
      + assert (Ho : LockDb.open_db m) by (unfold LockDb.open_db; by rewrite Hm).
        destruct (LockDb.SetRecord_view m k (restart_lease (clock fuel) r) true Ho Eu) as (m1 & -> & _ & Hst1 & Hv1).
        exists m1. split_and!; [done|by rewrite Hst1| |].
        * intros _. rewrite Hv1, decide_True by done. by rewrite <-Hstrip.
        * intros k' Hk'. by rewrite Hv1, decide_False.
      + unfold LockDb.user_key in Eu. rewrite Epre, andb_true_r in Eu.
        assert (Ek : bool_decide (k = ""%string) = true) by (by destruct (bool_decide (k = ""%string))).
        unfold LockDb.SetRecord. rewrite Ek. cbn. by exists m. }
  destruct Hwrite as (m1 & Hw & Hst1 & Hv1 & Hv2).
  destruct (IH fuel (LockDb.set_leveldb_it d (Some l)) m1) as (m' & Hrec & Hst' & Hv3 & Hv4);
    [simpl in Hf; lia|done|done|done|done| |].
  { intros k' v' Hin. apply Hp. by right. }
  exists m'. cbn [recover_map]. unfold LockDb.DiskValid at 1, LockDb.DiskGetCurrent at 1, LockDb.DiskNext.
  rewrite Hd, Hit. cbn [mbind option_bind]. cbn [negb bool_decide].
  rewrite (bool_decide_eq_false_2 ((k, v) :: l = [])) by done. cbn [negb].
  change (is_ok RET_OK) with true. cbn [negb]. cbn [mbind option_bind]. rewrite Hw. cbn [mbind option_bind].
  split_and!; [exact Hrec|done| |].
  - intros k' v' [E|Hin]%elem_of_cons Hu; [|by apply Hv3]. injection E as -> ->.
    rewrite Hv4 by done. by apply Hv1.
  - intros k' Hk'. cbn in Hk'. apply not_elem_of_cons in Hk' as [Hne Hk']. rewrite Hv4 by done. by apply Hv2.
Qed.

(** The checkpoint recorded in a database under a key or its old name. *)
Definition recorded (l : leveldb) (key deprecated : string) : Z :=
  match contents l !! key, contents l !! deprecated with
  | Some v, _ => strtoul v
  | None, Some v => strtoul v
  | None, None => NoCheckpoint
  end.

Lemma init_group_spec clock path id l :
  ldb_Open true (path +:+ to_string id) = Some l ->
  (forall k s, String.prefix KEY_IGNORE_PREFIX k = false -> contents l !! k = Some s ->
               exists r, rec_ParseFromString s = Some r /\ strip r = r) ->
  exists g, init_group clock path id = Some g /\
    (forall k, LockDb.view (map g) k =
               if LockDb.user_key k then contents l !! k ≫= rec_ParseFromString else None) /\
    (forall k, LockDb.view (ldb g) k = LockDb.view (map g) k) /\
    LockDb.storage_type_ (map g) = ST_MAP /\ mirror (ldb g) /\
    let disk := recorded l KEY_IGNORE_CHECKPOINT KEY_IGNORE_CHECKPOINT_DEPRECATED in
    let restart := recorded l KEY_IGNORE_RESTART_CHECKPOINT KEY_IGNORE_RESTART_CHECKPOINT_DEPRECATED in
    disk_checkpoint g = (if negb (restart =? NoCheckpoint) && ((disk =? NoCheckpoint) || (disk <? restart))
                         then restart else disk) /\
    memory_checkpoint g = disk_checkpoint g /\ last_instance_id g = disk_checkpoint g.
Proof.
  intros Hopen Hparse. unfold init_group. cbn [LockDb.Init].
  change (LockDb.leveldb_checks_ (LockDb.set_storage_type LockDb.new ST_LEVELDB)) with true.
  rewrite Hopen. change (is_ok RET_OK) with true. cbn [negb].
  set (d0 := LockDb.set_leveldb (LockDb.set_storage_type LockDb.new ST_LEVELDB) (Some l)).
  set (m0 := LockDb.set_storage_type LockDb.new ST_MAP).
  unfold LockDb.DiskSeekToFirst. cbn [LockDb.storage_type_ d0 LockDb.set_leveldb LockDb.set_storage_type LockDb.leveldb_ mbind option_bind].
  set (d1 := LockDb.set_leveldb_it d0 (Some (ldb_entries l))).
  destruct (ldb_entries_spec l) as [Hsorted Hentries].
  assert (Hnd : NoDup (ldb_entries l).*1).
  { clear -Hsorted. induction Hsorted as [|x r Hs IH Hall]; constructor; [|done].
    intros Hin. rewrite Forall_forall in Hall. by apply (key_lt_irrefl x), Hall. }
  destruct (recover_map_spec (recover_fuel d1) clock d1 m0 (ldb_entries l)) as (m & -> & Hst & Hv1 & Hv2);
    [done|done|done|done|done| |].
  { intros k v Hin Hk. apply Hentries in Hin. eauto. }
  cbn [mbind option_bind fst snd]. set (d := LockDb.set_leveldb_it d1 (Some [])).
  assert (Hm : mirror d).
  { split; [done|]. cbn. exists l. split; [done|]. intros k s Hk. apply Hparse.
    unfold LockDb.user_key in Hk. by simpl_bool. }
  assert (Hview : forall k, LockDb.view m k = if LockDb.user_key k then contents l !! k ≫= rec_ParseFromString else None).
  { intros k. destruct (LockDb.user_key k) eqn:Eu; [|unfold LockDb.view; by rewrite Eu].
    destruct (contents l !! k) as [s|] eqn:Es; [by apply Hv1; [apply Hentries|]|].
    rewrite Hv2; [unfold LockDb.view; by rewrite Eu|].
    intros ([k' v] & E & Hin)%list_elem_of_fmap. simpl in E. subst. apply Hentries in Hin. congruence. }
  assert (Hdv : forall k, LockDb.view d k = LockDb.view m k) by (intros k; rewrite Hview; done).
  unfold ReadDiskCheckpoint. cbn [ldb]. rewrite (read_checkpoint_contents d l _ _ Hm) by done.
  cbn [mbind option_bind fst snd]. fold (recorded l KEY_IGNORE_CHECKPOINT KEY_IGNORE_CHECKPOINT_DEPRECATED).
  set (disk := recorded l KEY_IGNORE_CHECKPOINT KEY_IGNORE_CHECKPOINT_DEPRECATED).
  set (restart := recorded l KEY_IGNORE_RESTART_CHECKPOINT KEY_IGNORE_RESTART_CHECKPOINT_DEPRECATED).
  assert (Hd : (match contents l !! KEY_IGNORE_CHECKPOINT with
                | Some v => (RET_OK, strtoul v)
                | None => match contents l !! KEY_IGNORE_CHECKPOINT_DEPRECATED with
                          | Some v => (RET_OK, strtoul v)
                          | None => (RET_ERR_KEY_NOT_EXIST, NoCheckpoint) end end).2 = disk).
  { unfold disk, recorded.
    by destruct (contents l !! KEY_IGNORE_CHECKPOINT), (contents l !! KEY_IGNORE_CHECKPOINT_DEPRECATED). }
  set (rd := match contents l !! KEY_IGNORE_CHECKPOINT with Some _ => _ | None => _ end) in *.
  assert (Hret : negb (is_ok rd.1) && negb (bool_decide (rd.1 = RET_ERR_KEY_NOT_EXIST)) = false).
  { unfold rd.
    by destruct (contents l !! KEY_IGNORE_CHECKPOINT), (contents l !! KEY_IGNORE_CHECKPOINT_DEPRECATED). }
  rewrite Hret, Hd. unfold ReadRestartCheckpoint. cbn [set_checkpoints ldb].
  rewrite (read_checkpoint_contents d l _ _ Hm) by done. cbn [mbind option_bind].
  set (rr := match contents l !! KEY_IGNORE_RESTART_CHECKPOINT with Some _ => _ | None => _ end).
  assert (Hr : rr.2 = restart).
  { unfold rr, restart, recorded.
    by destruct (contents l !! KEY_IGNORE_RESTART_CHECKPOINT), (contents l !! KEY_IGNORE_RESTART_CHECKPOINT_DEPRECATED). }
  rewrite Hr.
  destruct (negb (restart =? NoCheckpoint) && _) eqn:Ec; cbn [mbind option_bind].
  - unfold WriteDiskCheckpoint. simpl_bool. rewrite (proj2 (Z.eqb_neq _ _)) by done. cbn [set_checkpoints ldb].
    destruct (DiskSet_reserved d KEY_IGNORE_CHECKPOINT (to_string restart) true Hm)
      as (l0 & d' & -> & Hm' & Hv' & _); [done|reflexivity|].
    cbn [mbind option_bind fst snd]. change (is_ok RET_OK) with true. cbn iota.
    eexists. split; [reflexivity|]. cbn. split_and!; try done. intros k. by rewrite Hv', Hdv.
  - eexists. split; [reflexivity|]. cbn. by split_and!.
Qed.

(** Restart.  From a mirror whose user records parse, [Init] rebuilds the
    map with exactly the records of the mirror (with fresh leases), sets the
    three positions of the group to the later of the two recorded checkpoints,
    and leaves the records of the mirror alone. *)
Theorem init_group_recovers clock path id l :
  ldb_Open true (path +:+ to_string id) = Some l ->
  (forall k s, String.prefix KEY_IGNORE_PREFIX k = false -> contents l !! k = Some s ->
               exists r, rec_ParseFromString s = Some r /\ strip r = r) ->
  exists g, init_group clock path id = Some g /\
    (forall k, LockDb.view (map g) k =
               if LockDb.user_key k then contents l !! k ≫= rec_ParseFromString else None) /\
    (forall k, LockDb.view (ldb g) k = LockDb.view (map g) k) /\
    LockDb.storage_type_ (map g) = ST_MAP /\ mirror (ldb g) /\
    let disk := recorded l KEY_IGNORE_CHECKPOINT KEY_IGNORE_CHECKPOINT_DEPRECATED in
    let restart := recorded l KEY_IGNORE_RESTART_CHECKPOINT KEY_IGNORE_RESTART_CHECKPOINT_DEPRECATED in
    disk_checkpoint g = (if negb (restart =? NoCheckpoint) && ((disk =? NoCheckpoint) || (disk <? restart))
                         then restart else disk) /\
    memory_checkpoint g = disk_checkpoint g /\ last_instance_id g = disk_checkpoint g.
Proof. apply init_group_spec. Qed.
End mgr.
End LockMgr.
