(* ===== verification/LockSM.v ===== *)
(** * The replicated lock state (src/phxqueue/lock/locksm.cpp)

    phxpaxos calls [Execute] for every chosen instance, which updates the map of
    the group, and later [ExecuteForCheckpoint], which updates its LevelDB
    mirror.  The theorems say that both replay the same compare-and-swap
    history, so that a restarted server that recovers the map from the mirror
    and replays the rest of the log is where a server that never stopped is.

    The clock readings of an execution are arguments: [now1] in [DoExecute],
    [now2] in [LockDb]. *)

From S2P Require Import Prelude RetCode TopicConfig StoreConfig LockDb LockMgr.

(** ** Messages of comm.proto and lock.proto *)

Record LockInfo := mkLockInfo {
  li_lock_key : string;
  li_version : Z;
  li_client_id : string;
  li_lease_time_ms : Z;
}.

Record StringInfo := mkStringInfo {
  si_key : string;
  si_version : Z;
  si_value : string;
  si_lease_time_ms : Z;
}.

Definition no_addr : Addr := mkAddr "" 0 0.

Record AcquireLockRequest := mkAcquireLockRequest {
  aq_topic_id : Z; aq_lock_id : Z; aq_lock_info : LockInfo; aq_master_addr : Addr }.

Record SetStringRequest := mkSetStringRequest {
  ss_topic_id : Z; ss_lock_id : Z; ss_string_info : StringInfo; ss_master_addr : Addr }.

Record LockPaxosArgs := mkLockPaxosArgs {
  la_acquire_lock_req : option AcquireLockRequest;
  la_set_string_req : option SetStringRequest;
  la_master_addr : Addr;
}.

Class LockCodec := {
  lock_ParseFromString : string -> option LockPaxosArgs;
  lock_SerializeToString : LockPaxosArgs -> string;
}.

(** The options of [LockOption] that the modelled code reads. *)
Record LockOption := mkLockOption {
  lo_addr : Addr;
  lo_nr_group : Z;
  lo_clean_interval_s : Z;
  lo_idle_write_checkpoint_interval_s : Z;
  lo_max_clean_lock_num : Z;
  lo_checkpoint_interval : Z;
  lo_no_leveldb : bool;
}.

Module LockSM.
Section sm.
Context `{LDB : LevelDB, RC : RecordCodec, LC : LockCodec}.
Import LockMgr.

Definition record_of (now instance_id : Z) (value : string) (lease_time_ms : Z) : LocalRecordInfo :=
  mkRecord instance_id value lease_time_ms
    (if lease_time_ms =? UINT64_MAX then 0 else now +u lease_time_ms).

(** What follows a write to LevelDB: the position of the mirror. *)
Definition mirror_written (g : GroupData) (ret : RetCode) (instance_id : Z) (sync : bool)
    : option (RetCode * GroupData) :=
  if negb (is_ok ret) then Some (ret, g) else
  if sync then WriteDiskCheckpoint g instance_id
  else Some (RET_OK, set_memory_checkpoint g instance_id).

(** [DoExecute] on the group: the code left in the [LockContext], [None] when
    the value asks for nothing. *)
Definition DoExecute (now1 now2 : Z) (st : StorageType) (g : GroupData) (instance_id : Z)
    (args : LockPaxosArgs) (sync : bool) : option (option RetCode * GroupData) :=
  match la_acquire_lock_req args, la_set_string_req args with
  | Some req, _ =>
      let lock_info := aq_lock_info req in
      let rk := mkRecordKey (li_version lock_info) (li_lock_key lock_info) in
      let v := record_of now1 instance_id (li_client_id lock_info) (li_lease_time_ms lock_info) in
      match st with
      | ST_MAP =>
          r ← LockDb.AcquireLock now2 (map g) rk v true;
          Some (Some r.1, set_last_instance_id (set_map g r.2) instance_id)
      | ST_LEVELDB =>
          r ← LockDb.AcquireLock now2 (ldb g) rk v sync;
          w ← mirror_written (set_ldb g r.2) r.1 instance_id sync;
          Some (Some w.1, w.2)
      | _ => Some (Some RET_ERR_NO_IMPL, g)
      end
  | None, Some req =>
      let string_info := ss_string_info req in
      let rk := mkRecordKey (si_version string_info) (si_key string_info) in
      let v := record_of now1 instance_id (si_value string_info) (si_lease_time_ms string_info) in
      match st with
      | ST_MAP =>
          r ← LockDb.VersionSetString now2 (map g) rk v true;
          Some (Some r.1, set_last_instance_id (set_map g r.2) instance_id)
      | ST_LEVELDB =>
          r ← LockDb.VersionSetString now2 (ldb g) rk v sync;
          w ← mirror_written (set_ldb g r.2) r.1 instance_id sync;
          Some (Some w.1, w.2)
      | _ => Some (Some RET_ERR_NO_IMPL, g)
      end
  | None, None => Some (None, g)
  end.

Definition other_master (opt : LockOption) (master_addr : Addr) : bool :=
  negb (bool_decide (ip master_addr = ""%string)) &&
  negb (bool_decide (ip (lo_addr opt) = ip master_addr) && (port (lo_addr opt) =? port master_addr) &&
        (paxos_port (lo_addr opt) =? paxos_port master_addr)).

(** The result of [Execute], the code for the context, and whether the
    mastership of the group is dropped. *)
Definition Execute (opt : LockOption) (now1 now2 : Z) (node_ready : bool) (groups : list GroupData)
    (paxos_group_id instance_id : Z) (paxos_value : string)
    : option (bool * option RetCode * bool * list GroupData) :=
  match lock_ParseFromString paxos_value with
  | None => Some (false, None, false, groups)
  | Some args =>
      g ← groups !! Z.to_nat paxos_group_id;
      r ← DoExecute now1 now2 ST_MAP g instance_id args false;
      Some (true, r.1, other_master opt (la_master_addr args) && node_ready,
            <[Z.to_nat paxos_group_id := r.2]> groups)
  end.

(** Whether the mirror is flushed: [checkpoint_interval] instances after the
    last flushed one, or a minute after [last_sync_ms]. *)
Definition need_sync (opt : LockOption) (now last_sync_ms : Z) (g : GroupData) (instance_id : Z) : bool :=
  (to_u64 (lo_checkpoint_interval opt) <=? (instance_id -u disk_checkpoint g)) ||
  ((last_sync_ms +u 60000) <? now).

(** The state machine of the group keeps [last_sync_ms_]; [now] and [now']
    are its two clock readings. *)
Definition ExecuteForCheckpoint (opt : LockOption) (now now' now1 now2 last_sync_ms : Z)
    (groups : list GroupData) (paxos_group_id instance_id : Z) (paxos_value : string)
    : option (bool * Z * list GroupData) :=
  if lo_no_leveldb opt then Some (true, last_sync_ms, groups) else
  g ← groups !! Z.to_nat paxos_group_id;
  let sync := need_sync opt now last_sync_ms g instance_id in
  let last_sync_ms := if sync then now' else last_sync_ms in
  match lock_ParseFromString paxos_value with
  | None => Some (false, last_sync_ms, groups)
  | Some args =>
      r ← DoExecute now1 now2 ST_LEVELDB g instance_id args sync;
      Some (true, last_sync_ms, <[Z.to_nat paxos_group_id := r.2]> groups)
  end.

Definition GetCheckpointInstanceID (groups : list GroupData) (paxos_group_id : Z) : option Z :=
  disk_checkpoint <$> groups !! Z.to_nat paxos_group_id.

(** ** Replaying a log *)

(** One entry of a group's log as a replica executes it: the instance, the
    decoded value, the clock readings and whether the mirror is flushed. *)
Record entry := mkEntry { e_id : Z; e_args : LockPaxosArgs; e_now1 : Z; e_now2 : Z; e_sync : bool }.

Fixpoint run (st : StorageType) (g : GroupData) (log : list entry)
    : option (list (option RetCode) * GroupData) :=
  match log with
  | [] => Some ([], g)
  | e :: r =>
      x ← DoExecute (e_now1 e) (e_now2 e) st g (e_id e) (e_args e) (e_sync e);
      y ← run st x.2 r;
      Some (x.1 :: y.1, y.2)
  end.

(** The specification: the compare-and-swap history of the log. *)
Definition spec_step (m : string -> option LocalRecordInfo) (id : Z) (args : LockPaxosArgs)
    : option RetCode * (string -> option LocalRecordInfo) :=
  match la_acquire_lock_req args, la_set_string_req args with
  | Some req, _ =>
      let i := aq_lock_info req in
      let r := LockDb.cas false m (mkRecordKey (li_version i) (li_lock_key i))
                 (mkRecord id (li_client_id i) (li_lease_time_ms i) 0) in (Some r.1, r.2)
  | None, Some req =>
      let i := ss_string_info req in
      let r := LockDb.cas true m (mkRecordKey (si_version i) (si_key i))
                 (mkRecord id (si_value i) (si_lease_time_ms i) 0) in (Some r.1, r.2)
  | None, None => (None, m)
  end.

Fixpoint spec_run (m : string -> option LocalRecordInfo) (log : list (Z * LockPaxosArgs))
    : list (option RetCode) * (string -> option LocalRecordInfo) :=
  match log with
  | [] => ([], m)
  | (id, args) :: r => let x := spec_step m id args in
                       let y := spec_run x.2 r in (x.1 :: y.1, y.2)
  end.

Definition plain (log : list entry) : list (Z * LockPaxosArgs) := (fun e => (e_id e, e_args e)) <$> log.

(** The keys of a log are keys of users. *)
Definition args_user (args : LockPaxosArgs) : Prop :=
  (forall req, la_acquire_lock_req args = Some req -> LockDb.user_key (li_lock_key (aq_lock_info req)) = true) /\
  (forall req, la_set_string_req args = Some req -> LockDb.user_key (si_key (ss_string_info req)) = true).

Definition log_ok (log : list (Z * LockPaxosArgs)) : Prop :=
  Forall (fun e => is_u64 e.1 /\ e.1 <> NoCheckpoint /\ args_user e.2) log.

(** ** Properties *)

Context {LL : LevelDBLaws LDB} {RL : RecordCodecLaws RC}.

Definition same (m m' : string -> option LocalRecordInfo) : Prop := forall k, m k = m' k.

#[local] Instance same_equiv : Equivalence same.
Proof. split; [by intros m k|by intros m m' H k|]. intros m1 m2 m3 H1 H2 k. by rewrite H1. Qed.

Lemma cas_same b m m' rk v :
  same m m' -> (LockDb.cas b m rk v).1 = (LockDb.cas b m' rk v).1 /\
               same (LockDb.cas b m rk v).2 (LockDb.cas b m' rk v).2.
Proof.
  intros Hm. unfold LockDb.cas. rewrite Hm. case_match; split; try done. intros k. simpl. by rewrite Hm.
Qed.

Lemma spec_step_same m m' id args :
  same m m' -> (spec_step m id args).1 = (spec_step m' id args).1 /\
               same (spec_step m id args).2 (spec_step m' id args).2.
Proof.
  intros Hm. unfold spec_step. destruct (la_acquire_lock_req args), (la_set_string_req args); try done;
    cbn [fst snd]; (split; [f_equal|]); by apply cas_same.
Qed.

Lemma spec_run_same log m m' :
  same m m' -> (spec_run m log).1 = (spec_run m' log).1 /\ same (spec_run m log).2 (spec_run m' log).2.
Proof.
  revert m m'. induction log as [|[id args] log IH]; intros m m' Hm; [done|]. cbn [spec_run fst snd].
  destruct (spec_step_same m m' id args Hm) as [-> H2]. destruct (IH _ _ H2) as [-> H4]. done.
Qed.

Lemma spec_run_app log1 log2 m :
  spec_run m (log1 ++ log2) =
    let x := spec_run m log1 in let y := spec_run x.2 log2 in (x.1 ++ y.1, y.2).
Proof.
  revert m. induction log1 as [|[id args] log1 IH]; intros m; simpl; [by destruct (spec_run m log2)|].
  by rewrite IH.
Qed.

(** One execution on the map. *)
Lemma DoExecute_map now1 now2 g id args sync :
  LockDb.storage_type_ (map g) = ST_MAP -> args_user args ->
  exists out g', DoExecute now1 now2 ST_MAP g id args sync = Some (out, g') /\
    out = (spec_step (LockDb.view (map g)) id args).1 /\
    same (LockDb.view (map g')) (spec_step (LockDb.view (map g)) id args).2 /\
    LockDb.storage_type_ (map g') = ST_MAP /\ ldb g' = ldb g.
Proof.
  intros Hst [Ha Hs]. assert (Ho : LockDb.open_db (map g)) by (unfold LockDb.open_db; by rewrite Hst).
  unfold DoExecute, spec_step.
  destruct (la_acquire_lock_req args) as [req|]; [|destruct (la_set_string_req args) as [req|]].
  - destruct (LockDb.AcquireLock_cas now2 (map g)
      (mkRecordKey (li_version (aq_lock_info req)) (li_lock_key (aq_lock_info req)))
      (record_of now1 id (li_client_id (aq_lock_info req)) (li_lease_time_ms (aq_lock_info req))) true Ho)
      as (d' & -> & Ho' & Hst' & Hv); [by apply Ha|].
    cbn [mbind option_bind fst snd]. do 2 eexists. split; [reflexivity|]. cbn.
    rewrite Hst', Hst. split_and!; try done.
    all: unfold LockDb.cas in *; case_match; try done.
  - destruct (LockDb.VersionSetString_cas now2 (map g)
      (mkRecordKey (si_version (ss_string_info req)) (si_key (ss_string_info req)))
      (record_of now1 id (si_value (ss_string_info req)) (si_lease_time_ms (ss_string_info req))) true Ho)
      as (d' & -> & Ho' & Hst' & Hv); [by apply Hs|].
    cbn [mbind option_bind fst snd]. do 2 eexists. split; [reflexivity|]. cbn.
    rewrite Hst', Hst. split_and!; try done.
    all: unfold LockDb.cas in *; case_match; try done.
  - do 2 eexists. split; [reflexivity|]. done.
Qed.

(** One execution on the mirror. *)
Lemma mirror_written_ok g ret id sync :
  mirror (ldb g) -> is_u64 id -> id <> NoCheckpoint ->
  exists g', mirror_written g ret id sync = Some (ret, g') /\ mirror (ldb g') /\
    same (LockDb.view (ldb g')) (LockDb.view (ldb g)) /\ map g' = map g /\
    (ret = RET_OK -> memory_checkpoint g' = id /\ (sync = true -> disk_checkpoint g' = id)).
Proof.
  intros Hm Hu Hne. unfold mirror_written. destruct (is_ok ret) eqn:Er; cbn [negb].
  2:{ exists g. split_and!; try done. intros ->. done. }
  apply is_ok_true in Er as ->. destruct sync; [|by eexists].
  unfold WriteDiskCheckpoint. rewrite (proj2 (Z.eqb_neq _ _) Hne).
  destruct (DiskSet_reserved (ldb g) KEY_IGNORE_CHECKPOINT (to_string id) true Hm)
    as (l & d' & -> & Hm' & Hv & _); [done|reflexivity|].
  cbn [mbind option_bind fst snd]. change (is_ok RET_OK) with true. cbn iota.
  eexists. split; [reflexivity|]. done.
Qed.

Lemma DoExecute_ldb now1 now2 g id args sync :
  mirror (ldb g) -> is_u64 id -> id <> NoCheckpoint -> args_user args ->
  exists out g', DoExecute now1 now2 ST_LEVELDB g id args sync = Some (out, g') /\
    out = (spec_step (LockDb.view (ldb g)) id args).1 /\
    same (LockDb.view (ldb g')) (spec_step (LockDb.view (ldb g)) id args).2 /\
    mirror (ldb g') /\ map g' = map g /\
    (out = Some RET_OK -> memory_checkpoint g' = id /\ (sync = true -> disk_checkpoint g' = id)).
Proof.
  intros [Hst Ho] Hu Hne [Ha Hs]. unfold DoExecute, spec_step.
  destruct (la_acquire_lock_req args) as [req|]; [|destruct (la_set_string_req args) as [req|]].
  - destruct (LockDb.AcquireLock_cas now2 (ldb g)
      (mkRecordKey (li_version (aq_lock_info req)) (li_lock_key (aq_lock_info req)))
      (record_of now1 id (li_client_id (aq_lock_info req)) (li_lease_time_ms (aq_lock_info req))) sync Ho)
      as (d' & -> & Ho' & Hst' & Hv); [by apply Ha|]. cbn [mbind option_bind fst snd].
    set (ret := (LockDb.cas _ _ _ _).1).
    destruct (mirror_written_ok (set_ldb g d') ret id sync) as (g' & -> & Hm' & Hv' & Hmap & Hcp);
      [split; [cbn; congruence|done]|done|done|].
    cbn [mbind option_bind fst snd]. do 2 eexists. split; [reflexivity|].
    split; [unfold ret, LockDb.cas; by case_match|]. split_and!; try done.
    + intros k. rewrite Hv'. cbn. rewrite Hv. unfold LockDb.cas. by case_match.
    + intros [= E]. by apply Hcp.
  - destruct (LockDb.VersionSetString_cas now2 (ldb g)
      (mkRecordKey (si_version (ss_string_info req)) (si_key (ss_string_info req)))
      (record_of now1 id (si_value (ss_string_info req)) (si_lease_time_ms (ss_string_info req))) sync Ho)
      as (d' & -> & Ho' & Hst' & Hv); [by apply Hs|]. cbn [mbind option_bind fst snd].
    set (ret := (LockDb.cas _ _ _ _).1).
    destruct (mirror_written_ok (set_ldb g d') ret id sync) as (g' & -> & Hm' & Hv' & Hmap & Hcp);
      [split; [cbn; congruence|done]|done|done|].
    cbn [mbind option_bind fst snd]. do 2 eexists. split; [reflexivity|].
    split; [unfold ret, LockDb.cas; by case_match|]. split_and!; try done.
    + intros k. rewrite Hv'. cbn. rewrite Hv. unfold LockDb.cas. by case_match.
    + intros [= E]. by apply Hcp.
  - do 2 eexists. split; [reflexivity|]. done.
Qed.

Lemma run_map g log :
  LockDb.storage_type_ (map g) = ST_MAP -> log_ok (plain log) ->
  exists outs g', run ST_MAP g log = Some (outs, g') /\
    outs = (spec_run (LockDb.view (map g)) (plain log)).1 /\
    same (LockDb.view (map g')) (spec_run (LockDb.view (map g)) (plain log)).2 /\
    LockDb.storage_type_ (map g') = ST_MAP /\ ldb g' = ldb g.
Proof.
  intros Hst Hlog. revert g Hst. induction log as [|e log IH]; intros g Hst; [by do 2 eexists|].
  apply Forall_cons in Hlog as [(_ & _ & Hu) Hlog]. cbn [run].
  destruct (DoExecute_map (e_now1 e) (e_now2 e) g (e_id e) (e_args e) (e_sync e) Hst Hu)
    as (out & g1 & -> & -> & Hv1 & Hst1 & Hl1). cbn [mbind option_bind fst snd].
  destruct (IH Hlog g1 Hst1) as (outs & g2 & -> & -> & Hv2 & Hst2 & Hl2). cbn [mbind option_bind fst snd].
  destruct (spec_run_same (plain log) _ _ Hv1) as [E1 E2].
  do 2 eexists. split; [reflexivity|]. cbn [plain fmap list_fmap spec_run fst snd]. fold (plain log).
  split_and!; [by rewrite E1|by rewrite Hv2|done|congruence].
Qed.

Lemma run_ldb g log :
  mirror (ldb g) -> log_ok (plain log) ->
  exists outs g', run ST_LEVELDB g log = Some (outs, g') /\
    outs = (spec_run (LockDb.view (ldb g)) (plain log)).1 /\
    same (LockDb.view (ldb g')) (spec_run (LockDb.view (ldb g)) (plain log)).2 /\
    mirror (ldb g') /\ map g' = map g.
Proof.
  intros Hm Hlog. revert g Hm. induction log as [|e log IH]; intros g Hm; [by do 2 eexists|].
  apply Forall_cons in Hlog as [(Hi & Hne & Hu) Hlog]. cbn [run].
  destruct (DoExecute_ldb (e_now1 e) (e_now2 e) g (e_id e) (e_args e) (e_sync e) Hm Hi Hne Hu)
    as (out & g1 & -> & -> & Hv1 & Hm1 & Hl1 & _). cbn [mbind option_bind fst snd].
  destruct (IH Hlog g1 Hm1) as (outs & g2 & -> & -> & Hv2 & Hm2 & Hl2). cbn [mbind option_bind fst snd].
  destruct (spec_run_same (plain log) _ _ Hv1) as [E1 E2].
  do 2 eexists. split; [reflexivity|]. cbn [plain fmap list_fmap spec_run fst snd]. fold (plain log).
  split_and!; [by rewrite E1|by rewrite Hv2|done|congruence].
Qed.

(** C17: the two storages of a group agree.  Executing the same log on the map
    and on the mirror, at different times and with any flushing, gives the
    same answers and, from equal records, ends with equal records: both are
    the compare-and-swap history of the log. *)
Theorem map_mirror_agree g log log' :
  LockDb.storage_type_ (map g) = ST_MAP -> mirror (ldb g) ->
  (forall k, LockDb.view (map g) k = LockDb.view (ldb g) k) ->
  log_ok (plain log) -> plain log' = plain log ->
  exists outs g1 g2, run ST_MAP g log = Some (outs, g1) /\ run ST_LEVELDB g log' = Some (outs, g2) /\
    forall k, LockDb.view (map g1) k = LockDb.view (ldb g2) k /\
              LockDb.view (map g1) k = (spec_run (LockDb.view (map g)) (plain log)).2 k.
Proof.
  intros Hst Hm Hv Hlog Hp. destruct (run_map g log Hst Hlog) as (o1 & g1 & E1 & -> & V1 & _).
  destruct (run_ldb g log') as (o2 & g2 & E2 & -> & V2 & _); [done|by rewrite Hp|].
  rewrite Hp in E2, V2. destruct (spec_run_same (plain log) _ _ Hv) as [Eo Ev].
  exists (spec_run (LockDb.view (map g)) (plain log)).1, g1, g2. rewrite Eo at 2.
  split_and!; [done|done|]. intros k. split; [|done]. rewrite V1, V2. apply Ev.
Qed.

(** A server that recovers from its mirror is where it stopped. *)
Lemma restart_run g log1 log2 outs1 g1 l clock path id :
  LockDb.storage_type_ (map g) = ST_MAP -> mirror (ldb g) ->
  (forall k, LockDb.view (map g) k = LockDb.view (ldb g) k) ->
  log_ok (plain log1) -> log_ok (plain log2) ->
  run ST_LEVELDB g log1 = Some (outs1, g1) ->
  LockDb.leveldb_ (ldb g1) = Some l -> contents l !! ""%string = None ->
  ldb_Open true (path +:+ to_string id) = Some l ->
  exists g2 outs2 g3 g4, init_group clock path id = Some g2 /\
    run ST_MAP g2 log2 = Some (outs2, g3) /\
    run ST_MAP g (log1 ++ log2) = Some (outs1 ++ outs2, g4) /\
    forall k, LockDb.view (map g3) k = LockDb.view (map g4) k.
Proof.
  intros Hst Hm Hv Hlog1 Hlog2 Hrun El Hempty Hopen.
  destruct (run_ldb g log1 Hm Hlog1) as (o & g1' & E & Ho & V1 & Hm1 & _). rewrite Hrun in E.
  injection E as <- <-. subst outs1.
  destruct Hm1 as [Hst1 Ho1]. unfold LockDb.open_db in Ho1. rewrite Hst1 in Ho1.
  destruct Ho1 as (l' & El' & Hparse). rewrite El in El'. injection El' as <-.
  destruct (init_group_spec clock path id l Hopen) as (g2 & Hi & Hv2 & _ & Hst2 & _).
  { intros k s Hk Hs. destruct (decide (k = ""%string)) as [->|Hne]; [congruence|].
    apply (Hparse k); [|done]. unfold LockDb.user_key. rewrite (bool_decide_eq_false_2 _ Hne), Hk. done. }
  destruct (run_map g2 log2 Hst2 Hlog2) as (o2 & g3 & E3 & Ho2 & V3 & _).
  destruct (run_map g (log1 ++ log2)) as (o4 & g4 & E4 & Ho4 & V4 & _); [done| |].
  { unfold plain, log_ok. rewrite fmap_app, Forall_app. done. }
  exists g2, o2, g3, g4. split; [done|]. split; [done|].
  assert (Hsame : same (LockDb.view (map g2)) (spec_run (LockDb.view (map g)) (plain log1)).2).
  { intros k. rewrite Hv2. transitivity (LockDb.view (ldb g1) k).
    - unfold LockDb.view. rewrite Hst1, El. done.
    - rewrite V1. apply spec_run_same. intros k'. by rewrite Hv. }
  destruct (spec_run_same (plain log2) _ _ Hsame) as [Eo Ev].
  assert (Eapp : plain (log1 ++ log2) = plain log1 ++ plain log2) by (unfold plain; by rewrite fmap_app).
  rewrite Eapp, spec_run_app in Ho4, V4. cbn [fst snd] in Ho4, V4.
  assert (E1 : (spec_run (LockDb.view (ldb g)) (plain log1)).1 = (spec_run (LockDb.view (map g)) (plain log1)).1).
  { apply spec_run_same. intros k. by rewrite Hv. }
  split; [|intros k; rewrite V3, V4; apply Ev]. rewrite E4, Ho4, Ho2, E1, Eo. done.
Qed.

(** C18: restart.  A server whose mirror has executed [log1] and which then
    restarts, recovering the map with [LockMgr::Init] and replaying [log2],
    holds the same records and gives the same answers to [log2] as a server
    that executed [log1] and [log2] without stopping. *)
Theorem restart_equivalent g log1 log2 outs1 g1 l clock path id :
  LockDb.storage_type_ (map g) = ST_MAP -> mirror (ldb g) ->
  (forall k, LockDb.view (map g) k = LockDb.view (ldb g) k) ->
  log_ok (plain log1) -> log_ok (plain log2) ->
  run ST_LEVELDB g log1 = Some (outs1, g1) ->
  LockDb.leveldb_ (ldb g1) = Some l -> contents l !! ""%string = None ->
  ldb_Open true (path +:+ to_string id) = Some l ->
  exists g2 outs2 g3 g4, init_group clock path id = Some g2 /\
    run ST_MAP g2 log2 = Some (outs2, g3) /\
    run ST_MAP g (log1 ++ log2) = Some (outs1 ++ outs2, g4) /\
    forall k, LockDb.view (map g3) k = LockDb.view (map g4) k.
Proof. apply restart_run. Qed.

(** ** Who holds a lock *)

(** What an entry asks of a key: the version it names, [None] for another key.
    A string request that names [-1] matches every version. *)
Definition names (args : LockPaxosArgs) (k : string) (version : Z) : bool :=
  match la_acquire_lock_req args, la_set_string_req args with
  | Some req, _ => bool_decide (li_lock_key (aq_lock_info req) = k) &&
                   (li_version (aq_lock_info req) =? version)
  | None, Some req => bool_decide (si_key (ss_string_info req) = k) &&
                      ((si_version (ss_string_info req) =? version) || (si_version (ss_string_info req) =? UINT64_MAX))
  | None, None => false
  end.

Definition about_key (args : LockPaxosArgs) (k : string) : bool :=
  match la_acquire_lock_req args, la_set_string_req args with
  | Some req, _ => bool_decide (li_lock_key (aq_lock_info req) = k)
  | None, Some req => bool_decide (si_key (ss_string_info req) = k)
  | None, None => false
  end.

Lemma cas_held force m rk v k r :
  m k = Some r -> (rk_key rk = k -> LockDb.version_ok force (Some r) (rk_version rk) = false) ->
  (LockDb.cas force m rk v).2 k = Some r /\
  (bool_decide (rk_key rk = k) = true -> Some (LockDb.cas force m rk v).1 = Some RET_ERR_VERSION_NOT_EQUAL).
Proof.
  intros Hk Hv. unfold LockDb.cas. destruct (decide (rk_key rk = k)) as [E|E].
  - rewrite E, Hk, Hv by done. done.
  - rewrite (bool_decide_eq_false_2 _ E). split; [|done]. case_match; [|done].
    cbn [snd]. by rewrite decide_False.
Qed.

Lemma spec_step_held m id args k r :
  m k = Some r -> names args k (rec_version r) = false ->
  (spec_step m id args).2 k = Some r /\
  (about_key args k = true -> (spec_step m id args).1 = Some RET_ERR_VERSION_NOT_EQUAL).
Proof.
  intros Hk Hn. unfold spec_step, names, about_key in *.
  destruct (la_acquire_lock_req args) as [req|]; [|destruct (la_set_string_req args) as [req|]; [|done]];
    cbn [fst snd].
  - apply cas_held; cbn; [done|]. intros E. rewrite (bool_decide_eq_true_2 _ E) in Hn. cbn in *.
    by rewrite Z.eqb_sym.
  - apply cas_held; cbn; [done|]. intros E. rewrite (bool_decide_eq_true_2 _ E) in Hn. cbn in *.
    by rewrite orb_comm, (Z.eqb_sym (rec_version r)).
Qed.

Lemma spec_run_held log m k r :
  m k = Some r -> Forall (fun e => names e.2 k (rec_version r) = false) log ->
  (spec_run m log).2 k = Some r /\
  forall i e, log !! i = Some e -> about_key e.2 k = true ->
              (spec_run m log).1 !! i = Some (Some RET_ERR_VERSION_NOT_EQUAL).
Proof.
  revert m. induction log as [|[id args] log IH]; intros m Hk Hlog; [done|].
  apply Forall_cons in Hlog as [Hn Hlog]. destruct (spec_step_held m id args k r Hk Hn) as [H1 H2].
  destruct (IH _ H1 Hlog) as [H3 H4]. cbn [spec_run fst snd]. split; [done|].
  intros [|i] e; simpl; [intros [= <-] Ha; by rewrite H2|apply H4].
Qed.

Lemma acquire_granted now1 now2 g id args sync req g1 :
  LockDb.storage_type_ (map g) = ST_MAP -> args_user args ->
  la_acquire_lock_req args = Some req -> li_lease_time_ms (aq_lock_info req) <> 0 ->
  DoExecute now1 now2 ST_MAP g id args sync = Some (Some RET_OK, g1) ->
  LockDb.storage_type_ (map g1) = ST_MAP /\
  LockDb.view (map g1) (li_lock_key (aq_lock_info req)) =
    Some (mkRecord id (li_client_id (aq_lock_info req)) (li_lease_time_ms (aq_lock_info req)) 0).
Proof.
  intros Hst Hu Hr Hl E. destruct (DoExecute_map now1 now2 g id args sync Hst Hu) as (out & g' & E' & Ho & Hv & Hst' & _).
  rewrite E in E'. injection E' as <- <-. split; [done|]. rewrite Hv. unfold spec_step in *. rewrite Hr in *.
  cbn [fst snd] in *. injection Ho as Ho. unfold LockDb.cas in *. case_match; [|done]. cbn.
  rewrite decide_True by done. by rewrite (proj2 (Z.eqb_neq _ _) Hl).
Qed.


(** The requests of the next theorem. *)
Definition acquire_args (k : string) (version : Z) (client : string) (lease : Z) : LockPaxosArgs :=
  mkLockPaxosArgs (Some (mkAcquireLockRequest 0 0 (mkLockInfo k version client lease) no_addr)) None no_addr.

Lemma acquire_args_user k version client lease :
  LockDb.user_key k = true -> args_user (acquire_args k version client lease).
Proof. intros Hk. split; [|done]. by intros req [= <-]. Qed.

(** Executing entries again is not harmless.  The mirror writes entries
    without flushing and leaves [disk_checkpoint] behind; after a crash of the
    process the unflushed writes are still there, and the log is replayed from
    [disk_checkpoint] over them.  An acquire that was refused because the lock
    was held, followed by the owner's release, is granted by the replay: the
    refused client owns the lock on this replica and the key is free on the
    others. *)
Theorem replay_not_idempotent g k r client id :
  mirror (ldb g) -> LockDb.user_key k = true -> LockDb.view (ldb g) k = Some r ->
  is_u64 id -> is_u64 (id + 1) -> id + 1 <> NoCheckpoint -> 0 < rec_version r < id ->
  let log := [mkEntry id (acquire_args k (rec_version r - 1) client 1000) 0 0 false;
              mkEntry (id + 1) (acquire_args k (rec_version r) "" 0) 0 0 false] in
  exists g1 g2,
    run ST_LEVELDB g log = Some ([Some RET_ERR_VERSION_NOT_EQUAL; Some RET_OK], g1) /\
    LockDb.view (ldb g1) k = None /\
    run ST_LEVELDB g1 log = Some ([Some RET_OK; Some RET_ERR_VERSION_NOT_EQUAL], g2) /\
    LockDb.view (ldb g2) k = Some (mkRecord id client 1000 0).
Proof.
  intros Hm Hk Hv Hi Hi' Hne Hlt log.
  assert (Hlog : log_ok (plain log)).
  { repeat apply Forall_cons_2; [..|apply Forall_nil_2]; cbn;
      (split_and!; [done| |by apply acquire_args_user]); unfold NoCheckpoint in *; ilia. }
  destruct (run_ldb g log Hm Hlog) as (o1 & g1 & E1 & Ho1 & V1 & Hm1 & _).
  destruct (run_ldb g1 log Hm1 Hlog) as (o2 & g2 & E2 & Ho2 & V2 & _).
  assert (S1 : spec_run (LockDb.view (ldb g)) (plain log) =
               ([Some RET_ERR_VERSION_NOT_EQUAL; Some RET_OK], fun k' => if decide (k' = k) then None else LockDb.view (ldb g) k')).
  { cbn -[LockDb.view decide]. unfold LockDb.cas at 3, LockDb.cas at 2. cbn -[LockDb.view decide].
    rewrite Hv. cbn [LockDb.version_ok andb orb]. rewrite (proj2 (Z.eqb_neq _ _)) by lia. cbn -[LockDb.view decide].
    unfold LockDb.cas. cbn -[LockDb.view decide].
    rewrite Hv. cbn [LockDb.version_ok andb orb]. rewrite (proj2 (Z.eqb_neq (rec_version r) (rec_version r - 1))) by lia.
    cbn -[LockDb.view decide]. rewrite Hv. cbn [LockDb.version_ok andb orb]. by rewrite Z.eqb_refl. }
  rewrite S1 in Ho1, V1. assert (Hv1 : LockDb.view (ldb g1) k = None) by (by rewrite V1; cbn; rewrite decide_True).
  assert (S2 : spec_run (LockDb.view (ldb g1)) (plain log) =
               ([Some RET_OK; Some RET_ERR_VERSION_NOT_EQUAL],
                fun k' => if decide (k' = k) then Some (mkRecord id client 1000 0) else LockDb.view (ldb g1) k')).
  { cbn -[LockDb.view decide]. unfold LockDb.cas. cbn -[LockDb.view decide]. rewrite Hv1. cbn -[LockDb.view decide].
    rewrite (decide_True (P := k = k)) by done. cbn -[LockDb.view decide].
    rewrite (proj2 (Z.eqb_neq id (rec_version r))) by lia. done. }
  rewrite S2 in Ho2, V2. exists g1, g2. subst. split_and!; [done..|]. rewrite V2. cbn. by rewrite decide_True.
Qed.
End sm.
End LockSM.
