(* ===== verification/LockService.v ===== *)
(** * The lock server and its clean thread

    [Lock] (src/phxqueue/lock/lock.cpp) checks a request, asks for a redirect
    when another server is the master of the key's group, and proposes it;
    [CleanThread] (src/phxqueue/lock/cleanthread.cpp) proposes the release of
    expired locks and moves the restart checkpoint of idle groups.

    [LockPropose] is [phxpaxos::Node::Propose] as seen by the caller: the paxos
    code, the instance id, the code that [LockSM::Execute] left in the context
    and the groups when it returns.  The clock readings that only feed the log
    are left out; [now] is the one the clean thread decides by. *)

From S2P Require Import Prelude RetCode TopicConfig StoreConfig Node LockConfig LockDb LockMgr LockSM.

Class LockPropose `{LevelDB} := {
  Propose : list LockMgr.GroupData -> Z -> string -> Z * Z * RetCode * list LockMgr.GroupData;
}.

Definition CLIENT_ID_CLEAN_THREAD : string := "__lock__:__clean_thread__".

Module Lock.
Section lock.
Context `{LDB : LevelDB, RC : RecordCodec, LC : LockCodec, LD : LockDirectory, TD : TopicDirectory}.
Context `{PN : PaxosNode, PR : PaxosRet, IN : Inet, LP : !LockPropose}.
Context (std_hash : string -> Z) (opt : LockOption).

(** [std::hash] gives 64 bits; [HashUi32] keeps the upper 32. *)
Definition HashUi32 (s : string) : Z := to_u32 (Z.shiftr (std_hash s) 32).

Definition group_of (key : string) : Z := HashUi32 key mod to_u32 (lo_nr_group opt).

Definition InitTopicID (opt_topic : string) : RetCode * option Z :=
  if negb (bool_decide (opt_topic = ""%string)) then
    match GetTopicIDByTopicName opt_topic with
    | (RET_OK, id) => (RET_OK, Some id)
    | (ret, _) => (ret, None)
    end
  else
    match GetAllTopicID with
    | (RET_OK, topic_ids) =>
        match list_find (fun id =>
                match GetLockConfig id with
                | (RET_OK, Some lock_config) =>
                    is_ok (LockConfig.GetLockIDByAddr lock_config (lo_addr opt)).1
                | _ => false
                end = true) (set_items topic_ids) with
        | Some (_, id) => (RET_OK, Some id)
        | None => (RET_ERR_RANGE_ADDR, None)
        end
    | (ret, _) => (ret, None)
    end.

Context (topic_id : Z).

Definition CheckMaster (paxos_group_id : Z) : RetCode * option Addr :=
  if IsIMMaster paxos_group_id then (RET_OK, None) else
  let '(node_ip, node_port) := GetMaster paxos_group_id in
  if bool_decide (node_ip = ""%string) || (node_port =? 0) || bool_decide (node_ip = "0.0.0.0"%string)
  then (RET_ERR_NO_MASTER, None) else
  match GetLockConfig topic_id with
  | (RET_OK, Some lock_config) =>
      match LockConfig.GetLockByAddr lock_config (lo_addr opt) with
      | (RET_OK, Some lock) =>
          match list_find (fun a => ip a = node_ip /\ paxos_port a = node_port) (lock_addrs lock) with
          | Some (_, a) => (RET_ERR_NOT_MASTER, Some a)
          | None => (RET_ERR_RANGE_ADDR, None)
          end
      | (ret, _) => (ret, None)
      end
  | (ret, _) => (ret, None)
  end.

(** A request for [key] that came to the wrong server. *)
Definition checked {A} (key : string) (refuse : RetCode -> option Addr -> A) (accept : Z -> A) : A :=
  if bool_decide (key = ""%string) then refuse RET_ERR_KEY None else
  let '(ret, redirect) := CheckMaster (group_of key) in
  if negb (is_ok ret) then refuse ret redirect else accept (group_of key).

Definition GetString (gs : list LockMgr.GroupData) (key : string)
    : option (RetCode * option StringInfo * option Addr) :=
  checked key (fun ret redirect => Some (ret, None, redirect)) (fun paxos_group_id =>
  g ← gs !! Z.to_nat paxos_group_id;
  r ← LockDb.GetString (LockMgr.map g) key;
  let '(ret, v) := r in
  if negb (is_ok ret) then Some (ret, None, None) else
  Some (ret, Some (mkStringInfo key (rec_version v) (rec_value v) (rec_lease_time_ms v)), None)).

(** [LocalRecordInfo2LockInfo] leaves [lock_key] unset. *)
Definition LocalRecordInfo2LockInfo (v : LocalRecordInfo) : LockInfo :=
  mkLockInfo "" (rec_version v) (rec_value v) (rec_lease_time_ms v).

Definition LockInfo2LocalRecordInfo (i : LockInfo) (expire_time_ms : Z) : LocalRecordInfo :=
  mkRecord (li_version i) (li_client_id i) (li_lease_time_ms i) expire_time_ms.

Definition GetLockInfo (gs : list LockMgr.GroupData) (lock_key : string)
    : option (RetCode * option LockInfo * option Addr) :=
  checked lock_key (fun ret redirect => Some (ret, None, redirect)) (fun paxos_group_id =>
  g ← gs !! Z.to_nat paxos_group_id;
  r ← LockDb.GetLock (LockMgr.map g) lock_key;
  let '(ret, v) := r in
  if negb (is_ok ret) then Some (ret, None, None) else
  Some (ret, Some (LocalRecordInfo2LockInfo v), None)).

Definition propose (gs : list LockMgr.GroupData) (paxos_group_id : Z) (args : LockPaxosArgs)
    : RetCode * list LockMgr.GroupData :=
  let '(paxos_ret, instance_id, lc_result, gs') := Propose gs paxos_group_id (lock_SerializeToString args) in
  if negb (PaxosTryCommitRet_OK =? paxos_ret) then (propose_error paxos_ret, gs') else (lc_result, gs').

Definition PaxosSetString (gs : list LockMgr.GroupData) (req : SetStringRequest)
    : RetCode * list LockMgr.GroupData :=
  propose gs (group_of (si_key (ss_string_info req))) (mkLockPaxosArgs None (Some req) no_addr).

Definition PaxosAcquireLock (gs : list LockMgr.GroupData) (req : AcquireLockRequest)
    : RetCode * list LockMgr.GroupData :=
  propose gs (group_of (li_lock_key (aq_lock_info req))) (mkLockPaxosArgs (Some req) None no_addr).

(** Deleting is setting with a lease of 0. *)
Definition PaxosDeleteString (gs : list LockMgr.GroupData) (req_topic_id req_lock_id : Z) (key : string)
    (version : Z) (master_addr : Addr) : RetCode * list LockMgr.GroupData :=
  PaxosSetString gs (mkSetStringRequest req_topic_id req_lock_id (mkStringInfo key version "" 0) master_addr).

Definition SetString (gs : list LockMgr.GroupData) (req : SetStringRequest)
    : RetCode * option Addr * list LockMgr.GroupData :=
  checked (si_key (ss_string_info req)) (fun ret redirect => (ret, redirect, gs)) (fun _ =>
  let '(ret, gs') := PaxosSetString gs req in (ret, None, gs')).

Definition DeleteString (gs : list LockMgr.GroupData) (req_topic_id req_lock_id : Z) (key : string)
    (version : Z) (master_addr : Addr) : RetCode * option Addr * list LockMgr.GroupData :=
  checked key (fun ret redirect => (ret, redirect, gs)) (fun _ =>
  let '(ret, gs') := PaxosDeleteString gs req_topic_id req_lock_id key version master_addr in
  (ret, None, gs')).

(** What follows the checks (lock.cpp 375-439).  A release (a lease of 0) also
    deletes the lock from the map of this server. *)
Definition acquire_as_master (gs : list LockMgr.GroupData) (req : AcquireLockRequest) (paxos_group_id : Z)
    : option (RetCode * option Addr * list LockMgr.GroupData) :=
  let lock_info := aq_lock_info req in
  g ← gs !! Z.to_nat paxos_group_id;
  r ← LockDb.GetLock (LockMgr.map g) (li_lock_key lock_info);
  let '(ret, v) := r in
  if negb (bool_decide (ret = RET_ERR_KEY_NOT_EXIST)) && negb (is_ok ret) then Some (ret, None, gs) else
  if negb (bool_decide (ret = RET_ERR_KEY_NOT_EXIST)) && negb (rec_version v =? li_version lock_info)
  then Some (RET_ERR_VERSION_NOT_EQUAL, None, gs) else
  let '(ret, gs) := PaxosAcquireLock gs req in
  if li_lease_time_ms lock_info <=? 0 then
    g ← gs !! Z.to_nat paxos_group_id;
    d ← LockDb.DeleteLock (LockMgr.map g) (li_lock_key lock_info) false;
    Some (d.1, None, <[Z.to_nat paxos_group_id := LockMgr.set_map g d.2]> gs)
  else Some (ret, None, gs).

Definition AcquireLock (gs : list LockMgr.GroupData) (req : AcquireLockRequest)
    : option (RetCode * option Addr * list LockMgr.GroupData) :=
  checked (li_lock_key (aq_lock_info req)) (fun ret redirect => Some (ret, redirect, gs))
    (acquire_as_master gs req).

Definition NeedDropMaster (paxos_group_id : Z) : bool := false.

(** ** Properties *)

Lemma CheckMaster_cases paxos_group_id ret redirect :
  CheckMaster paxos_group_id = (ret, redirect) ->
  (ret = RET_OK /\ redirect = None /\ IsIMMaster paxos_group_id = true) \/
  (ret <> RET_OK /\ IsIMMaster paxos_group_id = false /\
   forall a, redirect = Some a -> ret = RET_ERR_NOT_MASTER /\ (ip a, paxos_port a) = GetMaster paxos_group_id).
Proof.
  unfold CheckMaster. destruct (IsIMMaster paxos_group_id); [intros [= <- <-]; by left|].
  destruct (GetMaster paxos_group_id) as [i p].
  case_match; [intros [= <- <-]; right; by split_and!|].
  destruct (GetLockConfig topic_id) as [r1 [lc|]] eqn:E1.
  2:{ destruct r1; try (intros [= <- <-]; right; by split_and!). by apply GetLockConfig_found in E1. }
  destruct r1; try (intros [= <- <-]; right; by split_and!).
  destruct (LockConfig.GetLockByAddr lc (lo_addr opt)) as [r2 [l|]] eqn:E2.
  2:{ destruct r2; try (intros [= <- <-]; right; by split_and!). by apply LockConfig.GetLockByAddr_found in E2. }
  destruct r2; try (intros [= <- <-]; right; by split_and!).
  destruct (list_find _ _) as [[k a]|] eqn:Ef; intros [= <- <-]; right; split_and!; try done.
  intros a' [= <-]. apply list_find_Some in Ef as (_ & [<- <-] & _). done.
Qed.

Lemma checked_cases {A} key (refuse : RetCode -> option Addr -> A) (accept : Z -> A) :
  (key <> ""%string /\ IsIMMaster (group_of key) = true /\ checked key refuse accept = accept (group_of key)) \/
  (exists ret redirect, ret <> RET_OK /\ checked key refuse accept = refuse ret redirect /\
     forall a, redirect = Some a -> ret = RET_ERR_NOT_MASTER /\ (ip a, paxos_port a) = GetMaster (group_of key)).
Proof.
  unfold checked. case_bool_decide as Hk; [right; exists RET_ERR_KEY, None; by split_and!|].
  destruct (CheckMaster (group_of key)) as [ret redirect] eqn:E.
  apply CheckMaster_cases in E as [(-> & -> & Hm)|(Hr & _ & Ha)]; [by left|right].
  exists ret, redirect. by rewrite (proj2 (is_ok_false _) Hr).
Qed.

(** What [Propose] promises, for a server whose groups hold their records in
    maps: a proposal that went through was executed on the group, after
    whatever other entries were chosen before it. *)
Definition propose_executes (gs : list LockMgr.GroupData) (paxos_group_id : Z) : Prop :=
  forall buf id res gs', Propose gs paxos_group_id buf = (PaxosTryCommitRet_OK, id, res, gs') ->
  exists args g log outs g1 now1 now2 out g2,
    lock_ParseFromString buf = Some args /\ gs !! Z.to_nat paxos_group_id = Some g /\
    LockSM.log_ok (LockSM.plain log) /\ LockSM.run ST_MAP g log = Some (outs, g1) /\
    LockSM.DoExecute now1 now2 ST_MAP g1 id args false = Some (out, g2) /\
    res = default RET_OK out /\ gs' !! Z.to_nat paxos_group_id = Some g2.

Context {LL : LevelDBLaws LDB} {RL : RecordCodecLaws RC}.

(** Acquiring end to end.  A client that gets [RET_OK] for a positive
    lease owns the lock: this server is the master of the key's group, and
    the group's map holds the key under the client with the instance id of the
    proposal as version.  Any other answer of a refusing check leaves the
    groups as they were and redirects, if at all, to the master. *)
Theorem AcquireLock_grants gs req ret redirect gs' g :
  (forall args, lock_ParseFromString (lock_SerializeToString args) = Some args) ->
  let key := li_lock_key (aq_lock_info req) in
  propose_executes gs (group_of key) ->
  gs !! Z.to_nat (group_of key) = Some g -> LockDb.storage_type_ (LockMgr.map g) = ST_MAP ->
  LockDb.user_key key = true -> 0 < li_lease_time_ms (aq_lock_info req) ->
  AcquireLock gs req = Some (ret, redirect, gs') ->
  (ret = RET_OK -> IsIMMaster (group_of key) = true /\ redirect = None /\
     exists g' id, gs' !! Z.to_nat (group_of key) = Some g' /\
       LockDb.view (LockMgr.map g') key =
         Some (mkRecord id (li_client_id (aq_lock_info req)) (li_lease_time_ms (aq_lock_info req)) 0)) /\
  (forall a, redirect = Some a -> ret = RET_ERR_NOT_MASTER /\ gs' = gs /\
     (ip a, paxos_port a) = GetMaster (group_of key)).
Proof.
  intros Hlaw key Hprop Hg Hst Hu Hl. unfold AcquireLock. fold key.
  destruct (checked_cases key (fun ret redirect => Some (ret, redirect, gs)) (acquire_as_master gs req))
    as [(Hk & Hm & ->)|(r & rd & Hr & -> & Ha)].
  2:{ intros [= <- <- <-]. split; [done|]. intros a Hsome. by destruct (Ha a Hsome). }
  unfold acquire_as_master. rewrite Hg. cbn [mbind option_bind]. fold key.
  destruct (LockDb.GetLock (LockMgr.map g) key) as [[r v]|]; [|done]. cbn [mbind option_bind].
  destruct (negb (bool_decide (r = RET_ERR_KEY_NOT_EXIST)) && negb (is_ok r)) eqn:Er.
  { intros [= <- <- <-]. split; [|done]. by intros ->. }
  case_match; [by intros [= <- <- <-]|].
  destruct (PaxosAcquireLock gs req) as [r2 gs2] eqn:Ep. rewrite (proj2 (Z.leb_gt _ _)) by done.
  intros [= <- <- <-]. split; [|done]. intros ->. split; [done|]. split; [done|].
  unfold PaxosAcquireLock, propose in Ep. fold key in Ep.
  destruct (Propose gs (group_of key) _) as [[[pr id] res] gs3] eqn:Epp.
  destruct (PaxosTryCommitRet_OK =? pr) eqn:Eok; cbn [negb] in Ep.
  2:{ exfalso. injection Ep as Ep _. by apply (propose_error_not_ok pr). }
  simpl_bool. subst pr. injection Ep as -> ->.
  apply Hprop in Epp as (args & g0 & log & outs & g1 & now1 & now2 & out & g2 & Hpa & Hg0 & Hlog & Hrun & Hex & Hres & Hg2).
  rewrite Hlaw in Hpa. injection Hpa as <-. rewrite Hg in Hg0. injection Hg0 as <-.
  destruct (LockSM.run_map g log Hst Hlog) as (outs' & g1' & Hrun' & _ & _ & Hst1 & _).
  rewrite Hrun in Hrun'. injection Hrun' as <- <-.
  assert (Hau : LockSM.args_user (mkLockPaxosArgs (Some req) None no_addr)).
  { split; [|done]. by intros req' [= <-]. }
  destruct (LockSM.DoExecute_map now1 now2 g1 id _ false Hst1 Hau) as (out' & g2' & Hex' & Hout & _).
  rewrite Hex in Hex'. injection Hex' as <- <-.
  assert (out = Some RET_OK) as ->.
  { rewrite Hout in Hres |- *. unfold LockSM.spec_step in *. cbn in Hres |- *. by rewrite Hres. }
  exists g2, id. split; [done|].
  eapply LockSM.acquire_granted; [exact Hst1|exact Hau|reflexivity|lia|exact Hex].
Qed.

Lemma GetLock_view d k r :
  LockDb.open_db d -> LockDb.user_key k = true -> LockDb.view d k = Some r ->
  exists v, LockDb.GetLock d k = Some (RET_OK, v) /\ rec_version v = rec_version r.
Proof.
  intros Ho Hk Hv. unfold LockDb.GetLock. rewrite (LockDb.user_key_nonempty k Hk).
  destruct (LockDb.GetRecord_view d k Ho Hk) as (v & E & Hs). rewrite Hv in E.
  exists v. split; [exact E|]. by rewrite <-(Hs r Hv).
Qed.

Lemma DeleteLock_view d k sync :
  LockDb.open_db d -> LockDb.user_key k = true ->
  exists d', LockDb.DeleteLock d k sync = Some (RET_OK, d') /\
    LockDb.storage_type_ d' = LockDb.storage_type_ d /\
    forall k', LockDb.view d' k' = if decide (k' = k) then None else LockDb.view d k'.
Proof.
  intros Ho Hk. unfold LockDb.DeleteLock. rewrite (LockDb.user_key_nonempty k Hk).
  destruct (LockDb.DeleteRecord_view d k sync Ho Hk) as (d' & E & _ & ? & ?). by exists d'.
Qed.

(** A release that was not proposed is reported as done.  When the
    proposal of a release fails and nothing is chosen, the server still
    deletes the lock from its own map and answers [RET_OK]; the lock is free
    here and held on the other servers, so the next acquire of the same log
    entry is granted here and refused there. *)
Theorem release_without_proposal gs req g r pr pid res client lease id now1 now2 :
  let key := li_lock_key (aq_lock_info req) in
  gs !! Z.to_nat (group_of key) = Some g -> LockDb.storage_type_ (LockMgr.map g) = ST_MAP ->
  LockDb.user_key key = true -> LockDb.view (LockMgr.map g) key = Some r ->
  IsIMMaster (group_of key) = true ->
  li_version (aq_lock_info req) = rec_version r -> li_lease_time_ms (aq_lock_info req) = 0 ->
  pr <> PaxosTryCommitRet_OK ->
  Propose gs (group_of key) (lock_SerializeToString (mkLockPaxosArgs (Some req) None no_addr)) = (pr, pid, res, gs) ->
  rec_version r <> 0 ->
  exists g' gs', AcquireLock gs req = Some (RET_OK, None, gs') /\ gs' !! Z.to_nat (group_of key) = Some g' /\
    let next := LockSM.acquire_args key 0 client lease in
    (exists g1, LockSM.DoExecute now1 now2 ST_MAP g' id next false = Some (Some RET_OK, g1)) /\
    (exists g1, LockSM.DoExecute now1 now2 ST_MAP g id next false = Some (Some RET_ERR_VERSION_NOT_EQUAL, g1)).
Proof.
  intros key Hg Hst Hu Hv Hm Hver Hl Hpr Hp Hne.
  assert (Ho : LockDb.open_db (LockMgr.map g)) by (unfold LockDb.open_db; by rewrite Hst).
  destruct (GetLock_view _ key r Ho Hu Hv) as (v & Hget & Hrv).
  destruct (DeleteLock_view (LockMgr.map g) key false Ho Hu) as (d' & Hdel & Hst' & Hv').
  assert (Hrun : AcquireLock gs req = Some (RET_OK, None, <[Z.to_nat (group_of key) := LockMgr.set_map g d']> gs)).
  { unfold AcquireLock, checked, CheckMaster. fold key. rewrite (LockDb.user_key_nonempty key Hu), Hm.
    change (is_ok RET_OK) with true. cbn [negb]. unfold acquire_as_master. rewrite Hg. cbn [mbind option_bind].
    fold key. rewrite Hget. cbn [mbind option_bind]. change (is_ok RET_OK) with true.
    rewrite Hrv, Hver, Z.eqb_refl. cbn [negb]. rewrite !andb_false_r.
    unfold PaxosAcquireLock, propose. fold key. rewrite Hp.
    rewrite (proj2 (Z.eqb_neq _ _)) by congruence. cbn [negb]. rewrite Hl.
    change (0 <=? 0) with true. cbn iota. rewrite Hg. cbn [mbind option_bind]. by rewrite Hdel. }
  exists (LockMgr.set_map g d'), (<[Z.to_nat (group_of key) := LockMgr.set_map g d']> gs).
  split; [exact Hrun|]. split; [apply list_lookup_insert_eq; by eapply lookup_lt_Some|].
  intros next. assert (Hau : LockSM.args_user next) by (by apply LockSM.acquire_args_user).
  assert (Hst1 : LockDb.storage_type_ (LockMgr.map (LockMgr.set_map g d')) = ST_MAP) by (cbn; by rewrite Hst').
  split.
  - destruct (LockSM.DoExecute_map now1 now2 (LockMgr.set_map g d') id next false Hst1 Hau) as (out & g1 & E & Hout & _).
    exists g1. rewrite E, Hout. unfold LockSM.spec_step, LockDb.cas. cbn -[LockDb.view]. rewrite Hv'.
    by rewrite decide_True.
  - destruct (LockSM.DoExecute_map now1 now2 g id next false Hst Hau) as (out & g1 & E & Hout & _).
    exists g1. rewrite E, Hout. unfold LockSM.spec_step, LockDb.cas. cbn -[LockDb.view]. rewrite Hv.
    cbn [LockDb.version_ok andb orb]. by rewrite (proj2 (Z.eqb_neq _ _) Hne).
Qed.
End lock.
End Lock.

(** ** The clean thread *)

Module CleanThread.
Section clean.
Context `{LDB : LevelDB, RC : RecordCodec, LC : LockCodec}.
Context `{PN : PaxosNode, PR : PaxosRet, LP : !LockPropose}.
Context (opt : LockOption).

Definition clean_args (key : string) (version : Z) : LockPaxosArgs :=
  LockSM.acquire_args key version CLIENT_ID_CLEAN_THREAD 0.

(** A lease of [-1] is kept forever. *)
Definition expired (now : Z) (r : LocalRecordInfo) : bool :=
  negb (rec_lease_time_ms r =? UINT64_MAX) && (rec_expire_time_ms r <? now).

(** One round of the loop: the additions to [nr_group_key] and
    [nr_group_clean_key], and the groups. *)
Definition clean_step (now : Z) (gs : list LockMgr.GroupData) (paxos_group_id : Z)
    : option (Z * Z * list LockMgr.GroupData) :=
  g ← gs !! Z.to_nat paxos_group_id;
  let '(ret, current_loop_key, d) := LockDb.ForwardLoopKey (LockMgr.map g) in
  let gs := <[Z.to_nat paxos_group_id := LockMgr.set_map g d]> gs in
  if negb (is_ok ret) then Some (0, 0, gs) else
  key ← current_loop_key;
  r ← LockDb.GetRecord d key;
  let '(ret, v) := r in
  if bool_decide (ret = RET_KEY_IGNORE) then Some (0, 0, gs) else
  if negb (is_ok ret) then Some (1, 0, gs) else
  if expired now v then
    let '(paxos_ret, _, _, gs) := Propose gs paxos_group_id (lock_SerializeToString (clean_args key (rec_version v))) in
    Some (1, (if PaxosTryCommitRet_OK =? paxos_ret then 1 else 0), gs)
  else Some (1, 0, gs).

(** The loop; [n] is [max_clean_lock_num - i]. *)
Fixpoint clean_loop (n : nat) (i now : Z) (gs : list LockMgr.GroupData) (paxos_group_id nr_key nr_clean : Z)
    : option (Z * Z * list LockMgr.GroupData) :=
  match n with
  | O => Some (nr_key, nr_clean, gs)
  | S n =>
      g ← gs !! Z.to_nat paxos_group_id;
      if i <? LockDb.GetSizeRecord (LockMgr.map g) then
        r ← clean_step now gs paxos_group_id;
        let '(k, c, gs') := r in clean_loop n (i + 1) now gs' paxos_group_id (nr_key + k) (nr_clean + c)
      else Some (nr_key, nr_clean, gs)
  end.

Definition CleanRecord (now : Z) (gs : list LockMgr.GroupData) (paxos_group_id : Z)
    : option (Z * Z * list LockMgr.GroupData) :=
  if negb (IsIMMaster paxos_group_id) then Some (0, 0, gs) else
  clean_loop (Z.to_nat (lo_max_clean_lock_num opt)) 0 now gs paxos_group_id 0 0.

(** [WriteRestartCheckpoint] at the instance id the node reports. *)
Definition restart_due (now_instance_id : Z) (g : LockMgr.GroupData) : bool :=
  (LockMgr.last_instance_id g =? LockMgr.memory_checkpoint g) &&
  ((LockMgr.memory_checkpoint g +u 1) <? now_instance_id) && negb (NoCheckpoint =? now_instance_id).

Definition write_restart_at (now_instance_id : Z) (g : LockMgr.GroupData) : option LockMgr.GroupData :=
  if restart_due now_instance_id g then
    r ← LockDb.Sync (LockMgr.ldb g);
    w ← LockMgr.WriteRestartCheckpoint (LockMgr.set_ldb g r.2) (now_instance_id -u 1);
    Some w.2
  else Some g.

Definition WriteRestartCheckpoint (g : LockMgr.GroupData) (paxos_group_id : Z) : option LockMgr.GroupData :=
  write_restart_at (GetNowInstanceID paxos_group_id) g.

Record t := mk { last_clean_lock_ms_ : Z; last_write_restart_checkpoint_ms_ : Z }.
Definition new : t := mk 0 0.

(** One round of [DoRun]. *)
Definition round (now : Z) (c : t) (gs : list LockMgr.GroupData)
    : option (t * Z * Z * list LockMgr.GroupData) :=
  let need_clean_key := (last_clean_lock_ms_ c +u (lo_clean_interval_s opt * 1000)) <? now in
  let need_write_restart_checkpoint :=
    (last_write_restart_checkpoint_ms_ c +u (lo_idle_write_checkpoint_interval_s opt * 1000)) <? now in
  let c := mk (if need_clean_key then now else last_clean_lock_ms_ c)
              (if need_write_restart_checkpoint then now else last_write_restart_checkpoint_ms_ c) in
  r ← foldM (fun '(nr_key, nr_clean_key, gs) paxos_group_id =>
         r ← (if need_clean_key then CleanRecord now gs paxos_group_id else Some (0, 0, gs));
         let '(k, ck, gs) := r in
         gs ← (if need_write_restart_checkpoint
               then g ← gs !! Z.to_nat paxos_group_id;
                    g' ← WriteRestartCheckpoint g paxos_group_id;
                    Some (<[Z.to_nat paxos_group_id := g']> gs)
               else Some gs);
         Some (nr_key + k, nr_clean_key + ck, gs))
       (0, 0, gs) (seqZ 0 (lo_nr_group opt));
  let '(nr_key, nr_clean_key, gs) := r in Some (c, nr_key, nr_clean_key, gs).

(** ** Properties *)

(** [Propose] on a quiet group: nothing happened, or the value was executed. *)
Definition propose_quiet : Prop :=
  forall gs paxos_group_id buf pr id res gs', Propose gs paxos_group_id buf = (pr, id, res, gs') ->
    gs' = gs \/
    exists args g now1 now2 out g', lock_ParseFromString buf = Some args /\
      gs !! Z.to_nat paxos_group_id = Some g /\
      LockSM.DoExecute now1 now2 ST_MAP g id args false = Some (out, g') /\
      gs' = <[Z.to_nat paxos_group_id := g']> gs.

Lemma DoExecute_clean now1 now2 g id key version :
  LockDb.storage_type_ (LockMgr.map g) = ST_MAP ->
  exists out g', LockSM.DoExecute now1 now2 ST_MAP g id (clean_args key version) false = Some (out, g') /\
    LockDb.storage_type_ (LockMgr.map g') = ST_MAP /\
    (LockDb.map_ (LockMgr.map g') = LockDb.map_ (LockMgr.map g) \/
     exists r, LockDb.map_ (LockMgr.map g) !! key = Some r /\ rec_version r = version /\
               LockDb.map_ (LockMgr.map g') = delete key (LockDb.map_ (LockMgr.map g))).
Proof.
  intros Hst. unfold LockSM.DoExecute, clean_args, LockSM.acquire_args. cbn [la_acquire_lock_req].
  unfold LockDb.AcquireLock, LockDb.GetLock, LockDb.DeleteLock, LockDb.GetRecord, LockDb.DeleteRecord.
  cbn [rk_key rk_version LockSM.record_of rec_lease_time_ms aq_lock_info li_lock_key li_version li_lease_time_ms].
  change (KEY_USER_LOCK_PREFIX +:+ key) with key. change (0 =? 0) with true. cbn iota.
  destruct (bool_decide (key = ""%string)) eqn:Ek.
  { do 2 eexists. split; [reflexivity|]. cbn. rewrite Hst. auto. }
  rewrite Hst. cbn [mbind option_bind].
  destruct (LockDb.map_ (LockMgr.map g) !! key) as [r|] eqn:Er; cbn [mbind option_bind].
  - change (is_ok RET_OK) with true. cbn [negb andb bool_decide]. rewrite andb_false_r. cbn iota.
    destruct (negb (bool_decide (RET_OK = RET_ERR_KEY_NOT_EXIST)) && negb (rec_version r =? version)) eqn:Ev;
      cbn [mbind option_bind fst snd]; do 2 eexists; (split; [reflexivity|]); cbn; rewrite ?Hst; [auto|].
    split; [done|]. right. exists r. split; [done|]. split; [|done].
    change (bool_decide (RET_OK = RET_ERR_KEY_NOT_EXIST)) with false in Ev. cbn [negb andb] in Ev.
    destruct (Z.eqb_spec (rec_version r) version); done.
  - change (bool_decide (RET_ERR_KEY_NOT_EXIST = RET_ERR_KEY_NOT_EXIST)) with true. cbn.
    do 2 eexists. split; [reflexivity|]. cbn. rewrite Hst. split; [done|]. left. by apply delete_id.
Qed.

(** What a clean round may do to the records of the group. *)
Definition cleaned (now : Z) (m m' : gmap string LocalRecordInfo) : Prop :=
  forall key, m' !! key = m !! key \/ (exists r, m !! key = Some r /\ expired now r = true /\ m' !! key = None).

Lemma cleaned_refl now m : cleaned now m m.
Proof. by left. Qed.

Lemma cleaned_trans now m1 m2 m3 : cleaned now m1 m2 -> cleaned now m2 m3 -> cleaned now m1 m3.
Proof.
  intros H1 H2 key. destruct (H1 key) as [E1|(r & ? & ? & E1)], (H2 key) as [E2|(r' & ? & ? & E2)].
  - left. congruence.
  - right. exists r'. split_and!; congruence.
  - right. exists r. split_and!; congruence.
  - congruence.
Qed.

(** The groups after a step: only the group of the round changes. *)
Definition only_cleaned (now : Z) (paxos_group_id : Z) (gs gs' : list LockMgr.GroupData) : Prop :=
  forall g, gs !! Z.to_nat paxos_group_id = Some g -> LockDb.storage_type_ (LockMgr.map g) = ST_MAP ->
  exists g', gs' !! Z.to_nat paxos_group_id = Some g' /\
    LockDb.storage_type_ (LockMgr.map g') = ST_MAP /\
    cleaned now (LockDb.map_ (LockMgr.map g)) (LockDb.map_ (LockMgr.map g')) /\
    forall j, j <> Z.to_nat paxos_group_id -> gs' !! j = gs !! j.

Lemma clean_step_only now gs paxos_group_id g :
  (forall args, lock_ParseFromString (lock_SerializeToString args) = Some args) -> propose_quiet ->
  gs !! Z.to_nat paxos_group_id = Some g -> LockDb.storage_type_ (LockMgr.map g) = ST_MAP ->
  exists k c gs', clean_step now gs paxos_group_id = Some (k, c, gs') /\
    only_cleaned now paxos_group_id gs gs'.
Proof.
  intros Hlaw Hq Hg Hst. unfold clean_step. rewrite Hg. cbn [mbind option_bind].
  assert (Hfix : forall d, LockDb.storage_type_ d = ST_MAP -> LockDb.map_ d = LockDb.map_ (LockMgr.map g) ->
            only_cleaned now paxos_group_id gs (<[Z.to_nat paxos_group_id := LockMgr.set_map g d]> gs)).
  { intros d Hd Hm g0 Hg0 _. rewrite Hg in Hg0. injection Hg0 as <-.
    exists (LockMgr.set_map g d). split; [apply list_lookup_insert_eq; by eapply lookup_lt_Some|].
    cbn. rewrite Hm. split_and!; [done|apply cleaned_refl|]. intros j Hj. by apply list_lookup_insert_ne. }
  unfold LockDb.ForwardLoopKey. rewrite Hst.
  destruct (head (map_keys (LockDb.map_ (LockMgr.map g)))) as [first|]; cbn [is_ok].
  2:{ do 3 eexists. split; [reflexivity|]. by apply Hfix. }
  set (key := match LockDb.map_ (LockMgr.map g) !! _ with Some _ => _ | None => _ end).
  change (is_ok RET_OK) with true. cbn [negb mbind option_bind].
  set (d := LockDb.set_prev_loop_key (LockMgr.map g) key).
  assert (Hd : LockDb.storage_type_ d = ST_MAP) by done.
  unfold LockDb.GetRecord. case_bool_decide; [do 3 eexists; split; [reflexivity|by apply Hfix]|].
  rewrite Hd. destruct (LockDb.map_ d !! key) as [v|] eqn:Ev; cbn [mbind option_bind];
    [|do 3 eexists; split; [reflexivity|by apply Hfix]].
  change (is_ok RET_OK) with true. cbn [negb]. change (bool_decide (RET_OK = RET_KEY_IGNORE)) with false. cbn iota.
  destruct (expired now v) eqn:Eexp; [|do 3 eexists; split; [reflexivity|by apply Hfix]].
  set (gs1 := <[Z.to_nat paxos_group_id := LockMgr.set_map g d]> gs).
  destruct (Propose gs1 paxos_group_id _) as [[[pr id] res] gs2] eqn:Ep.
  do 3 eexists. split; [reflexivity|].
  apply Hq in Ep as [->|(args & g1 & now1 & now2 & out & g2 & Hpa & Hg1 & Hex & ->)]; [by apply Hfix|].
  rewrite Hlaw in Hpa. injection Hpa as <-.
  assert (Hlt : (Z.to_nat paxos_group_id < length gs)%nat) by (by eapply lookup_lt_Some).
  unfold gs1 in Hg1. rewrite list_lookup_insert_eq in Hg1 by done. injection Hg1 as <-.
  destruct (DoExecute_clean now1 now2 (LockMgr.set_map g d) id key (rec_version v) Hd) as (out' & g2' & Hex' & Hst2 & Hm2).
  rewrite Hex in Hex'. injection Hex' as <- <-.
  intros g0 Hg0 _. rewrite Hg in Hg0. injection Hg0 as <-. exists g2. split_and!.
  - apply list_lookup_insert_eq. unfold gs1. by rewrite length_insert.
  - done.
  - cbn in Hm2. destruct Hm2 as [->|(r & Hr & _ & ->)]; [apply cleaned_refl|].
    intros k. destruct (decide (k = key)) as [->|Hne]; [|left; by apply lookup_delete_ne].
    right. exists v. split_and!; [done..|]. apply lookup_delete_eq.
  - intros j Hj. rewrite list_lookup_insert_ne by done. by apply list_lookup_insert_ne.
Qed.

Lemma clean_loop_only n i now gs paxos_group_id k0 c0 g :
  (forall args, lock_ParseFromString (lock_SerializeToString args) = Some args) -> propose_quiet ->
  gs !! Z.to_nat paxos_group_id = Some g -> LockDb.storage_type_ (LockMgr.map g) = ST_MAP ->
  exists k c gs', clean_loop n i now gs paxos_group_id k0 c0 = Some (k, c, gs') /\
    only_cleaned now paxos_group_id gs gs'.
Proof.
  intros Hlaw Hq. revert i gs k0 c0 g. induction n as [|n IH]; intros i gs k0 c0 g Hg Hst; cbn [clean_loop].
  { do 3 eexists. split; [reflexivity|]. intros g0 Hg0 Hst0. exists g0. split_and!; [done..|apply cleaned_refl|done]. }
  rewrite Hg. cbn [mbind option_bind]. case_match.
  2:{ do 3 eexists. split; [reflexivity|]. intros g0 Hg0 Hst0. exists g0. split_and!; [done..|apply cleaned_refl|done]. }
  destruct (clean_step_only now gs paxos_group_id g Hlaw Hq Hg Hst) as (k & c & gs1 & -> & H1). cbn [mbind option_bind].
  destruct (H1 g Hg Hst) as (g1 & Hg1 & Hst1 & Hc1 & Hj1).
  destruct (IH (i + 1) gs1 (k0 + k) (c0 + c) g1 Hg1 Hst1) as (k' & c' & gs2 & -> & H2).
  do 3 eexists. split; [reflexivity|]. intros g0 Hg0 _. rewrite Hg in Hg0. injection Hg0 as <-.
  destruct (H2 g1 Hg1 Hst1) as (g2 & Hg2 & Hst2 & Hc2 & Hj2). exists g2. split_and!; [done..| |].
  - by eapply cleaned_trans.
  - intros j Hj. by rewrite Hj2, Hj1.
Qed.


(** ** The restart checkpoint

    A replica between restarts: the map has executed [i] entries of the log of
    its group, the mirror the first [j] of them. *)

Inductive replica_step (log : list LockSM.entry) :
    LockMgr.GroupData * nat * nat -> LockMgr.GroupData * nat * nat -> Prop :=
| step_execute g i j e out g' :
    log !! i = Some e ->
    LockSM.DoExecute (LockSM.e_now1 e) (LockSM.e_now2 e) ST_MAP g (LockSM.e_id e) (LockSM.e_args e) false
      = Some (out, g') ->
    replica_step log (g, i, j) (g', S i, j)
| step_execute_for_checkpoint g i j e out g' :
    (j < i)%nat -> log !! j = Some e ->
    LockSM.DoExecute (LockSM.e_now1 e) (LockSM.e_now2 e) ST_LEVELDB g (LockSM.e_id e) (LockSM.e_args e)
      (LockSM.e_sync e) = Some (out, g') ->
    replica_step log (g, i, j) (g', i, S j)
| step_restart_checkpoint g i j now_instance_id g' :
    write_restart_at now_instance_id g = Some g' ->
    replica_step log (g, i, j) (g', i, j).

Definition is_request (args : LockPaxosArgs) : bool :=
  bool_decide (is_Some (la_acquire_lock_req args)) || bool_decide (is_Some (la_set_string_req args)).

(** [last_instance_id] after executing entries. *)
Definition last_request (l0 : Z) (log : list (Z * LockPaxosArgs)) : Z :=
  foldl (fun acc e => if is_request e.2 then e.1 else acc) l0 log.

Lemma last_request_in l0 log :
  (last_request l0 log = l0 /\ Forall (fun e => is_request e.2 = false) log) \/ last_request l0 log ∈ log.*1.
Proof.
  induction log as [|e log IH] using rev_ind; [by left|].
  unfold last_request in *. rewrite foldl_app, fmap_app, Forall_app. cbn [foldl fmap list_fmap].
  rewrite elem_of_app, list_elem_of_singleton. destruct (is_request e.2) eqn:E; [by right; right|].
  destruct IH as [[H1 H2]|H1]; [left|right; by left]. by rewrite Forall_singleton.
Qed.

(** If the last request of a log is one of its prefix, the rest asks for
    nothing. *)
Lemma last_request_prefix l0 l1 l2 :
  NoDup (l1 ++ l2).*1 -> l0 ∉ (l1 ++ l2).*1 ->
  last_request l0 (l1 ++ l2) = l0 \/ last_request l0 (l1 ++ l2) ∈ l1.*1 ->
  Forall (fun e => is_request e.2 = false) l2.
Proof.
  intros Hnd Hl0 H. rewrite fmap_app in *. apply NoDup_app in Hnd as (_ & Hd & _).
  unfold last_request in H. rewrite foldl_app in H. fold (last_request l0 l1) in H.
  fold (last_request (last_request l0 l1) l2) in H.
  destruct (last_request_in (last_request l0 l1) l2) as [[_ ?]|Hin]; [done|].
  rewrite elem_of_app in Hl0. destruct H as [E|Hin1].
  - rewrite E in Hin. exfalso. apply Hl0. by right.
  - by destruct (Hd _ Hin1).
Qed.

Lemma spec_run_no_request m log :
  Forall (fun e => is_request e.2 = false) log -> (LockSM.spec_run m log).2 = m.
Proof.
  revert m. induction log as [|[id args] log IH]; intros m Hl; [done|].
  apply Forall_cons in Hl as [Hr Hl]. cbn [LockSM.spec_run fst snd]. rewrite (IH _ Hl).
  unfold LockSM.spec_step, is_request in *. cbn in Hr.
  by destruct (la_acquire_lock_req args), (la_set_string_req args).
Qed.

Lemma DoExecute_map_last now1 now2 g id args sync out g' :
  LockSM.DoExecute now1 now2 ST_MAP g id args sync = Some (out, g') ->
  LockMgr.last_instance_id g' = (if is_request args then id else LockMgr.last_instance_id g) /\
  LockMgr.memory_checkpoint g' = LockMgr.memory_checkpoint g.
Proof.
  unfold LockSM.DoExecute, is_request.
  destruct (la_acquire_lock_req args) as [req|]; [|destruct (la_set_string_req args) as [req|]];
    [intros (r & _ & [= <- <-])%bind_Some..|by intros [= <- <-]]; done.
Qed.

Lemma mirror_written_memory g ret id sync r g' :
  LockSM.mirror_written g ret id sync = Some (r, g') ->
  LockMgr.last_instance_id g' = LockMgr.last_instance_id g /\
  (LockMgr.memory_checkpoint g' = LockMgr.memory_checkpoint g \/ LockMgr.memory_checkpoint g' = id).
Proof.
  unfold LockSM.mirror_written, LockMgr.WriteDiskCheckpoint.
  destruct (negb (is_ok ret)); [intros [= <- <-]; auto|]. destruct sync; [|intros [= <- <-]; cbn; auto].
  case_match; [intros [= <- <-]; auto|]. intros (w & _ & [= <- <-])%bind_Some.
  case_match; cbn; auto.
Qed.

Lemma DoExecute_ldb_memory now1 now2 g id args sync out g' :
  LockSM.DoExecute now1 now2 ST_LEVELDB g id args sync = Some (out, g') ->
  LockMgr.last_instance_id g' = LockMgr.last_instance_id g /\
  (LockMgr.memory_checkpoint g' = LockMgr.memory_checkpoint g \/ LockMgr.memory_checkpoint g' = id).
Proof.
  unfold LockSM.DoExecute.
  destruct (la_acquire_lock_req args) as [req|]; [|destruct (la_set_string_req args) as [req|]];
    [intros (r & _ & ([w1 w2] & Hw & [= <- <-])%bind_Some)%bind_Some..|intros [= <- <-]; auto];
    by apply mirror_written_memory in Hw.
Qed.

Context {LL : LevelDBLaws LDB} {RL : RecordCodecLaws RC}.

Lemma write_restart_ok now_instance_id g :
  LockMgr.mirror (LockMgr.ldb g) ->
  exists g', write_restart_at now_instance_id g = Some g' /\ LockMgr.mirror (LockMgr.ldb g') /\
    (forall k, LockDb.view (LockMgr.ldb g') k = LockDb.view (LockMgr.ldb g) k) /\
    LockMgr.map g' = LockMgr.map g /\ LockMgr.last_instance_id g' = LockMgr.last_instance_id g /\
    LockMgr.memory_checkpoint g' = LockMgr.memory_checkpoint g /\
    (restart_due now_instance_id g = true -> now_instance_id -u 1 <> NoCheckpoint ->
     exists l, LockDb.leveldb_ (LockMgr.ldb g') = Some l /\
               contents l !! KEY_IGNORE_RESTART_CHECKPOINT = Some (to_string (now_instance_id -u 1))).
Proof.
  intros Hm. unfold write_restart_at. destruct (restart_due now_instance_id g); [|exists g; by split_and!].
  destruct (LockMgr.DiskSet_reserved (LockMgr.ldb g) KEY_IGNORE_SYNC_TRIGGER "" true Hm)
    as (l & d1 & E1 & Hm1 & Hv1 & _); [done|reflexivity|].
  assert (Hsync : LockDb.Sync (LockMgr.ldb g) = LockDb.DiskSet (LockMgr.ldb g) KEY_IGNORE_SYNC_TRIGGER "" true).
  { unfold LockDb.Sync, LockDb.DiskSet. by rewrite (proj1 Hm). }
  rewrite Hsync, E1. cbn [mbind option_bind fst snd]. unfold LockMgr.WriteRestartCheckpoint.
  destruct (Z.eqb_spec (now_instance_id -u 1) NoCheckpoint) as [E|E]; cbn [mbind option_bind fst snd].
  { eexists. split; [reflexivity|]. cbn. by split_and!. }
  cbn [LockMgr.set_ldb LockMgr.ldb].
  destruct (LockMgr.DiskSet_reserved d1 KEY_IGNORE_RESTART_CHECKPOINT (to_string (now_instance_id -u 1)) true Hm1)
    as (l1 & d2 & -> & Hm2 & Hv2 & _ & l2 & El2 & Hc2); [done|reflexivity|].
  cbn [mbind option_bind fst snd]. eexists. split; [reflexivity|]. cbn. split_and!; try done.
  - intros k. by rewrite Hv2, Hv1.
  - intros _ _. exists l2. by rewrite Hc2, lookup_insert_eq.
Qed.

Section replica.
Context (g0 : LockMgr.GroupData) (log : list LockSM.entry).
Let P := LockSM.plain log.
Let V0 := LockDb.view (LockMgr.map g0).
Let l0 := LockMgr.last_instance_id g0.

Definition replica_start : Prop :=
  LockDb.storage_type_ (LockMgr.map g0) = ST_MAP /\ LockMgr.mirror (LockMgr.ldb g0) /\
  (forall k, LockDb.view (LockMgr.ldb g0) k = V0 k) /\ LockMgr.memory_checkpoint g0 = l0.

Definition replica_inv (s : LockMgr.GroupData * nat * nat) : Prop :=
  let '(g, i, j) := s in
  (j <= i)%nat /\
  LockDb.storage_type_ (LockMgr.map g) = ST_MAP /\ LockMgr.mirror (LockMgr.ldb g) /\
  (forall k, LockDb.view (LockMgr.map g) k = (LockSM.spec_run V0 (take i P)).2 k) /\
  (forall k, LockDb.view (LockMgr.ldb g) k = (LockSM.spec_run V0 (take j P)).2 k) /\
  LockMgr.last_instance_id g = last_request l0 (take i P) /\
  (LockMgr.memory_checkpoint g = l0 \/ LockMgr.memory_checkpoint g ∈ (take j P).*1).

Lemma plain_lookup i e : log !! i = Some e -> P !! i = Some (LockSM.e_id e, LockSM.e_args e).
Proof. intros Hi. unfold P, LockSM.plain. by rewrite list_lookup_fmap, Hi. Qed.

Lemma spec_run_snoc m l x k :
  (LockSM.spec_run m (l ++ [x])).2 k = (LockSM.spec_step (LockSM.spec_run m l).2 x.1 x.2).2 k.
Proof. rewrite LockSM.spec_run_app. destruct x. reflexivity. Qed.

Lemma replica_inv_step s s' :
  LockSM.log_ok P -> replica_inv s -> replica_step log s s' -> replica_inv s'.
Proof.
  intros Hlog Hinv Hstep.
  destruct Hstep as [g i j e out g' Hi Hex|g i j e out g' Hji Hj Hex|g i j now_id g' Hw];
    destruct Hinv as (Hle & Hst & Hm & Vm & Vl & Hlast & Hmem).
  - pose proof (plain_lookup i e Hi) as HP. unfold LockSM.log_ok in Hlog. rewrite Forall_forall in Hlog.
    destruct (Hlog _ (list_elem_of_lookup_2 _ _ _ HP)) as (_ & _ & Hu). simpl in Hu.
    destruct (LockSM.DoExecute_map (LockSM.e_now1 e) (LockSM.e_now2 e) g (LockSM.e_id e) (LockSM.e_args e) false Hst Hu)
      as (out' & g1 & Hex' & _ & Hv & Hst' & Hl'). rewrite Hex in Hex'. injection Hex' as <- <-.
    destruct (DoExecute_map_last _ _ _ _ _ _ _ _ Hex) as [Hla Hme].
    unfold replica_inv. rewrite (take_S_r _ _ _ HP), Hl', Hme, Hla. split_and!; [lia|done|done| |done| |done].
    + intros k. rewrite spec_run_snoc, Hv. apply LockSM.spec_step_same. exact Vm.
    + unfold last_request. rewrite foldl_app. cbn. by rewrite Hlast.
  - pose proof (plain_lookup j e Hj) as HP. unfold LockSM.log_ok in Hlog. rewrite Forall_forall in Hlog.
    destruct (Hlog _ (list_elem_of_lookup_2 _ _ _ HP)) as (Hid & Hne & Hu). simpl in Hid, Hne, Hu.
    destruct (LockSM.DoExecute_ldb (LockSM.e_now1 e) (LockSM.e_now2 e) g (LockSM.e_id e) (LockSM.e_args e)
                (LockSM.e_sync e) Hm Hid Hne Hu) as (out' & g1 & Hex' & _ & Hv & Hm' & Hmap & _).
    rewrite Hex in Hex'. injection Hex' as <- <-.
    destruct (DoExecute_ldb_memory _ _ _ _ _ _ _ _ Hex) as [Hla Hme].
    unfold replica_inv. rewrite (take_S_r _ _ _ HP), Hmap, Hla. split_and!; [lia|done|done|done| |done|].
    + intros k. rewrite spec_run_snoc, Hv. apply LockSM.spec_step_same. exact Vl.
    + rewrite fmap_app, elem_of_app. cbn. rewrite list_elem_of_singleton.
      destruct Hme as [->| ->]; [|by right; right]. destruct Hmem; auto.
  - destruct (write_restart_ok now_id g Hm) as (g1 & E & Hm' & Hv & Hmap & Hla & Hme & _).
    rewrite Hw in E. injection E as <-. unfold replica_inv. rewrite Hmap, Hla, Hme.
    split_and!; try done. intros k. by rewrite Hv.
Qed.

Lemma replica_inv_reachable s :
  LockSM.log_ok P -> replica_start -> rtc (replica_step log) (g0, 0%nat, 0%nat) s -> replica_inv s.
Proof.
  intros Hlog (Hst & Hm & Hv & Hmem) Hr.
  assert (Hinv : replica_inv (g0, 0%nat, 0%nat)) by (split_and!; try done; by left).
  revert Hinv. induction Hr as [|s1 s2 s3 Hs _ IH]; [done|]. intros Hinv.
  by apply IH, (replica_inv_step s1).
Qed.

Lemma restart_views_agree g i j :
  LockSM.log_ok P -> NoDup P.*1 -> l0 ∉ P.*1 -> replica_start ->
  rtc (replica_step log) (g0, 0%nat, 0%nat) (g, i, j) ->
  LockMgr.last_instance_id g = LockMgr.memory_checkpoint g ->
  forall k, LockDb.view (LockMgr.ldb g) k = LockDb.view (LockMgr.map g) k.
Proof.
  intros Hlog Hnd Hl0 Hstart Hr Heq k.
  destruct (replica_inv_reachable _ Hlog Hstart Hr) as (Hle & _ & _ & Vm & Vl & Hlast & Hmem).
  rewrite Vm, Vl. assert (Hsplit : take i P = take j P ++ drop j (take i P)).
  { rewrite <-(take_drop j (take i P)) at 1. by rewrite take_take, Nat.min_l by lia. }
  assert (Hsub : (take i P).*1 ⊆+ P.*1).
  { rewrite <-(take_drop i P) at 2. rewrite fmap_app. apply submseteq_inserts_r. done. }
  assert (Hno : Forall (fun e => is_request e.2 = false) (drop j (take i P))).
  { apply (last_request_prefix l0 (take j P)); rewrite <-Hsplit.
    - rewrite <-(take_drop i P), fmap_app in Hnd. by apply NoDup_app in Hnd as (? & _).
    - intros Hin. apply Hl0. by eapply elem_of_submseteq.
    - rewrite <-Hlast, Heq. done. }
  rewrite Hsplit, LockSM.spec_run_app. cbn [snd]. by rewrite (spec_run_no_request _ _ Hno).
Qed.
End replica.

End clean.
End CleanThread.
