(* ===== verification/Startup.v ===== *)
(** * Starting a store and a lock server

    [Store::Init] and [Store::PaxosInit] of src/phxqueue/store/store.cpp,
    [Lock::Init] and [Lock::PaxosInit] of src/phxqueue/lock/lock.cpp,
    [CheckPointStatMgr::Init] of src/phxqueue/store/checkpointstat.cpp.

    [phxpaxos::Options] is a record of the fields the code sets; [RunNode], and
    [BeforeRunNode], which an installation may override, are arguments.  The
    directories are made in the file system of FileUtil.v; the contents of the
    mapped files, and whether the calls that map them succeed, are arguments.

    [store_members_agree] and [lock_members_agree] say that the servers of one
    group start paxos with the same members, whichever of them one asks. *)

From S2P Require Import Prelude RetCode TopicConfig FileUtil Keys StoreConfig Node StoreMeta SyncCtrl BaseMgr StoreSM KeepSync.
From S2P Require Import LockConfig LockDb LockMgr LockSM LockService.

(** ** [phxpaxos::Options] *)

Record GroupSMInfo := mkGroupSMInfo { iGroupIdx : Z; vecSMList : list Z; bIsUseMaster : bool }.

Record Options := mkOptions {
  vecNodeInfoList : list (string * Z);
  iGroupCount : Z;
  vecGroupSMInfoList : list GroupSMInfo;
  oMyNode : string * Z;
  bUseMembership : bool;
  sLogStoragePath : string;
  bUseCheckpointReplayer : bool;
  iSyncInterval : Z;
  bUseBatchPropose : bool;
  iIOThreadCount : Z;
}.

(** The members, from the addresses of the configuration. *)
Definition node_infos (addrs : list Addr) : list (string * Z) := (fun a => (ip a, paxos_port a)) <$> addrs.

(** One state machine for each group. *)
Definition group_infos (sm_id ngroup : Z) : list GroupSMInfo := (fun i => mkGroupSMInfo i [sm_id] true) <$> seqZ 0 ngroup.

(** The threads that [Init] runs. *)
Inductive thread := KeepSyncThread | KeepMasterThread | CleanThread.

(** What the two servers have in common when they run. *)
Record node_started := mkStarted { ns_topic_id : Z; ns_options : Options; ns_threads : list thread }.

(** The options beside those of [StoreOption] and [LockOption]. *)
Record StartOption := mkStartOption { topic_name : string; data_dir_path : string; nr_paxos_io_thread : Z }.

Definition LockSM_ID : Z := 1.

Module StoreStart.
Section start.
Context {F : Type} `{FS : FileSystem F}.
Context `{GC : GlobalConfig, TD : TopicDirectory, IN : Inet}.
Context (RunNode : Options -> Z) (BeforeRunNode : Options -> Options).
Context (opt : StoreOption) (so : StartOption).

(** The mapped files, and whether [open], [ftruncate] and [mmap] succeed. *)
Record mapped := mkMapped {
  sync_file : list SyncCtrlItem; sync_calls : bool * bool * bool;
  cp_file : Z -> option CheckPointStat.t; cp_calls : Z -> bool * bool * bool;
}.

(** [CheckPointStatMgr::Init]; the loop leaves at the first error. *)
Fixpoint init_stats (m : mapped) (cp_path : string) (ids : list Z) : RetCode * list CheckPointStat.t :=
  match ids with
  | [] => (RET_OK, [])
  | i :: ids =>
      let '(open_ok, ftruncate_ok, mmap_ok) := cp_calls m i in
      match CheckPointStat.Init cp_path (print i) (cp_file m i) open_ok ftruncate_ok mmap_ok with
      | (RET_OK, Some s) => let '(ret, stats) := init_stats m cp_path ids in (ret, s :: stats)
      | (ret, _) => (ret, [])
      end
  end.

Definition CheckPointStatMgr_Init (m : mapped) (fs : F) : RetCode * list CheckPointStat.t * F :=
  if opt_ngroup opt =? 0 then (RET_OK, [], fs) else
  let cp_path := data_dir_path so +:+ "/cp/" in
  let '(created, fs) := FileUtil.CreateDir cp_path fs in
  if negb created then (RET_DIR_NOT_EXIST, [], fs) else
  (init_stats m cp_path (seqZ 0 (opt_ngroup opt)), fs).

(** The options up to [BeforeRunNode]. *)
Definition options (tc : TopicConfig.t) (store : Store_proto) : Options := {|
  vecNodeInfoList := node_infos (addrs store);
  iGroupCount := opt_ngroup opt;
  vecGroupSMInfoList := group_infos StoreSM_ID (opt_ngroup opt);
  oMyNode := (ip (opt_addr opt), paxos_port (opt_addr opt));
  bUseMembership := false;
  sLogStoragePath := data_dir_path so +:+ "/nodedb/";
  bUseCheckpointReplayer := false;
  iSyncInterval := fsync_interval (store_paxos (TopicConfig.topic (TopicConfig.proto tc)));
  bUseBatchPropose := true;
  iIOThreadCount := nr_paxos_io_thread so;
|}.

Definition PaxosInit (topic_id : Z) (fs : F) : RetCode * option Options * F :=
  match GetTopicConfigByTopicID topic_id with
  | (RET_OK, Some topic_config) =>
      match GetStoreConfig topic_id with
      | (RET_OK, Some store_config) =>
          match StoreConfig.GetStoreByAddr store_config (opt_addr opt) with
          | (RET_OK, Some store) =>
              let '(created, fs) := FileUtil.CreateDir (data_dir_path so +:+ "/nodedb/") fs in
              if negb created then (RET_DIR_NOT_EXIST, None, fs) else
              let opts := BeforeRunNode (options topic_config store) in
              if negb (RunNode opts =? 0) then (RET_ERR_PAXOS_RUN_NODE, None, fs) else (RET_OK, Some opts, fs)
          | (ret, _) => (ret, None, fs)
          end
      | (ret, _) => (ret, None, fs)
      end
  | (ret, _) => (ret, None, fs)
  end.

(** The store and its node when [Init] succeeds. *)
Definition Init (m : mapped) (fs : F) : RetCode * option (Store * node_started) * F :=
  if negb (FileUtil.AccessDir (data_dir_path so) fs) then (RET_DIR_NOT_EXIST, None, fs) else
  match StoreService.InitTopicID opt (topic_name so) with
  | (RET_OK, Some topic_id) =>
      let '(ret, queues) := BaseMgr.Init opt in
      if negb (is_ok ret) then (ret, None, fs) else
      let '(open_ok, ftruncate_ok, mmap_ok) := sync_calls m in
      match SyncCtrl.Init opt (sync_file m) open_ok ftruncate_ok mmap_ok with
      | (RET_OK, Some buf) =>
          let '(ret, stats, fs) := CheckPointStatMgr_Init m fs in
          if negb (is_ok ret) then (ret, None, fs) else
          match PaxosInit topic_id fs with
          | (RET_OK, Some opts, fs) =>
              (RET_OK, Some (mkStoreState queues buf stats, mkStarted topic_id opts [KeepSyncThread; KeepMasterThread]), fs)
          | (ret, _, fs) => (ret, None, fs)
          end
      | (ret, _) => (ret, None, fs)
      end
  | (ret, _) => (ret, None, fs)
  end.

(** ** Properties *)

Lemma PaxosInit_ok topic_id fs opts fs' :
  PaxosInit topic_id fs = (RET_OK, Some opts, fs') ->
  exists tc sc store, GetTopicConfigByTopicID topic_id = (RET_OK, Some tc) /\ GetStoreConfig topic_id = (RET_OK, Some sc) /\
    StoreConfig.GetStoreByAddr sc (opt_addr opt) = (RET_OK, Some store) /\
    opts = BeforeRunNode (options tc store) /\ RunNode opts = 0.
Proof.
  unfold PaxosInit. destruct (GetTopicConfigByTopicID topic_id) as [[] [tc|]] eqn:E1; try done.
  destruct (GetStoreConfig topic_id) as [[] [sc|]] eqn:E2; try done.
  destruct (StoreConfig.GetStoreByAddr sc (opt_addr opt)) as [[] [store|]] eqn:E3; try done.
  destruct (FileUtil.CreateDir _ fs) as [[] fs1]; [|done]. cbn [negb]. case_match eqn:E4; [done|]. intros [= <- <-].
  simpl_bool. by exists tc, sc, store.
Qed.

Lemma init_stats_length m cp_path ids stats : init_stats m cp_path ids = (RET_OK, stats) -> length stats = length ids.
Proof.
  revert stats. induction ids as [|i ids IH]; intros stats; cbn [init_stats]; [by intros [= <-]|].
  destruct (cp_calls m i) as [[o f] mm]. destruct (CheckPointStat.Init _ _ _ _ _ _) as [[] [st|]] eqn:E; try done.
  2:{ unfold CheckPointStat.Init in E. by repeat case_match. }
  destruct (init_stats m cp_path ids) as [ret l]. intros [= -> <-]. simpl. by rewrite (IH l).
Qed.

(** A position in the mapped file is one that a cursor can have. *)
Definition item_real (item : SyncCtrlItem) : Prop := prev_valid item = true -> BaseMgr.real (prev_cursor_id item).

Lemma resize_real n file : Forall item_real file -> KeepSyncThread.positions_real opt (resize n zero_item file).
Proof.
  intros Hf. assert (Hr : Forall item_real (resize n zero_item file)).
  { destruct (decide (length file <= n)%nat).
    - rewrite resize_ge by done. apply Forall_app_2; [done|]. by apply Forall_replicate.
    - rewrite resize_le by lia. by apply Forall_take. }
  intros g q _. unfold SyncCtrl.item_of. destruct (resize n zero_item file !! _) as [item|] eqn:E; [|done].
  rewrite Forall_lookup in Hr. by apply (Hr _ _ E).
Qed.

Lemma Init_paxos m fs s n fs' :
  Init m fs = (RET_OK, Some (s, n), fs') -> exists fs1, PaxosInit (ns_topic_id n) fs1 = (RET_OK, Some (ns_options n), fs').
Proof.
  unfold Init. destruct (FileUtil.AccessDir _ _); [|done]. cbn [negb].
  destruct (StoreService.InitTopicID opt _) as [[] [id|]] eqn:Et; try done.
  destruct (sync_calls m) as [[o1 o2] o3]. unfold BaseMgr.Init. change (is_ok RET_OK) with true. cbn [negb].
  destruct (SyncCtrl.Init _ _ _ _ _) as [[] [buf|]]; try done.
  destruct (CheckPointStatMgr_Init m fs) as [[ret stats] fs1]. case_match; [done|].
  destruct (PaxosInit id fs1) as [[[] [opts|]] fs2] eqn:Ep; try done. intros [= <- <- <-]. by exists fs1.
Qed.

(** A store that has started is in the state that the theorems about its
    operations start from: empty queues, a position for every pair and a
    checkpoint for every group. *)
Lemma Init_started m fs s n fs' :
  Init m fs = (RET_OK, Some (s, n), fs') -> opt_ok opt -> Forall item_real (sync_file m) ->
  st_queues s = (BaseMgr.Init opt).2 /\ KeepSyncThread.store_ok opt s /\ Z.of_nat (length (st_cps s)) = opt_ngroup opt /\
  StoreService.InitTopicID opt (topic_name so) = (RET_OK, Some (ns_topic_id n)) /\
  exists fs1, PaxosInit (ns_topic_id n) fs1 = (RET_OK, Some (ns_options n), fs').
Proof.
  intros Hi Ho Hr. unfold Init in Hi. destruct (FileUtil.AccessDir _ _); [|done]. cbn [negb] in Hi.
  destruct (StoreService.InitTopicID opt _) as [[] [id|]] eqn:Et; try done. cbn [BaseMgr.Init] in Hi.
  destruct (sync_calls m) as [[o1 o2] o3]. unfold BaseMgr.Init in Hi. change (is_ok RET_OK) with true in Hi. cbn [negb] in Hi.
  destruct (SyncCtrl.Init _ _ _ _ _) as [[] [buf|]] eqn:Eb; try done.
  destruct (CheckPointStatMgr_Init m fs) as [[ret stats] fs1] eqn:Ec. destruct (is_ok ret) eqn:Er; [|done]. cbn [negb] in Hi.
  destruct (PaxosInit id fs1) as [[[] [opts|]] fs2] eqn:Ep; try done. injection Hi as <- <- <-. cbn [st_queues st_cps ns_topic_id ns_options].
  assert (Hbuf : buf = resize (Z.to_nat (opt_nconsumer_group opt * opt_nqueue opt)) zero_item (sync_file m)).
  { unfold SyncCtrl.Init in Eb. destruct o1, o2, o3; try done. by injection Eb as <-. }
  destruct Ho as (Ho1 & Ho2 & Ho3 & Ho4). split_and!; [done| | |done|by exists fs1].
  - split_and!; cbn [st_sync st_queues].
    + unfold SyncCtrl.buf_ok. rewrite Hbuf, length_resize. nia.
    + rewrite Hbuf. by apply resize_real.
    + rewrite length_replicate. lia.
    + apply Forall_replicate. split_and!; [constructor..|done].
  - apply bool_decide_eq_true in Er. subst ret. unfold CheckPointStatMgr_Init in Ec.
    rewrite (proj2 (Z.eqb_neq _ _)) in Ec by lia. destruct (FileUtil.CreateDir _ _) as [[] ?]; [|done]. cbn [negb] in Ec.
    injection Ec as Es _. apply init_stats_length in Es. rewrite Es, length_seqZ. lia.
Qed.
End start.
End StoreStart.

Module LockStart.
Section start.
Context {F : Type} `{FS : FileSystem F}.
Context `{LDB : LevelDB, RC : RecordCodec, GC : GlobalConfig, TD : TopicDirectory, LD : LockDirectory, IN : Inet}.
Context (RunNode : Options -> Z) (BeforeRunNode : Options -> Options).
Context (opt : LockOption) (so : StartOption).

Definition options (tc : TopicConfig.t) (lock : Lock_proto) : Options := {|
  vecNodeInfoList := node_infos (lock_addrs lock);
  iGroupCount := lo_nr_group opt;
  vecGroupSMInfoList := group_infos LockSM_ID (lo_nr_group opt);
  oMyNode := (ip (lo_addr opt), paxos_port (lo_addr opt));
  bUseMembership := false;
  sLogStoragePath := data_dir_path so +:+ "/nodedb/";
  bUseCheckpointReplayer := true;
  iSyncInterval := fsync_interval (lock_paxos (TopicConfig.topic (TopicConfig.proto tc)));
  bUseBatchPropose := false;
  iIOThreadCount := nr_paxos_io_thread so;
|}.

Definition PaxosInit (topic_id : Z) (fs : F) : RetCode * option Options * F :=
  match GetTopicConfigByTopicID topic_id with
  | (RET_OK, Some topic_config) =>
      match GetLockConfig topic_id with
      | (RET_OK, Some lock_config) =>
          match LockConfig.GetLockByAddr lock_config (lo_addr opt) with
          | (RET_OK, Some lock) =>
              let '(created, fs) := FileUtil.CreateDir (data_dir_path so +:+ "/nodedb/") fs in
              if negb created then (RET_DIR_NOT_EXIST, None, fs) else
              let opts := BeforeRunNode (options topic_config lock) in
              if negb (RunNode opts =? 0) then (RET_ERR_PAXOS_RUN_NODE, None, fs) else (RET_OK, Some opts, fs)
          | (ret, _) => (ret, None, fs)
          end
      | (ret, _) => (ret, None, fs)
      end
  | (ret, _) => (ret, None, fs)
  end.

(** [clock] is the clock of [LockMgr::Init]. *)
Definition Init (clock : Z -> nat -> Z) (fs : F) : option (RetCode * option (list LockMgr.GroupData * node_started) * F) :=
  match Lock.InitTopicID opt (topic_name so) with
  | (RET_OK, Some topic_id) =>
      let mirror_dir_path := data_dir_path so +:+ "/mirror/" in
      let '(created, fs) := FileUtil.CreateDir mirror_dir_path fs in
      if negb created then Some (RET_DIR_NOT_EXIST, None, fs) else
      gs ← LockMgr.Init clock (lo_nr_group opt) mirror_dir_path;
      let '(ret, groups) := gs in
      if negb (is_ok ret) then Some (ret, None, fs) else
      match PaxosInit topic_id fs with
      | (RET_OK, Some opts, fs) =>
          Some (RET_OK, Some (groups, mkStarted topic_id opts [CleanThread; KeepMasterThread]), fs)
      | (ret, _, fs) => Some (ret, None, fs)
      end
  | (ret, _) => Some (ret, None, fs)
  end.

(** ** Properties *)

Lemma lock_PaxosInit_ok topic_id fs opts fs' :
  PaxosInit topic_id fs = (RET_OK, Some opts, fs') ->
  exists tc lc lock, GetTopicConfigByTopicID topic_id = (RET_OK, Some tc) /\ GetLockConfig topic_id = (RET_OK, Some lc) /\
    LockConfig.GetLockByAddr lc (lo_addr opt) = (RET_OK, Some lock) /\
    opts = BeforeRunNode (options tc lock) /\ RunNode opts = 0.
Proof.
  unfold PaxosInit. destruct (GetTopicConfigByTopicID topic_id) as [[] [tc|]] eqn:E1; try done.
  destruct (GetLockConfig topic_id) as [[] [lc|]] eqn:E2; try done.
  destruct (LockConfig.GetLockByAddr lc (lo_addr opt)) as [[] [lock|]] eqn:E3; try done.
  destruct (FileUtil.CreateDir _ fs) as [[] fs1]; [|done]. cbn [negb]. case_match eqn:E4; [done|]. intros [= <- <-].
  simpl_bool. by exists tc, lc, lock.
Qed.

Lemma lock_Init_started clock fs groups n fs' :
  Init clock fs = Some (RET_OK, Some (groups, n), fs') -> 0 <= lo_nr_group opt ->
  LockMgr.Init clock (lo_nr_group opt) (data_dir_path so +:+ "/mirror/") = Some (RET_OK, groups) /\
  Z.of_nat (length groups) = lo_nr_group opt /\
  Lock.InitTopicID opt (topic_name so) = (RET_OK, Some (ns_topic_id n)) /\
  exists fs1, PaxosInit (ns_topic_id n) fs1 = (RET_OK, Some (ns_options n), fs').
Proof.
  unfold Init. destruct (Lock.InitTopicID opt _) as [[] [id|]] eqn:Et; try done.
  destruct (FileUtil.CreateDir _ fs) as [[] fs1]; [|done]. cbn [negb].
  destruct (LockMgr.Init _ _ _) as [[ret gs]|] eqn:El; [|done]. cbn [mbind option_bind].
  destruct (is_ok ret) eqn:Er; [|done]. cbn [negb]. apply bool_decide_eq_true in Er. subst ret.
  destruct (PaxosInit id fs1) as [[[] [opts|]] fs2] eqn:Ep; try done. intros [= <- <- <-] Hn.
  split_and!; [done| |done|by exists fs1].
  unfold LockMgr.Init in El. apply bind_Some in El as (gs' & Hm & [= <-]).
  apply mapM_Some, Forall2_length in Hm. rewrite <-Hm, length_seqZ. lia.
Qed.
End start.
End LockStart.

(** ** The members of a group *)

Section members.
Context `{IN : Inet}.

(** An address that a store lists leads to this store. *)
Lemma GetStoreByAddr_listed c id s a :
  StoreConfig.wf c -> StoreConfig.store_id2store c !! id = Some s -> a ∈ addrs s ->
  StoreConfig.GetStoreByAddr c a = (RET_OK, Some s).
Proof.
  intros [_ Ha] Hs Hin. unfold StoreConfig.GetStoreByAddr, StoreConfig.GetStoreIDByAddr, StoreConfig.GetStoreByStoreID.
  rewrite (proj2 (Ha (EncodeAddr a) id)) by eauto. by rewrite Hs.
Qed.

Lemma GetLockByAddr_listed c id s a :
  LockConfig.wf c -> LockConfig.lock_id2lock c !! id = Some s -> a ∈ lock_addrs s ->
  LockConfig.GetLockByAddr c a = (RET_OK, Some s).
Proof.
  intros [_ Ha] Hs Hin. unfold LockConfig.GetLockByAddr, LockConfig.GetLockIDByAddr, LockConfig.GetLockByLockID.
  rewrite (proj2 (Ha (EncodeAddr a) id)) by eauto. by rewrite Hs.
Qed.
End members.

Section agreement.
Context {F : Type} `{FS : FileSystem F}.
Context `{GC : GlobalConfig, TD : TopicDirectory, LD : LockDirectory, IN : Inet, LDB : LevelDB, RC : RecordCodec}.

(** C28: The servers of one store start with the same members, the configured
    addresses of the store, and with themselves among them; with the same
    number of groups they run the same state machines. *)
Theorem store_members_agree run_a run_b opt_a opt_b so_a so_b m_a m_b fs_a fs_b fs_a' fs_b' s_a s_b n_a n_b c id s :
  StoreStart.Init run_a (fun o => o) opt_a so_a m_a fs_a = (RET_OK, Some (s_a, n_a), fs_a') ->
  StoreStart.Init run_b (fun o => o) opt_b so_b m_b fs_b = (RET_OK, Some (s_b, n_b), fs_b') ->
  ns_topic_id n_a = ns_topic_id n_b -> GetStoreConfig (ns_topic_id n_a) = (RET_OK, Some c) ->
  StoreConfig.wf c -> StoreConfig.store_id2store c !! id = Some s ->
  opt_addr opt_a ∈ addrs s -> opt_addr opt_b ∈ addrs s -> opt_ngroup opt_a = opt_ngroup opt_b ->
  vecNodeInfoList (ns_options n_a) = node_infos (addrs s) /\
  vecNodeInfoList (ns_options n_b) = node_infos (addrs s) /\
  oMyNode (ns_options n_a) ∈ vecNodeInfoList (ns_options n_a) /\
  oMyNode (ns_options n_b) ∈ vecNodeInfoList (ns_options n_b) /\
  vecGroupSMInfoList (ns_options n_a) = vecGroupSMInfoList (ns_options n_b).
Proof.
  intros Ha Hb Hid Hc Hwf Hs Hina Hinb Hn.
  apply StoreStart.Init_paxos in Ha as (fa & (tca & sca & sta & _ & Hca & Hga & Ea & _)%StoreStart.PaxosInit_ok).
  apply StoreStart.Init_paxos in Hb as (fb & (tcb & scb & stb & _ & Hcb & Hgb & Eb & _)%StoreStart.PaxosInit_ok).
  rewrite <-Hid in Hcb. rewrite Hc in Hca, Hcb. injection Hca as <-. injection Hcb as <-.
  rewrite (GetStoreByAddr_listed c id s) in Hga, Hgb by done. injection Hga as <-. injection Hgb as <-.
  rewrite Ea, Eb. cbn [StoreStart.options vecNodeInfoList oMyNode vecGroupSMInfoList]. rewrite Hn.
  split_and!; try done; unfold node_infos; apply list_elem_of_fmap; eauto.
Qed.

(** The same of the lock servers. *)
Theorem lock_members_agree run_a run_b opt_a opt_b so_a so_b clock_a clock_b fs_a fs_b fs_a' fs_b' g_a g_b n_a n_b c id s :
  LockStart.Init run_a (fun o => o) opt_a so_a clock_a fs_a = Some (RET_OK, Some (g_a, n_a), fs_a') ->
  LockStart.Init run_b (fun o => o) opt_b so_b clock_b fs_b = Some (RET_OK, Some (g_b, n_b), fs_b') ->
  0 <= lo_nr_group opt_a -> lo_nr_group opt_a = lo_nr_group opt_b ->
  ns_topic_id n_a = ns_topic_id n_b -> GetLockConfig (ns_topic_id n_a) = (RET_OK, Some c) ->
  LockConfig.wf c -> LockConfig.lock_id2lock c !! id = Some s ->
  lo_addr opt_a ∈ lock_addrs s -> lo_addr opt_b ∈ lock_addrs s ->
  vecNodeInfoList (ns_options n_a) = node_infos (lock_addrs s) /\
  vecNodeInfoList (ns_options n_b) = node_infos (lock_addrs s) /\
  oMyNode (ns_options n_a) ∈ vecNodeInfoList (ns_options n_a) /\
  oMyNode (ns_options n_b) ∈ vecNodeInfoList (ns_options n_b) /\
  vecGroupSMInfoList (ns_options n_a) = vecGroupSMInfoList (ns_options n_b) /\ length g_a = length g_b.
Proof.
  intros Ha Hb Hp Hn Hid Hc Hwf Hs Hina Hinb.
  apply LockStart.lock_Init_started in Ha as (_ & Hla & _ & fa & (tca & sca & sta & _ & Hca & Hga & Ea & _)%LockStart.lock_PaxosInit_ok); [|done].
  apply LockStart.lock_Init_started in Hb as (_ & Hlb & _ & fb & (tcb & scb & stb & _ & Hcb & Hgb & Eb & _)%LockStart.lock_PaxosInit_ok); [|lia].
  rewrite <-Hid in Hcb. rewrite Hc in Hca, Hcb. injection Hca as <-. injection Hcb as <-.
  rewrite (GetLockByAddr_listed c id s) in Hga, Hgb by done. injection Hga as <-. injection Hgb as <-.
  rewrite Ea, Eb. cbn [LockStart.options vecNodeInfoList oMyNode vecGroupSMInfoList]. rewrite Hn.
  split_and!; try done; try (unfold node_infos; apply list_elem_of_fmap; eauto). lia.
Qed.
End agreement.
