(* ===== verification/GroupMaster.v ===== *)
(** * Which server is the master of a paxos group

    The keep-master threads of a store and of a lock server,
    src/phxqueue/store/keepmasterthread.cpp and src/phxqueue/lock/keepmasterthread.cpp.
    phxpaxos elects a master per paxos group; the threads move the mastership of
    group [g] to the server that the configuration lists at [g] modulo the number
    of servers.  That server proposes a value with its address, and the others drop
    the mastership when they execute it ([StoreSM.Execute], [LockSM.Execute]).

    The calls that a thread makes on its [phxpaxos::Node] are the result of the
    functions; what a proposal returns is only logged. *)

From Stdlib Require Import Floats.SpecFloat.
From S2P Require Import Prelude Float RetCode TopicConfig StoreConfig Node StoreMeta SyncCtrl BaseMgr StoreSM.
From S2P Require Import LockConfig LockDb LockMgr LockSM.

#[local] Set Default Proof Using "Type".

Module GroupMaster.

(** The calls on the node. *)
Inductive call :=
  | DropMaster (paxos_group_id : Z)
  | Propose (paxos_group_id : Z) (value : string)
  | SetTimeoutMs (n : Z)
  | SetHoldPaxosLogCount (n : Z)
  | SetMaxHoldThreads (paxos_group_id n : Z)
  | SetMasterLease (paxos_group_id n : Z)
  | SetProposeWaitTimeThresholdMS (paxos_group_id n : Z)
  | SetLogSync (paxos_group_id n : Z)
  | SetBatchCount (paxos_group_id n : Z)
  | SetBatchDelayTimeMs (paxos_group_id n : Z).

(** The fields of a [KeepMasterThread]. *)
Record t := mk {
  master_rate : Z;
  last_update_paxos_args_time : Z;
}.

Definition groups (ngroup : Z) : list Z := Z.of_nat <$> seq 0 (Z.to_nat ngroup).

(** [(double)g / ngroup * 100.0 + 0.5 > master_rate] *)
Definition rate_too_low (rate ngroup g : Z) : bool :=
  let dbl := of_int float64 in
  flt (dbl rate)
    (fadd float64 (fmul float64 (fdiv float64 (dbl g) (dbl ngroup)) (dbl 100)) (fdiv float64 (dbl 1) (dbl 2))).

(** The body of the loop over the groups; [idx] is the server's index among
    [size] servers. *)
Definition group_calls (NeedDropMaster IsIMMaster : Z -> bool) (rate ngroup idx size : Z) (value : Z -> string) (g : Z)
    : list call :=
  if rate_too_low rate ngroup g then [DropMaster g]
  else if NeedDropMaster g then [DropMaster g]
  else if IsIMMaster g then []
  else if negb (idx =? g mod size) then []
  else [Propose g (value g)].

(** The index of the server among the addresses. *)
Definition index_of (addr : Addr) (addrs : list Addr) : option Z :=
  match list_find (fun a => StoreSM.addr_eq addr a = true) addrs with
  | Some (i, _) => Some (Z.of_nat i)
  | None => None
  end.

(** ** The loop's calls about one group *)

Lemma elem_of_concat_fmap {A B} (f : A -> list B) l x : x ∈ concat (f <$> l) <-> exists k, k ∈ l /\ x ∈ f k.
Proof.
  rewrite list_elem_of_In, in_concat. split.
  - intros (c & (k & -> & Hk)%list_elem_of_In%list_elem_of_fmap & Hx). exists k. by rewrite (list_elem_of_In (f k)).
  - intros (k & Hk & Hx). exists (f k). rewrite <-!list_elem_of_In. split; [|done]. apply list_elem_of_fmap. by exists k.
Qed.


Definition about (g : Z) (c : call) : Prop :=
  match c with DropMaster g' => g' = g | Propose g' _ => g' = g | _ => False end.

#[global] Instance about_dec g c : Decision (about g c).
Proof. destruct c; simpl; apply _. Defined.

Lemma elem_of_groups n g : g ∈ groups n <-> 0 <= g < n.
Proof.
  unfold groups. rewrite list_elem_of_fmap. split.
  - intros (k & -> & Hk%elem_of_seq). lia.
  - intros Hg. exists (Z.to_nat g). rewrite elem_of_seq. lia.
Qed.

Lemma groups_NoDup n : NoDup (groups n).
Proof. apply (NoDup_fmap_2 _), NoDup_seq. Qed.

Lemma group_calls_about drop im rate n idx size value g c :
  c ∈ group_calls drop im rate n idx size value g -> about g c.
Proof.
  unfold group_calls. repeat case_match; rewrite ?list_elem_of_singleton; try (by intros ->); by intros ?%elem_of_nil.
Qed.

Lemma calls_about (f : Z -> list call) l g :
  NoDup l -> (forall k c, c ∈ f k -> about k c) ->
  filter (about g) (concat (f <$> l)) = if decide (g ∈ l) then f g else [].
Proof.
  intros Hnd Hf. induction Hnd as [|k l Hk _ IH]; [done|]. cbn [fmap list_fmap concat]. rewrite filter_app, IH. destruct (decide (k = g)) as [->|Hne].
  - rewrite (decide_False (P := g ∈ l)), (decide_True (P := g ∈ g :: l)), app_nil_r by (done || left).
    apply filter_all, Forall_forall. intros c Hc. by apply Hf.
  - assert (filter (about g) (f k) = []) as ->.
    { apply filter_none, Forall_forall. intros c Hc Hg. apply Hf in Hc. destruct c; simpl in *; congruence. }
    simpl. destruct (decide (g ∈ l)); [rewrite decide_True by (by right)|rewrite decide_False by (by intros [?|?]%elem_of_cons)]; done.
Qed.

(** ** Who is to be the master *)

(** At the full rate, with at most 200 groups, no group is dropped for the
    rate. *)
Lemma full_rate n g : 0 <= g < n -> n <= 200 -> rate_too_low 100 n g = false.
Proof.
  intros Hg Hn.
  assert (H : forallb (fun n => forallb (fun g => negb (rate_too_low 100 n g)) (groups n)) (groups 201) = true)
    by (vm_compute; reflexivity).
  rewrite forallb_forall in H. specialize (H n). rewrite <-list_elem_of_In, elem_of_groups, forallb_forall in H.
  specialize (H ltac:(lia) g). rewrite <-list_elem_of_In, elem_of_groups in H. by apply negb_true_iff, H.
Qed.

Lemma addr_eq_spec a b : StoreSM.addr_eq a b = bool_decide (a = b).
Proof.
  unfold StoreSM.addr_eq. destruct a as [i p x], b as [i' p' x']; simpl.
  destruct (decide (i = i')) as [->|Hne].
  2: { rewrite !bool_decide_eq_false_2; [done|congruence|done]. }
  rewrite bool_decide_eq_true_2 by done. destruct (Z.eqb_spec p p'), (Z.eqb_spec x x'); simpl; subst.
  - by rewrite bool_decide_eq_true_2.
  - rewrite bool_decide_eq_false_2; congruence.
  - rewrite bool_decide_eq_false_2; congruence.
  - rewrite bool_decide_eq_false_2; congruence.
Qed.

Lemma index_of_lookup addrs i a : NoDup addrs -> addrs !! i = Some a -> index_of a addrs = Some (Z.of_nat i).
Proof.
  intros Hnd Hi. unfold index_of. assert (Hf : list_find (fun b => StoreSM.addr_eq a b = true) addrs = Some (i, a)); [|by rewrite Hf].
  apply list_find_Some. split_and!; [done| |].
  - by rewrite addr_eq_spec, bool_decide_eq_true_2.
  - intros j b Hj Hlt Heq. rewrite addr_eq_spec in Heq. apply bool_decide_eq_true in Heq as <-.
    pose proof (NoDup_lookup _ _ _ _ Hnd Hi Hj). lia.
Qed.

(** The server that is to be the master of group [g]. *)
Definition preferred (addrs : list Addr) (g : Z) : option Addr := addrs !! Z.to_nat (g mod Z.of_nat (length addrs)).

(** A server at the full rate makes the calls of its place. *)
Lemma group_calls_preferred im n addrs a value g :
  NoDup addrs -> a ∈ addrs -> 0 <= g < n -> n <= 200 ->
  exists i, index_of a addrs = Some i /\
    group_calls (fun _ => false) im 100 n i (Z.of_nat (length addrs)) value g =
      if negb (im g) && bool_decide (preferred addrs g = Some a) then [Propose g (value g)] else [].
Proof.
  intros Hnd (i & Hi)%list_elem_of_lookup Hg Hn. exists (Z.of_nat i). split; [by apply index_of_lookup|].
  unfold group_calls. rewrite full_rate by done. destruct (im g); [done|]. simpl. pose proof (lookup_lt_Some _ _ _ Hi).
  pose proof (Z.mod_pos_bound g (Z.of_nat (length addrs)) ltac:(lia)). unfold preferred.
  destruct (Z.eqb_spec (Z.of_nat i) (g mod Z.of_nat (length addrs))) as [E|E]; simpl.
  - rewrite bool_decide_eq_true_2; [done|]. by rewrite <-E, Nat2Z.id.
  - rewrite bool_decide_eq_false_2; [done|]. intros Hp. pose proof (NoDup_lookup _ _ _ _ Hnd Hi Hp). lia.
Qed.

Lemma preferred_Some addrs g : addrs <> [] -> exists a, preferred addrs g = Some a /\ a ∈ addrs.
Proof.
  intros Hne. unfold preferred. assert (0 < Z.of_nat (length addrs)) by (destruct addrs; simpl; [done|lia]).
  destruct (lookup_lt_is_Some_2 addrs (Z.to_nat (g mod Z.of_nat (length addrs)))) as [a Ha].
  { pose proof (Z.mod_pos_bound g (Z.of_nat (length addrs))). lia. }
  exists a. split; [done|by eapply list_elem_of_lookup_2].
Qed.

Lemma announces_if (b : bool) (x a : Addr) (l : Addr -> list call) :
  (if negb b && bool_decide (Some a = Some x) then l x else []) = if negb b && bool_decide (x = a) then l a else [].
Proof.
  destruct b; [done|]. simpl. destruct (decide (x = a)) as [->|Hne]; [by rewrite !bool_decide_eq_true_2|].
  rewrite !bool_decide_eq_false_2 by congruence. done.
Qed.

(** Settings are about no group's mastership. *)
Definition is_setting (c : call) : bool := match c with DropMaster _ | Propose _ _ => false | _ => true end.

Lemma settings_about a b (f : Z -> list call) l g :
  is_setting a = true -> is_setting b = true -> (forall k, forallb is_setting (f k) = true) ->
  filter (about g) (a :: b :: concat (f <$> l)) = [].
Proof.
  intros Ha Hb Hf. apply filter_none, Forall_forall. intros x Hx Hg.
  assert (is_setting x = true) as Hs; [|by destruct x].
  apply elem_of_cons in Hx as [->|Hx]; [done|]. apply elem_of_cons in Hx as [->|Hx]; [done|].
  apply elem_of_concat_fmap in Hx as (k & _ & Hx).
  specialize (Hf k). rewrite forallb_forall in Hf. by apply Hf, list_elem_of_In.
Qed.

(** With more groups the last one is above the full rate. *)
Lemma last_above_full_rate n : 200 < n <= 1000 -> rate_too_low 100 n (n - 1) = true.
Proof.
  intros Hn.
  assert (H : forallb (fun n => (n <=? 200) || rate_too_low 100 n (n - 1)) (groups 1001) = true) by (vm_compute; reflexivity).
  rewrite forallb_forall in H. specialize (H n). rewrite <-list_elem_of_In, elem_of_groups in H. specialize (H ltac:(lia)).
  by rewrite (proj2 (Z.leb_gt _ _)) in H by lia.
Qed.
End GroupMaster.

(** ** The store *)
Module StoreKeepMaster.
Import GroupMaster.
Section store.
Context `{GC : GlobalConfig, PN : PaxosNode, SC : StoreCodec, IN : Inet}.
Context (opt : StoreOption) (topic_id : Z) (NeedDropMaster : Z -> bool).

Definition new : t := mk 0 0.

(** [IsIMMaster] of every group, then the bounds of the configuration. *)
Definition InitMasterRate : Z :=
  match GetTopicConfigByTopicID topic_id with
  | (RET_OK, Some c) =>
      let p := TopicConfig.store_paxos (TopicConfig.topic (TopicConfig.proto c)) in
      let n := opt_ngroup opt in
      let rate := foldl (fun rate g =>
        if IsIMMaster g then Z.quot (g * 100) n + (if Z.rem (g * 100) n =? 0 then 0 else 1) else rate) 0 (groups n) in
      if rate <? TopicConfig.adjust_min_master_rate p then TopicConfig.adjust_min_master_rate p
      else if TopicConfig.adjust_max_master_rate p <? rate then TopicConfig.adjust_max_master_rate p
      else rate
  | _ => 0
  end.

Definition AdjustMasterRate (st : t) : t :=
  match GetTopicConfigByTopicID topic_id with
  | (RET_OK, Some c) =>
      mk (TopicConfig.adjust_max_master_rate (TopicConfig.store_paxos (TopicConfig.topic (TopicConfig.proto c))))
        (last_update_paxos_args_time st)
  | _ => st
  end.

(** The value that announces a master. *)
Definition master_value (addr : Addr) (timestamp : Z) : string :=
  SerializeToString (mkStorePaxosArgs None None addr timestamp).

(** [clock] gives the time when the value of a group is made. *)
Definition KeepMaster (clock : Z -> Z) (st : t) : list call :=
  match GetTopicConfigByTopicID topic_id with
  | (RET_OK, Some _) =>
      match GetStoreConfig topic_id with
      | (RET_OK, Some store_config) =>
          match StoreConfig.GetStoreByAddr store_config (opt_addr opt) with
          | (RET_OK, Some store) =>
              match index_of (opt_addr opt) (addrs store) with
              | None => []
              | Some idx_in_store =>
                  concat (group_calls NeedDropMaster IsIMMaster (master_rate st) (opt_ngroup opt) idx_in_store
                            (Z.of_nat (length (addrs store))) (fun g => master_value (opt_addr opt) (clock g))
                          <$> groups (opt_ngroup opt))
              end
          | _ => []
          end
      | _ => []
      end
  | _ => []
  end.

(** [mod_time] is the time of the topic's configuration. *)
Definition UpdatePaxosArgs (mod_time : Z) (st : t) : list call * t :=
  match GetTopicConfigByTopicID topic_id with
  | (RET_OK, Some c) =>
      if last_update_paxos_args_time st =? mod_time then ([], st) else
      let p := TopicConfig.store_paxos (TopicConfig.topic (TopicConfig.proto c)) in
      (SetTimeoutMs (TopicConfig.propose_timeout_ms p) :: SetHoldPaxosLogCount (TopicConfig.hold_log_count p) ::
       concat ((fun g =>
         [SetMaxHoldThreads g (TopicConfig.max_hold_threads p); SetMasterLease g (TopicConfig.master_lease p);
          SetProposeWaitTimeThresholdMS g (TopicConfig.propose_wait_time_threshold_ms p);
          SetLogSync g (TopicConfig.log_sync p); SetBatchCount g (TopicConfig.batch_count p);
          SetBatchDelayTimeMs g (TopicConfig.batch_delay_time_ms p)]) <$> groups (opt_ngroup opt)),
       mk (master_rate st) mod_time)
  | _ => ([], st)
  end.

(** A turn of [DoRun]. *)
Definition turn (mod_time : Z) (clock : Z -> Z) (st : t) : list call * t :=
  let '(calls, st) := UpdatePaxosArgs mod_time st in
  let st := AdjustMasterRate st in
  (calls ++ KeepMaster clock st, st).

Lemma store_settings_about mod_time st g : filter (about g) (UpdatePaxosArgs mod_time st).1 = [].
Proof.
  unfold UpdatePaxosArgs. destruct (GetTopicConfigByTopicID topic_id) as [[] [c|]]; try done.
  destruct (_ =? _); [done|]. by apply settings_about.
Qed.
End store.

(** What a server of a store does about group [g] in a turn. *)
Lemma store_turn_about `{GC : GlobalConfig, PN : PaxosNode, SC : StoreCodec, IN : Inet} opt topic_id mod_time clock st tc sc s g :
  GetTopicConfigByTopicID topic_id = (RET_OK, Some tc) ->
  TopicConfig.adjust_max_master_rate (TopicConfig.store_paxos (TopicConfig.topic (TopicConfig.proto tc))) = 100 ->
  GetStoreConfig topic_id = (RET_OK, Some sc) -> StoreConfig.GetStoreByAddr sc (opt_addr opt) = (RET_OK, Some s) ->
  NoDup (addrs s) -> opt_addr opt ∈ addrs s -> 0 <= g < opt_ngroup opt -> opt_ngroup opt <= 200 ->
  filter (about g) (turn opt topic_id (fun _ => false) mod_time clock st).1 =
    if negb (IsIMMaster g) && bool_decide (preferred (addrs s) g = Some (opt_addr opt))
    then [Propose g (master_value (opt_addr opt) (clock g))] else [].
Proof.
  intros Ht Hr Hsc Hs Hnd Ha Hg Hn. unfold turn. pose proof (store_settings_about opt topic_id mod_time st g) as Hu.
  destruct (UpdatePaxosArgs opt topic_id mod_time st) as [calls st1]. cbn [fst] in *. rewrite filter_app, Hu. simpl.
  unfold KeepMaster, AdjustMasterRate. rewrite Ht, Hsc, Hs, Hr. cbn [master_rate].
  destruct (group_calls_preferred IsIMMaster (opt_ngroup opt) (addrs s) (opt_addr opt)
              (fun g => master_value (opt_addr opt) (clock g)) g) as (i & -> & Hc); [done..|].
  rewrite calls_about; [|apply groups_NoDup|intros; by eapply group_calls_about].
  rewrite decide_True by by apply elem_of_groups. exact Hc.
Qed.

(** C33: Each group's mastership goes to one server.  With the default maximal rate
    of 100, at most 200 groups and no application that drops masterships, every
    group of a store has one preferred server: in each of their turns no server
    drops the group, no other server proposes for it, and the preferred one
    proposes a value whenever it is not the master; a server that executes that
    value drops the mastership exactly when it is another one, and changes
    nothing else. *)
Theorem store_preferred_master `{GC : GlobalConfig, SC : StoreCodec, IN : Inet} crc32 topic_id tc sc s ngroup g :
  (forall a, ParseFromString (SerializeToString a) = Some a) ->
  GetTopicConfigByTopicID topic_id = (RET_OK, Some tc) ->
  TopicConfig.adjust_max_master_rate (TopicConfig.store_paxos (TopicConfig.topic (TopicConfig.proto tc))) = 100 ->
  GetStoreConfig topic_id = (RET_OK, Some sc) ->
  (forall a, a ∈ addrs s -> StoreConfig.GetStoreByAddr sc a = (RET_OK, Some s) /\ ip a <> ""%string) ->
  NoDup (addrs s) -> addrs s <> [] -> 0 <= g < ngroup -> ngroup <= 200 ->
  exists a, a ∈ addrs s /\
    forall opt, opt_addr opt ∈ addrs s -> opt_ngroup opt = ngroup ->
      (forall `(PN : PaxosNode) mod_time clock st,
         filter (about g) (turn opt topic_id (fun _ => false) mod_time clock st).1 =
         if negb (IsIMMaster g) && bool_decide (opt_addr opt = a) then [Propose g (master_value a (clock g))] else []) /\
      forall node_ready store instance_id timestamp,
        StoreSM.Execute crc32 opt topic_id node_ready store instance_id (master_value a timestamp) =
        Some (StoreSM.mkResult true RET_OK (bool_decide (opt_addr opt <> a) && node_ready), store).
Proof.
  intros Hcodec Ht Hr Hsc Hs Hnd Hne Hg Hn. destruct (preferred_Some (addrs s) g Hne) as (a & Hp & Ha).
  exists a. split; [done|]. intros opt Hopt <-. split.
  - intros PN mod_time clock st. destruct (Hs _ Hopt) as [Hso _]. rewrite (store_turn_about _ _ _ _ _ tc sc s) by done. rewrite Hp.
    by apply (announces_if _ _ _ (fun x => [Propose g (master_value x (clock g))])).
  - intros node_ready store instance_id timestamp. unfold StoreSM.Execute, master_value. rewrite Hcodec. simpl.
    unfold StoreSM.other_master. rewrite bool_decide_eq_false_2 by by apply Hs. simpl.
    by rewrite addr_eq_spec, bool_decide_not.
Qed.

(** More groups than the rate can say.  With 201 to 1000 groups, every store
    drops the mastership of the last group in each of its turns, although the
    rate is 100. *)
Theorem last_group_dropped `{GC : GlobalConfig, PN : PaxosNode, SC : StoreCodec, IN : Inet} opt topic_id drop mod_time clock st tc sc s :
  GetTopicConfigByTopicID topic_id = (RET_OK, Some tc) ->
  TopicConfig.adjust_max_master_rate (TopicConfig.store_paxos (TopicConfig.topic (TopicConfig.proto tc))) = 100 ->
  GetStoreConfig topic_id = (RET_OK, Some sc) -> StoreConfig.GetStoreByAddr sc (opt_addr opt) = (RET_OK, Some s) ->
  NoDup (addrs s) -> opt_addr opt ∈ addrs s -> 200 < opt_ngroup opt <= 1000 ->
  DropMaster (opt_ngroup opt - 1) ∈ (turn opt topic_id drop mod_time clock st).1.
Proof.
  intros Ht Hr Hsc Hs Hnd (i & Hi)%list_elem_of_lookup Hn. unfold turn.
  destruct (UpdatePaxosArgs opt topic_id mod_time st) as [calls st1]. apply elem_of_app. right.
  unfold KeepMaster, AdjustMasterRate. rewrite Ht, Hsc, Hs, Hr, (index_of_lookup _ _ _ Hnd Hi). cbn [master_rate].
  apply elem_of_concat_fmap. exists (opt_ngroup opt - 1). split.
  - apply elem_of_groups. lia.
  - unfold group_calls. rewrite last_above_full_rate by done. left.
Qed.
End StoreKeepMaster.

(** ** The lock server *)
Module LockKeepMaster.
Import GroupMaster.
Section lock.
Context `{GC : GlobalConfig, LD : LockDirectory, PN : PaxosNode, LC : LockCodec, IN : Inet}.
Context (opt : LockOption) (topic_id : Z) (NeedDropMaster : Z -> bool).

Definition new : t := mk 0 0.

Definition InitMasterRate (st : t) : RetCode * t := (RET_OK, mk 100 (last_update_paxos_args_time st)).

Definition AdjustMasterRate (st : t) : RetCode * t :=
  match GetTopicConfigByTopicID topic_id with
  | (RET_OK, Some c) =>
      (RET_OK, mk (TopicConfig.adjust_max_master_rate (TopicConfig.lock_paxos (TopicConfig.topic (TopicConfig.proto c))))
                 (last_update_paxos_args_time st))
  | (ret, _) => (ret, st)
  end.

Definition master_value (addr : Addr) : string := lock_SerializeToString (mkLockPaxosArgs None None addr).

Definition KeepMaster (st : t) : RetCode * list call :=
  match GetTopicConfigByTopicID topic_id with
  | (RET_OK, Some _) =>
      match GetLockConfig topic_id with
      | (RET_OK, Some lock_config) =>
          match LockConfig.GetLockByAddr lock_config (lo_addr opt) with
          | (RET_OK, Some lock) =>
              match index_of (lo_addr opt) (lock_addrs lock) with
              | None => (RET_ERR_LOGIC, [])
              | Some idx_in_lock =>
                  (RET_OK, concat (group_calls NeedDropMaster IsIMMaster (master_rate st) (lo_nr_group opt) idx_in_lock
                                     (Z.of_nat (length (lock_addrs lock))) (fun _ => master_value (lo_addr opt))
                                   <$> groups (lo_nr_group opt)))
              end
          | (ret, _) => (ret, [])
          end
      | (ret, _) => (ret, [])
      end
  | (ret, _) => (ret, [])
  end.

Definition ProposeMaster (paxos_group_id : Z) (addr : Addr) : RetCode * list call :=
  (RET_OK, [Propose paxos_group_id (master_value addr)]).

(** There is no batch count for the groups of a lock server. *)
Definition UpdatePaxosArgs (mod_time : Z) (st : t) : RetCode * list call * t :=
  match GetTopicConfigByTopicID topic_id with
  | (RET_OK, Some c) =>
      if last_update_paxos_args_time st =? mod_time then (RET_OK, [], st) else
      let p := TopicConfig.lock_paxos (TopicConfig.topic (TopicConfig.proto c)) in
      (RET_OK,
       SetTimeoutMs (TopicConfig.propose_timeout_ms p) :: SetHoldPaxosLogCount (TopicConfig.hold_log_count p) ::
       concat ((fun g =>
         [SetMaxHoldThreads g (TopicConfig.max_hold_threads p); SetMasterLease g (TopicConfig.master_lease p);
          SetProposeWaitTimeThresholdMS g (TopicConfig.propose_wait_time_threshold_ms p);
          SetLogSync g (TopicConfig.log_sync p); SetBatchDelayTimeMs g (TopicConfig.batch_delay_time_ms p)])
               <$> groups (lo_nr_group opt)),
       mk (master_rate st) mod_time)
  | (ret, _) => (ret, [], st)
  end.

(** A turn of [DoRun]; errors are logged. *)
Definition turn (mod_time : Z) (st : t) : list call * t :=
  let '(_, calls, st) := UpdatePaxosArgs mod_time st in
  let '(_, st) := AdjustMasterRate st in
  (calls ++ (KeepMaster st).2, st).

Lemma lock_settings_about mod_time st g : filter (about g) (UpdatePaxosArgs mod_time st).1.2 = [].
Proof.
  unfold UpdatePaxosArgs. destruct (GetTopicConfigByTopicID topic_id) as [[] [c|]]; try done.
  destruct (_ =? _); [done|]. by apply settings_about.
Qed.
End lock.

Lemma lock_turn_about `{GC : GlobalConfig, LD : LockDirectory, PN : PaxosNode, LC : LockCodec, IN : Inet}
    opt topic_id mod_time st tc lc l g :
  GetTopicConfigByTopicID topic_id = (RET_OK, Some tc) ->
  TopicConfig.adjust_max_master_rate (TopicConfig.lock_paxos (TopicConfig.topic (TopicConfig.proto tc))) = 100 ->
  GetLockConfig topic_id = (RET_OK, Some lc) -> LockConfig.GetLockByAddr lc (lo_addr opt) = (RET_OK, Some l) ->
  NoDup (lock_addrs l) -> lo_addr opt ∈ lock_addrs l -> 0 <= g < lo_nr_group opt -> lo_nr_group opt <= 200 ->
  filter (about g) (turn opt topic_id (fun _ => false) mod_time st).1 =
    if negb (IsIMMaster g) && bool_decide (preferred (lock_addrs l) g = Some (lo_addr opt))
    then [Propose g (master_value (lo_addr opt))] else [].
Proof.
  intros Ht Hr Hlc Hl Hnd Ha Hg Hn. unfold turn. pose proof (lock_settings_about opt topic_id mod_time st g) as Hu.
  destruct (UpdatePaxosArgs opt topic_id mod_time st) as [[ret calls] st1]. unfold AdjustMasterRate. rewrite Ht.
  cbn [fst snd] in *. rewrite filter_app, Hu. simpl.
  unfold KeepMaster. rewrite Ht, Hlc, Hl, Hr. cbn [master_rate].
  destruct (group_calls_preferred IsIMMaster (lo_nr_group opt) (lock_addrs l) (lo_addr opt)
              (fun _ => master_value (lo_addr opt)) g) as (i & -> & Hc); [done..|]. cbn [snd].
  rewrite calls_about; [|apply groups_NoDup|intros; by eapply group_calls_about].
  rewrite decide_True by by apply elem_of_groups. exact Hc.
Qed.

(** The lock servers share their groups as the stores do. *)
Theorem lock_preferred_master `{GC : GlobalConfig, LD : LockDirectory, LC : LockCodec, LDB : LevelDB, RC : RecordCodec, IN : Inet}
    topic_id tc lc l ngroup g :
  (forall a, lock_ParseFromString (lock_SerializeToString a) = Some a) ->
  GetTopicConfigByTopicID topic_id = (RET_OK, Some tc) ->
  TopicConfig.adjust_max_master_rate (TopicConfig.lock_paxos (TopicConfig.topic (TopicConfig.proto tc))) = 100 ->
  GetLockConfig topic_id = (RET_OK, Some lc) ->
  (forall a, a ∈ lock_addrs l -> LockConfig.GetLockByAddr lc a = (RET_OK, Some l) /\ ip a <> ""%string) ->
  NoDup (lock_addrs l) -> lock_addrs l <> [] -> 0 <= g < ngroup -> ngroup <= 200 ->
  exists a, a ∈ lock_addrs l /\
    forall opt, lo_addr opt ∈ lock_addrs l -> lo_nr_group opt = ngroup ->
      (forall `(PN : PaxosNode) mod_time st,
         filter (about g) (turn opt topic_id (fun _ => false) mod_time st).1 =
         if negb (IsIMMaster g) && bool_decide (lo_addr opt = a) then [Propose g (master_value a)] else []) /\
      forall now1 now2 node_ready groups instance_id, (Z.to_nat g < length groups)%nat ->
        LockSM.Execute opt now1 now2 node_ready groups g instance_id (master_value a) =
        Some (true, None, bool_decide (lo_addr opt <> a) && node_ready, groups).
Proof.
  intros Hcodec Ht Hr Hlc Hl Hnd Hne Hg Hn. destruct (preferred_Some (lock_addrs l) g Hne) as (a & Hp & Ha).
  exists a. split; [done|]. intros opt Hopt <-. split.
  - intros PN mod_time st. destruct (Hl _ Hopt) as [Hlo _]. rewrite (lock_turn_about _ _ _ _ tc lc l) by done. rewrite Hp.
    by apply (announces_if _ _ _ (fun x => [Propose g (master_value x)])).
  - intros now1 now2 node_ready gs instance_id Hlt. unfold LockSM.Execute, master_value. rewrite Hcodec. simpl.
    destruct (lookup_lt_is_Some_2 gs (Z.to_nat g)) as [x Hx]; [lia|]. rewrite Hx. simpl. rewrite list_insert_id by done.
    do 4 f_equal. unfold LockSM.other_master. rewrite bool_decide_eq_false_2 by by apply Hl. simpl.
    fold (StoreSM.addr_eq (lo_addr opt) a). by rewrite addr_eq_spec, bool_decide_not.
Qed.
End LockKeepMaster.
