(* ===== verification/ConsumerConfig.v ===== *)
(** * The consumer configuration

    src/phxqueue/config/consumerconfig.cpp, the interface [ConsumerDirectory]
    through which the consumers reach it, and [GetConsumerGroupIDsByConsumerAddr]
    of src/phxqueue/config/utils/consumer_group_util.cpp. *)

From S2P Require Import Prelude RetCode TopicConfig StoreConfig.

Record Consumer_proto := mkConsumer {
  consumer_addr : Addr;
  consumer_scale : Z;
  consumer_group_ids : list Z;
}.

(** [comm::proto::AddrScale]. *)
Record AddrScale := mkAddrScale { as_addr : Addr; as_scale : Z }.

Module ConsumerConfig.
Section with_inet.
Context `{Inet}.

(** [addr2consumer]. *)
Definition t : Type := gmap Z Consumer_proto.

Definition ReadConfig : RetCode * list Consumer_proto :=
  (RET_OK, (fun port => mkConsumer (mkAddr "127.0.0.1" port 0) 100 [1; 2]) <$> [8001; 8002; 8003]).

Definition rebuild_consumer (need_check : bool) (c : t) (consumer : Consumer_proto) : option t :=
  _ ← TopicConfig.check need_check (bool_decide (c !! EncodeAddr (consumer_addr consumer) = None));
  Some (emplace (EncodeAddr (consumer_addr consumer)) consumer c).

Definition Rebuild (need_check : bool) (consumers : list Consumer_proto) : option (RetCode * t) :=
  c ← foldM (rebuild_consumer need_check) ∅ consumers; Some (RET_OK, c).

Definition GetAllConsumer (c : t) (consumers : list Consumer_proto) : RetCode * list Consumer_proto :=
  (RET_OK, consumers ++ (snd <$> map_items c)).

Definition GetConsumerByAddr (c : t) (addr : Addr) : RetCode * option Consumer_proto :=
  match c !! EncodeAddr addr with
  | None => (RET_ERR_RANGE_ADDR, None)
  | Some consumer => (RET_OK, Some consumer)
  end.
End with_inet.
End ConsumerConfig.

Class ConsumerDirectory := {
  GetConsumerConfig : Z -> RetCode * option ConsumerConfig.t;
  (* RET_OK comes with a configuration *)
  GetConsumerConfig_found topic_id : GetConsumerConfig topic_id <> (RET_OK, None);
}.

Section consumer_group_util.
Context `{Inet, GlobalConfig, ConsumerDirectory}.

(** The groups a consumer serves: those it names, all of them when it names
    none, without the ones the topic excludes. *)
Definition GetConsumerGroupIDsByConsumerAddr (topic_id : Z) (addr : Addr) : RetCode * gset Z :=
  match GetConsumerConfig topic_id with
  | (RET_OK, Some consumer_config) =>
      match ConsumerConfig.GetConsumerByAddr consumer_config addr with
      | (RET_OK, Some consumer) =>
          match GetTopicConfigByTopicID topic_id with
          | (RET_OK, Some topic_config) =>
              let ignore : gset Z := list_to_set (TopicConfig.consumer_ignore_consumer_group_ids
                                        (TopicConfig.topic (TopicConfig.proto topic_config))) in
              match consumer_group_ids consumer with
              | [] => match TopicConfig.GetAllConsumerGroupID topic_config with
                      | (RET_OK, ids) => (RET_OK, ids ∖ ignore)
                      | (ret, ids) => (ret, ids)
                      end
              | ids => (RET_OK, list_to_set (filter (fun id =>
                          TopicConfig.IsValidConsumerGroupID topic_config id = true /\ id ∉ ignore) ids))
              end
          | (ret, _) => (ret, ∅)
          end
      | (ret, _) => (ret, ∅)
      end
  | (ret, _) => (ret, ∅)
  end.
End consumer_group_util.
