(* ===== verification/GlobalConf.v ===== *)
(** * The configuration of all topics

    [GlobalConfig] of src/phxqueue/config/globalconfig.cpp: a message lists the
    topics, and [Rebuild] makes the five configurations of each of them with
    [ConfigFactory] (src/phxqueue/plugin/configfactory.h,
    src/phxqueue_phxrpc/plugin/configfactory.cpp).  The lookups load a configuration
    again before they hand it out.

    The other files see a configuration through the classes [GlobalConfig],
    [ConsumerDirectory], [LockDirectory], [SchedulerDirectory] and
    [TopicDirectory]; the end of this file derives them from a loaded object.  The
    tables of a configuration are handed out as they are at the lookup. *)

From S2P Require Import Prelude RetCode TopicConfig Loader StoreConfig Node LockConfig SchedulerConfig ConsumerConfig.

#[local] Set Default Proof Using "Type".
#[local] Open Scope Z_scope.
#[local] Open Scope phx_scope.

(** [proto::TopicInfo]; [proto::GlobalConfig] is a list of them. *)
Record TopicInfo := mkTopicInfo {
  ti_topic_id : Z;
  ti_topic_name : string;
  topic_config_path : string;
  consumer_config_path : string;
  store_config_path : string;
  scheduler_config_path : string;
  lock_config_path : string;
}.

(** ** The five kinds *)

(** A topic with every field at its default. *)
Definition no_topic : Topic :=
  mkTopic 0 [] 2097152 10 5 20 10 80 150 200 5 500 20 ""%string 0 0 1
    100 30 [] 20 0 1 0 1 20 60 20 5 "__scheduler__.__master__"%string 300
    (mkPaxosConf 100 100 1500 200 5000 800 1 20 20 100000 0) (mkPaxosConf 100 100 1500 200 5000 800 1 20 20 100000 0).

Definition no_topic_proto : TopicConfigProto := mkTopicConfigProto no_topic [] [] [] [] [] [].

#[export] Instance topic_empty : Empty TopicConfigProto TopicConfig.t := {|
  no_proto := no_topic_proto;
  no_tables := TopicConfig.cleared no_topic_proto;
|}.

#[export] Instance topic_kind : Kind TopicConfigProto TopicConfig.t := {|
  Rebuild _ need_check proto _ := TopicConfig.Rebuild need_check proto;
|}.

#[export] Instance consumer_empty : Empty (list Consumer_proto) ConsumerConfig.t := {|
  no_proto := [];
  no_tables := ∅;
|}.

#[export] Instance consumer_kind `{Inet} : Kind (list Consumer_proto) ConsumerConfig.t := {|
  Rebuild _ need_check proto _ := ConsumerConfig.Rebuild need_check proto;
|}.

#[export] Instance store_empty : Empty (list Store_proto) StoreConfig.t := {|
  no_proto := [];
  no_tables := StoreConfig.mk ∅ ∅;
|}.

#[export] Instance store_kind `{Inet} : Kind (list Store_proto) StoreConfig.t := {|
  Rebuild _ need_check proto _ := StoreConfig.Rebuild need_check proto;
|}.

#[export] Instance scheduler_empty : Empty (list Addr) SchedulerConfig.t := {|
  no_proto := [];
  no_tables := [];
|}.

#[export] Instance scheduler_kind : Kind (list Addr) SchedulerConfig.t := {|
  Rebuild _ _ proto _ := Some (SchedulerConfig.Rebuild proto);
|}.

#[export] Instance lock_empty : Empty (list Lock_proto) LockConfig.t := {|
  no_proto := [];
  no_tables := LockConfig.mk ∅ ∅;
|}.

#[export] Instance lock_kind `{Inet} : Kind (list Lock_proto) LockConfig.t := {|
  Rebuild _ need_check proto _ := LockConfig.Rebuild need_check proto;
|}.

Module GlobalConf.
Import BaseConfig.

Section types.
Context (L : Type).

(** [GlobalConfigImpl_t]; the pointers in its maps are never null, since
    [Rebuild] adds none that is. *)
Record tables := mk_tables {
  topic_name2topic_id : gmap string Z;
  handle_id2topic_id : gmap Z Z;
  topic_id2topic_config : gmap Z (object TopicConfigProto TopicConfig.t L);
  topic_id2consumer_config : gmap Z (object (list Consumer_proto) ConsumerConfig.t L);
  topic_id2store_config : gmap Z (object (list Store_proto) StoreConfig.t L);
  topic_id2scheduler_config : gmap Z (object (list Addr) SchedulerConfig.t L);
  topic_id2lock_config : gmap Z (object (list Lock_proto) LockConfig.t L);
}.

Definition global : Type := object (list TopicInfo) tables L.

(** [ConfigFactory]: a null pointer is [Some None]. *)
Class Factory := {
  NewGlobalConfig : Env -> option global;
  NewTopicConfig : Env -> Z -> string -> option (option (object TopicConfigProto TopicConfig.t L));
  NewConsumerConfig : Env -> Z -> string -> option (option (object (list Consumer_proto) ConsumerConfig.t L));
  NewStoreConfig : Env -> Z -> string -> option (option (object (list Store_proto) StoreConfig.t L));
  NewSchedulerConfig : Env -> Z -> string -> option (option (object (list Addr) SchedulerConfig.t L));
  NewLockConfig : Env -> Z -> string -> option (option (object (list Lock_proto) LockConfig.t L));
}.
End types.
#[global] Arguments mk_tables {L}.
#[global] Arguments topic_name2topic_id {L}.
#[global] Arguments handle_id2topic_id {L}.
#[global] Arguments topic_id2topic_config {L}.
#[global] Arguments topic_id2consumer_config {L}.
#[global] Arguments topic_id2store_config {L}.
#[global] Arguments topic_id2scheduler_config {L}.
#[global] Arguments topic_id2lock_config {L}.

Section global.
Context {L : Type} `{IN : Inet} `{F : !Factory L}.
Context `{VT : !Virtual TopicConfigProto TopicConfig.t L, VC : !Virtual (list Consumer_proto) ConsumerConfig.t L}.
Context `{VS : !Virtual (list Store_proto) StoreConfig.t L, VD : !Virtual (list Addr) SchedulerConfig.t L}.
Context `{VL : !Virtual (list Lock_proto) LockConfig.t L}.

(** A new configuration is loaded unless it is null. *)
Definition load_new {P T} `{Kind P T, Virtual P T L} (e : Env) (made : option (option (object P T L)))
    : option (option (object P T L)) :=
  o ← made;
  match o with
  | None => Some None
  | Some o => '(_, o) ← Load e o; Some (Some o)
  end.

Definition emplace_new {A} (id : Z) (o : option A) (m : gmap Z A) : gmap Z A :=
  match o with Some o => emplace id o m | None => m end.

(** The body of the loop of [Rebuild]; the message of a null [topic_config] is
    read ([None]). *)
Definition rebuild_topic (e : Env) (tb : tables L) (info : TopicInfo) : option (tables L) :=
  let id := ti_topic_id info in
  let names := topic_name2topic_id tb in
  let names := match names !! ti_topic_name info with Some _ => names | None => <[ti_topic_name info := id]> names end in
  tc ← load_new e (NewTopicConfig _ e id (topic_config_path info));
  topic_config ← tc;
  let handles := foldl (fun m h => <[h := id]> m) (handle_id2topic_id tb)
                   (TopicConfig.handle_ids (TopicConfig.topic (proto_ topic_config.1))) in
  cc ← load_new e (NewConsumerConfig _ e id (consumer_config_path info));
  sc ← load_new e (NewStoreConfig _ e id (store_config_path info));
  dc ← load_new e (NewSchedulerConfig _ e id (scheduler_config_path info));
  lc ← load_new e (NewLockConfig _ e id (lock_config_path info));
  Some (mk_tables names handles (emplace_new id tc (topic_id2topic_config tb))
          (emplace_new id cc (topic_id2consumer_config tb)) (emplace_new id sc (topic_id2store_config tb))
          (emplace_new id dc (topic_id2scheduler_config tb)) (emplace_new id lc (topic_id2lock_config tb))).

Definition no_topics : tables L := mk_tables ∅ ∅ ∅ ∅ ∅ ∅ ∅.

#[global] Instance global_empty : Empty (list TopicInfo) (tables L) := {|
  no_proto := [];
  no_tables := no_topics;
|}.

Definition Rebuild_topics (e : Env) (infos : list TopicInfo) : option (RetCode * tables L) :=
  tb ← foldM (rebuild_topic e) no_topics infos; Some (RET_OK, tb).

#[global] Instance global_kind : Kind (list TopicInfo) (tables L) := {|
  Rebuild e _ proto _ := Rebuild_topics e proto;
|}.

Context `{VG : !Virtual (list TopicInfo) (tables L) L}.
Implicit Types (g : global L) (tb : tables L).

(** The object of a thread, which is made at its first use. *)
Definition GetThreadInstance (e : Env) (global_config : option (global L)) : option (global L) :=
  g ← match global_config with Some g => Some g | None => NewGlobalConfig _ e end;
  '(_, g) ← Load e g;
  Some g.

Definition GetTopicIDByTopicName g (topic_name : string) : RetCode * option Z :=
  match topic_name2topic_id (BaseConfig.tables g.1) !! topic_name with
  | None => (RET_ERR_RANGE_TOPIC, None)
  | Some topic_id => (RET_OK, Some topic_id)
  end.

Definition GetAllTopicID g : RetCode * gset Z := (RET_OK, dom (topic_id2topic_config (BaseConfig.tables g.1))).

Definition GetTopicIDByHandleID g (handle_id : Z) : RetCode * Z :=
  match handle_id2topic_id (BaseConfig.tables g.1) !! handle_id with
  | None => (RET_ERR_RANGE_HANDLE, 0)
  | Some topic_id => (RET_OK, topic_id)
  end.

(** One of the five maps of configurations: how it is read and written, where a
    topic says the path, and how the factory makes an entry. *)
Record slot (P T : Type) := mk_slot {
  slot_get : tables L -> gmap Z (object P T L);
  slot_set : gmap Z (object P T L) -> tables L -> tables L;
  slot_path : TopicInfo -> string;
  slot_new : Env -> Z -> string -> option (option (object P T L));
}.
#[global] Arguments mk_slot {P T}.
#[global] Arguments slot_get {P T}.
#[global] Arguments slot_set {P T}.
#[global] Arguments slot_path {P T}.
#[global] Arguments slot_new {P T}.

Definition topic_slot : slot TopicConfigProto TopicConfig.t := mk_slot topic_id2topic_config
  (fun m '(mk_tables names handles _ cs ss ds ls) => mk_tables names handles m cs ss ds ls) topic_config_path (NewTopicConfig _).

Definition consumer_slot : slot (list Consumer_proto) ConsumerConfig.t := mk_slot topic_id2consumer_config
  (fun m '(mk_tables names handles ts _ ss ds ls) => mk_tables names handles ts m ss ds ls) consumer_config_path (NewConsumerConfig _).

Definition store_slot : slot (list Store_proto) StoreConfig.t := mk_slot topic_id2store_config
  (fun m '(mk_tables names handles ts cs _ ds ls) => mk_tables names handles ts cs m ds ls) store_config_path (NewStoreConfig _).

Definition scheduler_slot : slot (list Addr) SchedulerConfig.t := mk_slot topic_id2scheduler_config
  (fun m '(mk_tables names handles ts cs ss _ ls) => mk_tables names handles ts cs ss m ls) scheduler_config_path (NewSchedulerConfig _).

Definition lock_slot : slot (list Lock_proto) LockConfig.t := mk_slot topic_id2lock_config
  (fun m '(mk_tables names handles ts cs ss ds _) => mk_tables names handles ts cs ss ds m) lock_config_path (NewLockConfig _).

(** The lookups of the five configurations differ in the map only. *)
Definition find_config {P T} `{Kind P T, Virtual P T L} (s : slot P T) (e : Env) (topic_id : Z) g
    : option (RetCode * option (t P T) * global L) :=
  match slot_get s (BaseConfig.tables g.1) !! topic_id with
  | None => Some (RET_ERR_RANGE_TOPIC, None, (NeedRebuild e g.1, g.2))
  | Some o =>
      '(_, o) ← Load e o;
      Some (RET_OK, Some o.1, (set_tables (slot_set s (<[topic_id := o]> (slot_get s (BaseConfig.tables g.1))) (BaseConfig.tables g.1)) g.1, g.2))
  end.

(** The answer without the state; no answer when an assertion fails. *)
Definition answer {P T} (r : option (RetCode * option (t P T) * global L)) : RetCode * option T :=
  match r with
  | Some (ret, c, _) => (ret, BaseConfig.tables <$> c)
  | None => (RET_ERR_LOGIC, None)
  end.

Definition GetTopicConfigByTopicID := find_config topic_slot.
Definition GetConsumerConfig := find_config consumer_slot.
Definition GetStoreConfig := find_config store_slot.
Definition GetSchedulerConfig := find_config scheduler_slot.
Definition GetLockConfig := find_config lock_slot.

(** Every topic configuration is loaded, in the order of the ids. *)
Definition GetAllTopicConfig (e : Env) g : option (RetCode * list (t TopicConfigProto TopicConfig.t) * global L) :=
  '(topic_configs, m) ← foldM (fun '(topic_configs, m) '(topic_id, o) =>
      '(_, o) ← Load e o;
      Some (topic_configs ++ [(o : object TopicConfigProto TopicConfig.t L).1], <[topic_id := o]> m))
    ([], topic_id2topic_config (BaseConfig.tables g.1)) (map_items (topic_id2topic_config (BaseConfig.tables g.1)));
  Some (RET_OK, topic_configs, (set_tables (slot_set topic_slot m (BaseConfig.tables g.1)) g.1, g.2)).

(** The latest of the five times; 0 when one of the configurations is missing. *)
Definition GetLastModTime (e : Env) (topic_id : Z) g : option (Z * global L) :=
  '(_, topic_config, g) ← GetTopicConfigByTopicID e topic_id g;
  match topic_config with None => Some (0, g) | Some topic_config =>
  let res := last_mod_time_ topic_config in
  '(_, consumer_config, g) ← GetConsumerConfig e topic_id g;
  match consumer_config with None => Some (0, g) | Some consumer_config =>
  let res := Z.max res (last_mod_time_ consumer_config) in
  '(_, store_config, g) ← GetStoreConfig e topic_id g;
  match store_config with None => Some (0, g) | Some store_config =>
  let res := Z.max res (last_mod_time_ store_config) in
  '(_, scheduler_config, g) ← GetSchedulerConfig e topic_id g;
  match scheduler_config with None => Some (0, g) | Some scheduler_config =>
  let res := Z.max res (last_mod_time_ scheduler_config) in
  '(_, lock_config, g) ← GetLockConfig e topic_id g;
  match lock_config with None => Some (0, g) | Some lock_config =>
  Some (Z.max res (last_mod_time_ lock_config), g)
  end end end end end.
End global.
End GlobalConf.

(** ** The factories *)

(** [phxqueue::plugin::ConfigFactory]: the built-in samples. *)
Module BuiltinFactory.
#[global] Instance topic_virtual : BaseConfig.Virtual TopicConfigProto TopicConfig.t unit := builtin (fun _ => TopicConfig.ReadConfig).
#[global] Instance consumer_virtual : BaseConfig.Virtual (list Consumer_proto) ConsumerConfig.t unit :=
  builtin (fun _ => ConsumerConfig.ReadConfig).
#[global] Instance store_virtual : BaseConfig.Virtual (list Store_proto) StoreConfig.t unit := builtin (fun _ => StoreConfig.ReadConfig).
#[global] Instance scheduler_virtual : BaseConfig.Virtual (list Addr) SchedulerConfig.t unit :=
  builtin (fun _ => SchedulerConfig.ReadConfig).
#[global] Instance lock_virtual : BaseConfig.Virtual (list Lock_proto) LockConfig.t unit := builtin (fun _ => LockConfig.ReadConfig).

(** [GlobalConfig::ReadConfig] *)
Definition ReadConfig : RetCode * list TopicInfo := (RET_OK, [mkTopicInfo 1000 "test" "" "" "" "" ""]).

#[global] Instance global_virtual : BaseConfig.Virtual (list TopicInfo) (GlobalConf.tables unit) unit := builtin (fun _ => ReadConfig).

#[global] Instance factory `{Inet} : GlobalConf.Factory unit := {|
  GlobalConf.NewGlobalConfig _ := Some (BaseConfig.new, tt);
  GlobalConf.NewTopicConfig _ _ _ := Some (Some (BaseConfig.new, tt));
  GlobalConf.NewConsumerConfig _ _ _ := Some (Some (BaseConfig.new, tt));
  GlobalConf.NewStoreConfig _ _ _ := Some (Some (BaseConfig.new, tt));
  GlobalConf.NewSchedulerConfig _ _ _ := Some (Some (BaseConfig.new, tt));
  GlobalConf.NewLockConfig _ _ _ := Some (Some (BaseConfig.new, tt));
|}.
End BuiltinFactory.

(** [phxqueue_phxrpc::plugin::ConfigFactory]: files.  [ino] is what the memory of
    the loader of a path holds when it is made. *)
Module FileFactory.
Section file_factory.
Context (global_config_path : string) (need_check : bool) (ino : string -> Z).
Context `{JG : Json (list TopicInfo), JT : Json TopicConfigProto, JC : Json (list Consumer_proto)}.
Context `{JS : Json (list Store_proto), JD : Json (list Addr), JL : Json (list Lock_proto)}.

Definition new_config {P T} `{Json P, Empty P T} (e : Env) (path : string) : option (option (BaseConfig.object P T FileLoader.t)) :=
  Some <$> FileBased.New e need_check path (ino path).

#[local] Instance factory : GlobalConf.Factory FileLoader.t := {|
  GlobalConf.NewGlobalConfig e := FileBased.New e need_check global_config_path (ino global_config_path);
  GlobalConf.NewTopicConfig e topic_id path := new_config e path;
  GlobalConf.NewConsumerConfig e topic_id path := new_config e path;
  GlobalConf.NewStoreConfig e topic_id path := new_config e path;
  GlobalConf.NewSchedulerConfig e topic_id path := new_config e path;
  GlobalConf.NewLockConfig e topic_id path := new_config e path;
|}.
End file_factory.
End FileFactory.

(** ** What the files say is what the lookups answer *)

Module Served.
Import GlobalConf.
Section served.
Context (global_config_path : string) (need_check : bool) (ino : string -> Z) `{IN : Inet}.
Context `{JG : Json (list TopicInfo), JT : Json TopicConfigProto, JC : Json (list Consumer_proto)}.
Context `{JS : Json (list Store_proto), JD : Json (list Addr), JL : Json (list Lock_proto)}.
#[local] Existing Instance FileFactory.factory.
#[local] Instance files : Factory FileLoader.t := FileFactory.factory global_config_path need_check ino.

(** What the maps share. *)
Record slot_laws {P T} `{Json P, Empty P T, !Kind P T} (s : slot P T) : Prop := {
  law_set m tb : slot_get s (slot_set s m tb) = m;
  law_new e id path : slot_new s e id path = Some <$> FileBased.New e need_check path (ino path);
  law_empty : slot_get s no_topics = ∅;
  law_rebuild e tb info tb' : rebuild_topic e tb info = Some tb' ->
    exists o, load_new e (slot_new s e (ti_topic_id info) (slot_path s info)) = Some o /\
      slot_get s tb' = emplace_new (ti_topic_id info) o (slot_get s tb);
}.

Ltac solve_slot :=
  split; [by intros ? []|done|done|];
  intros e tb info tb'; unfold rebuild_topic;
  repeat match goal with
    | |- context [load_new ?e ?m ≫= _] => destruct (load_new e m) eqn:?; [|done]; simpl
    | |- context [?o ≫= _] => is_var o; destruct o; [|done]; simpl
    end;
  intros [= <-]; eexists; split; [done|done].

Lemma topic_slot_laws : slot_laws topic_slot.
Proof using. solve_slot. Qed.
Lemma consumer_slot_laws : slot_laws consumer_slot.
Proof using. solve_slot. Qed.
Lemma store_slot_laws : slot_laws store_slot.
Proof using. solve_slot. Qed.
Lemma scheduler_slot_laws : slot_laws scheduler_slot.
Proof using. solve_slot. Qed.
Lemma lock_slot_laws : slot_laws lock_slot.
Proof using. solve_slot. Qed.

Section one.
Context {P T : Type} `{J : Json P, EM : Empty P T, K : !Kind P T}.

Lemma New_reads e path i m content proto : in_epoch (now e) -> 60 < now e -> path <> ""%string ->
  env_stat e path = Some (i, m) -> env_read e path = Some content -> JsonStringToMessage (negb need_check) content = Some proto ->
  exists l, FileBased.New e need_check path (ino path) =
              Some (BaseConfig.FillConfig proto (BaseConfig.SetNeedCheck need_check BaseConfig.new), l) /\ Settled.settled e l.
Proof using.
  intros He H60 Hp Est Hr Hj. set (c := BaseConfig.SetNeedCheck need_check BaseConfig.new).
  set (l0 := (FileLoader.SetFileIfUnset path (FileLoader.new (ino path))).2).
  assert (Hload : exists ok b l, FileBased.LoadIfModified e false (c, l0) = Some (ok, b, (BaseConfig.FillConfig proto c, l))).
  { unfold FileBased.LoadIfModified, FileLoader.LoadIfModified. cbn [fst snd].
    change (FileLoader.file l0) with path. rewrite bool_decide_eq_false_2 by done.
    rewrite (Reload.forget_future_id _ 0) by (done || apply He). rewrite (Reload.due_iff _ 0) by (done || apply He).
    change (FileLoader.last_check_time l0 + 60) with 60. rewrite (proj2 (Z.ltb_lt _ _) H60). change (FileLoader.file l0) with path. rewrite Est.
    set (l1 := FileLoader.ResetTimeByInode i l0).
    assert (Hl1 : FileLoader.file l1 = path /\ FileLoader.last_mod_time l1 = 0 /\ FileLoader.last_check_time l1 = 0 /\ FileLoader.check_interval_s l1 = 60).
    { unfold l1, FileLoader.ResetTimeByInode. by destruct (_ =? _). }
    destruct Hl1 as (Ef & Em & Ec & Ei). rewrite (Reload.due_iff _ 0) by (done || lia || apply He). rewrite Ec, (proj2 (Z.ltb_lt (0 + 60) _)) by lia.
    unfold FileLoader.changed. rewrite Em, Ef. simpl. unfold FileBased.LoadFile, FileConfig.Read, FileConfig.GetContent. simpl.
    rewrite bool_decide_eq_false_2 by done. rewrite Hr. simpl. rewrite Hj. simpl. eauto. }
  destruct Hload as (ok & b & l & Hload). exists l. unfold FileBased.New. fold c l0. rewrite Hload. split; [done|].
  by apply Settled.LoadIfModified_settles in Hload as [Hs _].
Qed.

(** The first load of an object rebuilds it from its message. *)
Lemma Load_first e (o : BaseConfig.object P T FileLoader.t) ret o' : in_epoch (now e) -> Settled.settled e o.2 -> BaseConfig.build_ o.1 = false ->
  BaseConfig.Load e o = Some (ret, o') ->
  BaseConfig.proto_ o'.1 = BaseConfig.proto_ o.1 /\ Settled.settled e o'.2 /\ BaseConfig.build_ o'.1 = true /\
  exists ret, Rebuild e (BaseConfig.need_check_ o.1) (BaseConfig.proto_ o.1) (BaseConfig.tables o.1) = Some (ret, BaseConfig.tables o'.1).
Proof using.
  intros He Hs Hb. destruct (Settled.settled_again e false o He Hs) as (ok & b' & l & Hl & Hs' & Hb').
  unfold BaseConfig.Load. simpl. unfold FileBased.IsModified. rewrite Hl, Hb' by done. simpl. unfold BaseConfig.base_IsModified. rewrite Hb. simpl.
  destruct (Rebuild _ _ _ _) as [[ret0 tb]|] eqn:Hr; [|done]. simpl. case_bool_decide; intros [= <- <-]; simpl; split_and!; eauto.
Qed.

(** The lookup of [id] in a map answers what the file at [path] says. *)
Definition serves (s : slot P T) (e : Env) (id : Z) (path : string) (g : global FileLoader.t) : Prop :=
  forall i m content proto, path <> ""%string -> env_stat e path = Some (i, m) -> env_read e path = Some content ->
    JsonStringToMessage (negb need_check) content = Some proto ->
    exists c g' ret, find_config s e id g = Some (RET_OK, Some c, g') /\ BaseConfig.proto_ c = proto /\
      Rebuild e need_check proto no_tables = Some (ret, BaseConfig.tables c).

Lemma emplace_new_lookup {A} id id' (o : option A) m : id <> id' -> emplace_new id o m !! id' = m !! id'.
Proof using. destruct o; [|done]. apply emplace_lookup_ne. Qed.

Lemma slot_keeps (s : slot P T) e infos tb tb' id o : slot_laws s -> foldM (rebuild_topic e) tb infos = Some tb' ->
  slot_get s tb !! id = Some o -> slot_get s tb' !! id = Some o.
Proof using.
  intros Hlaws Hf Hg. revert Hg Hf. apply (foldM_inv (fun tb => slot_get s tb !! id = Some o)). intros tb1 info tb2 Hget Hr.
  apply (law_rebuild s Hlaws) in Hr as (o' & _ & ->). destruct o' as [o'|]; [|done]. simpl.
  destruct (decide (ti_topic_id info = id)) as [<-|]; [|by rewrite emplace_lookup_ne]. unfold emplace. by rewrite Hget.
Qed.

Lemma slot_absent (s : slot P T) e infos tb tb' id : slot_laws s -> foldM (rebuild_topic e) tb infos = Some tb' ->
  (forall info, info ∈ infos -> ti_topic_id info <> id) -> slot_get s tb' !! id = slot_get s tb !! id.
Proof using.
  intros Hlaws Hf Hno. revert Hf. apply (foldM_inv_elem (fun tb1 => slot_get s tb1 !! id = slot_get s tb !! id)); [|done].
  intros tb1 info tb2 Hin Hget Hr. apply (law_rebuild s Hlaws) in Hr as (o' & _ & ->). by rewrite emplace_new_lookup by by apply Hno.
Qed.

Lemma foldM_app {A B} (f : A -> B -> option A) a l1 l2 a' : foldM f a (l1 ++ l2) = Some a' ->
  exists a1, foldM f a l1 = Some a1 /\ foldM f a1 l2 = Some a'.
Proof using.
  revert a. induction l1 as [|b l1 IH]; intros a H; [by exists a|]. apply foldM_cons in H as (a1 & H1 & (a2 & H2 & H3)%IH).
  exists a2. split; [|done]. apply foldM_cons. by exists a1.
Qed.

Lemma topics_serve (s : slot P T) e pre info post ret g : slot_laws s -> in_epoch (now e) -> 60 < now e ->
  Rebuild_topics e (pre ++ info :: post) = Some (ret, BaseConfig.tables g.1) ->
  (forall info', info' ∈ pre -> ti_topic_id info' <> ti_topic_id info) ->
  serves s e (ti_topic_id info) (slot_path s info) g.
Proof using.
  intros Hlaws He H60 Hr Hpre i m content proto Hp Est Hrd Hj. unfold Rebuild_topics in Hr.
  destruct (foldM _ _ _) as [tb|] eqn:Hf; [|done]. injection Hr as <- Htb.
  apply foldM_app in Hf as (tb1 & Hf1 & Hf2). apply foldM_cons in Hf2 as (tb2 & Hf2 & Hf3).
  pose proof (law_rebuild s Hlaws _ _ _ _ Hf2) as (o & Hnew & Hget). rewrite (law_new s Hlaws) in Hnew.
  destruct (New_reads e (slot_path s info) i m content proto He H60 Hp Est Hrd Hj) as (l & Hn & Hs). rewrite Hn in Hnew. simpl in Hnew.
  destruct (BaseConfig.Load e _) as [[ret1 o1]|] eqn:Hl; [|done]. simpl in Hnew. injection Hnew as <-.
  apply Load_first in Hl as (Hproto & Hs1 & Hb1 & ret2 & Hreb); [|done..].
  assert (Hid : slot_get s tb !! ti_topic_id info = Some o1).
  { apply (slot_keeps s e post tb2); [done..|]. rewrite Hget. simpl. unfold emplace.
    rewrite (slot_absent s e pre no_topics) by done. by rewrite (law_empty s Hlaws), lookup_empty, lookup_insert_eq. }
  unfold find_config. rewrite <-Htb, Hid. destruct (Settled.settled_Load e o1 He Hs1 Hb1) as (l2 & -> & _). simpl.
  eexists _, _, ret2. split; [done|]. split; [by rewrite Hproto|done].
Qed.

(** An object whose next load in [e] settles it. *)
Definition ready (e : Env) (o : BaseConfig.object P T FileLoader.t) : Prop :=
  Settled.settled e o.2 /\ BaseConfig.build_ o.1 = true \/ 0 <= FileLoader.check_interval_s o.2 < 2147483648.

Lemma ready_Load e o ret o' : in_epoch (now e) -> ready e o -> BaseConfig.Load e o = Some (ret, o') ->
  Settled.settled e o'.2 /\ BaseConfig.build_ o'.1 = true.
Proof using.
  intros He [[Hs Hb]|Hi] Hl; [|by eapply Settled.Load_settles].
  destruct (Settled.settled_Load e o He Hs Hb) as (l & Hl' & Hs'). rewrite Hl' in Hl. by injection Hl as <- <-.
Qed.

(** What a lookup answers, apart from the state. *)
Definition slot_answer (s : slot P T) (e : Env) (id : Z) (tb : tables FileLoader.t) : RetCode * option T :=
  match slot_get s tb !! id with
  | None => (RET_ERR_RANGE_TOPIC, None)
  | Some o => match BaseConfig.Load e o with
              | Some (_, o) => (RET_OK, Some (BaseConfig.tables o.1))
              | None => (RET_ERR_LOGIC, None)
              end
  end.

Lemma find_config_answer (s : slot P T) e id g : answer (find_config s e id g) = slot_answer s e id (BaseConfig.tables g.1).
Proof using.
  unfold find_config, slot_answer. destruct (slot_get s _ !! id) as [o|]; [|done]. by destruct (BaseConfig.Load e o) as [[ret o']|].
Qed.

Definition slot_ready (s : slot P T) (e : Env) (tb : tables FileLoader.t) : Prop := map_Forall (fun _ o => ready e o) (slot_get s tb).

(** A lookup that succeeds changes no answer of its map. *)
Lemma find_config_same (s : slot P T) e id g c g' : slot_laws s -> in_epoch (now e) -> slot_ready s e (BaseConfig.tables g.1) ->
  find_config s e id g = Some (RET_OK, Some c, g') ->
  (forall id', slot_answer s e id' (BaseConfig.tables g'.1) = slot_answer s e id' (BaseConfig.tables g.1)) /\
  slot_ready s e (BaseConfig.tables g'.1) /\
  (exists m, BaseConfig.tables g'.1 = slot_set s m (BaseConfig.tables g.1) /\ dom m = dom (slot_get s (BaseConfig.tables g.1))) /\
  g'.2 = g.2 /\ BaseConfig.build_ g'.1 = BaseConfig.build_ g.1.
Proof using.
  intros Hlaws He Hready. unfold find_config. destruct (slot_get s _ !! id) as [o|] eqn:Hid; [|done].
  destruct (BaseConfig.Load e o) as [[ret o']|] eqn:Hl; [|done]. simpl. intros [= _ <-]. simpl.
  pose proof (ready_Load e o ret o' He (Hready _ _ Hid) Hl) as [Hs Hb]. split_and!; [| |eexists; split; [done|by apply dom_insert_lookup_L; eauto]|done|done].
  - intros id'. unfold slot_answer. rewrite (law_set s Hlaws). destruct (decide (id = id')) as [<-|Hne]; [|by rewrite lookup_insert_ne].
    rewrite lookup_insert_eq, Hid, Hl. by destruct (Settled.settled_Load e o' He Hs Hb) as (l & -> & _).
  - unfold slot_ready. rewrite (law_set s Hlaws). apply map_Forall_insert_2; [by left|done].
Qed.

Lemma New_settles e path (o : BaseConfig.object P T FileLoader.t) : in_epoch (now e) -> FileBased.New e need_check path (ino path) = Some o ->
  Settled.settled e o.2 /\ BaseConfig.build_ o.1 = false.
Proof using.
  intros He Hn. unfold FileBased.New in Hn. destruct (FileBased.LoadIfModified _ _ _) as [[[ok b] o1]|] eqn:Hl; [|done]. injection Hn as <-.
  apply Settled.LoadIfModified_settles in Hl; [done|done|]. simpl. lia.
Qed.

Lemma topics_ready (s : slot P T) e infos ret tb : slot_laws s -> in_epoch (now e) -> Rebuild_topics e infos = Some (ret, tb) -> slot_ready s e tb.
Proof using.
  intros Hlaws He Hr. unfold Rebuild_topics in Hr. destruct (foldM _ _ _) as [tb'|] eqn:Hf; [|done]. injection Hr as <- <-.
  apply (foldM_inv (slot_ready s e) _ _ _ _) in Hf; [done| |unfold slot_ready; rewrite (law_empty s Hlaws); apply map_Forall_empty].
  intros tb1 info tb2 Hready Hr. apply (law_rebuild s Hlaws) in Hr as (o & Hnew & Hget). unfold slot_ready. rewrite Hget.
  destruct o as [o|]; [|done]. simpl. unfold emplace. destruct (slot_get s tb1 !! _); [done|]. apply map_Forall_insert_2; [|done].
  rewrite (law_new s Hlaws) in Hnew. destruct (FileBased.New _ _ _ _) as [o0|] eqn:Hn; [|done]. simpl in Hnew.
  destruct (BaseConfig.Load e o0) as [[ret1 o1]|] eqn:Hl; [|done]. injection Hnew as <-. apply New_settles in Hn as [Hs Hb]; [|done].
  apply Load_first in Hl as (_ & Hs1 & Hb1 & _); [|done..]. by left.
Qed.
End one.

(** C31: The files of a deployment are what its servers see.  Let the global file, and
    the files that it names for a topic, be there and be readable when a thread
    asks for its configuration for the first time, the topic being the first one
    with its id.  Unless an assertion fails, the lookups of the thread succeed for
    each of the five configurations whose file parses, with the message of the
    file and the tables that [Rebuild] makes of it. *)
Theorem files_served e i m content infos pre info post g : in_epoch (now e) -> 60 < now e -> global_config_path <> ""%string ->
  env_stat e global_config_path = Some (i, m) -> env_read e global_config_path = Some content ->
  JsonStringToMessage (negb need_check) content = Some infos -> infos = pre ++ info :: post ->
  (forall info', info' ∈ pre -> ti_topic_id info' <> ti_topic_id info) ->
  GetThreadInstance e None = Some g ->
  serves topic_slot e (ti_topic_id info) (topic_config_path info) g /\
  serves consumer_slot e (ti_topic_id info) (consumer_config_path info) g /\
  serves store_slot e (ti_topic_id info) (store_config_path info) g /\
  serves scheduler_slot e (ti_topic_id info) (scheduler_config_path info) g /\
  serves lock_slot e (ti_topic_id info) (lock_config_path info) g.
Proof using.
  intros He H60 Hp Est Hr Hj -> Hpre Hg. destruct (New_reads (T := tables FileLoader.t) e _ i m content _ He H60 Hp Est Hr Hj) as (l & Hn & Hs).
  unfold GetThreadInstance in Hg. change (NewGlobalConfig FileLoader.t e) with (FileBased.New (T := tables FileLoader.t) e need_check global_config_path (ino global_config_path)) in Hg.
  rewrite Hn in Hg. simpl in Hg.
  destruct (BaseConfig.Load e _) as [[ret g']|] eqn:Hl; [|done]. injection Hg as <-.
  apply Load_first in Hl as (_ & _ & _ & ret2 & Hreb); [|done..]. simpl in Hreb.
  split_and!;
    [apply (topics_serve _ e pre info post ret2 g' topic_slot_laws)|apply (topics_serve _ e pre info post ret2 g' consumer_slot_laws)
    |apply (topics_serve _ e pre info post ret2 g' store_slot_laws)|apply (topics_serve _ e pre info post ret2 g' scheduler_slot_laws)
    |apply (topics_serve _ e pre info post ret2 g' lock_slot_laws)]; done.
Qed.

(** Lookups of a thread that succeed. *)
Inductive asks (e : Env) : global FileLoader.t -> global FileLoader.t -> Prop :=
  | ask_topic id g g0 c g' : GetThreadInstance e (Some g) = Some g0 -> GetTopicConfigByTopicID e id g0 = Some (RET_OK, Some c, g') -> asks e g g'
  | ask_consumer id g g0 c g' : GetThreadInstance e (Some g) = Some g0 -> GetConsumerConfig e id g0 = Some (RET_OK, Some c, g') -> asks e g g'
  | ask_store id g g0 c g' : GetThreadInstance e (Some g) = Some g0 -> GetStoreConfig e id g0 = Some (RET_OK, Some c, g') -> asks e g g'
  | ask_scheduler id g g0 c g' : GetThreadInstance e (Some g) = Some g0 -> GetSchedulerConfig e id g0 = Some (RET_OK, Some c, g') -> asks e g g'
  | ask_lock id g g0 c g' : GetThreadInstance e (Some g) = Some g0 -> GetLockConfig e id g0 = Some (RET_OK, Some c, g') -> asks e g g'.

(** Two states that answer the same. *)
Record same_answers (e : Env) (g g' : global FileLoader.t) : Prop := {
  same_topic id : answer (GetTopicConfigByTopicID e id g') = answer (GetTopicConfigByTopicID e id g);
  same_consumer id : answer (GetConsumerConfig e id g') = answer (GetConsumerConfig e id g);
  same_store id : answer (GetStoreConfig e id g') = answer (GetStoreConfig e id g);
  same_scheduler id : answer (GetSchedulerConfig e id g') = answer (GetSchedulerConfig e id g);
  same_lock id : answer (GetLockConfig e id g') = answer (GetLockConfig e id g);
  same_names name : GetTopicIDByTopicName g' name = GetTopicIDByTopicName g name;
  same_handles handle_id : GetTopicIDByHandleID g' handle_id = GetTopicIDByHandleID g handle_id;
  same_ids : GetAllTopicID g' = GetAllTopicID g;
}.

#[local] Instance same_answers_preorder e : PreOrder (same_answers e).
Proof using.
  split; [by intros g; split|]. intros g1 g2 g3 [] []. split; intros; congruence.
Qed.

(** A thread that has loaded everything that is due in [e]. *)
Record calm (e : Env) (g : global FileLoader.t) : Prop := {
  calm_settled : Settled.settled e g.2;
  calm_built : BaseConfig.build_ g.1 = true;
  calm_topic : slot_ready topic_slot e (BaseConfig.tables g.1);
  calm_consumer : slot_ready consumer_slot e (BaseConfig.tables g.1);
  calm_store : slot_ready store_slot e (BaseConfig.tables g.1);
  calm_scheduler : slot_ready scheduler_slot e (BaseConfig.tables g.1);
  calm_lock : slot_ready lock_slot e (BaseConfig.tables g.1);
}.

Lemma calm_again e g g0 : in_epoch (now e) -> calm e g -> GetThreadInstance e (Some g) = Some g0 -> g0.1 = g.1 /\ calm e g0.
Proof using.
  intros He [Hs Hb] Hg. unfold GetThreadInstance in Hg. simpl in Hg. destruct (Settled.settled_Load e g He Hs Hb) as (l & Hl & Hs').
  rewrite Hl in Hg. injection Hg as <-. by split.
Qed.

Ltac by_slot laws Hf Heq :=
  let Ha := fresh "Ha" in let Hr := fresh "Hr" in let m := fresh "m" in let Em := fresh "Em" in let Hd := fresh "Hd" in
  let Eg := fresh "Eg" in let Eb := fresh "Eb" in
  eapply (find_config_same _ _ _ _ _ _ laws) in Hf as (Ha & Hr & (m & Em & Hd) & Eg & Eb); [|done..];
  split;
  [split; intros; unfold GetTopicConfigByTopicID, GetConsumerConfig, GetStoreConfig, GetSchedulerConfig, GetLockConfig,
     GetTopicIDByTopicName, GetTopicIDByHandleID, GetAllTopicID;
   rewrite ?find_config_answer, <-?Heq;
   first [apply Ha | rewrite Em; match goal with |- context [BaseConfig.tables ?g] => destruct (BaseConfig.tables g); simpl in *; by rewrite ?Hd end]
  |split; rewrite ?Eg, ?Eb; try done; try exact Hr; rewrite Em; match goal with |- context [BaseConfig.tables ?g] => by destruct (BaseConfig.tables g) end].

Lemma asks_same e g g' : in_epoch (now e) -> calm e g -> asks e g g' -> same_answers e g g' /\ calm e g'.
Proof using.
  intros He Hcalm Hask. destruct Hask as [id g g0 c g' Hg Hf|id g g0 c g' Hg Hf|id g g0 c g' Hg Hf|id g g0 c g' Hg Hf|id g g0 c g' Hg Hf];
    apply calm_again in Hg as [Heq [Hs Hb H1 H2 H3 H4 H5]]; try done;
    [by_slot topic_slot_laws Hf Heq|by_slot consumer_slot_laws Hf Heq|by_slot store_slot_laws Hf Heq
    |by_slot scheduler_slot_laws Hf Heq|by_slot lock_slot_laws Hf Heq].
Qed.

End served.
End Served.

(** ** The interfaces *)

(** What a thread with the object [g] hands to the servers in [e]. *)
Module Interfaces.
Section interfaces.
Context {L : Type} `{IN : Inet}.
Context `{VT : !BaseConfig.Virtual TopicConfigProto TopicConfig.t L, VC : !BaseConfig.Virtual (list Consumer_proto) ConsumerConfig.t L}.
Context `{VS : !BaseConfig.Virtual (list Store_proto) StoreConfig.t L, VD : !BaseConfig.Virtual (list Addr) SchedulerConfig.t L}.
Context `{VL : !BaseConfig.Virtual (list Lock_proto) LockConfig.t L, F : !GlobalConf.Factory L}.
Context (e : Env) (g : GlobalConf.global L).

Lemma find_config_found {P T} `{Kind P T, !BaseConfig.Virtual P T L} (s : GlobalConf.slot (L := L) P T) id :
  GlobalConf.answer (GlobalConf.find_config s e id g) <> (RET_OK, None).
Proof.
  unfold GlobalConf.find_config. destruct (GlobalConf.slot_get s _ !! id) as [o|]; [|done].
  by destruct (BaseConfig.Load e o) as [[ret o']|].
Qed.

Definition config : GlobalConfig.
Proof using All.
  refine {| GetTopicConfigByTopicID id := GlobalConf.answer (GlobalConf.GetTopicConfigByTopicID e id g);
            GetStoreConfig id := GlobalConf.answer (GlobalConf.GetStoreConfig e id g);
            GetLastModTime id := match GlobalConf.GetLastModTime e id g with Some (time, _) => time | None => 0 end |};
    intros id; apply find_config_found.
Defined.

Definition consumers : ConsumerDirectory.
Proof using L IN VC F e g.
  refine {| GetConsumerConfig id := GlobalConf.answer (GlobalConf.GetConsumerConfig e id g) |}; intros id; apply find_config_found.
Defined.

Definition schedulers : SchedulerDirectory.
Proof using L VD F e g.
  refine {| GetSchedulerConfig id := GlobalConf.answer (GlobalConf.GetSchedulerConfig e id g) |}; intros id; apply find_config_found.
Defined.

Definition locks : LockDirectory.
Proof using L IN VL F e g.
  refine {| GetLockConfig id := GlobalConf.answer (GlobalConf.GetLockConfig e id g) |}; intros id; apply find_config_found.
Defined.

Definition topics : TopicDirectory := {|
  GetTopicIDByTopicName name := let '(ret, id) := GlobalConf.GetTopicIDByTopicName g name in (ret, default 0 id);
  GetAllTopicID := GlobalConf.GetAllTopicID g;
|}.
End interfaces.
End Interfaces.
