(* ===== verification/CpuLoad.v ===== *)
(** * The load of a machine (src/phxqueue/comm/utils/load_util.cpp)

    A consumer reports the CPU load of its machine to the scheduler
    ([HeartBeatLock::GetAddrScale] in HeartBeatSync.v, whose argument [cpu] is
    the result of [GetCpu]).  [GetCpu] compares the counters of /proc/stat with
    those of the last second that it looked.

    The contents of the file ([None] when it does not open) and the time are
    arguments; the static variables of [GetCpu] are its state.  [CpuInfo] also
    has rates, which nothing reads: [None] in them is a number that the integer
    cannot hold, whose conversion C++ does not define. *)

From Stdlib Require Import Floats.SpecFloat.
From S2P Require Import Prelude Float.

Definition to_i64 (z : Z) : Z := (z + 9223372036854775808) mod 18446744073709551616 - 9223372036854775808.

(** ** Reading numbers *)

Definition isspace (c : ascii) : bool :=
  let n := Z.of_nat (nat_of_ascii c) in ((9 <=? n) && (n <=? 13)) || (n =? 32).

Fixpoint skip (p : ascii -> bool) (s : string) : string :=
  match s with
  | String c r => if p c then skip p r else s
  | EmptyString => ""%string
  end.

Definition digit (c : ascii) : option Z :=
  let n := Z.of_nat (nat_of_ascii c) - 48 in if (0 <=? n) && (n <=? 9) then Some n else None.

(** The number that [s] starts with, [None] without a digit, and the rest. *)
Fixpoint digits (acc : option Z) (s : string) : option Z * string :=
  match s with
  | String c r => match digit c with
                  | Some d => digits (Some (default 0 acc * 10 + d)) r
                  | None => (acc, s)
                  end
  | EmptyString => (acc, s)
  end.

(** [strtoull(p, &p, 10)]: the value and the new [p]. *)
Definition strtoull (s : string) : Z * string :=
  let t := skip isspace s in
  let '(negative, t) := match t with
                        | String c r => if Ascii.eqb c "-" then (true, r) else if Ascii.eqb c "+" then (false, r) else (false, t)
                        | EmptyString => (false, t)
                        end in
  match digits None t with
  | (None, _) => (0, s)
  | (Some v, r) => (if UINT64_MAX <? v then UINT64_MAX else if negative then to_u64 (- v) else v, r)
  end.

(** The lines of a file, as [getline] returns them without the newline. *)
Fixpoint lines (s : string) : list string :=
  match s with
  | EmptyString => []
  | String c r =>
      if (nat_of_ascii c =? 10)%nat then ""%string :: lines r else
      match lines r with
      | l :: ls => String c l :: ls
      | [] => [String c ""]
      end
  end.

(** ** [CpuInfo] and [CpuRate] *)

Record CpuInfo := mkCpuInfo {
  use : Z; nice : Z; sys : Z; idle : Z; iowait : Z; hardirq : Z; softirq : Z;
  info_rates : list (option Z);      (* use, sys, iowait, hardirq, softirq *)
  usage : option Z;
}.

Record CpuRate := mkCpuRate { userate : Z; sysrate : Z; iowaitrate : Z; hardirqrate : Z; softirqrate : Z }.

Definition no_rate : CpuRate := mkCpuRate 0 0 0 0 0.
Definition no_info : CpuInfo := mkCpuInfo 0 0 0 0 0 0 0 (replicate 5 (Some 0)) (Some 0).

Definition f64 : Z -> spec_float := of_int float64.

(** [(unsigned long long) round(f)] of a positive number. *)
Definition round_u64 (f : spec_float) : option Z :=
  match f with
  | S754_finite false m e =>
      let v := if 0 <=? e then Z.pos m * 2 ^ e else (Z.pos m + 2 ^ (- e - 1)) / 2 ^ (- e) in
      if v <=? UINT64_MAX then Some v else None
  | S754_zero _ => Some 0
  | _ => None
  end.

(** The rate of the counters' difference [d], when it is positive. *)
Definition rate_of (d : Z) (all : spec_float) : option Z :=
  let rate := fdiv float64 (fmul float64 (f64 100) (f64 (to_u64 d))) all in
  if flt (f64 0) rate then round_u64 rate else Some 0.

Definition all_of (c : CpuInfo) : spec_float :=
  f64 (to_u64 (use c + nice c + sys c + idle c + hardirq c + softirq c + iowait c)).

(** The numbers of a line. *)
Definition read_line (line : string) : CpuInfo :=
  let p := skip (fun c => negb (isspace c)) (skip isspace line) in
  let '(use, p) := strtoull p in let '(nice, p) := strtoull p in let '(sys, p) := strtoull p in
  let '(idle, p) := strtoull p in let '(iowait, p) := strtoull p in let '(hardirq, p) := strtoull p in
  let '(softirq, p) := strtoull p in
  mkCpuInfo use nice sys idle iowait hardirq softirq (replicate 5 (Some 0)) (Some 0).

(** The counters of the line "cpu", 0 without one. *)
Definition read_counters (stat : option string) : option CpuInfo :=
  s ← stat; line ← List.find (String.prefix "cpu") (lines s); Some (read_line line).

Definition GetCpuInfo (stat : option string) (cpu_info : CpuInfo) : CpuInfo :=
  match read_counters stat with
  | None => no_info
  | Some n =>
      let all := fsub float64 (all_of n) (all_of cpu_info) in
      if SFleb all (fdiv float64 (f64 1) (f64 10000)) then cpu_info else
      mkCpuInfo (use n) (nice n) (sys n) (idle n) (iowait n) (hardirq n) (softirq n)
        [rate_of (use n - use cpu_info) all; rate_of (sys n - sys cpu_info) all;
         rate_of (iowait n - iowait cpu_info) all; rate_of (hardirq n - hardirq cpu_info) all;
         rate_of (softirq n - softirq cpu_info) all]
        (rate_of (use n + sys n + softirq n + iowait n - use cpu_info - sys cpu_info - softirq cpu_info - iowait cpu_info) all)
  end.

Definition alldiff (oldinfo newinfo : CpuInfo) : Z :=
  to_i64 (use newinfo - use oldinfo + nice newinfo - nice oldinfo + sys newinfo - sys oldinfo +
          idle newinfo - idle oldinfo + iowait newinfo - iowait oldinfo +
          hardirq newinfo - hardirq oldinfo + softirq newinfo - softirq oldinfo).

(** The new [oldinfo] and [rate]. *)
Definition GetCpuRate (oldinfo newinfo : CpuInfo) (rate : CpuRate) : CpuInfo * CpuRate :=
  let all := alldiff oldinfo newinfo in
  if 0 <? all then
    let r n o := to_u64 (100 * to_u64 (n - o)) / all in
    (newinfo, mkCpuRate (r (use newinfo) (use oldinfo)) (r (sys newinfo) (sys oldinfo))
                (r (iowait newinfo) (iowait oldinfo)) (r (hardirq newinfo) (hardirq oldinfo))
                (r (softirq newinfo) (softirq oldinfo)))
  else (oldinfo, rate).

(** The static variables of [GetCpu]. *)
Record cpu_state := mkCpuState { cpu : Z; last_update_time : Z; cpu_info_old : CpuInfo }.

Definition cpu_start : cpu_state := mkCpuState 0 0 no_info.

Definition GetCpu (now : Z) (stat : option string) (st : cpu_state) : Z * cpu_state :=
  if now =? last_update_time st then (cpu st, st) else
  let cpu_info := GetCpuInfo stat no_info in
  let '(old, rate) := GetCpuRate (cpu_info_old st) cpu_info no_rate in
  let c := to_i32 (to_u64 (userate rate + sysrate rate + softirqrate rate)) in
  (c, mkCpuState c now old).

(** ** The load is a percentage *)

Definition total (c : CpuInfo) : Z := use c + nice c + sys c + idle c + iowait c + hardirq c + softirq c.

(** Counters below the range where the arithmetic wraps. *)
Definition counters_ok (c : CpuInfo) : Prop :=
  0 <= use c /\ 0 <= nice c /\ 0 <= sys c /\ 0 <= idle c /\ 0 <= iowait c /\ 0 <= hardirq c /\ 0 <= softirq c /\
  total c * 100 <= 9223372036854775807.

(** No counter goes back. *)
Definition grows (c c' : CpuInfo) : Prop :=
  use c <= use c' /\ nice c <= nice c' /\ sys c <= sys c' /\ idle c <= idle c' /\ iowait c <= iowait c' /\
  hardirq c <= hardirq c' /\ softirq c <= softirq c'.

Definition same_counters (c c' : CpuInfo) : Prop := grows c c' /\ grows c' c.

Lemma alldiff_total o n : counters_ok o -> counters_ok n -> alldiff o n = total n - total o.
Proof.
  unfold counters_ok, alldiff, to_i64, total. intros Ho Hn. rewrite Z.mod_small by lia. lia.
Qed.

Lemma floor_sum a b c d : 0 <= a -> 0 <= b -> 0 <= c -> a + b + c <= d -> 0 < d ->
  0 <= 100 * a / d + 100 * b / d + 100 * c / d <= 100.
Proof.
  intros Ha Hb Hc Hd Hp. pose proof (Z.div_pos (100 * a) d). pose proof (Z.div_pos (100 * b) d). pose proof (Z.div_pos (100 * c) d).
  pose proof (Z.mul_div_le (100 * a) d Hp). pose proof (Z.mul_div_le (100 * b) d Hp). pose proof (Z.mul_div_le (100 * c) d Hp). nia.
Qed.

Lemma shares_percent o n : grows o n -> total o < total n ->
  0 <= 100 * (use n - use o) / (total n - total o) + 100 * (sys n - sys o) / (total n - total o) +
       100 * (softirq n - softirq o) / (total n - total o) <= 100.
Proof. intros Hg Ht. apply floor_sum; unfold grows, total in *; lia. Qed.

(** What a call measures: the shares of the elapsed time. *)
Lemma GetCpuRate_shares o n r :
  counters_ok o -> counters_ok n -> grows o n -> total o < total n ->
  GetCpuRate o n r = (n, let d := total n - total o in
    mkCpuRate (100 * (use n - use o) / d) (100 * (sys n - sys o) / d) (100 * (iowait n - iowait o) / d)
      (100 * (hardirq n - hardirq o) / d) (100 * (softirq n - softirq o) / d)).
Proof.
  intros Ho Hn Hg Ht. unfold GetCpuRate. rewrite alldiff_total by done. rewrite (proj2 (Z.ltb_lt _ _)) by lia.
  f_equal. unfold counters_ok, grows, total in *. f_equal; do 2 f_equal; rewrite !to_u64_id; (done || ilia).
Qed.

Lemma GetCpuRate_still o n r :
  counters_ok o -> counters_ok n -> total n <= total o -> GetCpuRate o n r = (o, r).
Proof.
  intros Ho Hn Ht. unfold GetCpuRate. rewrite alldiff_total by done. by rewrite (proj2 (Z.ltb_ge _ _)) by lia.
Qed.

Lemma grows_trans a b c : grows a b -> grows b c -> grows a c.
Proof. unfold grows. intros H1 H2. repeat split; (etransitivity; [apply H1|apply H2]). Qed.

Lemma grows_total a b : grows a b -> total a <= total b.
Proof. unfold grows, total. lia. Qed.

Lemma counters_ok_same a b : same_counters a b -> counters_ok b -> counters_ok a.
Proof. unfold same_counters, grows, counters_ok, total. lia. Qed.

(** The info of a call has the counters of the file, or zeros. *)
Lemma GetCpuInfo_counters stat :
  GetCpuInfo stat no_info = no_info \/
  exists n, read_counters stat = Some n /\ same_counters (GetCpuInfo stat no_info) n.
Proof.
  unfold GetCpuInfo. destruct (read_counters stat) as [n|]; [|by left]. case_match; [by left|right].
  exists n. split; [done|]. unfold same_counters, grows. simpl. lia.
Qed.

(** The successive contents of the file: no counter goes back. *)
Fixpoint reads_ok (last : CpuInfo) (l : list (Z * option string)) : Prop :=
  match l with
  | [] => True
  | (_, stat) :: l =>
      match read_counters stat with
      | None => reads_ok last l
      | Some n => counters_ok n /\ grows last n /\ reads_ok n l
      end
  end.

Fixpoint calls (st : cpu_state) (l : list (Z * option string)) : list Z :=
  match l with
  | [] => []
  | (now, stat) :: l => let r := GetCpu now stat st in r.1 :: calls r.2 l
  end.

(** The old counters are not above the last ones read. *)
Definition cpu_inv (last : CpuInfo) (st : cpu_state) : Prop :=
  0 <= cpu st <= 100 /\ counters_ok (cpu_info_old st) /\ grows (cpu_info_old st) last /\ counters_ok last.

Lemma no_info_ok : counters_ok no_info.
Proof. unfold counters_ok, total. simpl. lia. Qed.

Lemma no_info_least c : counters_ok c -> total no_info <= total c.
Proof. unfold counters_ok, total. simpl. lia. Qed.

Lemma percent_cast z : 0 <= z <= 100 -> to_i32 (to_u64 z) = z.
Proof. intros Hz. rewrite to_u64_id by ilia. apply to_i32_id. ilia. Qed.

Lemma GetCpu_inv last now stat st :
  cpu_inv last st -> reads_ok last [(now, stat)] ->
  0 <= (GetCpu now stat st).1 <= 100 /\ cpu_inv (default last (read_counters stat)) (GetCpu now stat st).2.
Proof.
  intros (Hc & Ho & Hg & Hl) Hr. cbn [reads_ok] in Hr.
  assert (Hlast : grows (cpu_info_old st) (default last (read_counters stat)) /\ counters_ok (default last (read_counters stat))).
  { destruct (read_counters stat) as [n|]; simpl; [|done]. destruct Hr as (Hn & Hg' & _).
    split; [by eapply grows_trans|done]. }
  destruct Hlast as [Hgl Hol]. unfold GetCpu. destruct (now =? last_update_time st); [by split|].
  assert (Hstill : forall i, GetCpuRate (cpu_info_old st) i no_rate = (cpu_info_old st, no_rate) ->
    let '(old, rate) := GetCpuRate (cpu_info_old st) i no_rate in
    let c := to_i32 (to_u64 (userate rate + sysrate rate + softirqrate rate)) in
    0 <= c <= 100 /\ cpu_inv (default last (read_counters stat)) (mkCpuState c now old)).
  { intros i ->. rewrite percent_cast by (simpl; lia). split; [simpl; lia|]. split; [simpl; lia|done]. }
  destruct (GetCpuInfo_counters stat) as [-> | (n & En & Hs)].
  { specialize (Hstill no_info). destruct (GetCpuRate _ no_info no_rate) as [old rate] eqn:E. apply Hstill.
    rewrite <-E. apply GetCpuRate_still; [done|apply no_info_ok|]. by apply no_info_least. }
  clear Hr. rewrite En in Hgl, Hol, Hstill |- *. cbn [default from_option id] in Hgl, Hol, Hstill |- *.
  revert Hs Hstill. generalize (GetCpuInfo stat no_info). intros i Hs Hstill.
  assert (Hi : counters_ok i /\ grows (cpu_info_old st) i /\ grows i n).
  { destruct Hs as [Hs1 Hs2]. exact (conj (counters_ok_same i n (conj Hs1 Hs2) Hol) (conj (grows_trans _ n _ Hgl Hs2) Hs1)). }
  destruct Hi as (Hi1 & Hi2 & Hgi). destruct (decide (total (cpu_info_old st) < total i)) as [Ht|Ht].
  - rewrite GetCpuRate_shares by done. cbn [userate sysrate softirqrate].
    assert (Hb := shares_percent _ _ Hi2 Ht). rewrite percent_cast by exact Hb. split; [exact Hb|]. exact (conj Hb (conj Hi1 (conj Hgi Hol))).
  - specialize (Hstill i). destruct (GetCpuRate _ i no_rate) as [old rate] eqn:E. apply Hstill.
    rewrite <-E. apply GetCpuRate_still; [done..|lia].
Qed.


(** Linux documents that [iowait] may go back.  Then the load exceeds 100. *)
Lemma iowait_back :
  calls cpu_start [(100, Some "cpu  100 0 100 800 50 0 0"%string); (101, Some "cpu  110 0 105 800 40 0 0"%string)] = [18; 300].
Proof. vm_compute. reflexivity. Qed.

(** Within a second the value stays, and without the file it is 0. *)
Lemma GetCpu_cached now stat st : last_update_time st = now -> GetCpu now stat st = (cpu st, st).
Proof. intros <-. unfold GetCpu. by rewrite Z.eqb_refl. Qed.

Lemma GetCpu_unreadable now st :
  counters_ok (cpu_info_old st) -> now <> last_update_time st ->
  GetCpu now None st = (0, mkCpuState 0 now (cpu_info_old st)).
Proof.
  intros Ho Hn. unfold GetCpu. rewrite (proj2 (Z.eqb_neq _ _) Hn). cbn [GetCpuInfo read_counters mbind option_bind].
  rewrite GetCpuRate_still; [done|done|apply no_info_ok|by apply no_info_least].
Qed.

