(* ===== verification/HeartBeatLock.v ===== *)
(** * Which queues a consumer process handles

    [Consumer::GetQueueByAddrScale] (src/phxqueue/consumer/consumer.cpp)
    assigns the queues of a consumer group to consumers on a hash ring; the
    [HeartBeatLock] of src/phxqueue/consumer/hblock.cpp spreads the queues of
    a consumer over its processes ([Sync]) and takes the lock of the queue of
    a process ([Lock]).

    The shared memory is the list of one [Queue_t] per process.  The threads
    and processes that use it hold [rwlock], so each operation is atomic. *)

From S2P Require Import Prelude HashUtil RetCode TopicConfig StoreConfig ConsumerConfig.

Definition LOCK_BUF_MAGIC : Z := 890725.
Definition LOCK_ITEM_MAGIC : Z := 889735.

Record Queue_t := mkQueue {
  q_magic : Z;
  q_consumer_group_id : Z;
  q_pub_id : Z;
  q_store_id : Z;
  q_queue_id : Z;
}.

Definition zero_queue : Queue_t := mkQueue 0 0 0 0 0.

(** [ConsumerOption]: the address of this consumer. *)
Record ConsumerOption := mkConsumerOption {
  co_ip : string;
  co_port : Z;
}.

Module Consumer.
Section distribution.
Context `{IN : Inet}.

(** The points of an address on the ring; the map has 32-bit keys. *)
Definition node_hash (encoded_addr j : Z) : Z :=
  to_u32 (MurmurHash64 (le_bytes 4 j) (MurmurHash64 (le_bytes 8 encoded_addr) 0)).

Definition scale_points (s : AddrScale) : list (Z * Z) :=
  let encoded_addr := EncodeAddr (as_addr s) in
  (fun j => (node_hash encoded_addr j, encoded_addr)) <$> seqZ 0 (as_scale s).

Definition hash2encoded_addr (addr_scales : list AddrScale) : gmap Z Z :=
  ring_of (concat (scale_points <$> addr_scales)).

Definition queue_hash (queue : Queue_t) : Z :=
  to_u32 (MurmurHash64 (le_bytes 4 (q_queue_id queue))
         (MurmurHash64 (le_bytes 4 (q_store_id queue))
         (MurmurHash64 (le_bytes 4 (q_consumer_group_id queue)) 0))).

Definition local_encoded_addr (opt : ConsumerOption) : Z := EncodeAddr (mkAddr (co_ip opt) (co_port opt) 0).

(** The indices, in the order of the [std::set]. *)
Definition GetQueueByAddrScale (opt : ConsumerOption) (queues : list Queue_t) (addr_scales : list AddrScale)
    : RetCode * list nat :=
  let ring := hash2encoded_addr addr_scales in
  if bool_decide (ring = ∅) then (RET_OK, []) else
  (RET_OK, omap (fun '(i, queue) =>
      if bool_decide (ring_find ring (queue_hash queue) = Some (local_encoded_addr opt)) then Some i else None)
    (imap pair queues)).

(** The address that handles a queue. *)
Definition owner (addr_scales : list AddrScale) (queue : Queue_t) : option Z :=
  ring_find (hash2encoded_addr addr_scales) (queue_hash queue).

Lemma GetQueueByAddrScale_spec opt queues addr_scales i :
  i ∈ (GetQueueByAddrScale opt queues addr_scales).2 <->
  exists queue, queues !! i = Some queue /\ owner addr_scales queue = Some (local_encoded_addr opt).
Proof.
  unfold GetQueueByAddrScale, owner. case_bool_decide as He; simpl.
  - rewrite He. split; [by intros ?%elem_of_nil|]. by intros (queue & _ & Hq).
  - rewrite list_elem_of_omap. split.
    + intros ([j queue] & Hin & Hj). case_bool_decide; simplify_eq.
      apply elem_of_lookup_imap in Hin as (k & q & [= <- <-] & Hk). by exists queue.
    + intros (queue & Hq & Ho). exists (i, queue). rewrite bool_decide_eq_true_2 by done.
      split; [|done]. apply elem_of_lookup_imap. by exists i, queue.
Qed.

Lemma elem_of_points (addr_scales : list AddrScale) k e :
  (k, e) ∈ concat (scale_points <$> addr_scales) <->
  exists s j, s ∈ addr_scales /\ 0 <= j < as_scale s /\ e = EncodeAddr (as_addr s) /\ k = node_hash e j.
Proof.
  rewrite elem_of_concat. split.
  - intros (l & (s & -> & Hs)%list_elem_of_fmap & Hin).
    apply list_elem_of_fmap in Hin as (j & [= -> ->] & Hj). apply elem_of_seqZ in Hj.
    exists s, j. split_and!; [done|lia..|done|done].
  - intros (s & j & Hs & Hj & -> & ->). exists (scale_points s). split; [by apply list_elem_of_fmap_2|].
    apply list_elem_of_fmap. exists j. split; [done|]. apply elem_of_seqZ. lia.
Qed.

(** Every queue has an owner as soon as some address has a weight, and the
    owner is an address with a weight. *)
Lemma owner_is_Some addr_scales queue :
  (exists s, s ∈ addr_scales /\ 0 < as_scale s) -> is_Some (owner addr_scales queue).
Proof.
  intros (s & Hs & Hw). apply ring_find_is_Some. intros He.
  assert (H : is_Some (hash2encoded_addr addr_scales !! node_hash (EncodeAddr (as_addr s)) 0)).
  { apply ring_of_dom. exists (EncodeAddr (as_addr s)). apply elem_of_points. exists s, 0. split_and!; try done; lia. }
  rewrite He in H. by apply lookup_empty_is_Some in H.
Qed.

Lemma owner_weighted addr_scales queue e :
  owner addr_scales queue = Some e -> exists s, s ∈ addr_scales /\ 0 < as_scale s /\ e = EncodeAddr (as_addr s).
Proof.
  intros (k & _ & Hk)%ring_find_spec. apply ring_of_lookup_Some, elem_of_points in Hk as (s & j & Hs & Hj & He & _).
  exists s. split_and!; [done|lia|done].
Qed.

(** The queues are partitioned.  Among consumers that use the same
    addresses and weights, as soon as one address has a weight every queue is
    handled by the consumers at exactly one address, one that has a weight. *)
Theorem GetQueueByAddrScale_partition queues addr_scales i queue :
  queues !! i = Some queue -> (exists s, s ∈ addr_scales /\ 0 < as_scale s) ->
  exists s, s ∈ addr_scales /\ 0 < as_scale s /\
    forall opt, i ∈ (GetQueueByAddrScale opt queues addr_scales).2 <->
                local_encoded_addr opt = EncodeAddr (as_addr s).
Proof.
  intros Hi Hw. destruct (owner_is_Some addr_scales queue Hw) as [e He].
  destruct (owner_weighted _ _ _ He) as (s & Hs & Hpos & ->). exists s. split_and!; [done..|].
  intros opt. rewrite GetQueueByAddrScale_spec. naive_solver congruence.
Qed.

Lemma points_filter x addr_scales :
  concat (scale_points <$> filter (fun s => EncodeAddr (as_addr s) <> x) addr_scales) =
  filter (fun p => p.2 <> x) (concat (scale_points <$> addr_scales)).
Proof.
  induction addr_scales as [|s l IH]; [done|]. cbn [fmap list_fmap concat]. rewrite filter_app, <-IH, filter_cons.
  case_decide as Hx.
  - cbn [fmap list_fmap concat]. f_equal. symmetry. apply filter_all, Forall_forall.
    intros p (j & -> & _)%list_elem_of_fmap. done.
  - rewrite (filter_none _ (scale_points s)); [done|]. apply Forall_forall. intros p (j & -> & _)%list_elem_of_fmap Hp. by apply Hp.
Qed.

Lemma owner_others x addr_scales queue e :
  owner addr_scales queue = Some e -> e <> x ->
  owner (filter (fun s => EncodeAddr (as_addr s) <> x) addr_scales) queue = Some e.
Proof.
  intros Ho Hx. unfold owner, hash2encoded_addr. rewrite points_filter.
  by apply (ring_find_stable (fun e : Z => e <> x)).
Qed.

(** A consumer that leaves moves only its own queues.  When the address
    [x] disappears from the weights (or its weight drops to 0), every other
    consumer keeps all its queues, and what it gains was handled by [x]. *)
Theorem GetQueueByAddrScale_consistent queues addr_scales x opt i :
  local_encoded_addr opt <> x ->
  let others := filter (fun s => EncodeAddr (as_addr s) <> x) addr_scales in
  (i ∈ (GetQueueByAddrScale opt queues addr_scales).2 -> i ∈ (GetQueueByAddrScale opt queues others).2) /\
  (i ∈ (GetQueueByAddrScale opt queues others).2 ->
   i ∈ (GetQueueByAddrScale opt queues addr_scales).2 \/
   exists queue, queues !! i = Some queue /\ owner addr_scales queue = Some x).
Proof.
  intros Hx others. rewrite !GetQueueByAddrScale_spec. split.
  - intros (queue & Hq & Ho). exists queue. split; [done|]. by apply owner_others.
  - intros (queue & Hq & Ho). destruct (owner_is_Some addr_scales queue) as [e He].
    { apply owner_weighted in Ho as (s & [_ Hs]%list_elem_of_filter & Hw & _). by exists s. }
    destruct (decide (e = x)) as [->|Hne]; [right; by exists queue|left]. exists queue. split; [done|].
    pose proof (owner_others x _ _ _ He Hne). unfold others in Ho. congruence.
Qed.
End distribution.
End Consumer.

Module HeartBeatLock.

(** [HeartBeatLockImpl] and the shared memory: [buf_magic] and one slot per
    process. *)
Record t := mk {
  buf_magic : Z;
  queues : list Queue_t;
  conf_last_mod_time : Z;
  scale_hashs : gmap Z Z;
  proc_used : Z;
}.

Definition set_queues (h : t) (qs : list Queue_t) : t :=
  mk (buf_magic h) qs (conf_last_mod_time h) (scale_hashs h) (proc_used h).

(** The memory of a new segment; a segment that exists is taken as it is. *)
Definition Init (nproc : nat) (segment : option (Z * list Queue_t)) : t :=
  match segment with
  | None => mk 0 (replicate nproc zero_queue) 0 ∅ 0
  | Some (magic, qs) => mk magic qs 0 ∅ 0
  end.

Definition locked (queue : Queue_t) : bool := q_magic queue =? LOCK_ITEM_MAGIC.

Definition ClearInvalidConsumerGroupIDs (h : t) (valid_consumer_group_ids : gset Z) : t :=
  set_queues h ((fun queue =>
    if locked queue && negb (bool_decide (to_i32 (q_consumer_group_id queue) ∈ valid_consumer_group_ids))
    then zero_queue else queue) <$> queues h).

(** ** Spreading the pending queues over the processes *)

(** A loop over the slots that rewrites each and carries [done]. *)
Fixpoint map_accum {A S} (f : S -> A -> A * S) (s : S) (l : list A) : list A * S :=
  match l with
  | [] => ([], s)
  | x :: l => let '(x', s1) := f s x in let '(l', s2) := map_accum f s1 l in (x' :: l', s2)
  end.

Definition same_queue (queue pending : Queue_t) : Prop :=
  q_consumer_group_id queue = q_consumer_group_id pending /\
  q_store_id queue = q_store_id pending /\ q_queue_id queue = q_queue_id pending.

#[export] Instance same_queue_dec q p : Decision (same_queue q p).
Proof. unfold same_queue. apply _. Defined.

(** A process that handles a pending queue keeps it, the first one if there
    are several; any other slot of the group is cleared. *)
Definition keep_slot (consumer_group_id : Z) (pending : list Queue_t) (done : list bool) (queue : Queue_t)
    : Queue_t * list bool :=
  if locked queue && (to_u32 consumer_group_id =? q_consumer_group_id queue) then
    match list_find (same_queue queue) pending with
    | Some (idx, _) => if default false (done !! idx) then (zero_queue, done) else (queue, <[idx := true]> done)
    | None => (zero_queue, done)
    end
  else (queue, done).

(** A slot without a queue takes the first pending queue that is not done. *)
Definition fill_slot (pending : list Queue_t) (done : list bool) (queue : Queue_t) : Queue_t * list bool :=
  if locked queue then (queue, done) else
  match list_find (fun d => d = false) done with
  | Some (idx, _) =>
      match pending !! idx with
      | Some p => (mkQueue LOCK_ITEM_MAGIC (q_consumer_group_id p) (q_pub_id queue) (q_store_id p) (q_queue_id p),
                   <[idx := true]> done)
      | None => (queue, done)
      end
  | None => (mkQueue 0 (q_consumer_group_id queue) (q_pub_id queue) (q_store_id queue) (q_queue_id queue), done)
  end.

Definition disturb_group (qs : list Queue_t) (kv : Z * list Queue_t) : list Queue_t :=
  let '(consumer_group_id, pending) := kv in
  let '(qs1, done) := map_accum (keep_slot consumer_group_id pending) (replicate (length pending) false) qs in
  (map_accum (fill_slot pending) done qs1).1.

Definition DistubePendingQueues (h : t) (consumer_group_id2pending_queues : gmap Z (list Queue_t)) : t :=
  mk LOCK_BUF_MAGIC (foldl disturb_group (queues h) (map_items consumer_group_id2pending_queues))
     (conf_last_mod_time h) (scale_hashs h) (proc_used h).

(** ** What the slots hold *)

Definition key (queue : Queue_t) : Z * Z := (q_store_id queue, q_queue_id queue).

(** The queues of group [g] that the processes hold, slot by slot. *)
Definition held (g : Z) (qs : list Queue_t) : list (Z * Z) :=
  omap (fun queue => if locked queue && (g =? q_consumer_group_id queue) then Some (key queue) else None) qs.

(** The slots that other groups hold. *)
Definition others (g : Z) (qs : list Queue_t) : list Queue_t :=
  filter (fun queue => locked queue = true /\ q_consumer_group_id queue <> g) qs.

(** The pending queues that are not done. *)
Definition left (pending : list Queue_t) (done : list bool) : list (Z * Z) :=
  omap (fun '(p, d) => if (d : bool) then None else Some (key p)) (zip pending done).

#[local] Arguments held : simpl never.
#[local] Arguments others : simpl never.
#[local] Arguments left : simpl never.
#[local] Arguments disturb_group : simpl never.

Definition of_group (g : Z) (pending : list Queue_t) : Prop :=
  Forall (fun p => q_consumer_group_id p = g) pending.

Lemma left_all pending : left pending (replicate (length pending) false) = key <$> pending.
Proof. unfold left. induction pending as [|p l IH]; [done|]. cbn. f_equal. exact IH. Qed.

Lemma left_done pending done idx p :
  pending !! idx = Some p -> done !! idx = Some false ->
  left pending done ≡ₚ key p :: left pending (<[idx := true]> done).
Proof.
  revert done idx. induction pending as [|p' l IH]; intros dn idx Hp Hd; [done|].
  destruct dn as [|d dn]; [by rewrite lookup_nil in Hd|]. unfold left in *. destruct idx as [|idx].
  - by simplify_eq/=.
  - simpl in *. destruct d; simpl; rewrite (IH _ _ Hp Hd); [done|]. apply perm_swap.
Qed.

Lemma left_elem pending done idx p :
  pending !! idx = Some p -> done !! idx = Some false -> key p ∈ left pending done.
Proof. intros Hp Hd. rewrite (left_done _ _ _ _ Hp Hd). left. Qed.

Lemma left_none pending done : list_find (fun d => d = false) done = None -> left pending done = [].
Proof.
  intros Hf. apply list_find_None in Hf. unfold left. revert pending.
  induction Hf as [|d done Hd _ IH]; intros [|p pending]; try done. simpl. destruct d; [apply IH|done].
Qed.

Lemma left_nil_find pending done idx d :
  length done = length pending -> left pending done = [] -> list_find (fun d => d = false) done = Some (idx, d) -> False.
Proof.
  intros Hl Hn (Hd & -> & _)%list_find_Some.
  destruct (lookup_lt_is_Some_2 pending idx) as [p Hp]; [rewrite <-Hl; by eapply lookup_lt_Some|].
  pose proof (left_elem _ _ _ _ Hp Hd) as Hin. rewrite Hn in Hin. by apply elem_of_nil in Hin.
Qed.

Section group.
Context (cg : Z) (pending : list Queue_t).
Hypothesis (Hpending : of_group (to_u32 cg) pending).

Lemma held_cons g q qs :
  held g (q :: qs) = (if locked q && (g =? q_consumer_group_id q) then [key q] else []) ++ held g qs.
Proof. unfold held. cbn. by destruct (_ && _). Qed.

Lemma find_pending queue idx p :
  list_find (same_queue queue) pending = Some (idx, p) -> pending !! idx = Some p /\ key queue = key p.
Proof.
  intros (Hp & (H1 & H2 & H3) & _)%list_find_Some. split; [done|]. unfold key. by rewrite H2, H3.
Qed.

(** One slot of the first loop: it gives up its queue or moves it from what is
    left to what is held. *)
Lemma keep_slot_spec done queue queue' done' :
  length done = length pending -> keep_slot cg pending done queue = (queue', done') ->
  length done' = length pending /\ held (to_u32 cg) [queue'] ++ left pending done' ≡ₚ left pending done /\
  (locked queue = false \/ q_consumer_group_id queue <> to_u32 cg -> queue' = queue /\ done' = done) /\
  (queue' = queue \/ queue' = zero_queue).
Proof.
  intros Hl Hk. unfold keep_slot in Hk. rewrite held_cons. change (held (to_u32 cg) []) with (@nil (Z * Z)). rewrite app_nil_r.
  split_if_in Hk.
  - destruct (list_find (same_queue queue) pending) as [[idx p]|] eqn:Ef.
    + apply find_pending in Ef as [Hp Hkey].
      destruct (lookup_lt_is_Some_2 done idx) as [d Hd]; [rewrite Hl; by eapply lookup_lt_Some|].
      rewrite Hd in Hk. simpl in Hk. destruct d; simplify_eq/=.
      * split_and!; [done|done| |by right]. intros [?|?]; [congruence|lia].
      * rewrite length_insert. split_and!; [done| | |by left].
        -- rewrite (left_done _ _ _ _ Hp Hd).
           replace (key p) with (key queue') by (unfold key; congruence).
           rewrite (proj2 (andb_true_iff _ _)); [done|]. split; [done|lia].
        -- intros [?|?]; [congruence|lia].
    + simplify_eq/=. split_and!; [done|done| |by right]. intros [?|?]; [congruence|lia].
  - split_and!; [done| |done|by left].
    destruct Heqb as [E|E]; simpl_bool; [by rewrite E|]. rewrite (proj2 (Z.eqb_neq _ _) E), andb_false_r. done.
Qed.

Lemma keep_pass done qs qs' done' :
  length done = length pending -> map_accum (keep_slot cg pending) done qs = (qs', done') ->
  length done' = length pending /\ length qs' = length qs /\
  held (to_u32 cg) qs' ++ left pending done' ≡ₚ left pending done /\
  others (to_u32 cg) qs' = others (to_u32 cg) qs /\
  (forall i q, qs !! i = Some q -> locked q = false \/ q_consumer_group_id q <> to_u32 cg -> qs' !! i = Some q).
Proof.
  revert done qs'. induction qs as [|q qs IH]; intros done qs' Hl Hk; simpl in Hk; [by simplify_eq|].
  destruct (keep_slot cg pending done q) as [q1 done1] eqn:E1.
  destruct (map_accum (keep_slot cg pending) done1 qs) as [qs1 done2] eqn:E2. simplify_eq.
  destruct (keep_slot_spec _ _ _ _ Hl E1) as (Hl1 & Hp1 & Hs1 & Hz).
  destruct (IH _ _ Hl1 E2) as (Hl2 & Hn & Hp2 & Ho & Hs2). split_and!; [done|simpl; lia| | |].
  - rewrite held_cons. unfold held at 1 in Hp1. simpl in Hp1. rewrite <-Hp1, <-Hp2.
    rewrite <-app_assoc. destruct (_ && _); done.
  - unfold others in *. rewrite !filter_cons, Ho.
    destruct (decide (locked q = false \/ q_consumer_group_id q <> to_u32 cg)) as [Hc|Hc].
    + by destruct (Hs1 Hc) as [-> _].
    + rewrite (decide_False (P := locked q = true /\ _)) by tauto.
      rewrite decide_False; [done|]. destruct Hz as [-> | ->]; [tauto|]. by intros [? _].
  - intros [|i] q' Hi Hc; simpl in *; [|by apply Hs2]. simplify_eq. by destruct (Hs1 Hc) as [-> _].
Qed.

Lemma fill_pass done qs qs' done' :
  length done = length pending -> map_accum (fill_slot pending) done qs = (qs', done') ->
  length qs' = length qs /\ length done' = length pending /\
  held (to_u32 cg) qs' ++ left pending done' ≡ₚ held (to_u32 cg) qs ++ left pending done /\
  (left pending done = [] -> left pending done' = []) /\
  (left pending done' = [] \/ Forall (fun q => locked q = true) qs') /\
  others (to_u32 cg) qs' = others (to_u32 cg) qs /\
  (forall i q, qs !! i = Some q -> locked q = true -> qs' !! i = Some q).
Proof.
  revert done qs'. induction qs as [|q qs IH]; intros done qs' Hl Hk; simpl in Hk.
  { simplify_eq. split_and!; try done. by right. }
  destruct (fill_slot pending done q) as [q1 done1] eqn:E1.
  destruct (map_accum (fill_slot pending) done1 qs) as [qs1 done2] eqn:E2. simplify_eq.
  unfold fill_slot in E1. split_if_in E1; simplify_eq.
  { destruct (IH _ _ Hl E2) as (Hn & Hld & Hp & Hz & Ho & Hot & Hs). split_and!; [simpl; lia|done| |done| | |].
    - rewrite !held_cons, <-!app_assoc. by rewrite Hp.
    - destruct Ho; [by left|right; by constructor].
    - unfold others in *. by rewrite !filter_cons, Hot.
    - intros [|i] q' Hi Hc; simpl in *; [done|by apply Hs]. }
  destruct (list_find (fun d => d = false) done) as [[idx d]|] eqn:Ef.
  - pose proof Ef as (Hd & -> & _)%list_find_Some.
    destruct (lookup_lt_is_Some_2 pending idx) as [p Hp]; [rewrite <-Hl; by eapply lookup_lt_Some|].
    rewrite Hp in E1. simplify_eq.
    destruct (IH (<[idx := true]> done) qs1) as (Hn & Hld & Hperm & Hz & Ho & Hot & Hs); [by rewrite length_insert|done|].
    assert (Hg : q_consumer_group_id p = to_u32 cg).
    { apply (proj1 (Forall_forall _ _) Hpending). by eapply list_elem_of_lookup_2. }
    split_and!; [simpl; lia|done| | | | |].
    + rewrite !held_cons. simpl. rewrite Hg, Z.eqb_refl, Heqb. simpl.
      rewrite Hperm, (left_done _ _ _ _ Hp Hd). apply Permutation_middle.
    + intros Hn0. exfalso. exact (left_nil_find _ _ _ _ Hl Hn0 Ef).
    + destruct Ho; [by left|right; by constructor].
    + unfold others in *. rewrite !filter_cons, Hot.
      rewrite (decide_False (P := locked q = true /\ _)) by (rewrite Heqb; by intros [? _]).
      rewrite decide_False; [done|]. simpl. intros [_ ?]. congruence.
    + intros [|i] q' Hi Hc; simpl in *; [|by apply Hs]. simplify_eq. congruence.
  - simplify_eq. destruct (IH _ _ Hl E2) as (Hn & Hld & Hp & Hz & Ho & Hot & Hs).
    split_and!; [simpl; lia|done| |done| | |].
    + rewrite !held_cons. simpl. rewrite Heqb. simpl. exact Hp.
    + left. apply Hz. by apply left_none.
    + unfold others in *. rewrite !filter_cons, Hot. rewrite (decide_False (P := locked q = true /\ _)) by (rewrite Heqb; by intros [? _]).
      rewrite decide_False; [done|]. by intros [? _].
    + intros [|i] q' Hi Hc; simpl in *; [|by apply Hs]. simplify_eq. congruence.
Qed.

(** A held pending queue is kept, when the processes hold each queue of the
    group once. *)
Lemma keep_kept dn qs qs' done' :
  length dn = length pending -> NoDup (held (to_u32 cg) qs) ->
  (forall idx p, pending !! idx = Some p -> dn !! idx = Some true -> key p ∉ held (to_u32 cg) qs) ->
  map_accum (keep_slot cg pending) dn qs = (qs', done') ->
  forall i q, qs !! i = Some q -> locked q = true -> q_consumer_group_id q = to_u32 cg ->
    key q ∈ key <$> pending -> qs' !! i = Some q.
Proof.
  revert dn qs'. induction qs as [|q0 qs IH]; intros dn qs' Hl Hnd Hdone Hk i q Hi Hlk Hg Hq; [done|].
  simpl in Hk. destruct (keep_slot cg pending dn q0) as [q1 done1] eqn:E1.
  destruct (map_accum (keep_slot cg pending) done1 qs) as [qs1 done2] eqn:E2. simplify_eq.
  destruct (keep_slot_spec _ _ _ _ Hl E1) as (Hl1 & _).
  rewrite held_cons in Hnd. apply NoDup_app in Hnd as (_ & Hnew & Hnd).
  assert (Hdone1 : forall idx p, pending !! idx = Some p -> done1 !! idx = Some true -> key p ∉ held (to_u32 cg) qs).
  { intros idx p Hp Hd. unfold keep_slot in E1.
    assert (Hold : dn !! idx = Some true -> key p ∉ held (to_u32 cg) qs).
    { intros Hd'. specialize (Hdone _ _ Hp Hd'). rewrite held_cons in Hdone. set_solver. }
    destruct (_ && _) eqn:Eb; [|by simplify_eq; auto].
    destruct (list_find (same_queue q0) pending) as [[idx' p']|] eqn:Ef; [|by simplify_eq; auto].
    destruct (default false (dn !! idx')); simplify_eq; [by auto|].
    destruct (decide (idx' = idx)) as [->|Hne]; [|rewrite list_lookup_insert_ne in Hd by done; by auto].
    apply find_pending in Ef as [Hp' Hkey]. rewrite Hp in Hp'. injection Hp' as <-. rewrite <-Hkey. apply Hnew. left. }
  destruct i as [|i]; simpl in Hi |- *; [|by eapply (IH done1)]. injection Hi as ->.
  f_equal. unfold keep_slot in E1. rewrite Hlk, Hg, Z.eqb_refl in E1. simpl in E1.
  destruct (list_find (same_queue q) pending) as [[idx p]|] eqn:Ef.
  - apply find_pending in Ef as [Hp Hkey].
    destruct (lookup_lt_is_Some_2 dn idx) as [d Hd]; [rewrite Hl; by eapply lookup_lt_Some|].
    rewrite Hd in E1. simpl in E1. destruct d; [exfalso|by simplify_eq].
    apply (Hdone _ _ Hp Hd). rewrite held_cons, <-Hkey, Hlk, Hg, Z.eqb_refl. left.
  - exfalso. apply list_find_None in Ef. apply list_elem_of_fmap in Hq as (p & Hkey & Hin).
    rewrite Forall_forall in Ef. apply (Ef p Hin). unfold same_queue.
    rewrite Hg, (proj1 (Forall_forall _ _) Hpending p Hin). unfold key in Hkey. by injection Hkey as -> ->.
Qed.

(** One group: the processes get its pending queues, as many as there are
    slots; the other groups keep theirs. *)
Lemma disturb_group_spec qs :
  let qs' := disturb_group qs (cg, pending) in
  length qs' = length qs /\
  (exists rest, held (to_u32 cg) qs' ++ rest ≡ₚ key <$> pending /\ (rest = [] \/ Forall (fun q => locked q = true) qs')) /\
  others (to_u32 cg) qs' = others (to_u32 cg) qs /\
  (forall i q, qs !! i = Some q -> locked q = true ->
     q_consumer_group_id q <> to_u32 cg \/ (NoDup (held (to_u32 cg) qs) /\ key q ∈ key <$> pending) ->
     qs' !! i = Some q).
Proof.
  unfold disturb_group.
  destruct (map_accum (keep_slot cg pending) (replicate (length pending) false) qs) as [qs1 done] eqn:E1.
  destruct (map_accum (fill_slot pending) done qs1) as [qs2 done2] eqn:E2. cbn.
  destruct (keep_pass _ _ _ _ (length_replicate _ _) E1) as (Hl1 & Hn1 & Hp1 & Ho1 & Hs1).
  destruct (fill_pass _ _ _ _ Hl1 E2) as (Hn2 & Hl2 & Hp2 & _ & Hr & Ho2 & Hs2).
  split_and!; [lia| |congruence|].
  - exists (left pending done2). split; [|done]. by rewrite Hp2, Hp1, left_all.
  - intros i q Hi Hlk Hc. apply Hs2; [|done].
    destruct (decide (q_consumer_group_id q = to_u32 cg)) as [Hg|Hg]; [|by eapply Hs1; eauto].
    destruct Hc as [Hc|[Hnd Hq]]; [done|].
    eapply keep_kept; [apply length_replicate|exact Hnd| |exact E1|done..].
    intros idx p _ Hd. apply lookup_replicate in Hd as [? _]. done.
Qed.
End group.

Lemma held_others g g' qs : g <> g' -> held g (others g' qs) = held g qs.
Proof.
  intros Hne. induction qs as [|q qs IH]; [done|]. rewrite (held_cons g q qs), <-IH. unfold others. rewrite filter_cons.
  case_decide as Hd; [apply held_cons|].
  destruct (locked q) eqn:El; simpl; [|done]. destruct (Z.eqb_spec g (q_consumer_group_id q)); [|done].
  exfalso. apply Hd. split; [done|congruence].
Qed.

Lemma length_others_le g g' qs qs' : g <> g' -> others g' qs' = others g' qs ->
  (length (others g qs') <= length (others g qs) + length (held g' qs'))%nat.
Proof.
  intros Hne Ho.
  assert (Hsplit : forall l, length (others g l) = (length (others g (others g' l)) + length (held g' l))%nat).
  { intros l. induction l as [|q l IH]; [done|]. rewrite held_cons, length_app. unfold others in *. rewrite !filter_cons.
    destruct (decide (locked q = true /\ q_consumer_group_id q <> g')) as [[Hlk Hg']|Hg'].
    - rewrite (proj2 (Z.eqb_neq g' _)) by done. rewrite andb_false_r, filter_cons.
      repeat case_decide; simpl; try lia; exfalso; tauto.
    - destruct (locked q); simpl.
      + destruct (Z.eqb_spec g' (q_consumer_group_id q)); [|naive_solver].
        rewrite decide_True by (split; [done|congruence]). simpl. lia.
      + by repeat case_decide. }
  rewrite (Hsplit qs'), (Hsplit qs), Ho. lia.
Qed.

(** The groups of a list of pending queues, with 32-bit ids that differ. *)
Definition groups_ok (l : list (Z * list Queue_t)) : Prop :=
  Forall (fun kv => is_i32 kv.1 /\ of_group (to_u32 kv.1) kv.2) l.

Lemma to_u32_inj a b : is_i32 a -> is_i32 b -> to_u32 a = to_u32 b -> a = b.
Proof. unfold is_i32, to_u32, INT32_MIN, INT32_MAX. intros. Z.div_mod_to_equations. lia. Qed.

Lemma to_i32_to_u32 k : is_i32 k -> to_i32 (to_u32 k) = k.
Proof. unfold is_i32, to_i32, to_u32, INT32_MIN, INT32_MAX. intros. Z.div_mod_to_equations. lia. Qed.

Lemma disturb_others l g qs :
  groups_ok l -> g ∉ (fun kv : Z * list Queue_t => to_u32 kv.1) <$> l ->
  let qs' := foldl disturb_group qs l in
  length qs' = length qs /\ held g qs' = held g qs /\
  (length (others g qs') <= length (others g qs) + length (concat l.*2))%nat /\
  (forall i q, qs !! i = Some q -> locked q = true -> q_consumer_group_id q = g -> qs' !! i = Some q).
Proof.
  revert qs. induction l as [|[k P] l IH]; intros qs Hok Hg; simpl in *; [split_and!; [done..|lia|done]|].
  apply Forall_cons in Hok as [[Hk HP] Hok]. simpl in *.
  assert (Hne : g <> to_u32 k) by set_solver.
  destruct (disturb_group_spec k P HP qs) as (Hl & (rest & Hp & _) & Ho & Hs).
  destruct (IH (disturb_group qs (k, P)) Hok ltac:(set_solver)) as (IHl & IHh & IHo & IHs).
  split_and!; [lia| | |].
  - by rewrite IHh, <-(held_others g (to_u32 k) (disturb_group qs (k, P))), Ho, held_others by done.
  - pose proof (length_others_le g (to_u32 k) qs _ Hne Ho). apply Permutation_length in Hp.
    rewrite length_app, length_fmap in Hp. rewrite length_app. change (list_fmap _ _ snd l) with l.*2. lia.
  - intros i q Hi Hlk Hgq. apply IHs; [|done..]. apply Hs; [done..|]. left. congruence.
Qed.

Lemma elem_of_held g k qs :
  k ∈ held g qs <-> exists q, q ∈ qs /\ locked q = true /\ q_consumer_group_id q = g /\ key q = k.
Proof.
  unfold held. rewrite list_elem_of_omap. split.
  - intros (q & Hin & Hq). exists q. destruct (locked q && (g =? q_consumer_group_id q)) eqn:E; simplify_eq. by simpl_bool.
  - intros (q & Hin & Hl & <- & <-). exists q. by rewrite Hl, Z.eqb_refl.
Qed.

(** The groups that the processes work for afterwards. *)
Lemma disturb_groups_of l qs q :
  groups_ok l -> q ∈ foldl disturb_group qs l -> locked q = true ->
  (exists q0, q0 ∈ qs /\ locked q0 = true /\ q_consumer_group_id q0 = q_consumer_group_id q) \/
  (exists k, k ∈ l.*1 /\ q_consumer_group_id q = to_u32 k).
Proof.
  intros Hok Hin Hl.
  destruct (decide (q_consumer_group_id q ∈ (fun kv : Z * list Queue_t => to_u32 kv.1) <$> l)) as [Hg|Hg].
  - right. apply list_elem_of_fmap in Hg as ([k P] & Hg & Hk). exists k. split; [|done].
    apply list_elem_of_fmap. by exists (k, P).
  - left. destruct (disturb_others l _ qs Hok Hg) as (_ & Hh & _).
    assert (Hk : key q ∈ held (q_consumer_group_id q) (foldl disturb_group qs l)) by (apply elem_of_held; by exists q).
    rewrite Hh in Hk. apply elem_of_held in Hk as (q0 & ? & ? & ? & _). by exists q0.
Qed.

Lemma length_slots g qs : Forall (fun q => locked q = true) qs -> length qs = (length (held g qs) + length (others g qs))%nat.
Proof.
  induction 1 as [|q qs Hq _ IH]; [done|]. rewrite held_cons, length_app. unfold others in *. rewrite filter_cons. simpl.
  rewrite IH, Hq. simpl. destruct (Z.eqb_spec g (q_consumer_group_id q)).
  - rewrite decide_False by naive_solver. simpl. lia.
  - rewrite decide_True by (split; [done|congruence]). simpl. lia.
Qed.

Lemma pending_groups_ok (m : gmap Z (list Queue_t)) :
  (forall k P, m !! k = Some P -> is_i32 k /\ of_group (to_u32 k) P) -> groups_ok (map_items m).
Proof. intros Hm. apply Forall_forall. intros [k P] Hin%elem_of_map_items. by apply Hm. Qed.

Lemma map_items_split (m : gmap Z (list Queue_t)) k P :
  (forall k P, m !! k = Some P -> is_i32 k /\ of_group (to_u32 k) P) -> m !! k = Some P ->
  exists l1 l2, map_items m = l1 ++ (k, P) :: l2 /\
    (to_u32 k ∉ (fun kv : Z * list Queue_t => to_u32 kv.1) <$> l1) /\
    (to_u32 k ∉ (fun kv : Z * list Queue_t => to_u32 kv.1) <$> l2).
Proof.
  intros Hm Hk. pose proof (proj2 (elem_of_map_items m k P) Hk) as (l1 & l2 & E)%list_elem_of_split.
  exists l1, l2. split; [done|]. pose proof (map_items_sorted m) as Hs. rewrite E in Hs.
  assert (Hno : forall kv, kv ∈ l1 \/ kv ∈ l2 -> kv.1 <> k /\ is_i32 kv.1).
  { intros [k' P'] Hin. simpl. split.
    - unfold key_sorted in Hs. apply StronglySorted_app in Hs as (Hc & _ & [_ Hs2]%StronglySorted_inv).
      destruct Hin as [Hin|Hin]; [specialize (Hc (k', P') (k, P) Hin ltac:(left)); simpl in Hc; lia|].
      rewrite Forall_forall in Hs2. specialize (Hs2 _ Hin). simpl in Hs2. lia.
    - apply (Hm k' P'), elem_of_map_items. rewrite E, elem_of_app, elem_of_cons. tauto. }
  destruct (Hm _ _ Hk) as [Hki _].
  split; intros ([k' P'] & Hu & Hin)%list_elem_of_fmap; simpl in Hu;
    apply to_u32_inj in Hu; try done; destruct (Hno (k', P')) as [Hne Hi]; try (by auto); done.
Qed.

Lemma DistubePendingQueues_spread h m k P :
  m !! k = Some P -> (forall k P, m !! k = Some P -> is_i32 k /\ of_group (to_u32 k) P) ->
  let h' := DistubePendingQueues h m in
  length (queues h') = length (queues h) /\
  (exists rest, held (to_u32 k) (queues h') ++ rest ≡ₚ key <$> P /\
   ((length (concat (map_items m).*2) + length (others (to_u32 k) (queues h)) <= length (queues h))%nat -> rest = [])).
Proof.
  intros Hk Hm h'. destruct (map_items_split m k P Hm Hk) as (l1 & l2 & E & Hn1 & Hn2).
  pose proof (pending_groups_ok m Hm) as Hok. rewrite E in Hok.
  apply Forall_app in Hok as [Hok1 [[_ HP] Hok2]%Forall_cons]. simpl in HP.
  assert (Eq : queues h' = foldl disturb_group (disturb_group (foldl disturb_group (queues h) l1) (k, P)) l2).
  { unfold h', DistubePendingQueues. cbn [queues]. by rewrite E, foldl_app. }
  destruct (disturb_others l1 _ (queues h) Hok1 Hn1) as (Hl1 & _ & Ho1 & _).
  set (qs1 := foldl disturb_group (queues h) l1) in *.
  destruct (disturb_group_spec k P HP qs1) as (Hl & (rest & Hp & Hr) & Ho & _).
  set (qs2 := disturb_group qs1 (k, P)) in *.
  destruct (disturb_others l2 _ qs2 Hok2 Hn2) as (Hl2 & Hh & _ & _). rewrite Eq.
  split; [lia|]. exists rest. rewrite Hh. split; [done|]. intros Hcap.
  destruct Hr as [|Hfull]; [done|]. apply (length_slots (to_u32 k)) in Hfull.
  apply Permutation_length in Hp. rewrite length_app, length_fmap in Hp.
  rewrite E, fmap_app, concat_app, length_app, fmap_cons, Ho in *. cbn [concat snd] in Hcap. rewrite length_app in Hcap.
  destruct rest; [done|]. simpl in Hp. lia.
Qed.

(** The pending queues of a consumer are spread over its processes.  After
    [DistubePendingQueues] the processes hold, for a group that is being
    redistributed, pending queues of that group and no others, each one as
    often as it is pending; every one of them if the processes are enough for
    the pending queues of all groups and the queues that the other groups
    hold. *)
Theorem DistubePendingQueues_assigns h m k P :
  m !! k = Some P -> (forall k P, m !! k = Some P -> is_i32 k /\ of_group (to_u32 k) P) ->
  let h' := DistubePendingQueues h m in
  length (queues h') = length (queues h) /\
  (exists rest, held (to_u32 k) (queues h') ++ rest ≡ₚ key <$> P /\
   ((length (concat (map_items m).*2) + length (others (to_u32 k) (queues h)) <= length (queues h))%nat -> rest = [])).
Proof. exact (DistubePendingQueues_spread h m k P). Qed.

(** No lock switching.  A process keeps the queue it handles when the
    queue's group is not being redistributed, or when the queue is still
    pending and the processes hold the queues of the group once. *)
Theorem DistubePendingQueues_keeps h m i q :
  (forall k P, m !! k = Some P -> is_i32 k /\ of_group (to_u32 k) P) ->
  queues h !! i = Some q -> locked q = true ->
  (forall k P, m !! k = Some P -> to_u32 k = q_consumer_group_id q ->
     key q ∈ key <$> P /\ NoDup (held (to_u32 k) (queues h))) ->
  queues (DistubePendingQueues h m) !! i = Some q.
Proof.
  intros Hm Hi Hlk Hc. unfold DistubePendingQueues. cbn [queues].
  destruct (decide (q_consumer_group_id q ∈ (fun kv : Z * list Queue_t => to_u32 kv.1) <$> map_items m)) as [Hin|Hin].
  2: { by eapply (disturb_others _ _ _ (pending_groups_ok m Hm) Hin). }
  apply list_elem_of_fmap in Hin as ([k P] & Hg & Hk%elem_of_map_items). simpl in Hg.
  destruct (Hc k P Hk (eq_sym Hg)) as [Hq Hnd].
  destruct (map_items_split m k P Hm Hk) as (l1 & l2 & E & Hn1 & Hn2).
  pose proof (pending_groups_ok m Hm) as Hok. rewrite E in Hok |- *.
  apply Forall_app in Hok as [Hok1 [[_ HP] Hok2]%Forall_cons]. simpl in HP.
  rewrite foldl_app. simpl. destruct (disturb_others l1 _ (queues h) Hok1 Hn1) as (_ & Hh & _ & Hs1).
  eapply (disturb_others l2 _ _ Hok2 Hn2); [|done|done].
  eapply (disturb_group_spec k P HP); [by apply Hs1|done|]. right. by rewrite Hh.
Qed.
End HeartBeatLock.
