(* ===== verification/HeartBeatSync.v ===== *)
(** * The periodic redistribution of a consumer's queues

    [HeartBeatLock::Sync] of src/phxqueue/consumer/hblock.cpp with what it
    calls: the weights of the consumers that serve each group
    ([GetAddrScale]), all queues of a group ([GetAllQueues]), those that this
    consumer handles ([GetPendingQueues]).  The main theorem composes them with
    the hash ring of [Consumer] and with [DistubePendingQueues]: consumers that
    synced with the same weights hold every queue of a group at exactly one
    address.

    The remote call to the scheduler and [crc32] of zlib are arguments. *)

From S2P Require Import Prelude HashUtil RetCode TopicConfig StoreConfig ConsumerConfig.
From S2P Require Import HeartBeatLock.

Record GetAddrScaleRequest := mkGetAddrScaleRequest {
  gs_topic_id : Z;
  gs_addr : Addr;
  gs_cpu : Z;
  gs_proc_used_ratio : Z;
}.

#[local] Set Default Proof Using "Type".

Module HeartBeatSync.
Import HeartBeatLock.
Section sync.
Context `{IN : Inet, GC : GlobalConfig, CD : ConsumerDirectory} {W : Type}.
Context (scheduler_call : GetAddrScaleRequest -> W -> RetCode * list AddrScale * W).
Context (crc32 : Z -> list Z -> Z).
Context (topic_id : Z) (opt : ConsumerOption).

Definition nproc (h : t) : Z := Z.of_nat (length (queues h)).

Definition UpdateProcUsed (h : t) : t :=
  mk (buf_magic h) (queues h) (conf_last_mod_time h) (scale_hashs h)
     (Z.of_nat (length (filter (fun queue => locked queue = true) (queues h)))).

Definition string_bytes (s : string) : list Z :=
  (fun c => Z.of_N (N_of_ascii c)) <$> String.list_ascii_of_string s.

(** [crc32(0, Z_NULL, 0)] is the initial value. *)
Definition CalHash (addr_scales : list AddrScale) : Z :=
  foldl (fun h addr_scale =>
    let h := crc32 h (string_bytes (ip (as_addr addr_scale))) in
    let h := crc32 h (le_bytes 4 (port (as_addr addr_scale))) in
    let h := crc32 h (le_bytes 4 (paxos_port (as_addr addr_scale))) in
    crc32 h (le_bytes 4 (as_scale addr_scale))) (crc32 0 []) addr_scales.

(** ** [GetAddrScale] *)

Definition self_addr : Addr := mkAddr (co_ip opt) (co_port opt) 0.

(** [use_dynamic_scale] of a group that the topic has. *)
Definition is_dynamic (topic_config : TopicConfig.t) (consumer_group_id : Z) : bool :=
  match TopicConfig.GetConsumerGroupByConsumerGroupID topic_config consumer_group_id with
  | (RET_OK, Some consumer_group) => negb (cg_use_dynamic_scale consumer_group =? 0)
  | _ => false
  end.

Definition addr_scale_request (h : t) (cpu : Z) : GetAddrScaleRequest :=
  mkGetAddrScaleRequest topic_id self_addr cpu (if nproc h =? 0 then 0 else Z.quot (proc_used h * 100) (nproc h)).

(** The lambda [f]: the weight counts for the groups its address serves. *)
Definition add_addr_scale (consumer_group_id : Z) (m : gmap Z (list AddrScale)) (addr_scale : AddrScale)
    : gmap Z (list AddrScale) :=
  match GetConsumerGroupIDsByConsumerAddr topic_id (as_addr addr_scale) with
  | (RET_OK, ids) =>
      if bool_decide (consumer_group_id ∈ ids)
      then <[consumer_group_id := default [] (m !! consumer_group_id) ++ [addr_scale]]> m else m
  | _ => m
  end.

Definition collect (consumer_group_ids dynamic_consumer_group_ids : gset Z)
    (config_addr_scales dynamic_addr_scales : list AddrScale) : gmap Z (list AddrScale) :=
  foldl (fun m consumer_group_id =>
    foldl (add_addr_scale consumer_group_id) m
      (if bool_decide (consumer_group_id ∈ dynamic_consumer_group_ids)
       then dynamic_addr_scales else config_addr_scales)) ∅ (set_items consumer_group_ids).

(** When the scheduler fails, a consumer that never synced uses the weights of
    the configuration, any other one gives up. *)
Definition GetAddrScale (h : t) (cpu : Z) (w : W) : RetCode * gmap Z (list AddrScale) * W :=
  match GetConsumerConfig topic_id with
  | (RET_OK, Some consumer_config) =>
      match GetConsumerGroupIDsByConsumerAddr topic_id self_addr with
      | (RET_OK, consumer_group_ids) =>
          match GetTopicConfigByTopicID topic_id with
          | (RET_OK, Some topic_config) =>
              let dynamic := filter (fun id => is_dynamic topic_config id = true) consumer_group_ids in
              let '(failed, dynamic, dynamic_addr_scales, w) :=
                if bool_decide (dynamic = ∅) then (None, dynamic, [], w) else
                match scheduler_call (addr_scale_request h cpu) w with
                | (RET_OK, addr_scales, w) => (None, dynamic, addr_scales, w)
                | (ret, _, w) => if conf_last_mod_time h =? 0 then (None, ∅, [], w) else (Some ret, dynamic, [], w)
                end in
              match failed with
              | Some ret => (ret, ∅, w)
              | None =>
                  let config_addr_scales :=
                    if Nat.ltb (size dynamic) (size consumer_group_ids)
                    then (fun consumer => mkAddrScale (consumer_addr consumer) (ConsumerConfig.consumer_scale consumer))
                         <$> (ConsumerConfig.GetAllConsumer consumer_config []).2
                    else [] in
                  (RET_OK, collect consumer_group_ids dynamic config_addr_scales dynamic_addr_scales, w)
              end
          | (ret, _) => (ret, ∅, w)
          end
      | (ret, _) => (ret, ∅, w)
      end
  | (ret, _) => (ret, ∅, w)
  end.

(** ** [GetAllQueues] *)

(** The set [filter] and [all_queues]. *)
Definition scan : Type := gset (Z * Z) * list Queue_t.

Definition add_queue (consumer_group_id store_id pub_id : Z) (st : scan) (queue_id : Z) : scan :=
  let '(seen, all_queues) := st in
  if bool_decide ((store_id, queue_id) ∈ seen) then st else
  ({[(store_id, queue_id)]} ∪ seen,
   all_queues ++ [mkQueue 0 (to_u32 consumer_group_id) (to_u32 pub_id) (to_u32 store_id) (to_u32 queue_id)]).

Definition add_queue_info (c : TopicConfig.t) (consumer_group_id store_id pub_id : Z) (st : scan) (queue_info_id : Z)
    : option scan :=
  r ← TopicConfig.GetQueuesByQueueInfoID c queue_info_id;
  match r with
  | (RET_OK, queue_ids) => Some (foldl (add_queue consumer_group_id store_id pub_id) st (set_items queue_ids))
  | _ => Some st
  end.

Definition add_pub (c : TopicConfig.t) (consumer_group_id store_id : Z) (st : scan) (pub_id : Z) : option scan :=
  match TopicConfig.GetPubByPubID c pub_id with
  | (RET_OK, Some pub) =>
      if bool_decide (consumer_group_id ∈ pub_consumer_group_ids pub)
      then foldM (add_queue_info c consumer_group_id store_id pub_id) st (pub_queue_info_ids pub) else Some st
  | _ => Some st
  end.

Definition add_store (c : TopicConfig.t) (consumer_group_id : Z) (st : scan) (store_id : Z) : option scan :=
  match GetPubIDsByStoreID topic_id store_id with
  | (RET_OK, pub_ids) => foldM (add_pub c consumer_group_id store_id) st (set_items pub_ids)
  | _ => Some st
  end.

Definition GetAllQueues (consumer_group_id : Z) : option (RetCode * list Queue_t) :=
  match GetTopicConfigByTopicID topic_id with
  | (RET_OK, Some topic_config) =>
      match GetStoreConfig topic_id with
      | (RET_OK, Some store_config) =>
          match StoreConfig.GetAllStoreID store_config ∅ with
          | (RET_OK, store_ids) =>
              st ← foldM (add_store topic_config consumer_group_id) (∅, []) (set_items store_ids);
              Some (RET_OK, st.2)
          | (ret, _) => Some (ret, [])
          end
      | (ret, _) => Some (ret, [])
      end
  | (ret, _) => Some (ret, [])
  end.

Definition GetPendingQueues (all_queues : list Queue_t) (addr_scales : list AddrScale) (pending_queues : list Queue_t)
    : RetCode * list Queue_t :=
  match Consumer.GetQueueByAddrScale opt all_queues addr_scales with
  | (RET_OK, queue_idxs) => (RET_OK, pending_queues ++ omap (fun idx => all_queues !! idx) queue_idxs)
  | (ret, _) => (ret, pending_queues)
  end.

(** ** [Sync] *)

Definition set_hash (h : t) (hashs : gmap Z Z) : t :=
  mk (buf_magic h) (queues h) (conf_last_mod_time h) hashs (proc_used h).

(** No need to adjust; the lookup creates the entry it reads. *)
Definition unchanged (h : t) (conf_time consumer_group_id scale_hash : Z) : bool * t :=
  if (buf_magic h =? LOCK_BUF_MAGIC) && (conf_time =? conf_last_mod_time h) then
    (scale_hash =? default 0 (scale_hashs h !! consumer_group_id),
     set_hash h (emplace consumer_group_id 0 (scale_hashs h)))
  else (false, h).

Fixpoint sync_groups (conf_time : Z) (groups : list (Z * list AddrScale)) (h : t) (pendings : gmap Z (list Queue_t))
    : option (RetCode * t * gmap Z (list Queue_t)) :=
  match groups with
  | [] => Some (RET_OK, h, pendings)
  | (consumer_group_id, addr_scale) :: groups =>
      let scale_hash := CalHash addr_scale in
      let '(same, h) := unchanged h conf_time consumer_group_id scale_hash in
      if same then sync_groups conf_time groups h pendings else
      r ← GetAllQueues consumer_group_id;
      let '(ret, all_queues) := r in
      if negb (is_ok ret) then Some (ret, h, pendings) else
      let '(ret, pending_queues) :=
        GetPendingQueues all_queues addr_scale (default [] (pendings !! consumer_group_id)) in
      let pendings := <[consumer_group_id := pending_queues]> pendings in
      if negb (is_ok ret) then sync_groups conf_time groups h pendings else
      sync_groups conf_time groups (set_hash h (<[consumer_group_id := scale_hash]> (scale_hashs h))) pendings
  end.

Definition Sync (h : t) (cpu : Z) (w : W) : option (RetCode * t * W) :=
  let h := UpdateProcUsed h in
  match GetAddrScale h cpu w with
  | (RET_OK, scales, w) =>
      let h := ClearInvalidConsumerGroupIDs h (dom scales) in
      let conf_time := GetLastModTime topic_id in
      r ← sync_groups conf_time (map_items scales) h ∅;
      let '(ret, h, pendings) := r in
      if negb (is_ok ret) then Some (ret, h, w) else
      let h := DistubePendingQueues h pendings in
      Some (RET_OK, mk (buf_magic h) (queues h) conf_time (scale_hashs h) (proc_used h), w)
  | (ret, _, w) => Some (ret, h, w)
  end.

Definition GetQueuesDistribute (h : t) : RetCode * list Queue_t := (RET_OK, queues h).

(** ** The queues of a group *)

(** Ids are [int]s, and the topic configuration is one that [Rebuild] makes. *)
Definition int_ids : Prop :=
  (forall c, GetStoreConfig topic_id = (RET_OK, Some c) -> set_Forall is_i32 (StoreConfig.GetAllStoreID c ∅).2) /\
  (forall c, GetTopicConfigByTopicID topic_id = (RET_OK, Some c) -> TopicConfig.wf c).

Lemma queue_ids_i32 c id ret ids :
  TopicConfig.wf c -> TopicConfig.GetQueuesByQueueInfoID c id = Some (ret, ids) -> set_Forall is_i32 ids.
Proof.
  intros Hwf. unfold TopicConfig.GetQueuesByQueueInfoID.
  destruct (TopicConfig.queue_info_id2ranges c !! id) as [rs|] eqn:Er; [|intros; by simplify_eq].
  intros (qs & Hqs & Hr)%bind_Some. simplify_eq. apply TopicConfig.wf_ranges in Er; [|done].
  intros q (l & Hl & Hq)%elem_of_list_to_set%elem_of_concat. apply mapM_Some_1 in Hqs.
  apply list_elem_of_lookup in Hl as [i Hl]. destruct (Forall2_lookup_r _ _ _ _ _ Hqs Hl) as (r & Hr & Hl').
  eapply TopicConfig.int_range_spec in Hl'. apply Hl' in Hq.
  destruct (Forall_lookup_1 _ _ _ _ Er Hr) as (H1 & H2 & H3). unfold is_i32 in *. lia.
Qed.

Definition raw_key (p : Z * Z) : Z * Z := (to_u32 p.1, to_u32 p.2).

(** The queues scanned so far, each once. *)
Definition scan_ok (g : Z) (st : scan) : Prop :=
  exists raw, NoDup raw /\ st.1 = list_to_set raw /\ key <$> st.2 = raw_key <$> raw /\
    Forall (fun p => is_i32 p.1 /\ is_i32 p.2) raw /\ of_group (to_u32 g) st.2.

Lemma add_queue_ok g store_id pub_id st queue_id :
  is_i32 store_id -> is_i32 queue_id -> scan_ok g st -> scan_ok g (add_queue g store_id pub_id st queue_id).
Proof.
  clear crc32 scheduler_call. intros Hs Hq (raw & Hnd & Hseen & Hkey & Hi & Hg). destruct st as [seen all]. simpl in *. unfold add_queue.
  case_bool_decide as Hin; [by exists raw|]. exists (raw ++ [(store_id, queue_id)]). simpl. split_and!.
  - rewrite Hseen, elem_of_list_to_set in Hin. apply NoDup_app. split_and!; [done| |by apply NoDup_singleton].
    by intros p Hp ->%list_elem_of_singleton.
  - rewrite Hseen, list_to_set_app_L. simpl. set_solver.
  - by rewrite !fmap_app, Hkey.
  - apply Forall_app. split; [done|]. by constructor.
  - apply Forall_app. split; [done|]. by constructor.
Qed.

Lemma add_queues_ok g store_id pub_id qs st :
  is_i32 store_id -> Forall is_i32 qs -> scan_ok g st -> scan_ok g (foldl (add_queue g store_id pub_id) st qs).
Proof.
  intros Hs Hqs. revert st. induction Hqs as [|q qs Hq _ IH]; intros st Hst; simpl; [done|]. by apply IH, add_queue_ok.
Qed.

Lemma add_store_ok c g st store_id st' :
  TopicConfig.wf c -> is_i32 store_id -> scan_ok g st -> add_store c g st store_id = Some st' -> scan_ok g st'.
Proof.
  intros Hwf Hs Hst. unfold add_store. destruct (GetPubIDsByStoreID topic_id store_id) as [[] pubs]; try (intros; by simplify_eq).
  apply (foldM_inv (scan_ok g)); [|done]. clear st st' Hst. intros st pub_id st' Hst. unfold add_pub.
  destruct (TopicConfig.GetPubByPubID c pub_id) as [[] [pub|]]; try (intros; by simplify_eq).
  case_bool_decide; [|intros; by simplify_eq]. apply (foldM_inv (scan_ok g)); [|done].
  clear st st' Hst. intros st id st' Hst. unfold add_queue_info. intros ([r ids] & Hids & Hr)%bind_Some.
  pose proof (queue_ids_i32 _ _ _ _ Hwf Hids) as Hi.
  destruct r; simplify_eq; try done. apply add_queues_ok; [done| |done].
  apply Forall_forall. intros q Hq%elem_of_set_items. by apply Hi.
Qed.

(** The queues of a group are distinct, and of the group. *)
Lemma GetAllQueues_ok g ret all :
  int_ids -> GetAllQueues g = Some (ret, all) -> NoDup (key <$> all) /\ of_group (to_u32 g) all.
Proof.
  intros [Hsi Hti] Hg. unfold GetAllQueues in Hg.
  destruct (GetTopicConfigByTopicID topic_id) as [[] [tc|]] eqn:Et; try (by simplify_eq; split; constructor).
  destruct (GetStoreConfig topic_id) as [[] [sc|]] eqn:Es; try (by simplify_eq; split; constructor).
  specialize (Hsi _ eq_refl). specialize (Hti _ eq_refl). simpl in Hg, Hsi.
  apply bind_Some in Hg as (st & Hst & Hg). simplify_eq.
  assert (Hok : scan_ok g st).
  { eapply (foldM_inv_elem (scan_ok g)); [| |exact Hst].
    - intros st0 x st1 Hx%elem_of_set_items H1 H2. eapply add_store_ok; [done|by apply Hsi|done|exact H2].
    - exists []. split_and!; by try constructor. }
  destruct Hok as (raw & Hnd & _ & Hkey & Hi & Hof). split; [|done]. rewrite Hkey.
  apply NoDup_fmap_2_strong; [|done]. intros [a b] [a' b'] Hin Hin' [= Ha Hb].
  rewrite Forall_forall in Hi. destruct (Hi _ Hin), (Hi _ Hin'). simpl in *.
  by apply to_u32_inj in Ha as ->, Hb as ->.
Qed.

(** The queues of the list that the consumers at this address own. *)
Definition mine (all : list Queue_t) (addr_scale : list AddrScale) : list Queue_t :=
  omap (fun idx => all !! idx) (Consumer.GetQueueByAddrScale opt all addr_scale).2.

Lemma GetPendingQueues_mine all addr_scale :
  GetPendingQueues all addr_scale [] = (RET_OK, mine all addr_scale).
Proof. unfold GetPendingQueues, mine, Consumer.GetQueueByAddrScale. by case_bool_decide. Qed.

Lemma elem_of_mine all addr_scale queue :
  queue ∈ mine all addr_scale <->
  queue ∈ all /\ Consumer.owner addr_scale queue = Some (Consumer.local_encoded_addr opt).
Proof.
  unfold mine. rewrite list_elem_of_omap. split.
  - intros (i & (q & Hq & Ho)%Consumer.GetQueueByAddrScale_spec & Hi). rewrite Hq in Hi. injection Hi as <-.
    split; [by eapply list_elem_of_lookup_2|done].
  - intros [[i Hi]%list_elem_of_lookup Ho]. exists i. split; [|done].
    apply Consumer.GetQueueByAddrScale_spec. by exists queue.
Qed.

Lemma mine_of_group g all addr_scale : of_group g all -> of_group g (mine all addr_scale).
Proof. unfold of_group. rewrite !Forall_forall. intros Hg q [Hq _]%elem_of_mine. by apply Hg. Qed.

(** ** What [Sync] redistributes *)

Definition changed (h : t) (conf_time g : Z) (l : list AddrScale) : bool :=
  negb (unchanged h conf_time g (CalHash l)).1.

Lemma changed_hash h conf_time g g' l v :
  g <> g' -> changed (set_hash h (<[g' := v]> (scale_hashs h))) conf_time g l = changed h conf_time g l.
Proof. intros. unfold changed, unchanged. simpl. case_match; simpl; [|done]. by rewrite lookup_insert_ne. Qed.

Lemma unchanged_state h conf_time g v :
  exists hashs, (unchanged h conf_time g v).2 = set_hash h hashs /\ (forall g', g' <> g -> hashs !! g' = scale_hashs h !! g') /\
    ((unchanged h conf_time g v).1 = true -> hashs !! g = Some v).
Proof.
  unfold unchanged. case_match; simpl.
  - exists (emplace g 0 (scale_hashs h)). split_and!; [done|intros; by apply emplace_lookup_ne|].
    intros Hv%Z.eqb_eq. unfold emplace. destruct (scale_hashs h !! g) eqn:E; simpl in Hv; subst.
    + by rewrite E.
    + by rewrite lookup_insert_eq.
  - exists (scale_hashs h). split_and!; [by destruct h|done|done].
Qed.

Lemma changed_hashs h conf_time g l hashs :
  hashs !! g = scale_hashs h !! g -> changed (set_hash h hashs) conf_time g l = changed h conf_time g l.
Proof. intros E. unfold changed, unchanged. simpl. case_match; simpl; [|done]. by rewrite E. Qed.

Record sync_result (conf_time : Z) (groups : list (Z * list AddrScale)) (h : t) (pend : gmap Z (list Queue_t))
    (h' : t) (pend' : gmap Z (list Queue_t)) : Prop := {
  sr_state : exists hashs, h' = set_hash h hashs /\
    (forall g, g ∉ groups.*1 -> hashs !! g = scale_hashs h !! g) /\
    (forall g l, (g, l) ∈ groups -> hashs !! g = Some (CalHash l));
  sr_other : forall g, g ∉ groups.*1 -> pend' !! g = pend !! g;
  sr_changed : forall g l, (g, l) ∈ groups -> changed h conf_time g l = true ->
    exists all, GetAllQueues g = Some (RET_OK, all) /\ pend' !! g = Some (mine all l);
  sr_unchanged : forall g l, (g, l) ∈ groups -> changed h conf_time g l = false -> pend' !! g = None;
}.

(** One group of the loop, then the others. *)
Lemma sync_result_cons conf_time g l groups h pend h1 pend1 h' pend' :
  g ∉ groups.*1 ->
  (exists hashs, h1 = set_hash h hashs /\ (forall g', g' <> g -> hashs !! g' = scale_hashs h !! g') /\
     hashs !! g = Some (CalHash l)) ->
  (forall g', g' <> g -> pend1 !! g' = pend !! g') ->
  (if changed h conf_time g l
   then exists all, GetAllQueues g = Some (RET_OK, all) /\ pend1 !! g = Some (mine all l) else pend1 !! g = None) ->
  sync_result conf_time groups h1 pend1 h' pend' ->
  sync_result conf_time ((g, l) :: groups) h pend h' pend'.
Proof.
  intros Hg (hs1 & -> & Hhs & Hhg) Hp Hc [(hs & -> & Ho & Hs) Hpo Hch Hun]. simpl in *.
  assert (Hsame : forall g' l', (g', l') ∈ groups ->
    changed (set_hash h hs1) conf_time g' l' = changed h conf_time g' l').
  { intros g' l' Hin. apply changed_hashs, Hhs. intros ->. apply Hg. apply list_elem_of_fmap. by exists (g, l'). }
  split.
  - exists hs. split_and!; [done| |].
    + intros g' Hg'. rewrite Ho by set_solver. apply Hhs. set_solver.
    + intros g' l' [[= -> ->]|Hin]%elem_of_cons; [by rewrite Ho|by apply Hs].
  - simpl. intros g' Hg'. rewrite Hpo by set_solver. apply Hp. set_solver.
  - intros g' l' [[= -> ->]|Hin]%elem_of_cons Hcg; [by rewrite Hpo, Hcg in *|].
    apply Hch; [done|]. by rewrite Hsame.
  - intros g' l' [[= -> ->]|Hin]%elem_of_cons Hcg; [by rewrite Hpo, Hcg in *|].
    eapply Hun; [done|]. by rewrite Hsame.
Qed.

Lemma sync_groups_spec conf_time groups h pend h' pend' :
  NoDup groups.*1 -> (forall g, g ∈ groups.*1 -> pend !! g = None) ->
  sync_groups conf_time groups h pend = Some (RET_OK, h', pend') ->
  sync_result conf_time groups h pend h' pend'.
Proof.
  revert h pend. induction groups as [|[g l] groups IH]; intros h pend Hnd Hpend Hs; simpl in Hs.
  { simplify_eq. split; try by intros ? ? ?%elem_of_nil. 2: done.
    exists (scale_hashs h'). split_and!; [by destruct h'|done|by intros ? ? ?%elem_of_nil]. }
  simpl in Hnd. apply NoDup_cons in Hnd as [Hg Hnd]. simpl in Hpend.
  destruct (unchanged_state h conf_time g (CalHash l)) as (hs & Hh1 & Hne & Heq).
  destruct (unchanged h conf_time g (CalHash l)) as [same h1] eqn:Eu. simpl in Hh1, Heq. subst h1.
  assert (Hc : changed h conf_time g l = negb same) by (unfold changed; by rewrite Eu). destruct same.
  - apply IH in Hs; [|done|set_solver]. eapply sync_result_cons; [done| | | |exact Hs].
    + exists hs. split_and!; [done..|by apply Heq].
    + done.
    + rewrite Hc. simpl. apply Hpend. set_solver.
  - apply bind_Some in Hs as ([ret all] & Hall & Hs). destruct (is_ok ret) eqn:Eok; simpl in Hs; [|simplify_eq; done].
    apply is_ok_true in Eok as ->. rewrite (Hpend g), GetPendingQueues_mine in Hs by set_solver. simpl in Hs.
    assert (Hp1 : forall g', g' ∈ groups.*1 -> <[g := mine all l]> pend !! g' = None).
    { intros g' Hg'. rewrite lookup_insert_ne by (intros ->; done). apply Hpend. set_solver. }
    apply IH in Hs; [|done|done]. eapply sync_result_cons; [done| | | |exact Hs].
    + exists (<[g := CalHash l]> hs). split_and!; [done| |by rewrite lookup_insert_eq].
      intros g' Hg'. rewrite lookup_insert_ne by done. by apply Hne.
    + intros g' Hg'. by rewrite lookup_insert_ne.
    + rewrite Hc. simpl. exists all. by rewrite lookup_insert_eq.
Qed.

(** What [Sync] hands to [DistubePendingQueues]. *)
Lemma Sync_inv h cpu w h' w' :
  Sync h cpu w = Some (RET_OK, h', w') ->
  exists scales h1 pend, GetAddrScale (UpdateProcUsed h) cpu w = (RET_OK, scales, w') /\
    sync_groups (GetLastModTime topic_id) (map_items scales)
      (ClearInvalidConsumerGroupIDs (UpdateProcUsed h) (dom scales)) ∅ = Some (RET_OK, h1, pend) /\
    sync_result (GetLastModTime topic_id) (map_items scales)
      (ClearInvalidConsumerGroupIDs (UpdateProcUsed h) (dom scales)) ∅ h1 pend /\
    h' = mk LOCK_BUF_MAGIC (queues (DistubePendingQueues h1 pend)) (GetLastModTime topic_id) (scale_hashs h1) (proc_used h1).
Proof.
  unfold Sync. destruct (GetAddrScale _ cpu w) as [[[] scales] w1]; try (intros; by simplify_eq).
  intros ([[ret h1] pend] & Hs & Hr)%bind_Some. destruct (is_ok ret) eqn:Eok; simpl in Hr; [|simplify_eq; done].
  apply is_ok_true in Eok as ->. simplify_eq. exists scales, h1, pend. split_and!; [done..| |done].
  apply sync_groups_spec in Hs; [done|apply map_items_NoDup|]. intros. apply lookup_empty.
Qed.

(** The weights of the groups that this consumer serves. *)
Definition scales_of (h : t) (cpu : Z) (w : W) : gmap Z (list AddrScale) := (GetAddrScale (UpdateProcUsed h) cpu w).1.2.

(** The state once the groups that are not served are cleared. *)
Definition served (h : t) (cpu : Z) (w : W) : t :=
  ClearInvalidConsumerGroupIDs (UpdateProcUsed h) (dom (scales_of h cpu w)).

(** What is pending after the loop over the groups. *)
Definition pendings (h : t) (cpu : Z) (w : W) : gmap Z (list Queue_t) :=
  match sync_groups (GetLastModTime topic_id) (map_items (scales_of h cpu w)) (served h cpu w) ∅ with
  | Some (_, _, pend) => pend
  | None => ∅
  end.

(** The processes are enough for what is pending and what other groups
    hold. *)
Definition enough (h : t) (cpu : Z) (w : W) (g : Z) : Prop :=
  (length (concat (map_items (pendings h cpu w)).*2) + length (others (to_u32 g) (queues (served h cpu w)))
   <= length (queues h))%nat.

(** The groups that are redistributed by a [Sync]. *)
Definition redistributes (h : t) (cpu : Z) (w : W) (g : Z) (addr_scale : list AddrScale) : Prop :=
  scales_of h cpu w !! g = Some addr_scale /\ changed (served h cpu w) (GetLastModTime topic_id) g addr_scale = true.

Lemma pend_ok conf_time scales h h1 pend k P :
  int_ids -> set_Forall is_i32 (dom scales) -> sync_result conf_time (map_items scales) h ∅ h1 pend ->
  pend !! k = Some P -> is_Some (scales !! k) /\ is_i32 k /\ of_group (to_u32 k) P.
Proof.
  intros Hids Hi Hr Hk. destruct (decide (is_Some (scales !! k))) as [[l Hl]|Hno].
  - split; [by exists l|]. split; [by apply Hi, elem_of_dom|]. apply elem_of_map_items in Hl.
    destruct (changed h conf_time k l) eqn:Ec.
    + destruct (sr_changed _ _ _ _ _ _ Hr _ _ Hl Ec) as (all & Ha & Hp). rewrite Hk in Hp. simplify_eq.
      apply mine_of_group. by eapply GetAllQueues_ok.
    + rewrite (sr_unchanged _ _ _ _ _ _ Hr _ _ Hl Ec) in Hk. done.
  - rewrite (sr_other _ _ _ _ _ _ Hr), lookup_empty in Hk; [done|]. by rewrite map_items_fst.
Qed.

(** The processes of a consumer hold the queues it owns of a group that a
    [Sync] redistributes. *)
Lemma Sync_assigns h cpu w h' w' g addr_scale all :
  int_ids -> set_Forall is_i32 (dom (scales_of h cpu w)) ->
  Sync h cpu w = Some (RET_OK, h', w') -> redistributes h cpu w g addr_scale ->
  GetAllQueues g = Some (RET_OK, all) ->
  exists rest, held (to_u32 g) (queues h') ++ rest ≡ₚ key <$> mine all addr_scale /\
    (enough h cpu w g -> rest = []).
Proof.
  intros Hids Hi HS [Hg Hc] Hall. apply Sync_inv in HS as (scales & h1 & pend & Eg & Es & Hr & ->).
  unfold scales_of, enough, pendings, served, scales_of in *. rewrite Eg in *. cbn [fst snd] in *. rewrite Es.
  destruct (sr_changed _ _ _ _ _ _ Hr g addr_scale) as (all' & Hall' & Hp); [by apply elem_of_map_items|done|].
  rewrite Hall in Hall'. simplify_eq. destruct (sr_state _ _ _ _ _ _ Hr) as (hs & Eh & _).
  destruct (DistubePendingQueues_spread h1 pend g _ Hp) as (_ & rest & Hperm & Hrest).
  { intros k P Hk. by apply (pend_ok _ _ _ _ _ _ _ Hids Hi Hr Hk). }
  exists rest. split; [done|]. intros Hen. apply Hrest. rewrite Eh. simpl.
  rewrite length_fmap. exact Hen.
Qed.

Lemma sync_groups_same conf_time groups h pend :
  buf_magic h = LOCK_BUF_MAGIC -> conf_last_mod_time h = conf_time ->
  (forall g l, (g, l) ∈ groups -> scale_hashs h !! g = Some (CalHash l)) ->
  sync_groups conf_time groups h pend = Some (RET_OK, h, pend).
Proof.
  intros Hm Hc. induction groups as [|[g l] groups IH]; intros Hh; simpl; [done|].
  assert (Hg : scale_hashs h !! g = Some (CalHash l)) by (apply Hh; left).
  unfold unchanged. rewrite Hm, Hc, !Z.eqb_refl. simpl. rewrite Hg. simpl. rewrite Z.eqb_refl.
  replace (set_hash h (emplace g 0 (scale_hashs h))) with h.
  - apply IH. intros g' l' Hin. apply Hh. by right.
  - unfold set_hash, emplace. rewrite Hg. by destruct h.
Qed.

Lemma clear_nothing h valid :
  (forall q, q ∈ queues h -> locked q = true -> to_i32 (q_consumer_group_id q) ∈ valid) ->
  queues (ClearInvalidConsumerGroupIDs h valid) = queues h.
Proof.
  intros Hv. simpl. rewrite <-(list_fmap_id (queues h)) at 2. apply list_fmap_ext. intros i q Hq.
  destruct (locked q) eqn:El; simpl; [|done]. by rewrite bool_decide_eq_true_2 by (apply Hv; [by eapply list_elem_of_lookup_2|done]).
Qed.

Lemma served_groups h cpu w q :
  q ∈ queues (served h cpu w) -> locked q = true -> to_i32 (q_consumer_group_id q) ∈ dom (scales_of h cpu w).
Proof.
  unfold served. simpl. intros (q0 & -> & Hq)%list_elem_of_fmap Hl.
  destruct (locked q0) eqn:El; simpl in *; [|congruence]. case_bool_decide; simpl in *; done.
Qed.

(** [Sync] is stable.  After a [Sync], a second one that gets the same
    weights while the configuration stays as it is succeeds and moves no
    queue. *)
Theorem Sync_stable h cpu w h' w' cpu1 w1 w2 :
  int_ids -> set_Forall is_i32 (dom (scales_of h cpu w)) ->
  Sync h cpu w = Some (RET_OK, h', w') ->
  GetAddrScale (UpdateProcUsed h') cpu1 w1 = (RET_OK, scales_of h cpu w, w2) ->
  exists h'', Sync h' cpu1 w1 = Some (RET_OK, h'', w2) /\ queues h'' = queues h'.
Proof.
  intros Hids Hi HS HG. apply Sync_inv in HS as (scales & h1 & pend & Eg & Es & Hr & Eh').
  assert (Hscales : scales_of h cpu w = scales) by (unfold scales_of; by rewrite Eg). rewrite Hscales in *.
  destruct (sr_state _ _ _ _ _ _ Hr) as (hs & Eh & _ & Hhs).
  assert (Hgroups : groups_ok (map_items pend)).
  { apply pending_groups_ok. intros k P Hk. by apply (pend_ok _ _ _ _ _ _ _ Hids Hi Hr Hk). }
  assert (Hclear : queues (ClearInvalidConsumerGroupIDs (UpdateProcUsed h') (dom scales)) = queues h').
  { apply (clear_nothing (UpdateProcUsed h')). intros q Hq Hl. subst h'. cbn [queues UpdateProcUsed DistubePendingQueues] in Hq.
    destruct (disturb_groups_of _ _ _ Hgroups Hq Hl) as [(q0 & Hq0 & Hl0 & <-)|(k & Hk & ->)].
    - rewrite <-Hscales. eapply served_groups; [|done]. unfold served. rewrite Hscales. by rewrite Eh in Hq0.
    - apply map_items_fst in Hk as [P Hk]. destruct (pend_ok _ _ _ _ _ _ _ Hids Hi Hr Hk) as (Hs & Hk32 & _).
      rewrite to_i32_to_u32 by done. by apply elem_of_dom. }
  unfold Sync. rewrite HG, sync_groups_same.
  - simpl. eexists. split; [done|]. simpl. unfold map_items, set_items. simpl. exact Hclear.
  - by subst h'.
  - by subst h'.
  - intros g l Hin. subst h' h1. simpl. by apply Hhs.
Qed.
End sync.

Section collected.
Context `{IN : Inet, GC : GlobalConfig, CD : ConsumerDirectory} (topic_id : Z).

(** The consumer at the address serves the group. *)
Definition serves (g : Z) (addr_scale : AddrScale) : bool :=
  match GetConsumerGroupIDsByConsumerAddr topic_id (as_addr addr_scale) with
  | (RET_OK, ids) => bool_decide (g ∈ ids)
  | _ => false
  end.

Lemma add_addr_scale_serves g m a :
  add_addr_scale topic_id g m a = if serves g a then <[g := default [] (m !! g) ++ [a]]> m else m.
Proof. unfold add_addr_scale, serves. by destruct (GetConsumerGroupIDsByConsumerAddr topic_id (as_addr a)) as [[] ids]. Qed.

Lemma add_addr_scales g l m :
  foldl (add_addr_scale topic_id g) m l =
  match filter (fun a => serves g a = true) l with [] => m | l' => <[g := default [] (m !! g) ++ l']> m end.
Proof.
  revert m. induction l as [|a l IH]; intros m; [done|]. simpl. rewrite IH, add_addr_scale_serves, filter_cons.
  destruct (serves g a); simpl; [|done].
  destruct (filter _ l); [done|]. rewrite lookup_insert_eq, insert_insert_eq. simpl. by rewrite <-app_assoc.
Qed.

(** The weights collected for a group. *)
Lemma collect_lookup ids dynamic config_scales dynamic_scales g :
  collect topic_id ids dynamic config_scales dynamic_scales !! g =
  let l := filter (fun a => serves g a = true) (if bool_decide (g ∈ dynamic) then dynamic_scales else config_scales) in
  if bool_decide (g ∈ ids) then match l with [] => None | _ => Some l end else None.
Proof.
  unfold collect. cbn zeta. set (scales := fun g => if bool_decide (g ∈ dynamic) then dynamic_scales else config_scales).
  assert (Hgo : forall l m, NoDup l -> m !! g = None ->
    foldl (fun m k => foldl (add_addr_scale topic_id k) m (scales k)) m l !! g =
    if bool_decide (g ∈ l) then match filter (fun a => serves g a = true) (scales g) with [] => None | l' => Some l' end else None).
  { induction l as [|k l IH]; intros m Hnd Hm; simpl; [done|]. apply NoDup_cons in Hnd as [Hk Hnd].
    destruct (decide (k = g)) as [->|Hne].
    - rewrite (bool_decide_eq_true_2 (g ∈ g :: l)) by left.
      assert (Hrest : forall l m, g ∉ l -> foldl (fun m k => foldl (add_addr_scale topic_id k) m (scales k)) m l !! g = m !! g).
      { clear. induction l as [|k l IH]; intros m Hg; simpl; [done|]. rewrite IH by set_solver. rewrite add_addr_scales.
        case_match; [done|]. apply lookup_insert_ne. set_solver. }
      rewrite Hrest, add_addr_scales by done.
      destruct (filter (fun a => serves g a = true) (scales g)); [exact Hm|]. by rewrite lookup_insert_eq, Hm.
    - rewrite IH; [|done|].
      + assert (E : bool_decide (g ∈ l) = bool_decide (g ∈ k :: l)); [|by rewrite E].
        apply bool_decide_ext. rewrite elem_of_cons. split; [by right|]. by intros [->|].
      + rewrite add_addr_scales. destruct (filter (fun a => serves k a = true) (scales k)); [exact Hm|].
        by rewrite lookup_insert_ne. }
  rewrite Hgo; [|apply set_items_NoDup|apply lookup_empty].
  rewrite (bool_decide_ext (g ∈ set_items ids) (g ∈ ids)) by apply elem_of_set_items. unfold scales.
  by destruct (filter _ _).
Qed.
End collected.

Section cluster.
Context `{IN : Inet, GC : GlobalConfig, CD : ConsumerDirectory} {W : Type}.
Context (scheduler_call : GetAddrScaleRequest -> W -> RetCode * list AddrScale * W).
Context (crc32 : Z -> list Z -> Z) (topic_id : Z).

Lemma handles_once g addr_scale all queue :
  int_ids topic_id -> GetAllQueues topic_id g = Some (RET_OK, all) -> queue ∈ all ->
  (exists s, s ∈ addr_scale /\ 0 < as_scale s) ->
  exists s, s ∈ addr_scale /\ 0 < as_scale s /\
  forall opt h cpu w h' w',
    set_Forall is_i32 (dom (scales_of scheduler_call topic_id opt h cpu w)) ->
    Sync scheduler_call crc32 topic_id opt h cpu w = Some (RET_OK, h', w') ->
    redistributes scheduler_call crc32 topic_id opt h cpu w g addr_scale ->
    enough scheduler_call crc32 topic_id opt h cpu w g ->
    (key queue ∈ held (to_u32 g) (queues h') <->
     Consumer.local_encoded_addr opt = EncodeAddr (as_addr s)).
Proof.
  intros Hids Hall Hq Hw. destruct (Consumer.owner_is_Some addr_scale queue Hw) as [e He].
  destruct (Consumer.owner_weighted _ _ _ He) as (s & Hs & Hpos & ->). exists s. split_and!; [done..|].
  intros opt h cpu w h' w' Hi HS Hr Hen.
  destruct (Sync_assigns _ _ _ _ _ _ _ _ _ _ _ _ Hids Hi HS Hr Hall) as (rest & Hp & Hrest).
  rewrite (Hrest Hen), app_nil_r in Hp. rewrite Hp, list_elem_of_fmap.
  edestruct GetAllQueues_ok as [Hnd _]; [exact Hids|exact Hall|]. split.
  - intros (q & Hkey & [Hin Ho]%elem_of_mine).
    assert (q = queue) as ->; [|congruence].
    apply list_elem_of_lookup in Hin as [i Hin]. apply list_elem_of_lookup in Hq as [j Hq].
    assert (i = j) as ->; [|congruence]. eapply (NoDup_lookup _ _ _ (key queue) Hnd).
    + by rewrite list_lookup_fmap, Hin, Hkey.
    + by rewrite list_lookup_fmap, Hq.
  - intros Hl. exists queue. split; [done|]. apply elem_of_mine. split; [done|]. congruence.
Qed.

(** Each queue is handled at one address.  Let consumers sync with the
    same weights for a group, of which one is positive.  Then for every queue
    of the group there is one address with a positive weight such that a
    consumer whose processes are enough holds the queue in one of its
    processes exactly when it has that address. *)
Theorem Sync_handles_once g addr_scale all queue :
  int_ids topic_id -> GetAllQueues topic_id g = Some (RET_OK, all) -> queue ∈ all ->
  (exists s, s ∈ addr_scale /\ 0 < as_scale s) ->
  exists s, s ∈ addr_scale /\ 0 < as_scale s /\
  forall opt h cpu w h' w',
    set_Forall is_i32 (dom (scales_of scheduler_call topic_id opt h cpu w)) ->
    Sync scheduler_call crc32 topic_id opt h cpu w = Some (RET_OK, h', w') ->
    redistributes scheduler_call crc32 topic_id opt h cpu w g addr_scale ->
    enough scheduler_call crc32 topic_id opt h cpu w g ->
    (key queue ∈ held (to_u32 g) (queues h') <->
     Consumer.local_encoded_addr opt = EncodeAddr (as_addr s)).
Proof. apply handles_once. Qed.
End cluster.
End HeartBeatSync.
