(* ===== verification/QueueLock.v ===== *)
(** * Taking the lock of a process's queue

    [HeartBeatLock::DoLock] and [Lock] of src/phxqueue/consumer/hblock.cpp.  A
    process asks the lock server for the lock of the queue in its slot and
    acquires it when it is its own or when the lease, counted from the moment
    this process first saw the version, has run out.

    The calls go through [MasterClient]; [rpc_GetLockInfo] and
    [rpc_AcquireLock] are [Consumer::GetLockInfo] and [Consumer::AcquireLock],
    which an application overrides. *)

From S2P Require Import Prelude Keys HashUtil RetCode TopicConfig StoreConfig LockConfig SchedulerConfig.
From S2P Require Import MasterClient LockDb LockMgr LockSM ConsumerConfig HeartBeatLock.

Record GetLockInfoRequest := mkGetLockInfoRequest {
  gq_topic_id : Z;
  gq_lock_id : Z;
  gq_lock_key : string;
}.

Record GetLockInfoResponse := mkGetLockInfoResponse {
  gr_lock_info : LockInfo;
  gr_redirect_addr : Addr;
}.

Definition no_lock_info : LockInfo := mkLockInfo "" 0 "" 0.

Class LockRpc (W : Type) := {
  rpc_GetLockInfo : GetLockInfoRequest -> Addr -> GetLockInfoResponse -> W -> RetCode * GetLockInfoResponse * W;
  rpc_AcquireLock : Z -> Z -> LockInfo -> Addr -> Addr -> W -> RetCode * Addr * W;
  GetSteadyClockMS : W -> Z * W;
}.

Module QueueLock.
Section lock.
Context `{GC : GlobalConfig, LD : LockDirectory} {W : Type} `{CE : ClientEnv W, LR : LockRpc W}.
Context (topic_id : Z) (opt : ConsumerOption).

(** The thread-local state: the three variables of [DoLock] and the cache of
    [MasterClientBase]. *)
Record t := mk {
  last_lock_key : string;
  version : Z;
  overdue_time_ms : Z;
  addr_cache_ : gmap string (Addr * Z);
}.

Definition Init : t := mk "" 0 0 ∅.

Definition set_cache (st : t) (c : gmap string (Addr * Z)) : t :=
  mk (last_lock_key st) (version st) (overdue_time_ms st) c.

Definition call_GetLockInfo (lock_id : Z) (lock_key : string) (st : t) (w : W) : RetCode * LockInfo * t * W :=
  let '(ret, resp, c, w) :=
    MasterClient.ClientCall gr_redirect_addr (rpc_GetLockInfo (mkGetLockInfoRequest topic_id lock_id lock_key))
      (lock_route_key topic_id lock_id lock_key) (lock_candidates topic_id lock_id)
      (mkGetLockInfoResponse no_lock_info no_addr) (addr_cache_ st) w in
  (ret, gr_lock_info resp, set_cache st c, w).

Definition call_AcquireLock (lock_id : Z) (lock_info : LockInfo) (st : t) (w : W) : RetCode * t * W :=
  let '(ret, _, c, w) :=
    MasterClient.ClientCall (fun addr => addr) (rpc_AcquireLock topic_id lock_id lock_info)
      (lock_route_key topic_id lock_id (li_lock_key lock_info)) (lock_candidates topic_id lock_id)
      no_addr (addr_cache_ st) w in
  (ret, set_cache st c, w).

Definition join_dash (l : list string) : string := String.concat "-" l.

Definition lock_key_of (queue : Queue_t) : string :=
  join_dash [print topic_id; print (q_consumer_group_id queue); print (q_store_id queue); print (q_queue_id queue)].

Definition client_id_of (vpid : nat) : string := join_dash [co_ip opt; print (Z.of_nat vpid)].

(** The lock of a queue, once the configuration is read. *)
Definition lock_queue (lock_id lease_time_s : Z) (lock_key client_id : string) (st : t) (w : W)
    : RetCode * t * W :=
  let '(st, w) :=
    if negb (bool_decide (last_lock_key st = ""%string)) && negb (bool_decide (last_lock_key st = lock_key)) then
      let '(_, st, w) := call_AcquireLock lock_id (mkLockInfo (last_lock_key st) (version st) client_id 0) st w in
      (mk lock_key 0 0 (addr_cache_ st), w)
    else (st, w) in
  let '(cur_time_ms, w) := GetSteadyClockMS w in
  let '(ret, info, st, w) := call_GetLockInfo lock_id lock_key st w in
  if as_integer ret <? 0 then (ret, st, w) else
  let st := if version st =? li_version info then st
            else mk (last_lock_key st) (li_version info) (to_u64 (cur_time_ms + li_lease_time_ms info)) (addr_cache_ st) in
  if bool_decide (client_id = li_client_id info) || (overdue_time_ms st <? cur_time_ms)
  then call_AcquireLock lock_id (mkLockInfo lock_key (version st) client_id (to_u64 (to_u64 lease_time_s * 1000))) st w
  else (RET_NO_NEED_LOCK, st, w).

Definition DoLock (vpid : nat) (queue : Queue_t) (st : t) (w : W) : RetCode * t * W :=
  if negb (HeartBeatLock.locked queue) then (RET_NO_LOCK_TARGET, st, w) else
  match GetTopicConfigByTopicID topic_id with
  | (RET_OK, Some topic_config) =>
      match TopicConfig.GetConsumerGroupByConsumerGroupID topic_config (to_i32 (q_consumer_group_id queue)) with
      | (RET_OK, Some consumer_group) =>
          if negb (cg_skip_lock consumer_group =? 0) then (RET_OK, st, w) else
          match GetLockConfig topic_id with
          | (RET_OK, Some lock_config) =>
              match LockConfig.GetAllLockID lock_config ∅ with
              | (RET_OK, lock_ids) =>
                  match set_items lock_ids with
                  | [] => (RET_ERR_RANGE_LOCK, st, w)
                  | lock_id :: _ =>
                      lock_queue lock_id
                        (TopicConfig.consumer_lock_lease_time_s (TopicConfig.topic (TopicConfig.proto topic_config)))
                        (lock_key_of queue) (client_id_of vpid) st w
                  end
              | (ret, _) => (ret, st, w)
              end
          | (ret, _) => (ret, st, w)
          end
      | (ret, _) => (ret, st, w)
      end
  | (ret, _) => (ret, st, w)
  end.

(** [None]: the process exits. *)
Definition Lock (h : HeartBeatLock.t) (vpid : nat) (st : t) (w : W)
    : option (RetCode * option (Z * Z * Z) * t * W) :=
  queue ← HeartBeatLock.queues h !! vpid;
  let '(ret, st, w) := DoLock vpid queue st w in
  if negb (is_ok ret) then Some (ret, None, st, w) else
  Some (RET_OK, Some (to_i32 (q_consumer_group_id queue), to_i32 (q_store_id queue), to_i32 (q_queue_id queue)), st, w).

(** ** The name of the lock *)

Definition u32_ids (queue : Queue_t) : Prop :=
  0 <= q_consumer_group_id queue /\ 0 <= q_store_id queue /\ 0 <= q_queue_id queue.

Lemma lock_key_inj q q' :
  u32_ids q -> u32_ids q' -> lock_key_of q = lock_key_of q' ->
  q_consumer_group_id q = q_consumer_group_id q' /\ HeartBeatLock.key q = HeartBeatLock.key q'.
Proof.
  intros (H1 & H2 & H3) (H1' & H2' & H3'). unfold lock_key_of, join_dash, HeartBeatLock.key. simpl. intros He.
  assert (Ht : forall a b b', print a +:+ b = print a +:+ b' -> b = b').
  { intros a b b' E. by apply (inj (String.app (print a))) in E. }
  apply Ht in He. injection He as He.
  apply app_cons_inj in He as [E1%print_inj He]; [|by apply print_dash..].
  apply app_cons_inj in He as [E2%print_inj He]; [|by apply print_dash..].
  apply print_inj in He. by rewrite E1, E2, He.
Qed.

(** ** When a lock is taken *)

(** The state with the reply of the lock server. *)
Definition see (st : t) (cur_time_ms : Z) (info : LockInfo) : t :=
  if version st =? li_version info then st
  else mk (last_lock_key st) (li_version info) (to_u64 (cur_time_ms + li_lease_time_ms info)) (addr_cache_ st).

Lemma lock_queue_fresh lock_id lease key client st w :
  last_lock_key st = ""%string ->
  lock_queue lock_id lease key client st w =
  let '(cur, w1) := GetSteadyClockMS w in
  let '(ret, info, st1, w2) := call_GetLockInfo lock_id key st w1 in
  if as_integer ret <? 0 then (ret, st1, w2) else
  if bool_decide (client = li_client_id info) || (overdue_time_ms (see st1 cur info) <? cur)
  then call_AcquireLock lock_id (mkLockInfo key (version (see st1 cur info)) client (to_u64 (to_u64 lease * 1000)))
         (see st1 cur info) w2
  else (RET_NO_NEED_LOCK, see st1 cur info, w2).
Proof. intros Hk. unfold lock_queue. rewrite Hk. rewrite bool_decide_eq_true_2 by done. done. Qed.

Lemma see_version st cur info : version (see st cur info) = li_version info.
Proof. unfold see. split_if; done. Qed.

Lemma see_last st cur info : last_lock_key (see st cur info) = last_lock_key st.
Proof. unfold see. by split_if. Qed.

Lemma call_GetLockInfo_state lock_id key st w ret info st' w' :
  call_GetLockInfo lock_id key st w = (ret, info, st', w') ->
  last_lock_key st' = last_lock_key st /\ version st' = version st /\ overdue_time_ms st' = overdue_time_ms st.
Proof. unfold call_GetLockInfo. by destruct (MasterClient.ClientCall _ _ _ _ _ _ _) as [[[? ?] ?] ?]; intros; simplify_eq. Qed.

Lemma call_AcquireLock_last lock_id info st w ret st' w' :
  call_AcquireLock lock_id info st w = (ret, st', w') -> last_lock_key st' = last_lock_key st.
Proof. unfold call_AcquireLock. by destruct (MasterClient.ClientCall _ _ _ _ _ _ _) as [[[? ?] ?] ?]; intros; simplify_eq. Qed.

Lemma lock_queue_last lock_id lease key client st w ret st' w' :
  last_lock_key st = ""%string -> lock_queue lock_id lease key client st w = (ret, st', w') ->
  last_lock_key st' = ""%string.
Proof.
  intros Hk. rewrite lock_queue_fresh by done. destruct (GetSteadyClockMS w) as [cur w1].
  destruct (call_GetLockInfo _ _ _ _) as [[[r info] st1] w2] eqn:E1. apply call_GetLockInfo_state in E1 as (E1 & _).
  repeat case_match; intros Hr.
  - by simplify_eq; rewrite E1.
  - apply call_AcquireLock_last in Hr. by rewrite Hr, see_last, E1.
  - simplify_eq. by rewrite see_last, E1.
Qed.

(** The configuration under which [DoLock] reaches the lock server. *)
Lemma DoLock_inv vpid queue st w ret st' w' :
  DoLock vpid queue st w = (ret, st', w') ->
  (ret = RET_OK /\ st' = st /\ w' = w /\ exists c g, GetTopicConfigByTopicID topic_id = (RET_OK, Some c) /\
     TopicConfig.GetConsumerGroupByConsumerGroupID c (to_i32 (q_consumer_group_id queue)) = (RET_OK, Some g) /\
     cg_skip_lock g <> 0) \/
  (ret <> RET_OK /\ st' = st /\ w' = w) \/
  (exists lock_id lease, lock_queue lock_id lease (lock_key_of queue) (client_id_of vpid) st w = (ret, st', w')).
Proof.
  unfold DoLock. intros Hd. destruct (HeartBeatLock.locked queue); simpl in Hd; [|right; left; by simplify_eq].
  destruct (GetTopicConfigByTopicID topic_id) as [rt [c|]] eqn:Et.
  2: { right; left. pose proof (GetTopicConfig_found topic_id) as Hf. rewrite Et in Hf. destruct rt; simplify_eq; try done; by exfalso. }
  destruct rt; try (right; left; by simplify_eq).
  destruct (TopicConfig.GetConsumerGroupByConsumerGroupID c _) as [rg [g|]] eqn:Eg.
  2: { right; left. unfold TopicConfig.GetConsumerGroupByConsumerGroupID in Eg. destruct (TopicConfig.consumer_group_id2consumer_group c !! _); simplify_eq; by simplify_eq. }
  destruct rg; try (right; left; by simplify_eq).
  destruct (Z.eqb_spec (cg_skip_lock g) 0) as [Hs|Hs]; simpl in Hd.
  2: { left. simplify_eq. split_and!; [done..|]. by exists c, g. }
  destruct (GetLockConfig topic_id) as [rl [lc|]] eqn:El.
  2: { right; left. pose proof (GetLockConfig_found topic_id) as Hf. rewrite El in Hf. destruct rl; simplify_eq; try done; by exfalso. }
  destruct rl; try (right; left; by simplify_eq). simpl in Hd.
  destruct (set_items _) as [|lock_id ids]; [right; left; by simplify_eq|]. right; right. by eexists _, _.
Qed.

(** A process that [DoLock] tells to work holds the lock.  When [DoLock]
    returns RET_OK, then either the group skips locking or the lock server has
    just granted the lock of this queue to this process, in the version that
    it had shown; and before, that version was this process's own or its lease
    had run out by this process's clock. *)
Theorem DoLock_ok_acquired vpid queue st w st' w' :
  last_lock_key st = ""%string -> DoLock vpid queue st w = (RET_OK, st', w') ->
  (st' = st /\ w' = w /\ exists c g, GetTopicConfigByTopicID topic_id = (RET_OK, Some c) /\
     TopicConfig.GetConsumerGroupByConsumerGroupID c (to_i32 (q_consumer_group_id queue)) = (RET_OK, Some g) /\
     cg_skip_lock g <> 0) \/
  (exists lock_id lease cur info ret st1 w1 w2,
     GetSteadyClockMS w = (cur, w1) /\
     call_GetLockInfo lock_id (lock_key_of queue) st w1 = (ret, info, st1, w2) /\ 0 <= as_integer ret /\
     (client_id_of vpid = li_client_id info \/ overdue_time_ms (see st1 cur info) < cur) /\
     call_AcquireLock lock_id (mkLockInfo (lock_key_of queue) (li_version info) (client_id_of vpid) lease)
       (see st1 cur info) w2 = (RET_OK, st', w')).
Proof.
  intros Hk [(_ & Hd)|[(? & _)|(lock_id & lease & Hd)]]%DoLock_inv; [by left|done|right].
  rewrite lock_queue_fresh in Hd by done. destruct (GetSteadyClockMS w) as [cur w1].
  destruct (call_GetLockInfo lock_id (lock_key_of queue) st w1) as [[[r info] st1] w2] eqn:Eg.
  destruct (as_integer r <? 0) eqn:Er; [injection Hd as -> _ _; done|]. simpl_bool.
  destruct (_ || _) eqn:Ec; [|done]. rewrite see_version in Hd.
  eexists lock_id, _, cur, info, r, st1, w1, w2. split_and!; [done..| |exact Hd].
  simpl_bool. destruct Ec as [Ec|Ec]; simpl_bool; [by left|by right].
Qed.

(** ** Waiting for the lease *)

Section waits.
Context (lock_id lease_time_s : Z) (lock_key client_id : string).
(* the worlds in which another client holds version [v] for [lease] *)
Context (v lease first_seen : Z) (shown : W -> Prop).
Hypothesis lock_shown : forall st w, shown w ->
  let '(cur, w1) := GetSteadyClockMS w in
  let '(ret, info, _, w2) := call_GetLockInfo lock_id lock_key st w1 in
  0 <= as_integer ret /\ li_version info = v /\ li_lease_time_ms info = lease /\
  li_client_id info <> client_id /\ first_seen <= cur <= first_seen + lease /\ shown w2.
Hypothesis lease_fits : 0 <= first_seen /\ 0 <= lease /\ first_seen + lease + lease <= UINT64_MAX.

Fixpoint attempts (n : nat) (st : t) (w : W) : list RetCode * W :=
  match n with
  | O => ([], w)
  | S n => let '(ret, st, w) := lock_queue lock_id lease_time_s lock_key client_id st w in
           let '(rets, w) := attempts n st w in (ret :: rets, w)
  end.

Lemma waits_step st w :
  last_lock_key st = ""%string -> shown w -> (version st <> v \/ first_seen + lease <= overdue_time_ms st) ->
  exists st' w', lock_queue lock_id lease_time_s lock_key client_id st w = (RET_NO_NEED_LOCK, st', w') /\
    last_lock_key st' = ""%string /\ shown w' /\ first_seen + lease <= overdue_time_ms st' /\
    exists cur w1 ret info st1, GetSteadyClockMS w = (cur, w1) /\
      call_GetLockInfo lock_id lock_key st w1 = (ret, info, st1, w').
Proof.
  intros Hk Hw Hv. rewrite lock_queue_fresh by done. pose proof (lock_shown st w Hw) as Hs.
  destruct (GetSteadyClockMS w) as [cur w1].
  destruct (call_GetLockInfo lock_id lock_key st w1) as [[[r info] st1] w2] eqn:Eg.
  destruct Hs as (Hr & Hver & Hl & Hc & Ht & Hw2). pose proof (call_GetLockInfo_state _ _ _ _ _ _ _ _ Eg) as (E1 & E2 & E3).
  rewrite (proj2 (Z.ltb_ge _ _)), (bool_decide_eq_false_2 (client_id = _)) by (done || lia). simpl.
  assert (Hov : first_seen + lease <= overdue_time_ms (see st1 cur info)).
  { unfold see. rewrite E2, Hver, Hl. destruct (Z.eqb_spec (version st) v); [rewrite E3; destruct Hv; [done|lia]|].
    simpl. rewrite to_u64_id by ilia. lia. }
  rewrite (proj2 (Z.ltb_ge _ _)) by lia. eexists _, _. split; [done|].
  split_and!; [by rewrite see_last, E1|done|done|]. by eexists _, _, _, _, _.
Qed.

End waits.

(** A lock is never given back.  A process starts without a
    [last_lock_key] and [DoLock] never sets one, so the branch that releases
    the lock of the queue that the process had before, and forgets its version
    and lease, is not reached. *)
Theorem DoLock_never_releases vpid queue st w ret st' w' :
  last_lock_key st = ""%string -> DoLock vpid queue st w = (ret, st', w') -> last_lock_key st' = ""%string.
Proof.
  intros Hk [(_ & -> & _)|[(_ & -> & _)|(lock_id & lease & Hd)]]%DoLock_inv; [done..|]. by eapply lock_queue_last.
Qed.

(** What follows from keeping them.  A process whose last queue's lock had
    the version that the lock of its new queue has takes the new one as overdue
    as soon as the old one is: it asks for it at once, whoever holds it and
    however long the lease. *)
Theorem stale_version_acquires lock_id lease key client st w cur w1 ret info st1 w2 :
  last_lock_key st = ""%string -> GetSteadyClockMS w = (cur, w1) ->
  call_GetLockInfo lock_id key st w1 = (ret, info, st1, w2) -> 0 <= as_integer ret ->
  version st = li_version info -> overdue_time_ms st < cur ->
  lock_queue lock_id lease key client st w =
  call_AcquireLock lock_id (mkLockInfo key (version st) client (to_u64 (to_u64 lease * 1000))) st1 w2.
Proof.
  intros Hk Hc Hg Hr Hv Ho. rewrite lock_queue_fresh by done. rewrite Hc, Hg.
  pose proof (call_GetLockInfo_state _ _ _ _ _ _ _ _ Hg) as (E1 & E2 & E3). unfold see. rewrite E2, Hv, Z.eqb_refl.
  rewrite (proj2 (Z.ltb_ge _ _)) by lia. rewrite E3, (proj2 (Z.ltb_lt _ _)), orb_true_r, E2, Hv by done. done.
Qed.
End lock.
End QueueLock.
