(* ===== verification/AddRequests.v ===== *)
(** * Making the requests of a producer

    [ConsumerGroupIDs2Mask] and [Producer::MakeAddRequests] of
    src/phxqueue/producer/producer.cpp: items are grouped by the queue info
    that their retry count leads to, and each group is cut into requests of a
    bounded number of items and bytes.  [ByteSize] is the generated code of
    comm.proto. *)

From S2P Require Import Prelude RetCode TopicConfig StoreConfig Node StoreMeta SyncCtrl BaseMgr.

#[local] Set Default Proof Using "Type".

Module AddRequests.

(** [None] for a shift by 64 and more, which is undefined. *)
Definition ConsumerGroupIDs2Mask (consumer_group_ids : option (gset Z)) : option Z :=
  match consumer_group_ids with
  | None => Some UINT64_MAX
  | Some ids =>
      foldM (fun mask consumer_group_id =>
        if 0 <? consumer_group_id then
          if 64 <? consumer_group_id then None
          else Some (Z.lor mask (Z.shiftl 1 (consumer_group_id - 1)))
        else Some mask) 0 (set_items ids)
  end.

Section requests.
Context `{GC : GlobalConfig} (ByteSize : QItem -> Z).

Definition GetQueueInfoID (c : TopicConfig.t) (item : QItem) : RetCode * option Z :=
  TopicConfig.GetQueueInfoIDByCount c (item_pub_id item) (to_i32 (item_count item)).

(** [queue_info_id2new_items]; an item without a queue info is skipped. *)
Definition group_item (c : TopicConfig.t) (m : gmap Z (list QItem)) (new_item : QItem) : gmap Z (list QItem) :=
  match GetQueueInfoID c new_item with
  | (RET_OK, Some queue_info_id) => <[queue_info_id := default [] (m !! queue_info_id) ++ [new_item]]> m
  | _ => m
  end.

Definition new_request (topic_id : Z) (items : list QItem) : AddRequest := mkAddRequest topic_id (-1) (-1) items.

(** The loop over the items of a queue info: [req] are the items of the
    request that is being filled, none while it is null. *)
Fixpoint fill_requests (topic_id batch_limit byte_size_limit : Z) (new_items : list QItem)
    (reqs : list AddRequest) (req : list QItem) (batch byte_size : Z) : RetCode * list AddRequest :=
  match new_items with
  | [] => (RET_OK, match req with [] => reqs | _ => reqs ++ [new_request topic_id req] end)
  | new_item :: new_items =>
      let item_byte_size := ByteSize new_item in
      if (batch_limit <? batch + 1) || (byte_size_limit <? byte_size +u item_byte_size) then
        match req with
        | [] => (RET_ERR_SIZE_TOO_LARGE, reqs)
        | _ => fill_requests topic_id batch_limit byte_size_limit new_items
                 (reqs ++ [new_request topic_id req]) [new_item] 1 (0 +u item_byte_size)
        end
      else fill_requests topic_id batch_limit byte_size_limit new_items reqs (req ++ [new_item]) (batch + 1)
             (byte_size +u item_byte_size)
  end.

Fixpoint fill_groups (topic_id batch_limit byte_size_limit : Z) (groups : list (Z * list QItem))
    (reqs : list AddRequest) : RetCode * list AddRequest :=
  match groups with
  | [] => (RET_OK, reqs)
  | (_, new_items) :: groups =>
      match fill_requests topic_id batch_limit byte_size_limit new_items reqs [] 0 0 with
      | (RET_OK, reqs) => fill_groups topic_id batch_limit byte_size_limit groups reqs
      | (ret, reqs) => (ret, reqs)
      end
  end.

(** The new items: copies without the null ones, updated. *)
Definition new_items_of (items : list (option QItem)) (item_update_func : option (QItem -> QItem)) : list QItem :=
  default (fun item => item) item_update_func <$> omap (fun item => item) items.

Definition MakeAddRequests (topic_id : Z) (items : list (option QItem)) (item_update_func : option (QItem -> QItem))
    : RetCode * list AddRequest :=
  match GetTopicConfigByTopicID topic_id with
  | (RET_OK, Some topic_config) =>
      let t := TopicConfig.topic (TopicConfig.proto topic_config) in
      fill_groups topic_id (TopicConfig.batch_limit t) (to_u64 (TopicConfig.items_byte_size_limit t))
        (map_items (foldl (group_item topic_config) ∅ (new_items_of items item_update_func))) []
  | (ret, _) => (ret, [])
  end.

(** ** The requests of a group *)

Definition total (items : list QItem) : Z := foldr (fun item n => ByteSize item + n) 0 items.

(** What a request may hold: an item of any size, or several within both
    limits. *)
Definition fits (batch_limit byte_size_limit : Z) (items : list QItem) : Prop :=
  items <> [] /\ Z.of_nat (length items) <= batch_limit /\ (total items <= byte_size_limit \/ length items = 1%nat).

Definition routes (c : TopicConfig.t) (id : Z) (item : QItem) : Prop := GetQueueInfoID c item = (RET_OK, Some id).

#[export] Instance routes_dec c id item : Decision (routes c id item).
Proof. unfold routes. apply _. Defined.

Lemma total_snoc items item : total (items ++ [item]) = total items + ByteSize item.
Proof. induction items as [|x l IH]; simpl; [lia|]. rewrite IH. lia. Qed.

Section sized.
Hypothesis ByteSize_int : forall item, 0 <= ByteSize item <= INT32_MAX.

Lemma total_nonneg items : 0 <= total items.
Proof using ByteSize_int. induction items as [|x l IH]; simpl; [done|]. pose proof (ByteSize_int x). lia. Qed.

Lemma fill_requests_spec topic_id bl sl items reqs req ret reqs' :
  0 <= sl <= INT32_MAX -> (req <> [] -> fits bl sl req) ->
  fill_requests topic_id bl sl items reqs req (Z.of_nat (length req)) (total req) = (ret, reqs') ->
  (ret = RET_OK /\ exists chunks, reqs' = reqs ++ (new_request topic_id <$> chunks) /\
     concat chunks = req ++ items /\ Forall (fits bl sl) chunks /\
     (req = [] -> forall item, head items = Some item -> 1 <= bl /\ ByteSize item <= sl)) \/
  (ret = RET_ERR_SIZE_TOO_LARGE /\ req = [] /\ exists item rest, items = item :: rest /\ (bl < 1 \/ sl < ByteSize item)).
Proof using ByteSize_int.
  intros Hsl. revert reqs req. induction items as [|item items IH]; intros reqs req Hreq Hf; simpl in Hf.
  { simplify_eq. left. split; [done|]. destruct req as [|x l].
    - exists []. split_and!; [by rewrite app_nil_r|done..].
    - exists [x :: l]. split_and!; [done..| |done]. constructor; [by apply Hreq|constructor]. }
  pose proof (ByteSize_int item) as Hb. pose proof (total_nonneg req) as Ht.
  assert (Hbound : total req + ByteSize item <= UINT64_MAX).
  { unfold UINT64_MAX, INT32_MAX in *. destruct req as [|x [|y l]]; simpl in *; [lia| |].
    - pose proof (ByteSize_int x). lia.
    - destruct (Hreq ltac:(done)) as (_ & _ & [Htot|?]); [simpl in Htot; lia|done]. }
  rewrite to_u64_id in Hf by ilia.
  destruct ((bl <? _) || (sl <? _)) eqn:Eover.
  - destruct req as [|x l].
    + right. simplify_eq. split_and!; [done..|]. exists item, items. split; [done|]. simpl in Eover.
      simpl_bool. destruct Eover as [E|E]; simpl_bool; [left|right]; lia.
    + destruct (Hreq ltac:(done)) as (_ & Hlen & _). simpl in Hlen.
      rewrite Z.add_0_l, to_u64_id in Hf by ilia.
      specialize (IH (reqs ++ [new_request topic_id (x :: l)]) [item]). simpl in IH. rewrite Z.add_0_r in IH.
      destruct IH as [(-> & chunks & -> & Hc & Hfit & _)|(_ & ? & _)]; [|exact Hf| |done].
      { intros _. split_and!; [done|simpl; lia|by right]. }
      left. split; [done|]. exists ((x :: l) :: chunks). split_and!.
      * simpl. by rewrite <-app_assoc.
      * simpl. by rewrite Hc.
      * constructor; [by apply Hreq|done].
      * done.
  - simpl_bool. specialize (IH reqs (req ++ [item])). rewrite length_app, total_snoc in IH. simpl in IH.
    rewrite Nat2Z.inj_add in IH. destruct IH as [(-> & chunks & -> & Hc & Hfit & _)|(_ & Hn & _)]; [|exact Hf| |].
    + intros _. split_and!; [by destruct req|rewrite length_app; simpl; lia|left; rewrite total_snoc; lia].
    + left. split; [done|]. exists chunks. split_and!; [done| |done|]; [by rewrite Hc, <-app_assoc|].
      intros -> x [= <-]. simpl in *. lia.
    + by destruct req.
Qed.

Lemma fill_groups_spec topic_id bl sl groups reqs ret reqs' :
  0 <= sl <= INT32_MAX -> fill_groups topic_id bl sl groups reqs = (ret, reqs') ->
  (ret = RET_OK /\ exists chunkss, reqs' = reqs ++ (new_request topic_id <$> concat chunkss) /\
     Forall2 (fun g chunks => concat chunks = g.2 /\ Forall (fits bl sl) chunks /\
       forall item, head g.2 = Some item -> 1 <= bl /\ ByteSize item <= sl) groups chunkss) \/
  (ret = RET_ERR_SIZE_TOO_LARGE /\ exists id item rest, (id, item :: rest) ∈ groups /\ (bl < 1 \/ sl < ByteSize item)).
Proof using ByteSize_int.
  intros Hsl. revert reqs. induction groups as [|[id items] groups IH]; intros reqs Hf; simpl in Hf.
  { simplify_eq. left. split; [done|]. exists []. split; [by rewrite app_nil_r|constructor]. }
  destruct (fill_requests _ _ _ _ _ _ _ _) as [r1 reqs1] eqn:E1.
  apply (fill_requests_spec topic_id bl sl items reqs [] r1 reqs1 Hsl ltac:(done)) in E1.
  destruct E1 as [(-> & chunks & -> & Hc & Hfit & Hfirst)|(-> & _ & item & rest & -> & Hbad)].
  - destruct (IH _ Hf) as [(-> & chunkss & -> & Hall)|(-> & id' & item & rest & Hin & Hbad)].
    + left. split; [done|]. exists (chunks :: chunkss). simpl. rewrite fmap_app, app_assoc. split; [done|].
      constructor; [|done]. split_and!; auto.
    + right. split; [done|]. exists id', item, rest. split; [by right|done].
  - simplify_eq. right. split; [done|]. exists id, item, rest. split; [left|done].
Qed.
End sized.

Lemma group_items c l id :
  foldl (group_item c) ∅ l !! id = (if decide (filter (routes c id) l = []) then None else Some (filter (routes c id) l)).
Proof.
  induction l as [|x l IH] using rev_ind; [simpl; by rewrite lookup_empty|]. rewrite foldl_snoc, filter_app.
  set (m := foldl (group_item c) ∅ l) in *. unfold group_item.
  assert (Hskip : ~ routes c id x -> filter (routes c id) [x] = []) by (intros; by rewrite filter_cons, decide_False).
  destruct (GetQueueInfoID c x) as [ret o] eqn:Ex.
  assert (Hother : (forall k, (ret, o) = (RET_OK, Some k) -> k <> id) -> filter (routes c id) [x] = []).
  { intros Hk. apply Hskip. unfold routes. rewrite Ex. intros E. by eapply Hk. }
  destruct ret; try (rewrite (Hother ltac:(intros; simplify_eq)), app_nil_r; exact IH).
  destruct o as [k|]; [|rewrite (Hother ltac:(intros; simplify_eq)), app_nil_r; exact IH].
  destruct (decide (k = id)) as [->|Hne].
  - rewrite lookup_insert_eq, IH, (filter_cons_True _ x []) by done. rewrite filter_nil.
    rewrite (decide_False (P := filter _ l ++ [x] = [])) by (intros [_ ?]%app_nil; done).
    case_decide as E; [by rewrite E|done].
  - rewrite lookup_insert_ne, (Hother ltac:(intros; simplify_eq; done)), app_nil_r by done. exact IH.
Qed.

Lemma groups_elem c l id items :
  (id, items) ∈ map_items (foldl (group_item c) ∅ l) -> items = filter (routes c id) l /\ items <> [].
Proof. intros Hin%elem_of_map_items. rewrite group_items in Hin. case_decide; by simplify_eq. Qed.

(** The limits of the topic. *)
Definition limits_ok (c : TopicConfig.t) : Prop :=
  0 <= TopicConfig.items_byte_size_limit (TopicConfig.topic (TopicConfig.proto c)) <= INT32_MAX.

Definition batch_limit_of (c : TopicConfig.t) : Z := TopicConfig.batch_limit (TopicConfig.topic (TopicConfig.proto c)).
Definition byte_limit_of (c : TopicConfig.t) : Z :=
  TopicConfig.items_byte_size_limit (TopicConfig.topic (TopicConfig.proto c)).

Lemma chunk_routes c id (chunks : list (list QItem)) l :
  concat chunks = filter (routes c id) l -> Forall (Forall (routes c id)) chunks.
Proof.
  intros Hc. apply Forall_forall. intros ch Hin. apply Forall_forall. intros x Hx.
  assert (Hxc : x ∈ concat chunks) by (apply elem_of_concat; by exists ch).
  rewrite Hc in Hxc. by apply list_elem_of_filter in Hxc as [? _].
Qed.

Lemma filter_other c id id' l : id <> id' -> Forall (routes c id) l -> filter (routes c id') l = [].
Proof. intros Hne Hl. apply filter_none. eapply Forall_impl; [exact Hl|]. unfold routes. intros x Hx Hx'. congruence. Qed.

(** The groups one after the other are, group by group, the items. *)
Lemma groups_complete c (groups : list (Z * list QItem)) (chunkss : list (list (list QItem))) id :
  NoDup groups.*1 ->
  Forall2 (fun g chunks => concat chunks = g.2 /\ Forall (routes c g.1) g.2) groups chunkss ->
  filter (routes c id) (concat (concat chunkss)) =
  match list_find (fun g => g.1 = id) groups with Some (_, g) => g.2 | None => [] end.
Proof.
  intros Hnd Hall. induction Hall as [|[k items] chunks groups chunkss [Hc Hr] Hall IH]; [done|]. simpl in *.
  apply NoDup_cons in Hnd as [Hk Hnd]. rewrite concat_app, filter_app, Hc, (IH Hnd). cbn [list_find]. simpl.
  destruct (decide (k = id)) as [->|Hne].
  - rewrite (filter_all _ items) by done.
    replace (list_find (fun g : Z * list QItem => g.1 = id) groups) with (@None (nat * (Z * list QItem))); [by rewrite app_nil_r|].
    symmetry. apply list_find_None, Forall_forall. intros g Hg <-. apply Hk. by apply list_elem_of_fmap_2.
  - rewrite (filter_other c k id) by done. simpl. by destruct (list_find _ groups) as [[]|].
Qed.

Lemma find_group c l id :
  match list_find (fun g => g.1 = id) (map_items (foldl (group_item c) ∅ l)) with Some (_, g) => g.2 | None => [] end =
  filter (routes c id) l.
Proof.
  destruct (list_find _ _) as [[i [k items]]|] eqn:Ef.
  - apply list_find_Some in Ef as (Hl & Hk & _). simpl in Hk. subst k. apply list_elem_of_lookup_2, groups_elem in Hl as [-> _]. done.
  - apply list_find_None in Ef. rewrite Forall_forall in Ef.
    destruct (decide (filter (routes c id) l = [])) as [E|E]; [by rewrite E|]. exfalso.
    apply (Ef (id, filter (routes c id) l)); [|done]. apply elem_of_map_items. rewrite group_items. by rewrite decide_False.
Qed.

Lemma add_requests_complete topic_id items update c reqs :
  (forall item, 0 <= ByteSize item <= INT32_MAX) -> limits_ok c ->
  GetTopicConfigByTopicID topic_id = (RET_OK, Some c) ->
  MakeAddRequests topic_id items update = (RET_OK, reqs) ->
  Forall (fun req => exists l id, req = new_request topic_id l /\ Forall (routes c id) l /\
                     fits (batch_limit_of c) (byte_limit_of c) l) reqs /\
  forall id, filter (routes c id) (concat (ar_items <$> reqs)) = filter (routes c id) (new_items_of items update).
Proof.
  intros Hb Hlim Hc Hm. unfold MakeAddRequests in Hm. rewrite Hc in Hm. fold (batch_limit_of c) (byte_limit_of c) in Hm.
  unfold limits_ok in Hlim. fold (byte_limit_of c) in Hlim.
  rewrite to_u64_id in Hm by (unfold is_u64, UINT64_MAX, INT32_MAX in *; lia).
  set (l := new_items_of items update) in *.
  apply (fill_groups_spec Hb) in Hm; [|done]. destruct Hm as [(_ & chunkss & -> & Hall)|[? _]]; [|done]. simpl.
  assert (Hall' : Forall2 (fun g chunks => concat chunks = g.2 /\ Forall (routes c g.1) g.2)
            (map_items (foldl (group_item c) ∅ l)) chunkss).
  { apply Forall2_same_length_lookup. split; [by eapply Forall2_length|]. intros i [id g] chunks Hg Hch.
    destruct (Forall2_lookup_lr _ _ _ _ _ _ Hall Hg Hch) as [E _]. simpl in *. split; [done|].
    apply list_elem_of_lookup_2, groups_elem in Hg as [-> _]. apply Forall_forall. by intros x [? _]%list_elem_of_filter. }
  split.
  - apply Forall_forall. intros req (ch & -> & Hch)%list_elem_of_fmap.
    apply elem_of_concat in Hch as (chunks & Hin & Hch). apply list_elem_of_lookup in Hin as [i Hi].
    destruct (Forall2_lookup_r _ _ _ _ _ Hall Hi) as ([id g] & Hg & Hcat & Hfit & _). simpl in *.
    exists ch, id. split_and!; [done| |by apply (proj1 (Forall_forall _ _) Hfit)].
    apply list_elem_of_lookup_2, groups_elem in Hg as [-> _]. apply chunk_routes in Hcat.
    by apply (proj1 (Forall_forall _ _) Hcat).
  - intros id. rewrite <-list_fmap_compose. replace (ar_items ∘ new_request topic_id <$> concat chunkss) with (concat chunkss).
    2: { symmetry. apply list_fmap_id. }
    rewrite (groups_complete c _ _ id (map_items_NoDup _) Hall'). apply find_group.
Qed.

(** Items that all fit are accepted. *)
Lemma add_requests_ok topic_id items update c :
  (forall item, 0 <= ByteSize item <= INT32_MAX) -> limits_ok c ->
  GetTopicConfigByTopicID topic_id = (RET_OK, Some c) -> 1 <= batch_limit_of c ->
  Forall (fun item => ByteSize item <= byte_limit_of c) (new_items_of items update) ->
  exists reqs, MakeAddRequests topic_id items update = (RET_OK, reqs).
Proof.
  intros Hb Hlim Hc H1 Hall. unfold MakeAddRequests. rewrite Hc. fold (batch_limit_of c) (byte_limit_of c).
  unfold limits_ok in Hlim. fold (byte_limit_of c) in Hlim.
  rewrite to_u64_id by (unfold is_u64, UINT64_MAX, INT32_MAX in *; lia).
  destruct (fill_groups _ _ _ _ _) as [ret reqs] eqn:Ef. apply (fill_groups_spec Hb) in Ef; [|done].
  destruct Ef as [(-> & _)|(-> & id & item & rest & Hin & Hbad)]; [by exists reqs|exfalso].
  apply groups_elem in Hin as [Hf _].
  assert (Hi : item ∈ filter (routes c id) (new_items_of items update)) by (rewrite <-Hf; left).
  apply list_elem_of_filter in Hi as [_ Hi]. rewrite Forall_forall in Hall. specialize (Hall item Hi). simpl in Hall. lia.
Qed.

(** C13: The requests carry the items.  When [MakeAddRequests] succeeds, every
    request is for the topic with store and queue still to be selected, holds
    items that all go to one queue info, at least one, and respects the limits
    of the topic unless it is a single item; and the requests together hold,
    for each queue info, exactly the items that go there, in their order. *)
Theorem MakeAddRequests_complete topic_id items update c reqs :
  (forall item, 0 <= ByteSize item <= INT32_MAX) -> limits_ok c ->
  GetTopicConfigByTopicID topic_id = (RET_OK, Some c) ->
  MakeAddRequests topic_id items update = (RET_OK, reqs) ->
  Forall (fun req => exists l id, req = new_request topic_id l /\ Forall (routes c id) l /\
                     fits (batch_limit_of c) (byte_limit_of c) l) reqs /\
  forall id, filter (routes c id) (concat (ar_items <$> reqs)) = filter (routes c id) (new_items_of items update).
Proof. apply add_requests_complete. Qed.

(** Only the first item of a group is refused for its size.
    [MakeAddRequests] returns RET_ERR_SIZE_TOO_LARGE exactly when no item fits
    a batch or, for some queue info, the first item that goes there exceeds the
    byte limit; an item of any size that is not the first of its group is
    accepted. *)
Theorem MakeAddRequests_too_large topic_id items update c :
  (forall item, 0 <= ByteSize item <= INT32_MAX) -> limits_ok c ->
  GetTopicConfigByTopicID topic_id = (RET_OK, Some c) ->
  (MakeAddRequests topic_id items update).1 = RET_ERR_SIZE_TOO_LARGE <->
  exists id item rest, filter (routes c id) (new_items_of items update) = item :: rest /\
    (batch_limit_of c < 1 \/ byte_limit_of c < ByteSize item).
Proof.
  intros Hb Hlim Hc. unfold MakeAddRequests. rewrite Hc. fold (batch_limit_of c) (byte_limit_of c).
  unfold limits_ok in Hlim. fold (byte_limit_of c) in Hlim.
  rewrite to_u64_id by (unfold is_u64, UINT64_MAX, INT32_MAX in *; lia).
  set (l := new_items_of items update) in *.
  destruct (fill_groups _ _ _ _ _) as [ret reqs] eqn:Ef. apply (fill_groups_spec Hb) in Ef; [|done]. simpl.
  destruct Ef as [(-> & chunkss & _ & Hall)|(-> & id & item & rest & Hin & Hbad)].
  - split; [done|]. intros (id & item & rest & Hf & Hbad). exfalso.
    assert (Hin : (id, item :: rest) ∈ map_items (foldl (group_item c) ∅ l)).
    { apply elem_of_map_items. rewrite group_items, Hf. by rewrite decide_False. }
    apply list_elem_of_lookup in Hin as [i Hi].
    destruct (Forall2_lookup_l _ _ _ _ _ Hall Hi) as (chunks & _ & _ & _ & Hfirst).
    destruct (Hfirst item); [done|]. lia.
  - split; [|done]. intros _. exists id, item, rest. by apply groups_elem in Hin as [<- _].
Qed.
End requests.

(** ** The mask of consumer groups *)

Lemma mask_fold ids mask0 mask :
  foldM (fun mask consumer_group_id =>
    if 0 <? consumer_group_id then
      if 64 <? consumer_group_id then None else Some (Z.lor mask (Z.shiftl 1 (consumer_group_id - 1)))
    else Some mask) mask0 ids = Some mask ->
  forall g, 0 < g -> Z.testbit mask (g - 1) = Z.testbit mask0 (g - 1) || bool_decide (g ∈ ids).
Proof.
  revert mask0. induction ids as [|i ids IH]; intros mask0 Hf g Hg.
  { injection Hf as <-. rewrite bool_decide_eq_false_2 by (by intros ?%elem_of_nil). by rewrite orb_false_r. }
  apply foldM_cons in Hf as (m1 & H1 & H2). rewrite (IH _ H2 g Hg). clear IH H2.
  assert (Hcons : bool_decide (g ∈ i :: ids) = bool_decide (g = i) || bool_decide (g ∈ ids)).
  { rewrite <-bool_decide_or. apply bool_decide_ext. apply elem_of_cons. }
  rewrite Hcons, orb_assoc. clear Hcons. f_equal. destruct (Z.ltb_spec 0 i); [destruct (64 <? i); simplify_eq|simplify_eq].
  - rewrite Z.lor_spec, Z.shiftl_1_l. f_equal. rewrite Z.pow2_bits_eqb by lia.
    case_bool_decide; lia.
  - rewrite bool_decide_eq_false_2 by lia. by rewrite orb_false_r.
Qed.

(** An item reaches the groups it is enqueued for.  With the mask that the
    producer computes, the store skips an item for a consumer group exactly
    when the group was not among those given to [Enqueue]; with none given,
    every group gets it. *)
Theorem mask_SkipGet ids mask item req :
  ConsumerGroupIDs2Mask ids = Some mask -> item_consumer_group_ids item = mask ->
  meta_topic_id item = gr_topic_id req -> 0 < gr_consumer_group_id req <= 64 ->
  SkipGet item req =
  Some (match ids with None => false | Some ids => bool_decide (gr_consumer_group_id req ∉ ids) end).
Proof.
  intros Hm Hi Ht Hg. unfold SkipGet. rewrite Ht, Z.eqb_refl. simpl.
  rewrite (proj2 (Z.ltb_ge _ _)), (proj2 (Z.leb_gt _ _)) by lia. simpl. rewrite BaseMgr.land_bit by lia. rewrite Hi. f_equal.
  destruct ids as [ids|]; simpl in Hm.
  - apply mask_fold with (g := gr_consumer_group_id req) in Hm; [|lia]. rewrite Hm, Z.bits_0. simpl.
    rewrite <-bool_decide_not. apply bool_decide_ext. by rewrite elem_of_set_items.
  - injection Hm as <-. change UINT64_MAX with (Z.ones 64). by rewrite Z.ones_spec_low by lia.
Qed.
End AddRequests.
