(* ===== verification/Selector.v ===== *)
(** * Selecting the queue and the store of a request

    [QueueSelectorDefault] and [StoreSelectorDefault] of
    src/phxqueue/producer/selector.cpp.  A store is found on a hash ring that
    is kept for a thread and rebuilt when the store configuration changes; when
    the producer retries, the stores that were tried are left out.

    [crc32] is the function of zlib, [IsStoreBlocked] the method that an
    application may override. *)

From S2P Require Import Prelude HashUtil RetCode TopicConfig StoreConfig LockConfig SchedulerConfig MasterClient.

#[local] Set Default Proof Using "Type".

Module QueueSelector.
Section queue.
Context `{GC : GlobalConfig} {W : Type} `{CE : ClientEnv W} (crc32 : Z -> list Z -> Z).

Record t := mk {
  topic_id : Z;
  pub_id : Z;
  uin : Z;
  count : Z;
  retry_switch_queue : bool;
  retry : Z;
}.

Definition new (topic_id pub_id uin count : Z) (retry_switch_queue : bool) : t :=
  mk topic_id pub_id uin count retry_switch_queue 0.

Definition retried (s : t) : t :=
  mk (topic_id s) (pub_id s) (uin s) (count s) (retry_switch_queue s) (retry s + 1).

(** The rank of the queue; [rd] is a [size_t]. *)
Definition rank_of (s : t) (queue_info : QueueInfo) (w : W) : Z * W :=
  let '(tmp_uin, w) := if (uin s =? 0) || negb (qi_handle_by_random_uin queue_info =? 0) then FastRand w
                       else (uin s, w) in
  let rd := crc32 (crc32 (crc32 0 []) (le_bytes 8 tmp_uin)) (le_bytes 4 (topic_id s)) in
  (if retry_switch_queue s then rd +u retry s else rd, w).

(** The second component is [queue_id], [None] when it is not written. *)
Definition GetQueueID (s : t) (w : W) : RetCode * option Z * t * W :=
  match GetTopicConfigByTopicID (topic_id s) with
  | (RET_OK, Some topic_config) =>
      match TopicConfig.GetQueueInfoIDByCount topic_config (pub_id s) (count s) with
      | (RET_OK, Some queue_info_id) =>
          match TopicConfig.GetQueueInfoByQueueInfoID topic_config queue_info_id with
          | (RET_OK, Some queue_info) =>
              let '(rd, w) := rank_of s queue_info w in
              let '(_, queue_id) := TopicConfig.GetQueueByLoopRank topic_config queue_info_id rd in
              (RET_OK, queue_id, retried s, w)
          | (ret, _) => (ret, None, s, w)
          end
      | (ret, _) => (ret, None, s, w)
      end
  | (ret, _) => (ret, None, s, w)
  end.

(** A queue that the store knows.  The queue that [GetQueueID] selects
    belongs to the queue info of the pub for the retry count: the store, which
    looks the queue info up by the queue, finds that one. *)
Theorem GetQueueID_routes b p c s w q s' w' :
  (forall h l, is_u64 (crc32 h l)) ->
  TopicConfig.Rebuild b p = Some (RET_OK, c) -> TopicConfig.disjoint_ranges c ->
  GetTopicConfigByTopicID (topic_id s) = (RET_OK, Some c) ->
  GetQueueID s w = (RET_OK, Some q, s', w') ->
  exists id qi, TopicConfig.GetQueueInfoIDByCount c (pub_id s) (count s) = (RET_OK, Some id) /\
    TopicConfig.GetQueueInfoByQueueInfoID c id = (RET_OK, Some qi) /\
    TopicConfig.GetQueueInfoByQueue c q = (RET_OK, Some qi).
Proof.
  intros Hcrc HR Hd Hc Hg. unfold GetQueueID in Hg. rewrite Hc in Hg.
  destruct (TopicConfig.GetQueueInfoIDByCount c _ _) as [[] [id|]] eqn:Ei; simplify_eq.
  destruct (TopicConfig.GetQueueInfoByQueueInfoID c id) as [[] [qi|]] eqn:Eq; simplify_eq.
  destruct (rank_of s qi w) as [rd w1] eqn:Er. destruct (TopicConfig.GetQueueByLoopRank c id rd) as [r o] eqn:El. simplify_eq.
  exists id, qi. split_and!; [done..|]. unfold TopicConfig.GetQueueByLoopRank in El.
  destruct (TopicConfig.GetNQueue c id) as [[] [n|]]; simplify_eq. destruct (Z.eqb_spec n 0); simplify_eq.
  assert (r = RET_OK) as ->.
  { unfold TopicConfig.GetQueueByRank in El. repeat case_match; by simplify_eq. }
  assert (Hrank : is_u64 (rd mod to_u64 n)).
  { assert (Hrd : is_u64 rd).
    { unfold rank_of in Er. destruct (if (uin s =? 0) || _ then FastRand w else _) as [u w2].
      injection Er as <- _. destruct (retry_switch_queue s); [apply to_u64_range|apply Hcrc]. }
    pose proof (to_u64_range n) as Hn. unfold is_u64 in *. destruct (decide (to_u64 n = 0)) as [->|].
    - by rewrite Z.mod_0_r.
    - pose proof (Z.mod_pos_bound rd (to_u64 n)). lia. }
  destruct (TopicConfig.GetQueueByRank_info _ _ _ _ _ _ _ HR Hd Hrank El) as (qi' & H1 & H2). congruence.
Qed.
End queue.
End QueueSelector.

Module StoreSelector.
Section store.
Context `{IN : Inet, GC : GlobalConfig} {W : Type} `{CE : ClientEnv W}.

Record t := mk {
  topic_id : Z;
  pub_id : Z;
  uin : Z;
  retry_switch_store : bool;
  retry : Z;
  tried_store_ids : gset Z;
}.

Definition new (topic_id pub_id uin : Z) (retry_switch_store : bool) : t :=
  mk topic_id pub_id uin retry_switch_store 0 ∅.

(** The thread-local ring of a topic. *)
Record ring := mkRing {
  last_rebuild_time : Z;
  hash_ring : gmap Z Z;
  store_id2hash_list : gmap Z (gset Z);
}.

Definition no_ring : ring := mkRing 0 ∅ ∅.

(** The stores that serve the pub. *)
Definition serving (topic_id pub_id : Z) (stores : list Store_proto) : gset Z :=
  list_to_set (omap (fun store =>
    match GetPubIDsByStoreID topic_id (store_id store) with
    | (RET_OK, pub_ids) => if bool_decide (pub_id ∈ pub_ids) then Some (store_id store) else None
    | _ => None
    end) stores).

Definition point (encoded_addrs : list Z) (i : Z) : Z :=
  MurmurHash64 (le_bytes 4 i) (foldl (fun h encoded_addr => MurmurHash64 (le_bytes 8 encoded_addr) h) 0 encoded_addrs).

(** The hashes of a store, [None] when it is unknown. *)
Definition points (store_config : StoreConfig.t) (store_id : Z) : option (list Z) :=
  match StoreConfig.GetStoreByStoreID store_config store_id with
  | (RET_OK, Some store) => Some (point (EncodeAddr <$> addrs store) <$> seqZ 0 (store_scale store))
  | _ => None
  end.

Definition node_points (p : Z * list Z) : list (Z * Z) := (fun h => (h, p.1)) <$> p.2.

Definition rebuild (store_config : StoreConfig.t) (store_ids : gset Z) (last_mod_time : Z) : ring :=
  let known : list (Z * list Z) := omap (fun id => pair id <$> points store_config id) (set_items store_ids) in
  mkRing last_mod_time
    (ring_of (concat (node_points <$> known)))
    (foldl (fun m p => <[p.1 := list_to_set p.2]> m) ∅ known).

Definition refresh (store_config : StoreConfig.t) (store_ids : gset Z) (last_mod_time : Z) (r : ring) : ring :=
  if last_mod_time =? last_rebuild_time r then r else rebuild store_config store_ids last_mod_time.

Definition hash_of (s : t) (w : W) : Z * W :=
  let '(tmp_uin, w) := if uin s =? 0 then FastRand w else (uin s, w) in
  let h := MurmurHash64 (le_bytes 4 (topic_id s)) (MurmurHash64 (le_bytes 8 tmp_uin) 0) in
  (if retry_switch_store s then MurmurHash64 (le_bytes 4 (retry s)) h else h, w).

(** The hash of a store at or after [h], or its first one. *)
Definition next_hash (r : ring) (store_id h : Z) : option Z :=
  let hash_list := set_items (default ∅ (store_id2hash_list r !! store_id)) in
  match head (lower_bound id h hash_list) with Some x => Some x | None => head hash_list end.

(** The loop over the stores that were not tried; [-1] when there is none. *)
Definition nearest (r : ring) (tried store_ids : gset Z) (h : Z) : Z :=
  (foldl (fun '(store_id, min_hash) tmp_store_id =>
     if bool_decide (tmp_store_id ∈ tried) then (store_id, min_hash) else
     match next_hash r tmp_store_id h with
     | Some x => if (store_id =? -1) || (x <? min_hash) then (tmp_store_id, x) else (store_id, min_hash)
     | None => (store_id, min_hash)
     end) (-1, 0) (set_items store_ids)).1.

(** The store on the ring; the end of an empty ring is dereferenced. *)
Definition choose (r : ring) (store_ids : gset Z) (s : t) (h : Z) : option Z :=
  if retry_switch_store s && negb (retry s =? 0) then Some (nearest r (tried_store_ids s) store_ids h)
  else ring_find (hash_ring r) h.

Lemma nearest_spec r tried store_ids h :
  nearest r tried store_ids h = -1 \/ (nearest r tried store_ids h ∈ store_ids /\ nearest r tried store_ids h ∉ tried).
Proof.
  unfold nearest.
  assert (Hgo : forall l acc, (forall x, x ∈ l -> x ∈ store_ids) -> (acc.1 = -1 \/ (acc.1 ∈ store_ids /\ (acc.1 ∉ tried))) ->
    let res := (foldl (fun '(store_id, min_hash) tmp_store_id =>
     if bool_decide (tmp_store_id ∈ tried) then (store_id, min_hash) else
     match next_hash r tmp_store_id h with
     | Some x => if (store_id =? -1) || (x <? min_hash) then (tmp_store_id, x) else (store_id, min_hash)
     | None => (store_id, min_hash)
     end) acc l).1 in res = -1 \/ (res ∈ store_ids /\ (res ∉ tried))).
  { induction l as [|x l IH]; intros [s0 m0] Hl Hacc; simpl in *; [done|]. apply IH; [set_solver|].
    case_bool_decide; [done|]. destruct (next_hash r x h); [|done].
    destruct (_ || _); simpl; [|done]. right. split; [apply Hl; left|done]. }
  apply Hgo; [|by left]. intros x. apply elem_of_set_items.
Qed.

Lemma elem_of_mod store_ids h : store_ids <> ∅ ->
  exists id, set_items store_ids !! Z.to_nat (h mod Z.of_nat (size store_ids)) = Some id /\ id ∈ store_ids.
Proof.
  intros Hne. assert (Hs : (0 < size store_ids)%nat).
  { destruct (decide (size store_ids = 0%nat)) as [E|]; [|lia]. apply size_empty_inv in E. by apply leibniz_equiv in E. }
  assert (Hlen : length (set_items store_ids) = size store_ids).
  { unfold set_items. rewrite merge_sort_Permutation. done. }
  assert (Hz : 0 < Z.of_nat (size store_ids)) by lia. pose proof (Z.mod_pos_bound h _ Hz).
  destruct (lookup_lt_is_Some_2 (set_items store_ids) (Z.to_nat (h mod Z.of_nat (size store_ids)))) as [id Hid]; [rewrite Hlen; lia|].
  exists id. split; [done|]. by eapply elem_of_set_items, list_elem_of_lookup_2.
Qed.
Lemma next_hash_is_Some r id h : default ∅ (store_id2hash_list r !! id) <> ∅ -> is_Some (next_hash r id h).
Proof.
  intros Hne. unfold next_hash. destruct (head (lower_bound _ _ _)); [done|].
  apply set_choose_L in Hne as [x Hx]. apply elem_of_set_items in Hx. destruct (set_items _); [by apply elem_of_nil in Hx|done].
Qed.

Lemma nearest_none r tried store_ids h id :
  -1 ∉ store_ids -> nearest r tried store_ids h = -1 -> id ∈ store_ids -> id ∉ tried -> next_hash r id h = None.
Proof.
  intros Hm1 Hn Hid Ht. unfold nearest in Hn. apply elem_of_set_items in Hid.
  assert (Hl : forall x, x ∈ set_items store_ids -> x <> -1) by (intros x Hx%elem_of_set_items ->; done).
  revert Hn Hid Hl. generalize (set_items store_ids) as l.
  set (f := fun '(store_id, min_hash) tmp_store_id => _).
  assert (Hkeep : forall l acc, (forall x, x ∈ l -> x <> -1) -> acc.1 <> -1 -> (foldl f acc l).1 <> -1).
  { induction l as [|x l IH]; intros [a m] Hl Ha; simpl in *; [done|]. apply IH; [set_solver|].
    case_bool_decide; [done|]. destruct (next_hash r x h); [|done]. destruct (_ || _); [apply Hl; left|done]. }
  intros l Hn Hid Hl. apply list_elem_of_split in Hid as (l1 & l2 & ->). rewrite foldl_app in Hn.
  destruct (next_hash r id h) as [x|] eqn:E; [exfalso|done].
  destruct (foldl f (-1, 0) l1) as [a m] eqn:E1. cbn [foldl] in Hn. unfold f in Hn at 2.
  rewrite bool_decide_eq_false_2, E in Hn by done. eapply (Hkeep l2); [set_solver| |exact Hn].
  destruct (Z.eqb_spec a (-1)) as [->|Ha]; simpl; [apply Hl; set_solver|]. destruct (x <? m); [apply Hl; set_solver|done].
Qed.

(** ** The ring of a pub *)

Lemma elem_of_known c store_ids id hs :
  (id, hs) ∈ omap (fun id => pair id <$> points c id) (set_items store_ids) <-> id ∈ store_ids /\ points c id = Some hs.
Proof.
  rewrite list_elem_of_omap. split.
  - intros (i & Hi & Hp). destruct (points c i) eqn:E; simplify_eq/=. by rewrite <-elem_of_set_items.
  - intros [Hi Hp]. exists id. rewrite elem_of_set_items, Hp. done.
Qed.

Definition ring_serves (r : ring) (store_ids : gset Z) : Prop :=
  forall h id, hash_ring r !! h = Some id -> id ∈ store_ids.

Lemma rebuild_serves c store_ids time : ring_serves (rebuild c store_ids time) store_ids.
Proof.
  intros h id Hh. simpl in Hh. apply ring_of_lookup_Some, elem_of_concat in Hh as (l & Hl & Hin).
  apply list_elem_of_fmap in Hl as ([i hs] & -> & Hk%elem_of_known). unfold node_points in Hin.
  apply list_elem_of_fmap in Hin as (h' & E & _). simpl in E. simplify_eq. by destruct Hk.
Qed.

Lemma rebuild_nonempty c store_ids time id store :
  id ∈ store_ids -> StoreConfig.store_id2store c !! id = Some store -> 0 < store_scale store ->
  hash_ring (rebuild c store_ids time) <> ∅.
Proof.
  intros Hid Hs Hw. simpl.
  assert (Hp : points c id = Some (point (EncodeAddr <$> addrs store) <$> seqZ 0 (store_scale store))).
  { unfold points, StoreConfig.GetStoreByStoreID. by rewrite Hs. }
  set (h := point (EncodeAddr <$> addrs store) 0).
  assert (Hd : is_Some (ring_of (concat (node_points <$> omap (fun id => pair id <$> points c id) (set_items store_ids))) !! h)).
  { apply ring_of_dom. exists id. apply elem_of_concat. eexists. split.
    - apply list_elem_of_fmap_2, elem_of_known. by split.
    - apply list_elem_of_fmap. exists h. split; [done|]. simpl. apply list_elem_of_fmap_2, elem_of_seqZ. lia. }
  intros E. rewrite E in Hd. by apply lookup_empty_is_Some in Hd.
Qed.

(** ** The loop over the stores *)

Context (IsStoreBlocked : Z -> bool).

(** The body of the loop: the store, [-1] for another round. *)
Definition round (r : ring) (store_ids : gset Z) (s : t) (w : W) : option (Z * t * W) :=
  let '(h, w) := hash_of s w in
  store_id ← choose r store_ids s h;
  let tried := if negb (store_id =? -1) && retry_switch_store s then {[store_id]} ∪ tried_store_ids s
               else tried_store_ids s in
  let s' := mk (topic_id s) (pub_id s) (uin s) (retry_switch_store s) (retry s + 1) tried in
  if negb (store_id =? -1) then
    Some (if retry_switch_store s && IsStoreBlocked store_id then -1 else store_id, s', w)
  else
    id ← set_items store_ids !! Z.to_nat (h mod Z.of_nat (size store_ids));
    Some (id, s', w).

Fixpoint rounds (n : nat) (r : ring) (store_ids : gset Z) (s : t) (w : W) : option (Z * t * W) :=
  match n with
  | O => None
  | S n => x ← round r store_ids s w;
           let '(store_id, s, w) := x in
           if store_id =? -1 then rounds n r store_ids s w else Some (store_id, s, w)
  end.

(** One round for the ring, one for each store, and the last one. *)
Definition rounds_bound (store_ids : gset Z) : nat := size store_ids + 2.

(** ** The loop ends *)

(** The stores that are still to be tried. *)
Definition untried (store_ids : gset Z) (s : t) : gset Z := store_ids ∖ tried_store_ids s.

(** A round ends the loop, or it is the round of the ring, or it tried a store
    that had not been tried. *)
Lemma round_spec r store_ids s w :
  store_ids <> ∅ -> -1 ∉ store_ids -> hash_ring r <> ∅ ->
  exists id s' w', round r store_ids s w = Some (id, s', w') /\
    topic_id s' = topic_id s /\ pub_id s' = pub_id s /\ uin s' = uin s /\
    retry_switch_store s' = retry_switch_store s /\ retry s' = retry s + 1 /\
    (untried store_ids s' ⊆ untried store_ids s) /\
    (id <> -1 \/ (retry_switch_store s = true /\
       (retry s = 0 \/ (size (untried store_ids s') < size (untried store_ids s))%nat))) /\
    (ring_serves r store_ids -> id = -1 \/ id ∈ store_ids).
Proof.
  intros Hne Hm1 Hr. unfold round. destruct (hash_of s w) as [h w1].
  destruct (elem_of_mod store_ids h Hne) as (fid & Hfid & Hfin).
  unfold choose. destruct (retry_switch_store s) eqn:Esw; simpl.
  2: { destruct (ring_find_is_Some (hash_ring r) h Hr) as [id Hid]. rewrite Hid. simpl.
       rewrite andb_false_r. destruct (Z.eqb_spec id (-1)) as [->|Hid1]; simpl.
       - rewrite Hfid. simpl. eexists _, _, _. split; [done|]. simpl. split_and!; try done.
         + left. by intros ->.
         + by right.
       - eexists _, _, _. split; [done|]. simpl. split_and!; try done; [by left|].
         intros Hs. right. apply ring_find_spec in Hid as (k & _ & Hk). by eapply Hs. }
  destruct (Z.eqb_spec (retry s) 0) as [Hr0|Hr0]; simpl.
  - destruct (ring_find_is_Some (hash_ring r) h Hr) as [id Hid]. rewrite Hid. simpl.
    destruct (Z.eqb_spec id (-1)) as [->|Hid1]; simpl.
    + rewrite Hfid. simpl. eexists _, _, _. split; [done|]. simpl. split_and!; try done.
      * left. by intros ->.
      * by right.
    + eexists _, _, _. split; [done|]. unfold untried. simpl. split_and!; try done; [set_solver|right; by split; [|left]|].
      intros Hs. apply ring_find_spec in Hid as (k & _ & Hk). apply Hs in Hk. destruct (IsStoreBlocked id); [by left|by right].
  - destruct (nearest_spec r (tried_store_ids s) store_ids h) as [E|[Hin Hnt]].
    + rewrite E. simpl. rewrite Hfid. simpl. eexists _, _, _. split; [done|]. simpl. split_and!; try done.
      * left. by intros ->.
      * by right.
    + destruct (Z.eqb_spec (nearest r (tried_store_ids s) store_ids h) (-1)) as [E|Hid1]; [by rewrite E in Hin|]. simpl.
      eexists _, _, _. split; [done|]. unfold untried. simpl. split_and!; try done; [set_solver| |].
      * right. split; [done|]. right. apply subset_size. set_solver.
      * intros _. destruct (IsStoreBlocked _); [by left|by right].
Qed.

Lemma rounds_spec n r store_ids s w :
  store_ids <> ∅ -> -1 ∉ store_ids -> hash_ring r <> ∅ ->
  (size (untried store_ids s) + (if decide (retry s = 0%Z) then 2 else 1) <= n)%nat -> 0 <= retry s ->
  exists id s' w', rounds n r store_ids s w = Some (id, s', w') /\ id <> -1 /\
    (ring_serves r store_ids -> id ∈ store_ids).
Proof.
  intros Hne Hm1 Hr. revert s w. induction n as [|n IH]; intros s w Hn Hpos; [case_decide; lia|].
  destruct (round_spec r store_ids s w Hne Hm1 Hr) as (id & s1 & w1 & E & _ & _ & _ & _ & Er & Hsub & Hend & Hs).
  simpl. rewrite E. simpl. destruct (Z.eqb_spec id (-1)) as [->|Hid].
  - destruct Hend as [?|[_ Hend]]; [done|]. apply IH; [|lia]. rewrite Er. rewrite (decide_False (P := retry s + 1 = 0)) by lia.
    apply subseteq_size in Hsub. destruct Hend as [E0|Hlt]; [rewrite decide_True in Hn by done; lia|].
    destruct (decide (retry s = 0)); lia.
  - eexists id, _, _. split; [done|]. split; [done|]. intros Hrs. by destruct (Hs Hrs).
Qed.

(** ** Retrying *)

(** A retry takes a store that was not tried and is not blocked, as long as
    there is one that has a weight. *)
Lemma rounds_retry n r store_ids s w id s' w' :
  -1 ∉ store_ids -> retry_switch_store s = true -> 0 < retry s ->
  rounds n r store_ids s w = Some (id, s', w') ->
  (id ∈ store_ids /\ (id ∉ tried_store_ids s) /\ IsStoreBlocked id = false /\ id ∈ tried_store_ids s') \/
  (forall x, x ∈ store_ids -> default ∅ (store_id2hash_list r !! x) <> ∅ -> x ∈ tried_store_ids s \/ IsStoreBlocked x = true).
Proof.
  intros Hm1. revert s w. induction n as [|n IH]; intros s w Hsw Hpos Hr; [done|]. simpl in Hr.
  apply bind_Some in Hr as ([[id1 s1] w1] & H1 & Hr). unfold round in H1.
  destruct (hash_of s w) as [h w2]. unfold choose in H1. rewrite Hsw in H1.
  rewrite (proj2 (Z.eqb_neq (retry s) 0)) in H1 by lia. simpl in H1.
  destruct (nearest_spec r (tried_store_ids s) store_ids h) as [E|[Hin Hnt]].
  - right. intros x Hx Hh. left. destruct (decide (x ∈ tried_store_ids s)) as [|Hxt]; [done|].
    destruct (next_hash_is_Some r x h Hh) as [y Hy]. by rewrite (nearest_none r _ _ h x Hm1 E Hx Hxt) in Hy.
  - set (y := nearest r (tried_store_ids s) store_ids h) in *.
    destruct (Z.eqb_spec y (-1)) as [E|Hy]; [by rewrite E in Hin|]. simpl in H1.
    destruct (IsStoreBlocked y) eqn:Eb; simplify_eq; simpl in Hr.
    + apply IH in Hr; [|done|simpl; lia]. simpl in Hr. destruct Hr as [(H1 & H2 & H3 & H4)|Hall].
      * left. split_and!; [done|set_solver|done..].
      * right. intros x Hx Hh. destruct (Hall x Hx Hh) as [Ht|?]; [|by right].
        apply elem_of_union in Ht as [->%elem_of_singleton|?]; [by right|by left].
    + rewrite (proj2 (Z.eqb_neq _ _)) in Hr by done. simplify_eq. left. simpl. split_and!; [done..|set_solver].
Qed.

(** ** [GetStoreID] *)

(* [StoreConfig::GetLastModTime] of the configuration of a topic *)
Context (store_last_mod_time : Z -> Z).

Definition GetStoreID (s : t) (rings : gmap Z ring) (w : W)
    : option (RetCode * option Z * t * gmap Z ring * W) :=
  match GetStoreConfig (topic_id s) with
  | (RET_OK, Some store_config) =>
      match StoreConfig.GetAllStore store_config [] with
      | (RET_OK, stores) =>
          let store_ids := serving (topic_id s) (pub_id s) stores in
          if bool_decide (store_ids = ∅) then Some (RET_ERR_RANGE_STORE, None, s, rings, w) else
          let r := refresh store_config store_ids (store_last_mod_time (topic_id s))
                     (default no_ring (rings !! topic_id s)) in
          let rings := <[topic_id s := r]> rings in
          x ← rounds (rounds_bound store_ids) r store_ids s w;
          let '(store_id, s, w) := x in
          Some (RET_OK, Some store_id, s, rings, w)
      | (ret, _) => Some (ret, None, s, rings, w)
      end
  | (ret, _) => Some (ret, None, s, rings, w)
  end.


(** The stores that serve a pub, in the configuration of its topic. *)
Definition serving_ids (topic_id pub_id : Z) (c : StoreConfig.t) : gset Z :=
  serving topic_id pub_id (StoreConfig.GetAllStore c []).2.

(** A store is always found.  When some store serves the pub and the ring
    that the thread uses is not empty, the loop of [GetStoreID] ends, however
    many stores are blocked: it returns RET_OK with a store, one that serves
    the pub if the ring was built for it. *)
Theorem GetStoreID_finds s rings w c :
  GetStoreConfig (topic_id s) = (RET_OK, Some c) -> serving_ids (topic_id s) (pub_id s) c <> ∅ ->
  -1 ∉ serving_ids (topic_id s) (pub_id s) c -> 0 <= retry s ->
  let r := refresh c (serving_ids (topic_id s) (pub_id s) c) (store_last_mod_time (topic_id s))
             (default no_ring (rings !! topic_id s)) in
  hash_ring r <> ∅ ->
  exists id s' rings' w', GetStoreID s rings w = Some (RET_OK, Some id, s', rings', w') /\ id <> -1 /\
    (ring_serves r (serving_ids (topic_id s) (pub_id s) c) -> id ∈ serving_ids (topic_id s) (pub_id s) c).
Proof.
  intros Hc Hne Hm1 Hpos r Hr. unfold GetStoreID. rewrite Hc. simpl.
  change (serving (topic_id s) (pub_id s) (snd <$> map_items (StoreConfig.store_id2store c)))
    with (serving_ids (topic_id s) (pub_id s) c).
  rewrite bool_decide_eq_false_2 by done. fold r.
  destruct (rounds_spec (rounds_bound (serving_ids (topic_id s) (pub_id s) c)) r _ s w Hne Hm1 Hr) as (id & s' & w' & E & Hid & Hs).
  - unfold rounds_bound. assert (untried (serving_ids (topic_id s) (pub_id s) c) s ⊆ serving_ids (topic_id s) (pub_id s) c) as Hsub%subseteq_size.
    { unfold untried. set_solver. }
    case_decide; lia.
  - done.
  - rewrite E. simpl. by eexists _, _, _, _.
Qed.


(** The ring of a thread is one per topic.  A selector takes its first
    store from the ring that the thread has for the topic, without a check that
    the store serves the pub: the ring may have been built for another pub. *)
Theorem GetStoreID_ring_of_topic s rings w c r id :
  GetStoreConfig (topic_id s) = (RET_OK, Some c) -> serving_ids (topic_id s) (pub_id s) c <> ∅ ->
  rings !! topic_id s = Some r -> last_rebuild_time r = store_last_mod_time (topic_id s) ->
  retry s = 0 -> ring_find (hash_ring r) (hash_of s w).1 = Some id -> id <> -1 -> IsStoreBlocked id = false ->
  exists s' w', GetStoreID s rings w = Some (RET_OK, Some id, s', rings, w').
Proof.
  intros Hc Hne Hr Ht H0 Hf Hid Hb. unfold GetStoreID. rewrite Hc. simpl.
  change (serving (topic_id s) (pub_id s) (snd <$> map_items (StoreConfig.store_id2store c)))
    with (serving_ids (topic_id s) (pub_id s) c).
  rewrite bool_decide_eq_false_2 by done. rewrite Hr. unfold refresh. simpl. rewrite Ht, Z.eqb_refl.
  rewrite insert_id by done. unfold rounds_bound. rewrite Nat.add_comm. cbn [rounds Nat.add]. unfold round.
  destruct (hash_of s w) as [h w1]. simpl in Hf. unfold choose. rewrite H0. simpl. rewrite andb_false_r, Hf. simpl.
  rewrite (proj2 (Z.eqb_neq id (-1))) by done. simpl. rewrite Hb, andb_false_r. simpl.
  rewrite (proj2 (Z.eqb_neq id (-1))) by done. by eexists _, _.
Qed.
End store.
End StoreSelector.
