(* ===== verification/Producer.v ===== *)
(** * The producer

    [Producer::Enqueue], [SelectAndAdd] and [RawAdd] of
    src/phxqueue/producer/producer.cpp: an item becomes requests
    ([AddRequests]), a queue and a store are selected ([Selector]) and the
    master of the queue is called ([MasterClient]); a failed call is retried
    with another selection.

    [rpc_Add], [CompressBuffer] and [DecidePubIDOnEnqueue] are the methods that
    an application overrides.  The batch helper of a producer is an argument:
    [None] without daemon threads. *)

From S2P Require Import Prelude HashUtil RetCode TopicConfig StoreConfig LockConfig SchedulerConfig MasterClient.
From S2P Require Import Node StoreMeta SyncCtrl BaseMgr StoreSM AddRequests Selector.

#[local] Set Default Proof Using "Type".

Module Producer.
Section producer.
Context `{IN : Inet, GC : GlobalConfig} {W : Type} `{CE : ClientEnv W}.
Context (crc32 : Z -> list Z -> Z) (ByteSize : QItem -> Z) (IsStoreBlocked : Z -> bool).
Context (store_last_mod_time : Z -> Z).
Context (rpc_Add : AddRequest -> Addr -> StoreService.AddResponse -> W -> RetCode * StoreService.AddResponse * W).

(** The thread-local state: the rings and the cache of masters. *)
Record t := mk {
  rings : gmap Z StoreSelector.ring;
  addr_cache_ : gmap string (Addr * Z);
}.

Definition redirect_of (resp : StoreService.AddResponse) : Addr :=
  default MasterClient.no_master_addr (StoreService.addr_redirect resp).

Definition RawAdd (req : AddRequest) (st : t) (w : W) : RetCode * t * W :=
  if bool_decide (ar_items req = []) then (RET_OK, st, w) else
  match GetTopicConfigByTopicID (ar_topic_id req) with
  | (RET_OK, Some topic_config) =>
      match TopicConfig.GetQueueInfoByQueue topic_config (ar_queue_id req) with
      | (RET_OK, Some queue_info) =>
          if negb (qi_drop_all queue_info =? 0) then (RET_OK, st, w) else
          let '(ret, _, c, w) :=
            MasterClient.ClientCall redirect_of (rpc_Add req)
              (store_route_key (ar_topic_id req) (ar_store_id req) (ar_queue_id req))
              (store_candidates (ar_topic_id req) (ar_store_id req))
              (StoreService.mkAddResponse None None) (addr_cache_ st) w in
          (ret, mk (rings st) c, w)
      | (ret, _) => (ret, st, w)
      end
  | (ret, _) => (ret, st, w)
  end.

Context (batch_helper : option (AddRequest -> t -> W -> RetCode * t * W)).

Definition set_selected (req : AddRequest) (queue_id store_id : Z) : AddRequest :=
  mkAddRequest (ar_topic_id req) store_id queue_id (ar_items req).

Definition finished (ret : RetCode) : bool :=
  (0 <=? as_integer ret) && negb (bool_decide (ret = RET_ERR_NOT_MASTER)) && negb (bool_decide (ret = RET_ERR_NO_MASTER)).

(** The loop, with [n] retries left; [None] when an unwritten queue id is
    used. *)
Fixpoint add_loop (n : nat) (req : AddRequest) (qs : QueueSelector.t) (ss : StoreSelector.t) (st : t) (w : W)
    : option (RetCode * t * W) :=
  let '(ret, queue_id, qs, w) := QueueSelector.GetQueueID crc32 qs w in
  if negb (is_ok ret) then Some (ret, st, w) else
  queue_id ← queue_id;
  x ← StoreSelector.GetStoreID IsStoreBlocked store_last_mod_time ss (rings st) w;
  let '(ret, store_id, ss, rs, w) := x in
  let st := mk rs (addr_cache_ st) in
  if negb (is_ok ret) then Some (ret, st, w) else
  store_id ← store_id;
  let req := set_selected req queue_id store_id in
  let '(ret, st, w) := default RawAdd batch_helper req st w in
  if finished ret then Some (ret, st, w) else
  match n with
  | O => Some (ret, st, w)
  | S n => add_loop n req qs ss st w
  end.

Definition SelectAndAdd (req : AddRequest) (st : t) (w : W) : option (RetCode * t * W) :=
  match ar_items req with
  | [] => Some (RET_OK, st, w)
  | item :: _ =>
      match GetTopicConfigByTopicID (ar_topic_id req) with
      | (RET_OK, Some topic_config) =>
          let t := TopicConfig.topic (TopicConfig.proto topic_config) in
          add_loop (Z.to_nat (TopicConfig.producer_nretry_raw_add t)) req
            (QueueSelector.new (ar_topic_id req) (item_pub_id item) (meta_uin item) (to_i32 (item_count item))
               (negb (TopicConfig.producer_retry_switch_queue t =? 0)))
            (StoreSelector.new (ar_topic_id req) (item_pub_id item) (meta_uin item)
               (negb (TopicConfig.producer_retry_switch_store t =? 0))) st w
      | (ret, _) => Some (ret, st, w)
      end
  end.

(** ** [Enqueue] *)

Context (CompressBuffer : string -> string * Z) (DecidePubIDOnEnqueue : Z -> Z -> Z -> Z).
Context (GetTimestampMS : W -> Z * W).

Definition bytes_of (s : string) : list Z :=
  (fun c => Z.of_N (N_of_ascii c)) <$> String.list_ascii_of_string s.

Definition make_item (topic_id uin handle_id : Z) (buffer : string) (pub_id mask now : Z) (client_id : string) : QItem :=
  let '(compressed, buffer_type) := CompressBuffer buffer in
  let hash := crc32 (crc32 (crc32 (crc32 0 []) (bytes_of buffer)) (le_bytes 8 uin)) (le_bytes 8 now) in
  let atime := now / 1000 in
  let atime_ms := now mod 1000 in
  mkQItem compressed pub_id mask atime atime_ms 0 UINT64_MAX topic_id handle_id uin hash buffer_type
    mask pub_id atime atime_ms client_id.

Fixpoint add_all (reqs : list AddRequest) (st : t) (w : W) : option (RetCode * t * W) :=
  match reqs with
  | [] => Some (RET_OK, st, w)
  | req :: reqs =>
      x ← SelectAndAdd req st w;
      let '(ret, st, w) := x in
      if negb (is_ok ret) then Some (ret, st, w) else add_all reqs st w
  end.

Definition Enqueue (topic_id uin handle_id : Z) (buffer : string) (pub_id : Z) (consumer_group_ids : option (gset Z))
    (client_id : string) (st : t) (w : W) : option (RetCode * t * W) :=
  match GetTopicConfigByTopicID topic_id with
  | (RET_OK, Some topic_config) =>
      let pub_id := if pub_id =? -1 then DecidePubIDOnEnqueue topic_id uin handle_id else pub_id in
      if (pub_id =? -1) || negb (TopicConfig.IsValidPubID topic_config pub_id) then Some (RET_ERR_RANGE_PUB, st, w) else
      let '(now, w) := GetTimestampMS w in
      mask ← AddRequests.ConsumerGroupIDs2Mask consumer_group_ids;
      let item := make_item topic_id uin handle_id buffer pub_id mask now client_id in
      match AddRequests.MakeAddRequests ByteSize topic_id [Some item] None with
      | (RET_OK, reqs) => add_all reqs st w
      | (ret, _) => Some (ret, st, w)
      end
  | (ret, _) => Some (ret, st, w)
  end.

(** ** An accepted item *)

(** What a successful [RawAdd] did: nothing when the queue drops everything,
    else the last remote call is one that accepted the request. *)
Definition accepted (req : AddRequest) (w w' : W) : Prop :=
  (exists c qi, GetTopicConfigByTopicID (ar_topic_id req) = (RET_OK, Some c) /\
     TopicConfig.GetQueueInfoByQueue c (ar_queue_id req) = (RET_OK, Some qi) /\ qi_drop_all qi <> 0 /\ w' = w) \/
  (exists l a w1 resp1 resp2 w2, MasterClient.trace (rpc_Add req) w l w1 /\
     rpc_Add req a resp1 w1 = (RET_OK, resp2, w2) /\ MasterClient.trace (rpc_Add req) w2 [] w').

Lemma RawAdd_ok req st w st' w' :
  ar_items req <> [] -> RawAdd req st w = (RET_OK, st', w') -> accepted req w w'.
Proof.
  intros Hne. unfold RawAdd. rewrite bool_decide_eq_false_2 by done.
  destruct (GetTopicConfigByTopicID (ar_topic_id req)) as [rt [c|]] eqn:Et.
  2: { intros E. pose proof (GetTopicConfig_found (ar_topic_id req)) as Hf. rewrite Et in Hf. destruct rt; simplify_eq; done. }
  destruct rt; try (intros; by simplify_eq).
  destruct (TopicConfig.GetQueueInfoByQueue c (ar_queue_id req)) as [rq [qi|]] eqn:Eq.
  2: { unfold TopicConfig.GetQueueInfoByQueue in Eq. destruct rq; intros; simplify_eq.
       destruct (TopicConfig.queue2queue_info_id c !! _); simplify_eq. unfold TopicConfig.GetQueueInfoByQueueInfoID in Eq. by case_match. }
  destruct rq; try (intros; by simplify_eq).
  destruct (Z.eqb_spec (qi_drop_all qi) 0) as [Hz|Hz]; simpl.
  - destruct (MasterClient.ClientCall _ _ _ _ _ _ _) as [[[r resp] ca] w1] eqn:Ec. intros; simplify_eq.
    right. apply MasterClient.ClientCall_ok in Ec as (l & a & w1 & r1 & r2 & w2 & ? & ? & ?). by exists l, a, w1, r1, r2, w2.
  - intros; simplify_eq. left. by exists c, qi.
Qed.

(** The queue and store of the attempt that succeeded. *)
Lemma add_loop_ok n req qs ss st w st' w' :
  batch_helper = None -> add_loop n req qs ss st w = Some (RET_OK, st', w') ->
  exists queue_id store_id st1 w1, RawAdd (set_selected req queue_id store_id) st1 w1 = (RET_OK, st', w').
Proof.
  intros Hb. revert req qs ss st w. induction n as [|n IH]; intros req qs ss st w Ha; simpl in Ha;
    (destruct (QueueSelector.GetQueueID crc32 qs w) as [[[r1 oq] qs1] w1];
     destruct (is_ok r1) eqn:E1; simpl in Ha; [|simplify_eq; done];
     apply bind_Some in Ha as (q & -> & Ha); apply bind_Some in Ha as ([[[[r2 os] ss1] rs] w2] & _ & Ha);
     destruct (is_ok r2) eqn:E2; simpl in Ha; [|simplify_eq; done];
     apply bind_Some in Ha as (s & -> & Ha); rewrite Hb in Ha; simpl in Ha;
     destruct (RawAdd (set_selected req q s) (mk rs (addr_cache_ st)) w2) as [[r3 st3] w3] eqn:Er;
     destruct (finished r3); simplify_eq; try (by eexists _, _, _, _; exact Er)).
  exact (IH _ _ _ _ _ Ha).
Qed.

Lemma SelectAndAdd_ok req st w st' w' :
  batch_helper = None -> ar_items req <> [] -> SelectAndAdd req st w = Some (RET_OK, st', w') ->
  exists queue_id store_id w1, accepted (set_selected req queue_id store_id) w1 w'.
Proof.
  intros Hb Hne. unfold SelectAndAdd. destruct (ar_items req) as [|item items] eqn:Ei; [done|].
  destruct (GetTopicConfigByTopicID (ar_topic_id req)) as [rt [c|]] eqn:Et.
  2: { pose proof (GetTopicConfig_found (ar_topic_id req)) as Hf. rewrite Et in Hf. intros; destruct rt; simplify_eq; done. }
  destruct rt; try (intros; by simplify_eq).
  intros (q & s & st1 & w1 & Hr)%add_loop_ok; [|done]. exists q, s, w1. eapply RawAdd_ok; [|exact Hr]. simpl. by rewrite Ei.
Qed.

(** A single item: no request, one request, or a refusal. *)
Lemma MakeAddRequests_single topic_id c item reqs :
  GetTopicConfigByTopicID topic_id = (RET_OK, Some c) ->
  AddRequests.MakeAddRequests ByteSize topic_id [Some item] None = (RET_OK, reqs) ->
  (reqs = [] /\ forall id, AddRequests.GetQueueInfoID c item <> (RET_OK, Some id)) \/
  (reqs = [AddRequests.new_request topic_id [item]] /\ exists id, AddRequests.GetQueueInfoID c item = (RET_OK, Some id)).
Proof.
  intros Hc. unfold AddRequests.MakeAddRequests. rewrite Hc. cbn [AddRequests.new_items_of omap list_omap fmap list_fmap default foldl].
  unfold AddRequests.group_item.
  destruct (AddRequests.GetQueueInfoID c item) as [r o] eqn:Er.
  assert (Hnone : (r, o) <> (RET_OK, o) \/ o = None -> forall id, (r, o) <> (RET_OK, Some id)).
  { intros [H|H] id E; simplify_eq. }
  assert (Hskip : (RET_OK, []) = (RET_OK, reqs) -> ((r, o) <> (RET_OK, o) \/ o = None) ->
    (reqs = [] /\ forall id, (r, o) <> (RET_OK, Some id)) \/
    (reqs = [AddRequests.new_request topic_id [item]] /\ exists id, (r, o) = (RET_OK, Some id))).
  { intros [= <-] H. left. split; [done|]. by apply Hnone. }
  destruct r; try (intros Hm; apply Hskip; [exact Hm|left; congruence]).
  destruct o as [id|]; [|intros Hm; apply Hskip; [exact Hm|by right]].
  rewrite lookup_empty. simpl. rewrite map_items_singleton. simpl.
  destruct (_ || _); intros Hm; simplify_eq. right. split; [done|]. by exists id.
Qed.

(** C15: An item that [Enqueue] accepts is added.  Without a batch helper, when
    [Enqueue] returns RET_OK, then one request with exactly the item made from
    the arguments was accepted by the last remote call that was made, or the
    selected queue drops all items; or the pub has no queue info for a new
    item, and nothing was done. *)
Theorem Enqueue_adds topic_id uin handle_id buffer pub_id ids client_id st w st' w' :
  batch_helper = None ->
  Enqueue topic_id uin handle_id buffer pub_id ids client_id st w = Some (RET_OK, st', w') ->
  exists c pub mask now w0,
    GetTopicConfigByTopicID topic_id = (RET_OK, Some c) /\ TopicConfig.IsValidPubID c pub = true /\
    (pub_id <> -1 -> pub = pub_id) /\ GetTimestampMS w = (now, w0) /\
    AddRequests.ConsumerGroupIDs2Mask ids = Some mask /\
    let item := make_item topic_id uin handle_id buffer pub mask now client_id in
    ((forall id, AddRequests.GetQueueInfoID c item <> (RET_OK, Some id)) /\ w' = w0) \/
    exists queue_id store_id w1, accepted (mkAddRequest topic_id store_id queue_id [item]) w1 w'.
Proof.
  intros Hb. unfold Enqueue. destruct (GetTopicConfigByTopicID topic_id) as [rt [c|]] eqn:Et.
  2: { pose proof (GetTopicConfig_found topic_id) as Hf. rewrite Et in Hf. intros; destruct rt; simplify_eq; done. }
  destruct rt; try (intros; by simplify_eq).
  set (pub := if pub_id =? -1 then _ else pub_id). destruct ((pub =? -1) || _) eqn:Epub; [intros; by simplify_eq|].
  destruct (GetTimestampMS w) as [now w0]. intros (mask & Hmask & He)%bind_Some.
  set (item := make_item topic_id uin handle_id buffer pub mask now client_id) in *.
  exists c, pub, mask, now, w0. simpl_bool. split_and!; [done..| |done|done|].
  { unfold pub. intros. by rewrite (proj2 (Z.eqb_neq _ _)) by done. }
  simpl. destruct (AddRequests.MakeAddRequests ByteSize topic_id [Some item] None) as [rm reqs] eqn:Em.
  destruct rm; simplify_eq. destruct (MakeAddRequests_single _ _ _ _ Et Em) as [[-> Hno]|[-> _]]; simpl in He.
  - left. simplify_eq. by split.
  - right. apply bind_Some in He as ([[r st1] w1] & Hs & He). destruct (is_ok r) eqn:Er; simpl in He; [|by simplify_eq].
    apply is_ok_true in Er as ->. simplify_eq. by apply SelectAndAdd_ok in Hs.
Qed.
End producer.
End Producer.
