(* ===== verification/BatchHelper.v ===== *)
(** * Batching the requests of a producer

    src/phxqueue/producer/batchhelper.cpp: the threads of a producer put their
    requests for the same queue together; the batch is sent by the thread whose
    request makes it ready or, after a delay, by a routine of the daemon
    thread, and every thread gets the code of the batch its request was in.

    The data of a batch are guarded by a mutex, so adding a request and taking
    a batch are atomic.  The threads are the step relation [step]: they submit,
    the daemon dispatches, and batches that were taken are processed, in any
    order.  The generated [ByteSize] of a request is an argument. *)

From S2P Require Import Prelude RetCode TopicConfig StoreConfig Node StoreMeta SyncCtrl BaseMgr.

#[local] Set Default Proof Using "Type".

Module BatchHelper.

(** A request and who waits for it. *)
Record Task := mkTask { task_id : nat; task_req : AddRequest }.

Record BatchTask := mkBatch {
  tasks : list Task;
  nbyte : Z;
  nitems : Z;
  start_timestamp_ms : Z;
  items_byte_size_limit : Z;
  batch_limit : Z;
  producer_batch_delay_time_ms : Z;
}.

(** [tuple<topic_id, store_id, queue_id>]. *)
Definition key : Type := Z * Z * Z.

Definition batch_key (req : AddRequest) : key := (ar_topic_id req, ar_store_id req, ar_queue_id req).

Section batch.
Context `{GC : GlobalConfig} (ByteSize : AddRequest -> Z).

Definition Init (topic_id : Z) : BatchTask :=
  match GetTopicConfigByTopicID topic_id with
  | (RET_OK, Some topic_config) =>
      let t := TopicConfig.topic (TopicConfig.proto topic_config) in
      mkBatch [] 0 0 0 (to_u32 (TopicConfig.items_byte_size_limit t)) (to_u32 (TopicConfig.batch_limit t))
        (to_u32 (TopicConfig.producer_batch_delay_time_ms t))
  | _ => mkBatch [] 0 0 0 0 0 0
  end.

(** The counters are [uint32_t]. *)
Definition AddTask (now : Z) (b : BatchTask) (task : Task) : BatchTask :=
  mkBatch (tasks b ++ [task]) (to_u32 (nbyte b + ByteSize (task_req task)))
    (to_u32 (nitems b + Z.of_nat (length (ar_items (task_req task)))))
    (if start_timestamp_ms b =? 0 then now else start_timestamp_ms b)
    (items_byte_size_limit b) (batch_limit b) (producer_batch_delay_time_ms b).

(** Ready, and when it will be if it is not. *)
Definition Ready (now : Z) (b : BatchTask) : bool * Z :=
  if (nitems b =? 0) || (start_timestamp_ms b =? 0) then (false, 0) else
  if (items_byte_size_limit b <=? to_u32 (nbyte b * 2)) || (batch_limit b <=? to_u32 (nitems b * 2)) ||
     (start_timestamp_ms b +u producer_batch_delay_time_ms b <=? now)
  then (true, 0) else (false, start_timestamp_ms b +u producer_batch_delay_time_ms b).

(** The request that [Process] sends. *)
Definition batch_req (ts : list Task) : AddRequest :=
  foldl (fun req task =>
    match ar_items req with
    | [] => task_req task
    | _ => mkAddRequest (ar_topic_id req) (ar_store_id req) (ar_queue_id req) (ar_items req ++ ar_items (task_req task))
    end) (mkAddRequest 0 0 0 []) ts.

(** The critical section of [BatchRawAdd]: the batch that is sent by the
    calling thread, if its request makes it ready. *)
Definition submit (now now' : Z) (m : gmap key BatchTask) (task : Task) : gmap key BatchTask * option BatchTask :=
  let k := batch_key (task_req task) in
  let b := AddTask now (default (Init (ar_topic_id (task_req task))) (m !! k)) task in
  if (Ready now' b).1 then (delete k m, Some b) else (<[k := b]> m, None).

(** [DispatchBatchTask] over the batches in the order of their keys, with
    [idle] routines: the keys it hands out and [next_dispatch_timestamp_ms].
    [clock] gives the readings of the clock. *)
Fixpoint scan (clock : nat -> Z) (idle : nat) (next : Z) (entries : list (key * BatchTask)) : list key * Z :=
  match entries with
  | [] => ([], next)
  | (k, b) :: entries =>
      let '(ready, ready_timestamp_ms) := Ready (clock 0%nat) b in
      let clock := fun i => clock (S i) in
      if ready : bool then
        match idle with
        | O => scan clock O next entries
        | S idle => let '(taken, next) := scan clock idle next entries in (k :: taken, next)
        end
      else scan clock idle
             (if (0 <? ready_timestamp_ms) && ((next =? 0) || (ready_timestamp_ms <? next)) then ready_timestamp_ms
              else next) entries
  end.

Definition DispatchBatchTask (now next_dispatch_timestamp_ms : Z) (clock : nat -> Z) (idle : nat)
    (entries : list (key * BatchTask)) : list key * Z :=
  if negb (next_dispatch_timestamp_ms =? 0) && (now <? next_dispatch_timestamp_ms)
  then ([], next_dispatch_timestamp_ms) else scan clock idle 0 entries.

(** ** The threads *)

Record state := mkState {
  batch_infos : gmap key BatchTask;
  in_process : list BatchTask;           (* taken, [RawAdd] not finished *)
  processed : list (list Task * RetCode); (* sent, with the code of [RawAdd] *)
  submitted : list Task;
}.

Definition start : state := mkState ∅ [] [] [].

Inductive step : state -> state -> Prop :=
| step_submit s task now now' m taken :
    task_id task ∉ task_id <$> submitted s -> ar_items (task_req task) <> [] ->
    submit now now' (batch_infos s) task = (m, taken) ->
    step s (mkState m (option_list taken ++ in_process s) (processed s) (task :: submitted s))
| step_dispatch s now next clock idle entries taken next' :
    entries ≡ₚ map_to_list (batch_infos s) ->
    DispatchBatchTask now next clock idle entries = (taken, next') ->
    step s (mkState (foldr delete (batch_infos s) taken)
              (omap (fun k => batch_infos s !! k) taken ++ in_process s) (processed s) (submitted s))
| step_process s b l1 l2 retcode :
    in_process s = l1 ++ b :: l2 ->
    step s (mkState (batch_infos s) (l1 ++ l2) ((tasks b, retcode) :: processed s) (submitted s)).

Inductive reachable : state -> Prop :=
| reachable_start : reachable start
| reachable_step s s' : reachable s -> step s s' -> reachable s'.

(** ** Every request is answered once *)

(** Where the requests are. *)
Definition waiting (m : gmap key BatchTask) : list Task := concat (tasks ∘ snd <$> map_to_list m).
Definition everywhere (s : state) : list Task :=
  waiting (batch_infos s) ++ concat (tasks <$> in_process s) ++ concat ((processed s).*1).

Definition well_keyed (b : BatchTask) : Prop :=
  tasks b <> [] /\ exists k, Forall (fun t => batch_key (task_req t) = k /\ ar_items (task_req t) <> []) (tasks b).

Definition batch_ok (k : key) (b : BatchTask) : Prop :=
  tasks b <> [] /\ Forall (fun t => batch_key (task_req t) = k /\ ar_items (task_req t) <> []) (tasks b).

Record inv (s : state) : Prop := {
  inv_once : everywhere s ≡ₚ submitted s;
  inv_ids : NoDup (task_id <$> submitted s);
  inv_keys : forall k b, batch_infos s !! k = Some b -> batch_ok k b;
  inv_taken : Forall well_keyed (in_process s);
  inv_sent : Forall (fun p => p.1 <> [] /\ exists k, Forall (fun t => batch_key (task_req t) = k /\ ar_items (task_req t) <> []) p.1)
               (processed s);
}.

Lemma waiting_insert m k b : m !! k = None -> waiting (<[k := b]> m) ≡ₚ tasks b ++ waiting m.
Proof. intros Hk. unfold waiting. by rewrite map_to_list_insert. Qed.

Lemma waiting_delete m k b : m !! k = Some b -> waiting m ≡ₚ tasks b ++ waiting (delete k m).
Proof. intros Hk. rewrite <-(insert_delete_id m k b) at 1 by done. apply waiting_insert, lookup_delete_eq. Qed.

Lemma waiting_option m k :
  waiting m ≡ₚ default [] (tasks <$> m !! k) ++ waiting (delete k m).
Proof.
  destruct (m !! k) as [b|] eqn:E; [by apply waiting_delete|]. simpl. by rewrite delete_id.
Qed.

Lemma Init_tasks topic_id : tasks (Init topic_id) = [].
Proof. unfold Init. by repeat case_match. Qed.

(** Submitting puts the task in one place. *)
Lemma submit_waiting now now' m task m' taken :
  submit now now' m task = (m', taken) ->
  waiting m' ++ concat (tasks <$> option_list taken) ≡ₚ task :: waiting m.
Proof.
  unfold submit. set (k := batch_key (task_req task)). intros Hs.
  assert (Ht : tasks (AddTask now (default (Init (ar_topic_id (task_req task))) (m !! k)) task) =
               default [] (tasks <$> m !! k) ++ [task]).
  { simpl. f_equal. destruct (m !! k); simpl; [done|]. apply Init_tasks. }
  rewrite (waiting_option m k). destruct (AddTask _ _ _) as [ts nb ni st l1 l2 l3] eqn:Eb. simpl in Ht.
  destruct (Ready now' _).1; simplify_eq.
  - simpl. rewrite app_nil_r. solve_Permutation.
  - simpl. rewrite app_nil_r, <-insert_delete_eq, waiting_insert by apply lookup_delete_eq. simpl.
    solve_Permutation.
Qed.

Lemma submit_keys now now' m task m' taken :
  ar_items (task_req task) <> [] -> (forall k b, m !! k = Some b -> batch_ok k b) ->
  submit now now' m task = (m', taken) ->
  (forall k b, m' !! k = Some b -> batch_ok k b) /\ Forall well_keyed (option_list taken).
Proof.
  intros Hne Hm. unfold submit. set (k := batch_key (task_req task)). intros Hs.
  assert (Hb : batch_ok k (AddTask now (default (Init (ar_topic_id (task_req task))) (m !! k)) task)).
  { split; [simpl; by destruct (tasks _)|]. simpl. apply Forall_app. split; [|by repeat constructor].
    destruct (m !! k) as [b|] eqn:E; simpl; [by apply Hm|by rewrite Init_tasks]. }
  destruct (AddTask _ _ _) as [ts nb ni st l1 l2 l3]. destruct (Ready now' _).1; simplify_eq.
  - split; [|simpl; constructor; [|constructor]].
    + intros k' b Hk. apply lookup_delete_Some in Hk as [_ Hk]. by apply Hm.
    + destruct Hb as [H1 H2]. split; [done|by exists k].
  - split; [|by constructor]. intros k' b Hk. apply lookup_insert_Some in Hk as [[<- <-]|[_ Hk]]; [done|by apply Hm].
Qed.

Lemma scan_sublist clock idle next entries : (scan clock idle next entries).1 `sublist_of` entries.*1.
Proof.
  revert clock idle next. induction entries as [|[k b] l IH]; intros clock idle next; simpl; [done|].
  destruct (Ready (clock 0%nat) b) as [[] ts].
  - destruct idle as [|idle]; [apply sublist_cons, IH|]. pose proof (IH (fun i => clock (S i)) idle next) as H.
    destruct (scan _ idle next l) as [taken n]. simpl in *. by apply sublist_skip.
  - apply sublist_cons, IH.
Qed.

Lemma dispatch_sublist now next clock idle entries :
  (DispatchBatchTask now next clock idle entries).1 `sublist_of` entries.*1.
Proof. unfold DispatchBatchTask. destruct (_ && _); [apply sublist_nil_l|apply scan_sublist]. Qed.

Lemma waiting_deletes m ks :
  NoDup ks -> waiting m ≡ₚ concat (tasks <$> omap (fun k => m !! k) ks) ++ waiting (foldr delete m ks).
Proof.
  induction 1 as [|k ks Hk _ IH]; [done|]. rewrite IH. simpl.
  assert (Hl : foldr delete m ks !! k = m !! k) by (by apply lookup_foldr_delete_not_elem_of).
  rewrite (waiting_option (foldr delete m ks) k), Hl. destruct (m !! k); simpl; solve_Permutation.
Qed.

Lemma step_inv s s' : inv s -> step s s' -> inv s'.
Proof.
  intros [Ho Hi Hk Ht Hp] Hs. destruct Hs as [s task now now' m taken Hid Hne Hs|s now next clock idle es taken next' Hes Hd|s b l1 l2 r Hin].
  - pose proof (submit_waiting _ _ _ _ _ _ Hs) as Hw. destruct (submit_keys _ _ _ _ _ _ Hne Hk Hs) as [Hk' Ht'].
    split; simpl; [|by constructor|done|by apply Forall_app|done].
    unfold everywhere in *. simpl. rewrite fmap_app, concat_app.
    transitivity ((waiting m ++ concat (tasks <$> option_list taken)) ++ concat (tasks <$> in_process s) ++ concat (processed s).*1).
    + solve_Permutation.
    + rewrite Hw. simpl. by rewrite Ho.
  - pose proof (dispatch_sublist now next clock idle es) as Hsub. rewrite Hd in Hsub. simpl in Hsub.
    assert (Hnd : NoDup taken).
    { eapply sublist_NoDup; [|exact Hsub]. rewrite Hes. apply NoDup_fst_map_to_list. }
    split; simpl; [|done| | |done].
    + transitivity (everywhere s); [|exact Ho]. unfold everywhere. simpl.
      rewrite fmap_app, concat_app, (waiting_deletes (batch_infos s) _ Hnd). solve_Permutation.
    + intros k b Hb. apply Hk. by eapply lookup_foldr_delete_Some.
    + apply Forall_app. split; [|done]. apply Forall_forall. intros b (k & _ & Hb)%list_elem_of_omap.
      apply Hk in Hb as [H1 H2]. split; [done|by exists k].
  - split; simpl; [|done|done| |].
    + transitivity (everywhere s); [|exact Ho]. unfold everywhere. simpl. rewrite Hin, !fmap_app, !concat_app. simpl. solve_Permutation.
    + rewrite Hin in Ht. apply Forall_app in Ht as [H1 [_ H2]%Forall_cons]. by apply Forall_app.
    + constructor; [|done]. rewrite Hin in Ht. by apply Forall_app in Ht as [_ [[H1 H2] _]%Forall_cons].
Qed.

Lemma reachable_inv s : reachable s -> inv s.
Proof.
  induction 1 as [|s s' _ IH Hs]; [|by eapply step_inv].
  split; simpl; [done|constructor|by intros ? ? ?%lookup_empty_Some|constructor|constructor].
Qed.

(** Every request is answered exactly once.  However the threads
    interleave, each submitted request is at any time in exactly one place: in
    a batch that collects, in a batch that is being sent, or answered with the
    code of a batch that was sent. *)
Theorem batched_exactly_once s :
  reachable s -> everywhere s ≡ₚ submitted s /\ NoDup (task_id <$> everywhere s).
Proof. intros Hr. destruct (reachable_inv s Hr) as [Ho Hi _ _ _]. split; [done|]. by rewrite Ho. Qed.

(** ** What a batch sends *)

Lemma batch_req_items k ts req :
  Forall (fun t => batch_key (task_req t) = k /\ ar_items (task_req t) <> []) ts ->
  ar_items req <> [] -> batch_key req = k ->
  let r := foldl (fun req task =>
    match ar_items req with
    | [] => task_req task
    | _ => mkAddRequest (ar_topic_id req) (ar_store_id req) (ar_queue_id req) (ar_items req ++ ar_items (task_req task))
    end) req ts in
  batch_key r = k /\ ar_items r = ar_items req ++ concat ((fun t => ar_items (task_req t)) <$> ts).
Proof.
  intros Hall. revert req. induction Hall as [|t ts [Hk Hne] _ IH]; intros req Hr Hkr; simpl; [by rewrite app_nil_r|].
  destruct (ar_items req) as [|x l] eqn:E; [done|].
  destruct (IH (mkAddRequest (ar_topic_id req) (ar_store_id req) (ar_queue_id req) ((x :: l) ++ ar_items (task_req t)))) as [H1 H2];
    [done|done|]. split; [exact H1|]. rewrite H2. simpl. by rewrite <-app_assoc.
Qed.

(** A batch is what its requests say.  The request that was sent for an
    answered batch is for the topic, store and queue of each of its requests,
    and its items are theirs one request after the other. *)
Theorem batch_merges s ts retcode :
  reachable s -> (ts, retcode) ∈ processed s ->
  ar_items (batch_req ts) = concat ((fun t => ar_items (task_req t)) <$> ts) /\
  forall t, t ∈ ts -> batch_key (batch_req ts) = batch_key (task_req t).
Proof.
  intros Hr Hin. destruct (reachable_inv s Hr) as [_ _ _ _ Hp].
  destruct (proj1 (Forall_forall _ _) Hp _ Hin) as (Hne & k & Hall). simpl in *.
  destruct ts as [|t ts]; [done|]. apply Forall_cons in Hall as [[Hk Hi] Hall]. unfold batch_req. simpl.
  destruct (batch_req_items k ts (task_req t) Hall Hi Hk) as [H1 H2]. split; [exact H2|].
  intros t' [->|Ht']%elem_of_cons; [congruence|]. destruct (proj1 (Forall_forall _ _) Hall _ Ht'). congruence.
Qed.

(** ** When the daemon looks again *)

Lemma scan_next clock idle next entries k b :
  (forall i, clock i <= clock (S i)) -> 0 <= next ->
  let res := scan clock idle next entries in
  (next <> 0 -> 0 < res.2 <= next) /\ 0 <= res.2 /\
  ((k, b) ∈ entries -> (forall i, (Ready (clock i) b).1 = false) -> 0 < (Ready (clock 0%nat) b).2 ->
   0 < res.2 <= (Ready (clock 0%nat) b).2).
Proof.
  revert clock idle next. induction entries as [|[k' b'] l IH]; intros clock idle next Hc Hn.
  { simpl. split_and!; [lia|done|by intros ?%elem_of_nil]. }
  simpl. destruct (Ready (clock 0%nat) b') as [rdy ts] eqn:Er.
  assert (Hc' : forall i, clock (S i) <= clock (S (S i))) by auto.
  assert (Hts : forall i, (Ready (clock i) b).1 = false -> (Ready (clock i) b).2 = (Ready (clock 0%nat) b).2 \/ (Ready (clock 0%nat) b).1 = true).
  { intros i. unfold Ready. destruct (_ || _); [by left|].
    destruct (_ || _ || (_ <=? clock i)); [done|]. destruct (_ || _ || _); [by right|by left]. }
  assert (Htail : forall idle0 next0, 0 <= next0 ->
    let res := scan (fun i => clock (S i)) idle0 next0 l in
    (next0 <> 0 -> 0 < res.2 <= next0) /\ 0 <= res.2 /\
    ((k, b) ∈ l -> (forall i, (Ready (clock i) b).1 = false) -> 0 < (Ready (clock 0%nat) b).2 ->
     0 < res.2 <= (Ready (clock 0%nat) b).2)).
  { intros idle0 next0 Hn0. destruct (IH (fun i => clock (S i)) idle0 next0 Hc' Hn0) as (H1 & H2 & H3).
    split_and!; [done..|]. intros Hin Hnr Hpos. pose proof (Hnr 0%nat) as Hn0r.
    destruct (Hts 1%nat (Hnr 1%nat)) as [E|E]; [|congruence]. rewrite <-E in *. apply H3; [done|auto|done]. }
  destruct rdy.
  - assert (Hskip : (k, b) ∈ (k', b') :: l -> (forall i, (Ready (clock i) b).1 = false) -> (k, b) ∈ l).
    { intros [[= -> ->]|?]%elem_of_cons Hnr; [|done]. specialize (Hnr 0%nat). by rewrite Er in Hnr. }
    destruct idle as [|idle].
    + destruct (Htail 0%nat next Hn) as (H1 & H2 & H3). split_and!; [done..|]. auto.
    + destruct (Htail idle next Hn) as (H1 & H2 & H3). destruct (scan _ idle next l) as [tk n]. simpl in *.
      split_and!; [done..|]. auto.
  - set (next1 := if (0 <? ts) && ((next =? 0) || (ts <? next)) then ts else next).
    assert (Hn1 : 0 <= next1 /\ (next <> 0 -> 0 < next1 <= next) /\ (0 < ts -> 0 < next1 <= ts)).
    { unfold next1. destruct (Z.ltb_spec 0 ts), (Z.eqb_spec next 0), (Z.ltb_spec ts next); simpl; lia. }
    destruct (Htail idle next1 ltac:(lia)) as (H1 & H2 & H3).
    split_and!; [intros; lia|done|]. intros [[= -> ->]|Hin]%elem_of_cons Hnr Hpos; [|by apply H3].
    rewrite Er in *. simpl in *. lia.
Qed.

(** The daemon does not oversleep.  After it looked at the batches, the
    time at which it looks again is not later than the time at which any batch
    that it found waiting will be ready; until that time it does nothing. *)
Theorem dispatch_wakes now next clock idle entries taken next' k b :
  (forall i, clock i <= clock (S i)) -> (next = 0 \/ next <= now) ->
  DispatchBatchTask now next clock idle entries = (taken, next') ->
  (k, b) ∈ entries -> (forall i, (Ready (clock i) b).1 = false) -> 0 < (Ready (clock 0%nat) b).2 ->
  0 < next' <= (Ready (clock 0%nat) b).2.
Proof.
  intros Hc Hn Hd Hin Hnr Hpos. unfold DispatchBatchTask in Hd.
  assert (Hgo : negb (next =? 0) && (now <? next) = false) by (destruct Hn; lia). rewrite Hgo in Hd.
  destruct (scan_next clock idle 0 entries k b Hc ltac:(lia)) as (_ & _ & H3). rewrite Hd in H3. simpl in H3. by apply H3.
Qed.
End batch.
End BatchHelper.
