(* ===== verification/Notifier.v ===== *)
(** * Waiting for the answer of a batch

    src/phxqueue/comm/notifierpool.cpp and the [Task] of
    src/phxqueue/producer/batchhelper.cpp.  A thread whose request stays in a
    batch waits on a pipe from a pool that all threads share; whoever sends the
    batch writes its code to the pipe of every task; the thread reads the code
    and gives the pipe back.

    The pipes are queues of codes, [CoWrite] and [CoRead] move one code, and
    [Wait] is a step that is possible when there is one.  The system composes
    these with the threads of BatchHelper.v: a thread takes its pipe in the
    critical section in which its request enters the batch. *)

From S2P Require Import Prelude RetCode TopicConfig StoreConfig Node StoreMeta SyncCtrl BaseMgr BatchHelper.

Module Notifier.

(** The pool, the contents of every pipe made so far and the number of pipes. *)
Record pipes := mkPipes { pool : list nat; content : gmap nat (list RetCode); made : nat }.

(** [NotifierPool::Get]: the front of the queue, or a new pipe. *)
Definition Get (p : pipes) : nat * pipes :=
  match pool p with
  | n :: rest => (n, mkPipes rest (content p) (made p))
  | [] => (made p, mkPipes [] (<[made p := []]> (content p)) (S (made p)))
  end.

Definition Put (n : nat) (p : pipes) : pipes := mkPipes (pool p ++ [n]) (content p) (made p).

Definition Notify (n : nat) (retcode : RetCode) (p : pipes) : pipes :=
  mkPipes (pool p) (alter (fun l => l ++ [retcode]) n (content p)) (made p).

(** [None] while the pipe is empty: the thread waits. *)
Definition Wait (n : nat) (p : pipes) : option (RetCode * pipes) :=
  match content p !! n with
  | Some (retcode :: rest) => Some (retcode, mkPipes (pool p) (<[n := rest]> (content p)) (made p))
  | _ => None
  end.

(** The pipes of the pool are empty and distinct. *)
Record pipes_ok (p : pipes) : Prop := {
  ok_pool : NoDup (pool p);
  ok_empty n : n ∈ pool p -> content p !! n = Some [];
  ok_made n : is_Some (content p !! n) -> (n < made p)%nat;
}.

(** A pipe in use. *)
Definition out (p : pipes) (n : nat) : Prop := (n ∉ pool p) /\ is_Some (content p !! n).

Lemma Get_ok p n p' : pipes_ok p -> Get p = (n, p') ->
  pipes_ok p' /\ out p' n /\ content p' !! n = Some [] /\ ~ out p n /\
  forall m, out p m -> out p' m /\ content p' !! m = content p !! m.
Proof.
  intros [Hp He Hm]. unfold Get. destruct (pool p) as [|k rest] eqn:Epool; intros [= <- <-].
  - assert (Hnew : content p !! made p = None).
    { apply eq_None_not_Some. intros Hs%Hm. lia. }
    split_and!; simpl.
    + split; simpl; [constructor|by intros ? ?%elem_of_nil|]. intros n [l [[<- _]|[_ Hl]]%lookup_insert_Some]; [lia|].
      assert (n < made p)%nat by (apply Hm; by eexists). lia.
    + split; simpl; [apply not_elem_of_nil|by rewrite lookup_insert_eq].
    + by rewrite lookup_insert_eq.
    + intros [_ [l Hl]]. congruence.
    + intros m [_ Hs]. assert (made p <> m) by (intros <-; destruct Hs; congruence). unfold out. simpl.
      rewrite lookup_insert_ne by done. split; [split; [apply not_elem_of_nil|done]|done].
  - apply NoDup_cons in Hp as [Hk Hp]. split_and!; simpl.
    + split; simpl; [done| |done]. intros n Hn. apply He. by right.
    + split; simpl; [done|]. rewrite (He k) by left. by eexists.
    + apply He. by left.
    + intros [Hk' _]. apply Hk'. rewrite Epool. by left.
    + intros m [Hm1 Hm2]. split; [|done]. split; [|done]. simpl. intros ?. apply Hm1. rewrite Epool. by right.
Qed.

(** An emptied pipe goes back. *)
Lemma Put_ok p n : pipes_ok p -> n ∉ pool p -> content p !! n = Some [] -> pipes_ok (Put n p).
Proof.
  intros [Hp He Hm] Hn Hc. split; simpl; [|intros m [?| ->%list_elem_of_singleton]%elem_of_app; auto|done].
  apply NoDup_app. split_and!; [done| |apply NoDup_singleton]. intros m Hm' ->%list_elem_of_singleton. done.
Qed.

End Notifier.

Module BatchWait.
Import BatchHelper.

(** [notifiers]: the [notifier_] of each task, by its identity. *)
Record state := mkState {
  batches : BatchHelper.state;
  pipes : Notifier.pipes;
  notifiers : gmap nat nat;
  answers : list (nat * RetCode);   (* what [Task::Wait] has returned *)
  senders : list nat;               (* tasks whose thread sends the batch itself *)
}.

Definition start : state := mkState BatchHelper.start (Notifier.mkPipes [] ∅ 0) ∅ [] [].

Definition PrepareWait (id : nat) (s : state) : state :=
  match notifiers s !! id with
  | Some _ => s
  | None => let '(n, p) := Notifier.Get (pipes s) in
            mkState (batches s) p (<[id := n]> (notifiers s)) (answers s) (senders s)
  end.

(** [Task::Notify] of a task. *)
Definition notify (notifiers : gmap nat nat) (retcode : RetCode) (p : Notifier.pipes) (id : nat) : Notifier.pipes :=
  match notifiers !! id with
  | Some n => Notifier.Notify n retcode p
  | None => p
  end.

(** The last loop of [BatchTask::Process]. *)
Definition notify_all (notifiers : gmap nat nat) (retcode : RetCode) (ids : list nat) (p : Notifier.pipes) : Notifier.pipes :=
  foldl (notify notifiers retcode) p ids.

(** [Task::Wait]; it fails at once without a notifier. *)
Definition TaskWait (id : nat) (s : state) : option (RetCode * state) :=
  match notifiers s !! id with
  | None => Some (RET_ERR_NOTIFIER_MISS, s)
  | Some n => r ← Notifier.Wait n (pipes s);
              Some (r.1, mkState (batches s) (Notifier.Put n r.2) (delete id (notifiers s)) (answers s) (senders s))
  end.

Section threads.
Context `{GC : GlobalConfig} (ByteSize : AddRequest -> Z).

Definition set_batches (s : state) (b : BatchHelper.state) : state :=
  mkState b (pipes s) (notifiers s) (answers s) (senders s).

Inductive step : state -> state -> Prop :=
| submit_step s task now now' m taken :
    task_id task ∉ task_id <$> submitted (batches s) -> ar_items (task_req task) <> [] ->
    submit ByteSize now now' (batch_infos (batches s)) task = (m, taken) ->
    let b := BatchHelper.mkState m (option_list taken ++ in_process (batches s)) (processed (batches s))
               (task :: submitted (batches s)) in
    step s (match taken with
            | Some _ => mkState b (pipes s) (notifiers s) (answers s) (task_id task :: senders s)
            | None => PrepareWait (task_id task) (set_batches s b)
            end)
| dispatch_step s now next clock idle entries taken next' :
    entries ≡ₚ map_to_list (batch_infos (batches s)) ->
    DispatchBatchTask now next clock idle entries = (taken, next') ->
    step s (set_batches s (BatchHelper.mkState (foldr delete (batch_infos (batches s)) taken)
              (omap (fun k => batch_infos (batches s) !! k) taken ++ in_process (batches s))
              (processed (batches s)) (submitted (batches s))))
| process_step s b l1 l2 retcode :
    in_process (batches s) = l1 ++ b :: l2 ->
    step s (mkState (BatchHelper.mkState (batch_infos (batches s)) (l1 ++ l2) ((tasks b, retcode) :: processed (batches s))
                       (submitted (batches s)))
              (notify_all (notifiers s) retcode (task_id <$> tasks b) (pipes s)) (notifiers s) (answers s) (senders s))
| wait_step s id n retcode s' :
    notifiers s !! id = Some n -> TaskWait id s = Some (retcode, s') ->
    step s (mkState (batches s') (pipes s') (notifiers s') ((id, retcode) :: answers s') (senders s')).

(** Every step is a step of the batches or leaves them alone. *)
Lemma step_batches s s' : step s s' -> BatchHelper.step ByteSize (batches s) (batches s') \/ batches s' = batches s.
Proof.
  intros [s0 task now now' m taken Hid Hne Hs b|s0 now next clock idle es taken next' Hes Hd|s0 b l1 l2 r Hin|s0 id n r s1 Hn Hw].
  - left. assert (E : batches (match taken with
                   | Some _ => mkState b (pipes s0) (notifiers s0) (answers s0) (task_id task :: senders s0)
                   | None => PrepareWait (task_id task) (set_batches s0 b)
                   end) = b).
    { destruct taken; [done|]. unfold PrepareWait. case_match; [done|]. by destruct (Notifier.Get _). }
    rewrite E. by econstructor.
  - left. by econstructor.
  - left. by eapply step_process.
  - right. unfold TaskWait in Hw. rewrite Hn in Hw. apply bind_Some in Hw as (x & _ & [= _ <-]). done.
Qed.

(** ** The codes arrive *)

(** The tasks of the answered batches, with their codes. *)
Definition answered (s : state) (id : nat) (retcode : RetCode) : Prop :=
  exists ts, (ts, retcode) ∈ processed (batches s) /\ id ∈ task_id <$> ts.

Definition open (s : state) (id : nat) : Prop :=
  id ∈ task_id <$> (waiting (batch_infos (batches s)) ++ concat (tasks <$> in_process (batches s))).

(** The pipes of the pool are empty and nobody else's; a waiting task has a
    pipe of its own, which is empty until its batch is answered and then has
    the code of the batch. *)
Record inv (s : state) : Prop := {
  inv_batches : BatchHelper.inv (batches s);
  inv_pipes : Notifier.pipes_ok (pipes s);
  inv_own id id' n : notifiers s !! id = Some n -> notifiers s !! id' = Some n -> id = id';
  inv_out id n : notifiers s !! id = Some n -> Notifier.out (pipes s) n;
  inv_code id n : notifiers s !! id = Some n ->
    (Notifier.content (pipes s) !! n = Some [] /\ open s id) \/
    exists retcode, Notifier.content (pipes s) !! n = Some [retcode] /\ answered s id retcode;
  inv_answers id retcode : (id, retcode) ∈ answers s -> answered s id retcode;
  inv_threads t : t ∈ submitted (batches s) ->
    task_id t ∈ senders s \/ is_Some (notifiers s !! task_id t) \/ task_id t ∈ (answers s).*1;
  inv_known id : is_Some (notifiers s !! id) \/ id ∈ (answers s).*1 \/ id ∈ senders s -> id ∈ task_id <$> submitted (batches s);
}.

Lemma notify_all_pool ns r ids p :
  Notifier.pool (notify_all ns r ids p) = Notifier.pool p /\ Notifier.made (notify_all ns r ids p) = Notifier.made p.
Proof.
  revert p. induction ids as [|id ids IH]; intros p; [done|]. simpl. destruct (IH (notify ns r p id)) as [-> ->].
  unfold notify. by destruct (ns !! id).
Qed.

(** Only the pipes of the tasks named get the code, each once. *)
Lemma notify_all_content ns r ids p :
  (forall id id' n, ns !! id = Some n -> ns !! id' = Some n -> id = id') -> NoDup ids ->
  (forall id n, ns !! id = Some n -> Notifier.content (notify_all ns r ids p) !! n =
     if decide (id ∈ ids) then (fun l => l ++ [r]) <$> Notifier.content p !! n else Notifier.content p !! n) /\
  (forall n, (forall id, ns !! id <> Some n) -> Notifier.content (notify_all ns r ids p) !! n = Notifier.content p !! n).
Proof.
  intros Hinj Hnd. revert p. induction Hnd as [|i ids Hi _ IH]; intros p.
  { split; [|done]. intros id n _. rewrite decide_False; [done|apply not_elem_of_nil]. }
  simpl. destruct (IH (notify ns r p i)) as [H1 H2]. split.
  - intros id n Hn. rewrite (H1 id n Hn). unfold notify. destruct (decide (id = i)) as [->|Hne].
    + rewrite decide_False, decide_True by (done || left). rewrite Hn. cbn [Notifier.Notify Notifier.content].
      by rewrite lookup_alter_eq.
    + assert (Hsame : Notifier.content (notify ns r p i) !! n = Notifier.content p !! n).
      { unfold notify. destruct (ns !! i) as [m|] eqn:Em; [|done]. cbn [Notifier.Notify Notifier.content].
        rewrite lookup_alter_ne; [done|]. intros ->. by apply Hne, (Hinj id i n). }
      unfold notify in Hsame. rewrite Hsame. apply decide_ext. rewrite elem_of_cons. naive_solver.
  - intros n Hn. rewrite (H2 n Hn). unfold notify. destruct (ns !! i) as [m|] eqn:Em; [|done].
    cbn [Notifier.Notify Notifier.content]. rewrite lookup_alter_ne; [done|]. intros ->. by apply (Hn i).
Qed.

(** A request is open or answered, not both. *)
Lemma open_not_answered s id r : BatchHelper.inv (batches s) -> open s id -> answered s id r -> False.
Proof.
  intros [Ho Hi _ _ _] Hopen (ts & Hin & Hid). rewrite <-Ho in Hi. unfold everywhere in Hi.
  rewrite app_assoc, fmap_app in Hi. apply NoDup_app in Hi as (_ & Hd & _). apply (Hd id Hopen).
  apply list_elem_of_fmap in Hid as (t & -> & Ht). apply list_elem_of_fmap_2. apply elem_of_concat.
  exists ts. split; [|done]. by apply (list_elem_of_fmap_2 fst _ (ts, r)).
Qed.

(** One code for a request. *)
Lemma answered_once s id r r' : BatchHelper.inv (batches s) -> answered s id r -> answered s id r' -> r = r'.
Proof.
  intros [Ho Hi _ _ _] (ts & Hin & Hid) (ts' & Hin' & Hid').
  rewrite <-Ho in Hi. unfold everywhere in Hi. rewrite !fmap_app in Hi.
  apply NoDup_app in Hi as (_ & _ & (_ & _ & Hi)%NoDup_app).
  apply list_elem_of_lookup in Hin as [i Hl], Hin' as [j Hl'].
  destruct (decide (i = j)) as [->|Hne]; [congruence|]. exfalso.
  revert Hi i j Hl Hl' Hne. generalize (processed (batches s)). clear -Hid Hid'.
  induction l as [|[t0 r0] l IH]; intros Hi i j Hl Hl' Hne; [done|]. simpl in Hi. rewrite fmap_app in Hi.
  apply NoDup_app in Hi as (_ & Hd & Hi).
  assert (Hout : forall (u : list Task) (v : RetCode) k x, l !! k = Some (u, v) -> x ∈ task_id <$> u -> x ∈ task_id <$> t0 -> False).
  { intros u v k x Hk (t & -> & Ht)%list_elem_of_fmap Hx. apply (Hd _ Hx), list_elem_of_fmap_2, elem_of_concat.
    exists u. split; [|done]. by apply (list_elem_of_fmap_2 fst _ (u, v)), (list_elem_of_lookup_2 _ k). }
  destruct i as [|i], j as [|j]; simpl in Hl, Hl'; [done|..].
  - injection Hl as <- <-. by eapply Hout.
  - injection Hl' as <- <-. by eapply Hout.
  - apply (IH Hi i j); [done..|congruence].
Qed.

Lemma open_perm s s' :
  waiting (batch_infos (batches s)) ++ concat (tasks <$> in_process (batches s)) ≡ₚ
  waiting (batch_infos (batches s')) ++ concat (tasks <$> in_process (batches s')) ->
  forall id, open s id <-> open s' id.
Proof. intros Hp id. unfold open. by rewrite Hp. Qed.

(** The pipes of a state without a step of their own. *)
Lemma inv_move s s' :
  inv s -> BatchHelper.inv (batches s') -> pipes s' = pipes s -> notifiers s' = notifiers s -> answers s' = answers s ->
  senders s' = senders s -> submitted (batches s') = submitted (batches s) ->
  (forall id, open s id -> open s' id) -> (forall id r, answered s id r -> answered s' id r) -> inv s'.
Proof.
  intros [Hb Hp Ho Hx Hc Ha Ht Hk] Hb' Ep En Ea Es Esub Hopen Hans.
  split; rewrite ?Ep, ?En, ?Ea, ?Es, ?Esub; try done.
  - intros id n Hn. destruct (Hc id n Hn) as [[? ?]|(r & ? & ?)]; [left; auto|right; eauto].
  - intros id r Hin. by apply Hans, Ha.
Qed.

(** A new task that waits gets a pipe of its own, an empty one. *)
Lemma prepare_inv s s1 task :
  inv s -> BatchHelper.inv (batches s1) -> pipes s1 = pipes s -> notifiers s1 = notifiers s -> answers s1 = answers s ->
  senders s1 = senders s -> submitted (batches s1) = task :: submitted (batches s) ->
  task_id task ∉ task_id <$> submitted (batches s) ->
  (forall id, id = task_id task \/ open s id -> open s1 id) -> (forall id r, answered s id r -> answered s1 id r) ->
  inv (PrepareWait (task_id task) s1).
Proof.
  intros [Hb Hp Ho Hx Hc Ha Ht Hk] Hb1 Ep En Ea Es Esub Hid Hopen Hans.
  assert (Hno : notifiers s !! task_id task = None).
  { apply eq_None_not_Some. intros Hs. apply Hid, Hk. by left. }
  unfold PrepareWait. rewrite En, Hno, Ep. destruct (Notifier.Get (pipes s)) as [n p] eqn:Eg.
  destruct (Notifier.Get_ok _ _ _ Hp Eg) as (Hp' & Hout & Hempty & Hfree & Hsame). rewrite Ea, Es.
  assert (Hne : forall id m, notifiers s !! id = Some m -> m <> n) by (intros id m Hm ->; by apply Hfree, (Hx id)).
  split; cbn [batches pipes notifiers answers senders]; [done|done| | | | | |].
  - intros id id' m [[<- <-]|[_ H1]]%lookup_insert_Some [[<- E]|[_ H2]]%lookup_insert_Some;
      [done|by destruct (Hne id' n)|by destruct (Hne id m)|by eapply Ho].
  - intros id m [[<- <-]|[_ Hm]]%lookup_insert_Some; [done|]. by apply Hsame, (Hx id).
  - intros id m [[<- <-]|[_ Hm]]%lookup_insert_Some; [left; split; [done|]; apply Hopen; by left|].
    destruct (Hsame m (Hx id m Hm)) as [_ ->]. destruct (Hc id m Hm) as [[? ?]|(r & ? & ?)]; [left|right].
    + split; [done|]. apply (Hopen id). by right.
    + exists r. split; [done|]. by apply (Hans id).
  - intros id r Hin. by apply (Hans id), Ha.
  - intros t. rewrite Esub, elem_of_cons. intros [->|Hin]; [right; left; by rewrite lookup_insert_eq|].
    destruct (Ht t Hin) as [?|[Hs|?]]; auto. right; left. apply lookup_insert_is_Some'. by right.
  - intros id. rewrite Esub, fmap_cons, elem_of_cons, lookup_insert_is_Some'.
    intros [[<-|?]|?]; [by left|right; apply Hk; by left|right; apply Hk; by right].
Qed.

Lemma notify_all_dom ns r ids p n :
  is_Some (Notifier.content (notify_all ns r ids p) !! n) <-> is_Some (Notifier.content p !! n).
Proof.
  revert p. induction ids as [|i ids IH]; intros p; [done|]. simpl. rewrite (IH (notify ns r p i)).
  unfold notify. destruct (ns !! i) as [m|]; [|done]. cbn [Notifier.Notify Notifier.content]. by rewrite lookup_alter_is_Some.
Qed.

(** The open requests are those of a batch in process and the rest. *)
Lemma process_perm s b l1 l2 :
  in_process (batches s) = l1 ++ b :: l2 ->
  waiting (batch_infos (batches s)) ++ concat (tasks <$> in_process (batches s)) ≡ₚ
  tasks b ++ waiting (batch_infos (batches s)) ++ concat (tasks <$> (l1 ++ l2)).
Proof. intros ->. rewrite !fmap_app, !concat_app, fmap_cons, concat_cons. solve_Permutation. Qed.

Lemma in_process_NoDup s b l1 l2 :
  BatchHelper.inv (batches s) -> in_process (batches s) = l1 ++ b :: l2 -> NoDup (task_id <$> tasks b).
Proof.
  intros [Hb1 Hb2 _ _ _] Hin. rewrite <-Hb1 in Hb2. unfold everywhere in Hb2. rewrite app_assoc in Hb2.
  rewrite (process_perm s b l1 l2 Hin), <-app_assoc, fmap_app in Hb2. by apply NoDup_app in Hb2 as (Hb2 & _ & _).
Qed.

(** The tasks of a batch get its code. *)
Lemma process_inv s b l1 l2 r :
  inv s -> in_process (batches s) = l1 ++ b :: l2 ->
  inv (mkState (BatchHelper.mkState (batch_infos (batches s)) (l1 ++ l2) ((tasks b, r) :: processed (batches s))
                  (submitted (batches s)))
         (notify_all (notifiers s) r (task_id <$> tasks b) (pipes s)) (notifiers s) (answers s) (senders s)).
Proof.
  intros Hi Hin. pose proof (step_batches _ _ (process_step s b l1 l2 r Hin)) as Hstep.
  destruct Hi as [Hb [Hp He Hm] Ho Hx Hc Ha Ht Hk]. set (s' := mkState _ _ _ _ _) in *.
  assert (Hb' : BatchHelper.inv (batches s')).
  { destruct Hstep as [Hstep|E]; [by eapply step_inv|by rewrite E]. }
  assert (Hans : forall id r', answered s id r' -> answered s' id r').
  { intros id r' (ts & Hts & Hid). exists ts. split; [by right|done]. }
  assert (Hopen : forall id, open s id <-> id ∈ task_id <$> tasks b \/ open s' id).
  { intros id. unfold open. by rewrite (process_perm s b l1 l2 Hin), fmap_app, elem_of_app. }
  destruct (notify_all_content (notifiers s) r (task_id <$> tasks b) (pipes s) Ho (in_process_NoDup _ _ _ _ Hb Hin)) as [Hn1 Hn2].
  destruct (notify_all_pool (notifiers s) r (task_id <$> tasks b) (pipes s)) as [Epool Emade].
  split; [done| |done| | |by intros ? ? ?%Ha%Hans|done|done].
  - split; simpl; rewrite ?Epool, ?Emade; [done| |by intros n ?%notify_all_dom%Hm].
    intros n Hn. rewrite Hn2; [by apply He|]. intros id Hid. by apply (Hx id n Hid).
  - intros id n Hid. destruct (Hx id n Hid) as [H1 H2]. split; [by simpl; rewrite Epool|by apply notify_all_dom].
  - intros id n Hid. simpl. rewrite (Hn1 id n Hid). case_decide as Hd.
    + right. exists r. destruct (Hc id n Hid) as [[-> _]|(r' & _ & Hr')].
      * split; [done|]. exists (tasks b). split; [by left|done].
      * exfalso. eapply (open_not_answered s id r' Hb); [|done]. apply Hopen. by left.
    + destruct (Hc id n Hid) as [[? [?|?]%Hopen]|(r' & ? & ?)]; [done|by left|right; eauto].
Qed.

(** A thread takes its code and gives the pipe back. *)
Lemma wait_inv s id n r s' :
  inv s -> notifiers s !! id = Some n -> TaskWait id s = Some (r, s') ->
  inv (mkState (batches s') (pipes s') (notifiers s') ((id, r) :: answers s') (senders s')).
Proof.
  intros [Hb Hp Ho Hx Hc Ha Ht Hk] Hn. unfold TaskWait. rewrite Hn.
  intros ([r' p] & Hw & [= -> <-])%bind_Some. cbn [fst snd batches pipes notifiers answers senders] in *.
  unfold Notifier.Wait in Hw. destruct (Hc id n Hn) as [[E _]|(r0 & E & Hans)]; rewrite E in Hw; [done|]. injection Hw as <- <-.
  assert (Hother : forall id' m, delete id (notifiers s) !! id' = Some m -> notifiers s !! id' = Some m /\ m <> n).
  { intros id' m [Hne Hm]%lookup_delete_Some. split; [done|]. intros ->. by apply Hne, (Ho id id' n). }
  destruct (Hx id n Hn) as [Hout _].
  split; cbn [batches pipes notifiers answers senders]; [done| | | | | | |].
  - destruct Hp as [Hp1 Hp2 Hp3]. apply Notifier.Put_ok; simpl; [|done|by rewrite lookup_insert_eq]. split; simpl; [done| |].
    + intros m Hm. rewrite lookup_insert_ne by (intros <-; done). by apply Hp2.
    + intros m [l [[<- _]|[_ Hl]]%lookup_insert_Some]; apply Hp3; by eexists.
  - intros id1 id2 m [H1 _]%Hother [H2 _]%Hother. by eapply Ho.
  - intros id1 m [H1 Hne]%Hother. destruct (Hx id1 m H1) as [H2 H3]. unfold Notifier.out. simpl.
    rewrite not_elem_of_app, not_elem_of_cons, lookup_insert_ne by done. split_and!; try done. apply not_elem_of_nil.
  - intros id1 m [H1 Hne]%Hother. simpl. rewrite lookup_insert_ne by done. exact (Hc id1 m H1).
  - intros id1 r1 [[= -> ->]|Hin]%elem_of_cons; [exact Hans|exact (Ha id1 r1 Hin)].
  - intros t Hin. destruct (Ht t Hin) as [?|[Hs|?]]; [by left| |right; right; by right].
    destruct (decide (task_id t = id)) as [E'|Hne]; [right; right; rewrite E'; by left|right; left].
    by rewrite lookup_delete_ne.
  - intros id1. rewrite fmap_cons, elem_of_cons. intros [[m [H1 _]%Hother]|[[->|?]|?]]; apply Hk; eauto.
Qed.

Lemma step_inv' s s' : inv s -> step s s' -> inv s'.
Proof.
  intros Hi Hs. pose proof (step_batches s s' Hs) as Hb'.
  assert (Hbi : BatchHelper.inv (batches s')).
  { destruct Hb' as [?|E]; [eapply step_inv; [apply Hi|done]|rewrite E; apply Hi]. }
  clear Hb'. destruct Hs as [s task now now' m taken Hid Hne Hsub b|s now next clock idle es taken next' Hes Hd|s b l1 l2 r Hin|s id n r s1 Hn Hw].
  - pose proof (submit_waiting ByteSize _ _ _ _ _ _ Hsub) as Hw.
    assert (Hopen : forall id, id = task_id task \/ open s id <-> open (set_batches s b) id).
    { intros id. unfold open. simpl. rewrite (fmap_app tasks (option_list taken)), concat_app, app_assoc, Hw. simpl. by rewrite elem_of_cons. }
    destruct taken as [bt|].
    + destruct Hi as [Hb Hp Ho Hx Hc Ha Ht Hk]. split; simpl; try done.
      * intros id n Hn. destruct (Hc id n Hn) as [[? ?]|?]; [left|by right]. split; [done|]. apply (Hopen id). by right.
      * intros t [->|Hin]%elem_of_cons; [left; by left|]. destruct (Ht t Hin) as [?|?]; [left; by right|by right].
      * intros id. rewrite !elem_of_cons. intros [?|[?|[->|?]]]; [right; apply Hk; auto..|by left|right; apply Hk; auto].
    + apply (prepare_inv s); try done; [|intros id; apply Hopen].
      unfold PrepareWait in Hbi. simpl in Hbi. case_match; [done|]. by destruct (Notifier.Get _).
  - apply (inv_move s); try done. apply open_perm. simpl.
    pose proof (dispatch_sublist now next clock idle es) as Hsubl. rewrite Hd in Hsubl. simpl in Hsubl.
    rewrite (fmap_app tasks), concat_app, (waiting_deletes (batch_infos (batches s)) taken); [solve_Permutation|].
    eapply sublist_NoDup; [|exact Hsubl]. rewrite Hes. apply NoDup_fst_map_to_list.
  - by apply process_inv.
  - by eapply wait_inv.
Qed.

(** Nobody is answered twice: a task whose thread has an answer, or sends the
    batch itself, has no pipe. *)
Definition alone (s : state) : Prop :=
  NoDup ((answers s).*1 ++ senders s) /\ forall id, id ∈ (answers s).*1 ++ senders s -> notifiers s !! id = None.

Lemma step_alone s s' : inv s -> alone s -> step s s' -> alone s'.
Proof.
  intros [_ _ _ _ _ _ _ Hk] [Hnd Hno] Hs.
  destruct Hs as [s task now now' m taken Hid Hne Hsub b|s now next clock idle es taken next' Hes Hd|s b l1 l2 r Hin|s id n r s1 Hn Hw];
    [|done|done|].
  - assert (Hnew : notifiers s !! task_id task = None /\ task_id task ∉ (answers s).*1 ++ senders s).
    { split; [apply eq_None_not_Some|rewrite elem_of_app]; intros ?; apply Hid, Hk; auto. }
    destruct Hnew as [Hnew Hout], taken as [bt|].
    + split; simpl; [by rewrite <-Permutation_middle, NoDup_cons|].
      intros id. rewrite elem_of_app, elem_of_cons. intros [?|[->|?]]; [apply Hno, elem_of_app; auto|done|apply Hno, elem_of_app; auto].
    + unfold PrepareWait. simpl. rewrite Hnew. destruct (Notifier.Get (pipes s)) as [n p].
      split; simpl; [done|]. intros id Hin. rewrite lookup_insert_ne; [by apply Hno|]. by intros <-.
  - unfold TaskWait in Hw. rewrite Hn in Hw. apply bind_Some in Hw as (x & _ & [= _ <-]). split; simpl.
    + apply NoDup_cons. split; [|done]. intros Hin%Hno. congruence.
    + intros id1 [->|Hin]%elem_of_cons; [apply lookup_delete_eq|]. apply lookup_delete_None. right. by apply Hno.
Qed.

Inductive reachable : state -> Prop :=
| reachable_start : reachable start
| reachable_step s s' : reachable s -> step s s' -> reachable s'.

Lemma reachable_both s : reachable s -> inv s /\ alone s.
Proof.
  induction 1 as [|s s' _ [IH1 IH2] Hs]; [|split; [by eapply step_inv'|by eapply step_alone]].
  split; [|split; [constructor|by intros ? ?%elem_of_nil]].
  split; simpl; try done.
  - apply (BatchHelper.reachable_inv ByteSize). constructor.
  - split; simpl; [constructor|by intros ? ?%elem_of_nil|]. by intros n [? ?%lookup_empty_Some].
  - by intros ? ? ?%elem_of_nil.
  - by intros ? ?%elem_of_nil.
  - by intros id [[? ?%lookup_empty_Some]|[?%elem_of_nil|?%elem_of_nil]].
Qed.

(** C14: Every waiting thread gets the code of its batch, once.  However the
    threads interleave and however the pipes of the pool are used again: a code
    that a thread has taken from its pipe is the code with which the batch of
    its request was sent; no thread takes two; a thread that submitted a request sends the batch
    itself, waits, or has its code; and as soon as the batch of a waiting
    thread is answered, the thread can go on, with that code. *)
Theorem batch_answered s :
  reachable s ->
  (forall id retcode, (id, retcode) ∈ answers s -> answered s id retcode) /\
  NoDup (answers s).*1 /\
  (forall t, t ∈ submitted (batches s) ->
     task_id t ∈ senders s \/ is_Some (notifiers s !! task_id t) \/ task_id t ∈ (answers s).*1) /\
  (forall id n retcode, notifiers s !! id = Some n -> answered s id retcode ->
     exists s', TaskWait id s = Some (retcode, s') /\
       step s (mkState (batches s') (pipes s') (notifiers s') ((id, retcode) :: answers s') (senders s'))).
Proof.
  intros [[Hb _ _ _ Hc Ha Ht _] [Hnd _]]%reachable_both. split_and!; [done|by apply NoDup_app in Hnd as (? & _)|done|].
  intros id n r Hn Hans. destruct (Hc id n Hn) as [[_ Hopen]|(r' & E & Hans')].
  { by destruct (open_not_answered s id r). }
  assert (Hw : exists s', TaskWait id s = Some (r', s')).
  { unfold TaskWait, Notifier.Wait. rewrite Hn, E. by eexists. }
  destruct Hw as [s' Hw]. assert (r' = r) as -> by (by eapply answered_once).
  exists s'. split; [done|by eapply wait_step].
Qed.
End threads.
End BatchWait.
