(* ===== verification/Scheduler.v ===== *)
(** * The scheduler: dynamic weights of the consumers

    [SchedulerMgr] of src/phxqueue/scheduler/schedulermgr.cpp.  Consumers
    report their load ([GetAddrScale]) and get the weights of all consumers
    back; the load-balance thread ([LoadBalance]) reloads the configuration,
    notices which consumers live, and adjusts the weights to the loads.

    A topic's data are guarded by reader-writer locks; [LoadBalance] and the
    [GetAddrScale]s are atomic here.  Clock readings are arguments, floating
    point is [Float]; [None] where a conversion to [int] or an iterator is
    undefined. *)

From Stdlib Require Import Floats.SpecFloat.
From S2P Require Import Prelude Float RetCode TopicConfig StoreConfig Node ConsumerConfig HeartBeatLock HeartBeatSync.

#[local] Set Default Proof Using "Type".

Inductive Mode := Static | Dynamic.

(** ** [MeanVector]: the last loads *)

Module MeanVector.

Record t := mk { cursor_ : Z; vector_ : list Z }.

Definition new (size : nat) : t := mk 0 (replicate size 0).

Definition Update (v : t) (value : Z) : t :=
  match vector_ v with
  | [] => v
  | l => mk (to_u32 (cursor_ v + 1)) (<[Z.to_nat (cursor_ v mod Z.of_nat (length l)) := value]> l)
  end.

Definition sum (l : list Z) : Z := foldr Z.add 0 l.

Definition Mean (v : t) : spec_float :=
  let size := Z.of_nat (length (vector_ v)) in
  if (size <=? 0) || (cursor_ v <=? 0) then of_int float32 0 else
  let all := if cursor_ v <? size then cursor_ v else size in
  fdiv float32 (of_int float32 (sum (take (Z.to_nat all) (vector_ v)))) (of_int float32 all).

Definition Reset (v : t) : t := mk 0 (vector_ v).
End MeanVector.

Module SchedulerMgr.

Record ConsumerInfo := mkInfo {
  weight : Z;
  loads : MeanVector.t;
  sticky_load : Z;
  init_weight : Z;
  live : bool;
  last_active_time : Z;
}.

Definition new_info : ConsumerInfo := mkInfo 0 (MeanVector.new 6) 0 0 false 0.

Definition Reset (i : ConsumerInfo) : ConsumerInfo :=
  mkInfo 0 (MeanVector.Reset (loads i)) 0 (init_weight i) (live i) (last_active_time i).

Definition set_weight (w : Z) (i : ConsumerInfo) : ConsumerInfo :=
  mkInfo w (loads i) (sticky_load i) (init_weight i) (live i) (last_active_time i).

Definition set_init_weight (w : Z) (i : ConsumerInfo) : ConsumerInfo :=
  mkInfo (weight i) (loads i) (sticky_load i) w (live i) (last_active_time i).

Definition set_live (b : bool) (i : ConsumerInfo) : ConsumerInfo :=
  mkInfo (weight i) (loads i) (sticky_load i) (init_weight i) b (last_active_time i).

Definition set_active (now : Z) (l : MeanVector.t) (sticky : Z) (i : ConsumerInfo) : ConsumerInfo :=
  mkInfo (weight i) l sticky (init_weight i) (live i) now.

Record TopicData := mkTopicData {
  consumer_addr2info_map : gmap Z ConsumerInfo;
  conf_last_mod_time : Z;
  init_time : Z;
}.

Definition set_infos (d : TopicData) (m : gmap Z ConsumerInfo) : TopicData :=
  mkTopicData m (conf_last_mod_time d) (init_time d).

(** [topic_id2lock_map] is the set of topics that have a lock. *)
Record t := mk {
  master_expire_time_ms : Z;
  topic_id2data_map : gmap Z TopicData;
  topic_id2lock_map : gset Z;
}.

Definition set_data (s : t) (m : gmap Z TopicData) : t := mk (master_expire_time_ms s) m (topic_id2lock_map s).

(** [SchedulerOption] and the topic of [InitTopicID]. *)
Record SchedulerOption := mkSchedulerOption {
  so_ip : string;
  so_port : Z;
  so_topic_id : Z;
}.

Section mgr.
Context `{IN : Inet, GC : GlobalConfig, TD : TopicDirectory, CD : ConsumerDirectory} (opt : SchedulerOption).
(* the hook of an application *)
Context (NeedSkipUpdateLoad : GetAddrScaleRequest -> bool).

(** ** The master *)

(** The master that the configuration forces, if any. *)
Definition IsForceMaster : option bool :=
  match GetTopicConfigByTopicID (so_topic_id opt) with
  | (RET_OK, Some topic_config) =>
      let t := TopicConfig.topic (TopicConfig.proto topic_config) in
      if negb (0 =? TopicConfig.scheduler_master_port t) &&
         negb (bool_decide (TopicConfig.scheduler_master_ip t = ""%string)) &&
         negb (bool_decide ("0.0.0.0"%string = TopicConfig.scheduler_master_ip t))
      then Some (bool_decide (so_ip opt = TopicConfig.scheduler_master_ip t) &&
                 (so_port opt =? TopicConfig.scheduler_master_port t))
      else None
  | _ => None
  end.

Definition IsMaster (s : t) (now : Z) : bool :=
  match IsForceMaster with Some master => master | None => now <? master_expire_time_ms s end.

Definition RenewMaster (s : t) (expire_time_ms : Z) : RetCode * t :=
  (RET_OK, mk expire_time_ms (topic_id2data_map s) (topic_id2lock_map s)).

(** ** Reports of the consumers *)

Definition LoadInfo2Load (cpu proc_used_ratio load_use_proc_used_ratio : Z) : option Z :=
  let x := fdiv float64 (of_int float64 proc_used_ratio) (of_int float64 100) in
  trunc (fmul float64 (of_int float64 cpu)
           (fadd float64 (of_int float64 1) (fmul float64 x (of_int float64 load_use_proc_used_ratio)))).

Definition BuildTopicScaleResponse (d : TopicData) : list AddrScale :=
  (fun kv : Z * ConsumerInfo => mkAddrScale (DecodeAddr kv.1) (weight kv.2)) <$> map_items (consumer_addr2info_map d).

Definition update_load (c : TopicConfig.t) (now : Z) (req : GetAddrScaleRequest) (i : ConsumerInfo) : option ConsumerInfo :=
  let t := TopicConfig.topic (TopicConfig.proto c) in
  load ← LoadInfo2Load (gs_cpu req) (gs_proc_used_ratio req) (TopicConfig.scheduler_load_use_proc_used_ratio t);
  let l := MeanVector.Update (loads i) load in
  new_load ← trunc (MeanVector.Mean l);
  Some (set_active now l
          (if (TopicConfig.scheduler_load_sticky t <? Z.abs (new_load - sticky_load i)) || (sticky_load i <=? 0)
           then new_load else sticky_load i) i).

Definition GetAddrScale (s : t) (now : Z) (req : GetAddrScaleRequest) : option (RetCode * list AddrScale * t) :=
  if negb (IsMaster s now) then Some (RET_ERR_NOT_MASTER, [], s) else
  match topic_id2data_map s !! gs_topic_id req with
  | None => Some (RET_ERR_RANGE_TOPIC, [], s)
  | Some topic_data =>
      match GetTopicConfigByTopicID (gs_topic_id req) with
      | (RET_OK, Some topic_config) =>
          if negb (bool_decide (gs_topic_id req ∈ topic_id2lock_map s)) then Some (RET_ERR_LOGIC, [], s) else
          let addr := EncodeAddr (gs_addr req) in
          match consumer_addr2info_map topic_data !! addr with
          | None => Some (RET_ERR_RANGE_CONSUMER, [], s)
          | Some consumer_info =>
              consumer_info ← (if NeedSkipUpdateLoad req then Some consumer_info
                               else update_load topic_config now req consumer_info);
              let topic_data := set_infos topic_data (<[addr := consumer_info]> (consumer_addr2info_map topic_data)) in
              Some (RET_OK, BuildTopicScaleResponse topic_data,
                    set_data s (<[gs_topic_id req := topic_data]> (topic_id2data_map s)))
          end
      | (ret, _) => Some (ret, [], s)
      end
  end.

(** ** Reloading the configuration *)

(** The topics that are gone are erased in a loop over the map: after an
    [erase] the iterator is incremented once more, which skips a topic, or is
    undefined at the end. *)
Fixpoint remove_topics (topic_ids locks : gset Z) (it : list Z) (m : gmap Z TopicData) : option (gmap Z TopicData) :=
  match it with
  | [] => Some m
  | topic_id :: it =>
      if bool_decide (topic_id ∈ topic_ids) || negb (bool_decide (topic_id ∈ locks))
      then remove_topics topic_ids locks it m
      else match it with
           | [] => None
           | _ :: it => remove_topics topic_ids locks it (delete topic_id m)
           end
  end.

Definition add_topic (now : Z) (s : t) (topic_id : Z) : t :=
  match topic_id2data_map s !! topic_id with
  | Some _ => s
  | None => mk (master_expire_time_ms s) (<[topic_id := mkTopicData ∅ 0 now]> (topic_id2data_map s))
              ({[topic_id]} ∪ topic_id2lock_map s)
  end.

(** [now] is when the data of a new topic are constructed. *)
Definition ReloadTopicConfig (now : Z) (s : t) : option (RetCode * t) :=
  match GetAllTopicID with
  | (RET_OK, topic_ids) =>
      let modified := negb (Nat.eqb (size (topic_id2data_map s)) (size topic_ids)) ||
        existsb (fun topic_id => bool_decide (topic_id2data_map s !! topic_id = None)) (set_items topic_ids) in
      if negb modified then Some (RET_OK, s) else
      let s := foldl (add_topic now) s (set_items topic_ids) in
      if Nat.eqb (size topic_ids) (size (topic_id2data_map s)) then Some (RET_OK, s) else
      m ← remove_topics topic_ids (topic_id2lock_map s) (set_items (dom (topic_id2data_map s))) (topic_id2data_map s);
      Some (RET_OK, set_data s m)
  | (ret, _) => Some (ret, s)
  end.

Definition GetConsumerConfigDetail (consumer_config : ConsumerConfig.t) : RetCode * gmap Z Z :=
  let '(ret, consumers) := ConsumerConfig.GetAllConsumer consumer_config [] in
  if is_ok ret
  then (ret, foldl (fun m consumer => emplace (EncodeAddr (consumer_addr consumer)) (ConsumerConfig.consumer_scale consumer) m)
               ∅ consumers)
  else (ret, ∅).

(** A consumer that is new starts with its configured weight. *)
Definition reload_infos (scales : gmap Z Z) (infos : gmap Z ConsumerInfo) : gmap Z ConsumerInfo :=
  let modify := negb (Nat.eqb (size infos) (size scales)) ||
    existsb (fun kv : Z * Z => bool_decide (infos !! kv.1 = None)) (map_items scales) in
  let infos :=
    if modify then
      let infos := foldl (fun m (kv : Z * Z) =>
        match m !! kv.1 with
        | Some _ => m
        | None => <[kv.1 := set_weight kv.2 (set_init_weight kv.2 new_info)]> m
        end) infos (map_items scales) in
      if Nat.eqb (size scales) (size infos) then infos
      else filter (fun kv : Z * ConsumerInfo => is_Some (scales !! kv.1)) infos
    else infos in
  map_imap (fun addr i => Some (set_init_weight (default 0 (scales !! addr)) i)) infos.

Definition ReloadConsumerConfig (topic_id : Z) (d : TopicData) : RetCode * bool * TopicData :=
  let conf_time := GetLastModTime topic_id in
  if conf_time =? conf_last_mod_time d then (RET_OK, false, d) else
  match GetConsumerConfig topic_id with
  | (RET_OK, Some consumer_config) =>
      let '(_, scales) := GetConsumerConfigDetail consumer_config in
      (RET_OK, true, mkTopicData (reload_infos scales (consumer_addr2info_map d)) conf_time (init_time d))
  | (ret, _) => (ret, false, d)
  end.

(** ** Balancing a topic *)

(** A sum of a [uint64_t] and an [int] expression. *)
Definition GetMode (topic_id : Z) (d : TopicData) (now : Z) : Mode :=
  match GetTopicConfigByTopicID topic_id with
  | (RET_OK, Some topic_config) =>
      let t := TopicConfig.topic (TopicConfig.proto topic_config) in
      if now <=? init_time d +u 3 * TopicConfig.scheduler_get_scale_interval_s t * 1000 then Static else Dynamic
  | _ => Static
  end.

Definition infos_of (d : TopicData) : list ConsumerInfo := snd <$> map_items (consumer_addr2info_map d).

(** [sum_load / nr_live] is an integer division. *)
Definition GetMeanLoad (d : TopicData) : RetCode * spec_float :=
  let lives := filter (fun i => live i = true) (infos_of d) in
  let nr_live := Z.of_nat (length lives) in
  let sum_load := MeanVector.sum (sticky_load <$> lives) in
  if nr_live <=? 0 then (RET_NO_LIVE_CONSUMER, of_int float32 0) else
  if sum_load <=? 0 then (RET_ERR_LOGIC, of_int float32 0) else
  (RET_OK, of_int float32 (Z.quot sum_load nr_live)).

(** The consumer reported within the keep time. *)
Definition is_active (c : TopicConfig.t) (now : Z) (i : ConsumerInfo) : bool :=
  now <? last_active_time i +u TopicConfig.scheduler_hash_keep_time_s (TopicConfig.topic (TopicConfig.proto c)) * 1000.

Definition update_live (c : TopicConfig.t) (now : Z) (i : ConsumerInfo) : ConsumerInfo :=
  if live i && negb (is_active c now i) then set_live false (Reset i)
  else if negb (live i) && is_active c now i then set_live true i
  else i.

Definition UpdateLive (topic_id : Z) (d : TopicData) (now : Z) : RetCode * bool * TopicData :=
  match GetTopicConfigByTopicID topic_id with
  | (RET_OK, Some topic_config) =>
      let modified := existsb (fun i => xorb (live i) (is_active topic_config now i)) (infos_of d) in
      (RET_OK, modified, set_infos d (update_live topic_config now <$> consumer_addr2info_map d))
  | (ret, _) => (ret, false, d)
  end.

Definition IsConsumerImbalance (c : TopicConfig.t) (sticky_load : Z) (mean_load : spec_float) : bool :=
  let t := TopicConfig.topic (TopicConfig.proto c) in
  (TopicConfig.scheduler_max_load t <? sticky_load) &&
  SFltb (fdiv float32 (fmul float32 mean_load (of_int float32 (TopicConfig.scheduler_max_mean_load_percent t)))
           (of_int float32 100))
    (of_int float32 sticky_load).

(** [nr_live] is never incremented. *)
Definition CheckImbalance (topic_id : Z) (d : TopicData) (mean_load : spec_float) : RetCode * bool :=
  match GetTopicConfigByTopicID topic_id with
  | (RET_OK, Some topic_config) =>
      let nr_live := 0%nat in
      let nr_balance := length (filter (fun i =>
        live i = true /\ IsConsumerImbalance topic_config (sticky_load i) mean_load = false) (infos_of d)) in
      (RET_OK, Nat.eqb nr_live nr_balance)
  | (ret, _) => (ret, false)
  end.

Definition NextConsumerWeight (c : TopicConfig.t) (dynamic_load : Z) (mean_load : spec_float) (init_weight : Z) : option Z :=
  let t := TopicConfig.topic (TopicConfig.proto c) in
  if dynamic_load <=? 0 then Some 0 else
  new_weight ← trunc (fdiv float32 (fmul float32 (of_int float32 init_weight) mean_load) (of_int float32 dynamic_load));
  let max_weight := Z.quot (init_weight * TopicConfig.scheduler_max_init_weight_percent t) 100 in
  Some (if max_weight <? new_weight then max_weight else new_weight).

(** The weight a consumer should have. *)
Definition preview (c : TopicConfig.t) (mean_load : spec_float) (i : ConsumerInfo) : option Z :=
  if live i then
    if TopicConfig.scheduler_use_init_weight (TopicConfig.topic (TopicConfig.proto c)) =? 0
    then NextConsumerWeight c (sticky_load i) mean_load (init_weight i)
    else Some (init_weight i)
  else Some 0.

Definition preview_map (c : TopicConfig.t) (mean_load : spec_float) (infos : gmap Z ConsumerInfo) : option (gmap Z Z) :=
  foldM (fun m (kv : Z * ConsumerInfo) => w ← preview c mean_load kv.2; Some (emplace kv.1 w m)) ∅ (map_items infos).

Definition sum_diff (infos : gmap Z ConsumerInfo) (previews : gmap Z Z) : Z :=
  MeanVector.sum ((fun kv : Z * ConsumerInfo =>
    match previews !! kv.1 with Some w => Z.abs (weight kv.2 - w) | None => 0 end) <$> map_items infos).

Definition nr_consumer (infos : gmap Z ConsumerInfo) (previews : gmap Z Z) : Z :=
  Z.of_nat (length (filter (fun kv : Z * ConsumerInfo => is_Some (previews !! kv.1)) (map_items infos))).

Definition apply_weights (infos : gmap Z ConsumerInfo) (previews : gmap Z Z) : gmap Z ConsumerInfo :=
  map_imap (fun addr i => Some (match previews !! addr with Some w => set_weight w i | None => i end)) infos.

Definition AdjustScale (topic_id : Z) (d : TopicData) (mean_load : spec_float) (force_apply : bool)
    : option (RetCode * TopicData) :=
  match GetTopicConfigByTopicID topic_id with
  | (RET_OK, Some topic_config) =>
      let infos := consumer_addr2info_map d in
      previews ← preview_map topic_config mean_load infos;
      let apply := force_apply ||
        SFltb (fmul float64 (of_int float64 (nr_consumer infos previews))
                 (of_int float64 (TopicConfig.scheduler_weight_sticky (TopicConfig.topic (TopicConfig.proto topic_config)))))
          (of_int float64 (sum_diff infos previews)) in
      Some (RET_OK, if apply then set_infos d (apply_weights infos previews) else d)
  | (ret, _) => Some (ret, d)
  end.

(** The body of [LoadBalance] for a topic. *)
Definition balance_topic (locks : gset Z) (now topic_id : Z) (d : TopicData) : option TopicData :=
  if negb (bool_decide (topic_id ∈ locks)) then Some d else
  let '(ret, conf_modified, d) := ReloadConsumerConfig topic_id d in
  if negb (is_ok ret) then Some d else
  match GetMode topic_id d now with
  | Static => Some d
  | Dynamic =>
      let '(ret, live_modified, d) := UpdateLive topic_id d now in
      if negb (is_ok ret) then Some d else
      match GetMeanLoad d with
      | (RET_OK, mean_load) =>
          let '(ret, balanced) := CheckImbalance topic_id d mean_load in
          if negb (is_ok ret) then Some d else
          if conf_modified || live_modified || negb balanced then
            r ← AdjustScale topic_id d mean_load (conf_modified || live_modified); Some r.2
          else Some d
      | _ => Some d
      end
  end.

Definition balance_topics (locks : gset Z) (now : Z) (m : gmap Z TopicData) : option (gmap Z TopicData) :=
  foldM (fun m topic_id =>
    match m !! topic_id with
    | Some d => d ← balance_topic locks now topic_id d; Some (<[topic_id := d]> m)
    | None => Some m
    end) m (set_items (dom m)).

Definition LoadBalance (now : Z) (s : t) : option (RetCode * t) :=
  r ← ReloadTopicConfig now s;
  let '(ret, s) := r in
  if negb (is_ok ret) then Some (ret, s) else
  m ← balance_topics (topic_id2lock_map s) now (topic_id2data_map s);
  Some (RET_OK, set_data s m).

Definition Init (now : Z) (s : t) : option (RetCode * t) := LoadBalance now s.

Definition Dispose (s : t) : RetCode * t := (RET_OK, set_data s ∅).

(** [LoadBalanceThread::DoRun], one round: only the master balances. *)
Definition load_balance_round (now : Z) (s : t) : option t :=
  match GetTopicConfigByTopicID (so_topic_id opt) with
  | (RET_OK, Some _) => if negb (IsMaster s now) then Some s else r ← LoadBalance now s; Some r.2
  | _ => Some s
  end.

(** ** Reloading *)

Definition add_infos (scales : list (Z * Z)) (infos : gmap Z ConsumerInfo) : gmap Z ConsumerInfo :=
  foldl (fun m (kv : Z * Z) =>
    match m !! kv.1 with
    | Some _ => m
    | None => <[kv.1 := set_weight kv.2 (set_init_weight kv.2 new_info)]> m
    end) infos scales.

Lemma add_infos_lookup scales infos a :
  NoDup scales.*1 ->
  add_infos scales infos !! a =
  match infos !! a with
  | Some i => Some i
  | None => (fun w => set_weight w (set_init_weight w new_info)) <$> (list_to_map scales : gmap Z Z) !! a
  end.
Proof.
  unfold add_infos. revert infos. induction scales as [|[k w] l IH]; intros infos Hnd; simpl.
  { rewrite lookup_empty. by destruct (infos !! a). }
  apply NoDup_cons in Hnd as [Hk Hnd]. rewrite IH by done. destruct (decide (a = k)) as [->|Hne].
  - rewrite lookup_insert_eq. simpl. destruct (infos !! k) as [i|] eqn:E; [by rewrite E|]. by rewrite lookup_insert_eq.
  - rewrite (lookup_insert_ne (list_to_map l)) by done. destruct (infos !! k); [done|]. by rewrite lookup_insert_ne.
Qed.

Lemma list_to_map_items (m : gmap Z Z) : (list_to_map (map_items m) : gmap Z Z) = m.
Proof.
  apply map_eq. intros k. apply option_eq. intros v.
  rewrite <-elem_of_list_to_map by apply map_items_NoDup. apply elem_of_map_items.
Qed.

Lemma size_dom_eq {A B} (m1 : gmap Z A) (m2 : gmap Z B) : size m1 = size m2 -> dom m1 ⊆ dom m2 -> dom m1 = dom m2.
Proof.
  intros Hs Hd. rewrite <-!size_dom in Hs. apply set_eq. intros x. split; [apply Hd|]. intros Hx.
  destruct (decide (x ∈ dom m1)) as [|Hn]; [done|]. exfalso.
  assert (dom m1 ⊂ dom m2) as Hlt%subset_size by set_solver. lia.
Qed.

(** The consumers that are configured, those that were known with what was
    known of them, the others with their configured weight. *)
Lemma reload_infos_lookup scales infos a :
  reload_infos scales infos !! a =
  (fun w => set_init_weight w (default (set_weight w new_info) (infos !! a))) <$> scales !! a.
Proof.
  unfold reload_infos. fold (add_infos (map_items scales) infos). set (modify := negb _ || _).
  assert (Hadd : forall a, add_infos (map_items scales) infos !! a =
    match infos !! a with Some i => Some i | None => (fun w => set_weight w (set_init_weight w new_info)) <$> scales !! a end).
  { intros b. rewrite add_infos_lookup by apply map_items_NoDup. by rewrite list_to_map_items. }
  rewrite map_lookup_imap. destruct modify eqn:Em.
  - case_match eqn:Esz.
    + apply Nat.eqb_eq in Esz. assert (Hdom : dom scales = dom (add_infos (map_items scales) infos)).
      { apply size_dom_eq; [done|]. intros x [w Hw]%elem_of_dom. apply elem_of_dom. rewrite Hadd, Hw.
        destruct (infos !! x); by eexists. }
      assert (Ha : is_Some (scales !! a) <-> is_Some (add_infos (map_items scales) infos !! a)).
      { by rewrite <-!elem_of_dom, Hdom. }
      rewrite Hadd in *. destruct (scales !! a) as [w|]; simpl in *.
      * by destruct (infos !! a).
      * destruct (infos !! a); simpl in *; [|done]. destruct (proj2 Ha); [by eexists|done].
    + destruct (scales !! a) as [w|] eqn:Es; simpl.
      * assert (E : filter (fun kv : Z * ConsumerInfo => is_Some (scales !! kv.1)) (add_infos (map_items scales) infos) !! a =
                    add_infos (map_items scales) infos !! a).
        { rewrite map_lookup_filter. destruct (add_infos _ _ !! a); simpl; [|done]. rewrite option_guard_True; [done|]. simpl. by rewrite Es. }
        rewrite E, Hadd, Es. by destruct (infos !! a).
      * replace (filter _ _ !! a) with (@None ConsumerInfo); [done|]. symmetry. apply map_lookup_filter_None_2. right.
        intros i _. simpl. rewrite Es. by intros [].
  - unfold modify in Em. apply orb_false_iff in Em as [Esz Hall]. apply negb_false_iff, Nat.eqb_eq in Esz.
    assert (Hd : dom scales ⊆ dom infos).
    { intros x [w Hw]%elem_of_dom. apply elem_of_dom. apply not_eq_None_Some. intros Hx.
      assert (Ht : existsb (fun kv : Z * Z => bool_decide (infos !! kv.1 = None)) (map_items scales) = true); [|congruence].
      apply existsb_exists. exists (x, w). split; [by apply list_elem_of_In, elem_of_map_items|]. by apply bool_decide_eq_true. }
    pose proof (size_dom_eq scales infos (eq_sym Esz) Hd) as Hdom.
    assert (Ha : is_Some (scales !! a) <-> is_Some (infos !! a)) by by rewrite <-!elem_of_dom, Hdom.
    destruct (scales !! a) as [w|] eqn:Es, (infos !! a) as [i|] eqn:Ei; simpl; try done.
    + destruct (proj1 Ha); [by eexists|done].
    + destruct (proj2 Ha); [by eexists|done].
Qed.

(** The configured weights, the first one where an address is given twice. *)
Definition scales_of (c : ConsumerConfig.t) : gmap Z Z := (GetConsumerConfigDetail c).2.

(** The scheduler follows the configuration.  When the configuration changed,
    [ReloadConsumerConfig] leaves exactly the configured consumers, each with
    its configured initial weight; those that were known keep their weight,
    loads and liveness, new ones start with the initial weight. *)
Theorem ReloadConsumerConfig_follows topic_id d c modified d' :
  GetLastModTime topic_id <> conf_last_mod_time d -> GetConsumerConfig topic_id = (RET_OK, Some c) ->
  ReloadConsumerConfig topic_id d = (RET_OK, modified, d') ->
  modified = true /\ conf_last_mod_time d' = GetLastModTime topic_id /\
  forall a, consumer_addr2info_map d' !! a =
    (fun w => match consumer_addr2info_map d !! a with
              | Some i => set_init_weight w i
              | None => mkInfo w (MeanVector.new 6) 0 w false 0
              end) <$> scales_of c !! a.
Proof.
  unfold ReloadConsumerConfig, scales_of. intros Ht -> Hr. rewrite (proj2 (Z.eqb_neq _ _)) in Hr by done.
  destruct (GetConsumerConfigDetail c) as [ret scales]. simplify_eq. split_and!; [done..|]. intros a. cbn [consumer_addr2info_map].
  rewrite reload_infos_lookup. cbn [snd]. destruct (scales !! a), (consumer_addr2info_map d !! a); done.
Qed.

(** ** Weights *)

Lemma elem_of_infos d i : i ∈ infos_of d <-> exists a, consumer_addr2info_map d !! a = Some i.
Proof.
  unfold infos_of. rewrite list_elem_of_fmap. split.
  - intros ([a j] & -> & Hin%elem_of_map_items). by exists a.
  - intros [a Ha]. exists (a, i). split; [done|]. by apply elem_of_map_items.
Qed.

(** [balance] reports the opposite of what is meant.  Since the live consumers
    are not counted, [CheckImbalance] answers "balanced" exactly when no live
    consumer is balanced. *)
Theorem CheckImbalance_inverted topic_id d mean_load c :
  GetTopicConfigByTopicID topic_id = (RET_OK, Some c) ->
  (CheckImbalance topic_id d mean_load).2 = true <->
  forall a i, consumer_addr2info_map d !! a = Some i -> live i = true -> IsConsumerImbalance c (sticky_load i) mean_load = true.
Proof.
  intros Hc. unfold CheckImbalance. rewrite Hc. cbn [snd]. rewrite Nat.eqb_eq. split.
  - intros Hl a i Ha Hlv. destruct (IsConsumerImbalance c (sticky_load i) mean_load) eqn:E; [done|]. exfalso.
    symmetry in Hl. apply length_zero_iff_nil in Hl. eapply filter_nil_not_elem_of; [exact Hl| |apply elem_of_infos; by exists a].
    by split.
  - intros Hall. symmetry. apply length_zero_iff_nil. apply filter_none, Forall_forall.
    intros i [a Ha]%elem_of_infos [Hlv Hb]. by rewrite (Hall a i Ha Hlv) in Hb.
Qed.

Lemma preview_map_fold c mean_load l m m' :
  NoDup l.*1 -> (forall a, a ∈ l.*1 -> m !! a = None) ->
  foldM (fun m (kv : Z * ConsumerInfo) => w ← preview c mean_load kv.2; Some (emplace kv.1 w m)) m l = Some m' ->
  (forall a, a ∉ l.*1 -> m' !! a = m !! a) /\
  (forall a i, (a, i) ∈ l -> exists w, preview c mean_load i = Some w /\ m' !! a = Some w).
Proof.
  revert m. induction l as [|[k i] l IH]; intros m Hnd Hm Hf.
  { injection Hf as <-. split; [done|]. by intros a i ?%elem_of_nil. }
  apply foldM_cons in Hf as (m1 & H1 & H2). simpl in H1. apply bind_Some in H1 as (w & Hw & [= <-]).
  simpl in Hnd, Hm. apply NoDup_cons in Hnd as [Hk Hnd].
  assert (Em : emplace k w m = <[k := w]> m) by (unfold emplace; rewrite Hm by left; done). rewrite Em in H2.
  assert (Hm1 : forall a, a ∈ l.*1 -> <[k := w]> m !! a = None).
  { intros a Ha. rewrite lookup_insert_ne by (intros ->; done). apply Hm. by right. }
  destruct (IH _ Hnd Hm1 H2) as [Ho Hin].
  split.
  - simpl. intros a Ha. rewrite Ho by set_solver. apply lookup_insert_ne. set_solver.
  - intros a j [[= -> ->]|Hj]%elem_of_cons; [|by apply Hin]. exists w. split; [done|]. by rewrite Ho, lookup_insert_eq.
Qed.

Lemma preview_map_lookup c mean_load infos previews a i :
  preview_map c mean_load infos = Some previews -> infos !! a = Some i ->
  exists w, preview c mean_load i = Some w /\ previews !! a = Some w.
Proof.
  unfold preview_map. intros Hp Ha. eapply preview_map_fold in Hp as [_ Hin]; [|apply map_items_NoDup|intros; apply lookup_empty].
  apply Hin. by apply elem_of_map_items.
Qed.

(** Every consumer has the weight its load calls for. *)
Definition adjusted (c : TopicConfig.t) (mean_load : spec_float) (infos infos' : gmap Z ConsumerInfo) : Prop :=
  forall a, match infos !! a with
            | None => infos' !! a = None
            | Some i => exists w, preview c mean_load i = Some w /\ infos' !! a = Some (set_weight w i)
            end.

Lemma AdjustScale_inv topic_id c d mean_load force d' :
  GetTopicConfigByTopicID topic_id = (RET_OK, Some c) ->
  AdjustScale topic_id d mean_load force = Some (RET_OK, d') ->
  (d' = d /\ force = false) \/
  exists infos', d' = set_infos d infos' /\ adjusted c mean_load (consumer_addr2info_map d) infos'.
Proof.
  intros Hc. unfold AdjustScale. rewrite Hc. intros (previews & Hp & Ha)%bind_Some. case_match eqn:Eap; simplify_eq.
  - right. eexists. split; [done|]. intros a. unfold apply_weights. rewrite map_lookup_imap.
    destruct (consumer_addr2info_map d !! a) as [i|] eqn:Ei; simpl; [|done].
    destruct (preview_map_lookup _ _ _ _ _ _ Hp Ei) as (w & Hw & ->). by exists w.
  - left. apply orb_false_iff in Eap as [-> _]. done.
Qed.

(** The limits of a weight. *)
Definition weight_ok (c : TopicConfig.t) (i : ConsumerInfo) : Prop :=
  0 <= weight i /\
  (live i = false -> weight i = 0) /\
  (live i = true -> TopicConfig.scheduler_use_init_weight (TopicConfig.topic (TopicConfig.proto c)) = 0 ->
   weight i <= Z.quot (init_weight i * TopicConfig.scheduler_max_init_weight_percent (TopicConfig.topic (TopicConfig.proto c))) 100).

Lemma NextConsumerWeight_range c load mean_load iw w :
  0 <= iw -> 0 <= TopicConfig.scheduler_max_init_weight_percent (TopicConfig.topic (TopicConfig.proto c)) ->
  positive_sign mean_load -> NextConsumerWeight c load mean_load iw = Some w ->
  0 <= w <= Z.quot (iw * TopicConfig.scheduler_max_init_weight_percent (TopicConfig.topic (TopicConfig.proto c))) 100.
Proof.
  intros Hi Hp Hm. unfold NextConsumerWeight.
  set (cap := Z.quot _ 100). assert (Hcap : 0 <= cap) by (unfold cap; apply Z.quot_pos; lia).
  destruct (Z.leb_spec load 0); [intros [= <-]; lia|]. intros (nw & Hn & Hw)%bind_Some.
  apply trunc_nonneg in Hn.
  - destruct (Z.ltb_spec cap nw); simplify_eq; lia.
  - apply positive_nonneg, fdiv_sign; [apply fmul_sign; [by apply of_int_sign|done]|]. apply of_int_sign. lia.
Qed.

Lemma GetMeanLoad_sign d ret mean_load : GetMeanLoad d = (ret, mean_load) -> positive_sign mean_load.
Proof.
  intros E. change mean_load with (ret, mean_load).2. rewrite <-E. clear E. unfold GetMeanLoad. case_match eqn:E1; [by apply of_int_sign|].
  case_match eqn:E2; [by apply of_int_sign|]. simpl_bool. apply of_int_sign, Z.quot_pos; lia.
Qed.


(** ** Liveness *)

(** Liveness follows the reports.  After [UpdateLive] a consumer is live
    exactly when it reported within the keep time; one that has just died has
    lost its weight and its loads, and "modified" is reported exactly when some
    consumer died or came to life. *)
Theorem UpdateLive_correct topic_id c d now modified d' :
  GetTopicConfigByTopicID topic_id = (RET_OK, Some c) ->
  UpdateLive topic_id d now = (RET_OK, modified, d') ->
  (forall a, consumer_addr2info_map d' !! a =
     (fun i => if live i && negb (is_active c now i)
               then mkInfo 0 (MeanVector.Reset (loads i)) 0 (init_weight i) false (last_active_time i)
               else set_live (is_active c now i) i) <$> consumer_addr2info_map d !! a) /\
  (modified = true <-> exists a i i', consumer_addr2info_map d !! a = Some i /\
     consumer_addr2info_map d' !! a = Some i' /\ live i' <> live i).
Proof.
  intros Hc. unfold UpdateLive. rewrite Hc. intros Hu. injection Hu as <- <-. simpl.
  assert (Hl : forall i, update_live c now i = if live i && negb (is_active c now i)
               then mkInfo 0 (MeanVector.Reset (loads i)) 0 (init_weight i) false (last_active_time i)
               else set_live (is_active c now i) i).
  { intros i. unfold update_live. destruct i as [? ? ? ? [] ?]; simpl; destruct (is_active _ _ _); done. }
  split.
  - intros a. rewrite lookup_fmap. destruct (consumer_addr2info_map d !! a); simpl; [|done]. by rewrite Hl.
  - rewrite existsb_exists. split.
    + intros (i & Hin & Hx). apply list_elem_of_In, elem_of_infos in Hin as [a Ha]. exists a, i, (update_live c now i).
      rewrite lookup_fmap, Ha. split_and!; [done..|]. rewrite Hl. destruct (live i), (is_active c now i); done.
    + intros (a & i & i' & Ha & Ha' & Hne). exists i. split; [by apply list_elem_of_In, elem_of_infos; exists a|].
      rewrite lookup_fmap, Ha in Ha'. injection Ha' as <-. rewrite Hl in Hne.
      destruct (live i), (is_active c now i); simpl in *; done.
Qed.

(** What a round of balancing does to a topic whose mode is dynamic: reload,
    update, and perhaps adjust. *)
Lemma balance_topic_inv locks now topic_id c d d' :
  topic_id ∈ locks -> GetTopicConfigByTopicID topic_id = (RET_OK, Some c) ->
  balance_topic locks now topic_id d = Some d' ->
  exists ret modified d1, ReloadConsumerConfig topic_id d = (ret, modified, d1) /\
    ((ret <> RET_OK /\ d' = d1) \/ (ret = RET_OK /\ GetMode topic_id d1 now = Static /\ d' = d1) \/
     (ret = RET_OK /\ GetMode topic_id d1 now = Dynamic /\
      let d2 := set_infos d1 (update_live c now <$> consumer_addr2info_map d1) in
      d' = d2 \/ exists mean_load infos', GetMeanLoad d2 = (RET_OK, mean_load) /\
        d' = set_infos d2 infos' /\ adjusted c mean_load (consumer_addr2info_map d2) infos')).
Proof.
  intros Hl Hc. unfold balance_topic. rewrite bool_decide_eq_true_2 by done. simpl.
  destruct (ReloadConsumerConfig topic_id d) as [[ret modified] d1]. intros Hb. exists ret, modified, d1. split; [done|].
  destruct (is_ok ret) eqn:Eok; simpl in Hb; [|simplify_eq; left; split; [by intros ->|done]].
  apply is_ok_true in Eok as ->. right. destruct (GetMode topic_id d1 now) eqn:Em; [left; by simplify_eq|right].
  split; [done|]. split; [done|]. cbn zeta. set (d2 := set_infos d1 (update_live c now <$> consumer_addr2info_map d1)) in *.
  assert (Eu : UpdateLive topic_id d1 now =
    (RET_OK, existsb (fun i => xorb (live i) (is_active c now i)) (infos_of d1), d2)) by (unfold UpdateLive; by rewrite Hc).
  rewrite Eu in Hb. simpl in Hb. destruct (GetMeanLoad d2) as [rm mean_load] eqn:Eg.
  assert (Hsame : Some d2 = Some d' -> d' = d2) by (by intros [= ->]).
  destruct rm; try (left; by apply Hsame). assert (Ei : exists b, CheckImbalance topic_id d2 mean_load = (RET_OK, b)).
  { unfold CheckImbalance. rewrite Hc. by eexists. }
  destruct Ei as [b Ei]. rewrite Ei in Hb. simpl in Hb.
  destruct (_ || negb b); [|left; by apply Hsame]. apply bind_Some in Hb as ([r3 d3] & Ha & Hb). simplify_eq.
  assert (r3 = RET_OK) as ->.
  { unfold AdjustScale in Ha. rewrite Hc in Ha. apply bind_Some in Ha as (? & _ & Ha). by simplify_eq. }
  apply (AdjustScale_inv _ c) in Ha as [[-> _]|(infos' & -> & Had)]; [by left| |done].
  right. by exists mean_load, infos'.
Qed.

(** A consumer that fell silent gets no queues.  After a round of dynamic
    balancing, a configured consumer that was live, or had lost its weight
    before, and has not reported within the keep time, is not live and has the
    weight 0. *)
Theorem balance_retires locks now topic_id c d d' a i i' modified d1 :
  topic_id ∈ locks -> GetTopicConfigByTopicID topic_id = (RET_OK, Some c) ->
  ReloadConsumerConfig topic_id d = (RET_OK, modified, d1) -> GetMode topic_id d1 now = Dynamic ->
  balance_topic locks now topic_id d = Some d' ->
  consumer_addr2info_map d !! a = Some i -> consumer_addr2info_map d' !! a = Some i' ->
  live i = true \/ weight i = 0 -> is_active c now i = false ->
  live i' = false /\ weight i' = 0.
Proof.
  intros Hl Hc Hre Hm Hb Hi Hi' Hw Ha.
  destruct (balance_topic_inv _ _ _ _ _ _ Hl Hc Hb) as (ret & m & d2 & Hre' & Hcase). rewrite Hre in Hre'. simplify_eq.
  destruct Hcase as [[? _]|[(_ & ? & _)|(_ & _ & Hcase)]]; [done|congruence|].
  assert (H1 : forall i1, consumer_addr2info_map d2 !! a = Some i1 ->
    weight i1 = weight i /\ live i1 = live i /\ last_active_time i1 = last_active_time i).
  { intros i1 Hi1. unfold ReloadConsumerConfig in Hre.
    destruct (_ =? _); [injection Hre as <- <-; rewrite Hi in Hi1; by injection Hi1 as <-|].
    destruct (GetConsumerConfig topic_id) as [[] [cc|]] eqn:Ec; try discriminate Hre.
    2: { by apply GetConsumerConfig_found in Ec. }
    destruct (GetConsumerConfigDetail cc) as [rr scales]. injection Hre as <- <-. cbn [consumer_addr2info_map] in Hi1. rewrite reload_infos_lookup, Hi in Hi1.
    destruct (scales !! a); simpl in Hi1; by simplify_eq. }
  assert (H2 : forall i2, (update_live c now <$> consumer_addr2info_map d2) !! a = Some i2 -> live i2 = false /\ weight i2 = 0).
  { intros i2. rewrite lookup_fmap. destruct (consumer_addr2info_map d2 !! a) as [i1|] eqn:E1; simpl; [|done].
    intros [= <-]. destruct (H1 i1 eq_refl) as (Ew & El & Et). unfold update_live.
    assert (Ea : is_active c now i1 = false) by (unfold is_active in *; by rewrite Et). rewrite Ea. simpl.
    rewrite andb_true_r, andb_false_r. destruct (live i1) eqn:E; simpl; [done|]. split; [done|]. destruct Hw; congruence. }
  destruct Hcase as [->|(mean_load & infos' & _ & -> & Had)]; [by apply H2|]. simpl in Hi'. specialize (Had a). simpl in Had.
  destruct ((update_live c now <$> consumer_addr2info_map d2) !! a) as [i2|] eqn:E2; [|congruence].
  destruct Had as (w & Hpw & E). rewrite E in Hi'. injection Hi' as <-. destruct (H2 i2 eq_refl) as [El _].
  unfold preview in Hpw. rewrite El in Hpw. simplify_eq. done.
Qed.

(** ** What the consumers are told *)

(** The weights of a topic. *)
Definition topic_weights (s : t) (topic_id : Z) : option (list AddrScale) :=
  BuildTopicScaleResponse <$> topic_id2data_map s !! topic_id.

Lemma map_items_fmap {A B} (f : A -> B) (m : gmap Z A) :
  map_items (f <$> m) = (fun kv => (kv.1, f kv.2)) <$> map_items m.
Proof.
  unfold map_items. rewrite dom_fmap_L, list_fmap_omap. apply list_omap_ext, Forall_Forall2_diag, Forall_forall.
  intros k _. rewrite lookup_fmap. by destruct (m !! k).
Qed.

Lemma response_weights d d' :
  weight <$> consumer_addr2info_map d = weight <$> consumer_addr2info_map d' ->
  BuildTopicScaleResponse d = BuildTopicScaleResponse d'.
Proof.
  intros E.
  assert (Hb : forall d, BuildTopicScaleResponse d =
    (fun kv : Z * Z => mkAddrScale (DecodeAddr kv.1) kv.2) <$> map_items (weight <$> consumer_addr2info_map d)).
  { intros d0. unfold BuildTopicScaleResponse. rewrite map_items_fmap, <-list_fmap_compose. done. }
  by rewrite !Hb, E.
Qed.

(** A report changes no weight, and is answered with the weights. *)
Lemma GetAddrScale_weights s now req ret l s' :
  GetAddrScale s now req = Some (ret, l, s') ->
  (forall topic_id, topic_weights s' topic_id = topic_weights s topic_id) /\
  (ret = RET_OK -> topic_weights s (gs_topic_id req) = Some l /\ IsMaster s now = true).
Proof.
  unfold GetAddrScale. destruct (IsMaster s now); simpl; [|intros [= <- <- <-]; done].
  destruct (topic_id2data_map s !! gs_topic_id req) as [d|] eqn:Ed; [|intros [= <- <- <-]; done].
  destruct (GetTopicConfigByTopicID (gs_topic_id req)) as [rt [c|]] eqn:Et.
  2: { pose proof (GetTopicConfig_found (gs_topic_id req)) as Hf. rewrite Et in Hf.
       destruct rt; intros [= <- <- <-]; done. }
  destruct rt; try (intros [= <- <- <-]; done). destruct (negb _); [intros [= <- <- <-]; done|].
  destruct (consumer_addr2info_map d !! EncodeAddr (gs_addr req)) as [i|] eqn:Ei; [|intros [= <- <- <-]; done].
  intros (i' & Hi & [= <- <- <-])%bind_Some.
  assert (Hw : weight i' = weight i).
  { destruct (NeedSkipUpdateLoad req); [by simplify_eq|]. unfold update_load in Hi.
    apply bind_Some in Hi as (? & _ & Hi). apply bind_Some in Hi as (? & _ & Hi). by simplify_eq. }
  assert (E : BuildTopicScaleResponse (set_infos d (<[EncodeAddr (gs_addr req) := i']> (consumer_addr2info_map d))) =
              BuildTopicScaleResponse d).
  { apply response_weights. simpl. rewrite fmap_insert, Hw. apply insert_id. by rewrite lookup_fmap, Ei. }
  split.
  - intros topic_id. unfold topic_weights. simpl. destruct (decide (topic_id = gs_topic_id req)) as [->|Hne].
    + rewrite lookup_insert_eq, Ed. simpl. by rewrite E.
    + by rewrite lookup_insert_ne.
  - intros _. unfold topic_weights. rewrite Ed. simpl. by rewrite E.
Qed.

(** The states between two rounds of balancing: reports arrive, the master
    is renewed. *)
Inductive reports : t -> t -> Prop :=
| reports_refl s : reports s s
| reports_report s now req ret l s1 s' : GetAddrScale s now req = Some (ret, l, s1) -> reports s1 s' -> reports s s'
| reports_renew s expire s' : reports (RenewMaster s expire).2 s' -> reports s s'.

Lemma reports_weights s s' topic_id : reports s s' -> topic_weights s' topic_id = topic_weights s topic_id.
Proof.
  induction 1 as [|s now req ret l s1 s' Hg _ IH|s expire s' _ IH]; [done| |exact IH].
  rewrite IH. by eapply GetAddrScale_weights.
Qed.

(** Consumers agree on the weights.  Between two rounds of balancing every
    consumer of a topic that is answered gets the same weights, whatever is
    reported in between. *)
Theorem answers_agree s s1 s2 now1 now2 req1 req2 l1 l2 s1' s2' :
  reports s s1 -> reports s s2 -> gs_topic_id req1 = gs_topic_id req2 ->
  GetAddrScale s1 now1 req1 = Some (RET_OK, l1, s1') -> GetAddrScale s2 now2 req2 = Some (RET_OK, l2, s2') -> l1 = l2.
Proof.
  intros H1 H2 Et Ha1 Ha2. apply GetAddrScale_weights in Ha1 as [_ Ha1], Ha2 as [_ Ha2].
  destruct (Ha1 eq_refl) as [E1 _]. destruct (Ha2 eq_refl) as [E2 _].
  rewrite (reports_weights s s1) in E1 by done. rewrite (reports_weights s s2) in E2 by done. congruence.
Qed.

(** ** Topics that are removed *)

(** A topic that is removed together with the next one, or as the last one,
    is not removed properly: the second stays, or the iterator passes the end
    of the map. *)
Theorem remove_topics_skips topic_ids locks a b it m d :
  a ∉ topic_ids -> a ∈ locks -> b ∉ it -> m !! b = Some d -> a <> b ->
  (forall m', remove_topics topic_ids locks (a :: b :: it) m = Some m' -> m' !! b = Some d) /\
  remove_topics topic_ids locks [a] m = None.
Proof.
  intros Ha Hl Hb Hm Hne.
  assert (Hcond : bool_decide (a ∈ topic_ids) || negb (bool_decide (a ∈ locks)) = false).
  { rewrite bool_decide_eq_false_2, bool_decide_eq_true_2 by done. done. }
  split; [|simpl; by rewrite Hcond].
  assert (Hkeep : forall n it, (length it <= n)%nat -> b ∉ it -> forall m m',
    remove_topics topic_ids locks it m = Some m' -> m' !! b = m !! b).
  { clear. induction n as [|n IH]; intros [|x it] Hn Hb m m' Hr; simpl in *; try (by simplify_eq); [lia|].
    case_match; [apply (IH it); [lia|set_solver|done]|]. destruct it as [|y it]; [done|]. simpl in Hn.
    rewrite (IH it) with (m := delete x m) by (set_solver || lia || done). apply lookup_delete_ne. set_solver. }
  intros m' Hr. cbn [remove_topics] in Hr. rewrite Hcond in Hr.
  rewrite (Hkeep (length it) it) with (m := delete a m) by done. by rewrite lookup_delete_ne.
Qed.
End mgr.
End SchedulerMgr.
