(* ===== verification/Rpc.v ===== *)
(** * Remote calls

    What the clients, stubs and dispatchers of src/phxqueue_phxrpc/app/ have in
    common: they are written, or generated, by one pattern for each function of
    each service; Services.v has the services.  A client keeps the connections
    of successful calls in comm/resourcepool.h, one pool for all threads of the
    process, and takes one for the next call to the same address.

    phxrpc is a class: [Open] connects, [Call] sends a request with its uri and
    waits for the response, [ToPb] and [FromPb] convert messages.  A connection
    is the identity of its [BlockTcpStream]. *)

From S2P Require Import Prelude RetCode TopicConfig StoreConfig.

#[local] Set Default Proof Using "Type".

(** [M] is the functions of a service, [Req m] and [Resp m] its messages. *)
Class Phxrpc {M : Type} (Req Resp : M -> Type) (W : Type) := {
  BaseRequest : Type;
  BaseResponse : Type;
  ToPb : forall m, BaseRequest -> option (Req m);
  FromPb : forall m, Resp m -> option BaseResponse;
  Open : string -> Z -> W -> option nat * W;
  Call : forall m, nat -> string -> Req m -> Resp m -> W -> Z * Resp m * W;
}.

Module ResourcePool.

Definition Get (key : Z) (key2resources : gmap Z (list nat)) : option nat * gmap Z (list nat) :=
  match key2resources !! key with
  | Some (resource :: resources) => (Some resource, <[key := resources]> key2resources)
  | _ => (None, key2resources)
  end.

Definition Put (key : Z) (resource : nat) (key2resources : gmap Z (list nat)) : gmap Z (list nat) :=
  <[key := default [] (key2resources !! key) ++ [resource]]> key2resources.

(** The resources of a key. *)
Definition pooled (p : gmap Z (list nat)) (key : Z) (s : nat) : Prop := s ∈ default [] (p !! key).

Definition distinct (p : gmap Z (list nat)) : Prop :=
  (forall key, NoDup (default [] (p !! key))) /\
  (forall key key' s, pooled p key s -> pooled p key' s -> key = key').

Lemma pool_Get_ok key p o p' : Get key p = (o, p') -> distinct p ->
  distinct p' /\
  (forall s, o = Some s -> pooled p key s /\ forall k, ~ pooled p' k s) /\
  (forall k s, pooled p' k s -> pooled p k s).
Proof.
  unfold Get. intros Hg [Hn Hd].
  assert (Hsame : distinct p /\ (forall s, @None nat = Some s -> pooled p key s /\ forall k, ~ pooled p k s) /\
    (forall k s, pooled p k s -> pooled p k s)) by (split_and!; [done..|]; auto).
  destruct (p !! key) as [[|r rest]|] eqn:E; [by injection Hg as <- <-| |by injection Hg as <- <-].
  injection Hg as <- <-. clear Hsame.
  assert (Hsub : forall k s, pooled (<[key := rest]> p) k s -> pooled p k s).
  { unfold pooled. intros k s. destruct (decide (k = key)) as [->|Hk].
    - rewrite lookup_insert_eq, E. simpl. by right.
    - by rewrite lookup_insert_ne by done. }
  pose proof (Hn key) as Hnk. rewrite E in Hnk. apply NoDup_cons in Hnk as [Hr Hrest].
  assert (Hin : pooled p key r) by (unfold pooled; rewrite E; left).
  split_and!; [split|intros s [= <-]; split; [done|]|done].
  - intros k. destruct (decide (k = key)) as [->|Hk]; [by rewrite lookup_insert_eq|]. by rewrite lookup_insert_ne by done.
  - intros k k' s Hs%Hsub Hs'%Hsub. by eapply Hd.
  - intros k Hk. pose proof (Hd _ _ _ (Hsub _ _ Hk) Hin) as ->. unfold pooled in Hk. by rewrite lookup_insert_eq in Hk.
Qed.

Lemma Put_pooled key s p k s' : pooled (Put key s p) k s' <-> pooled p k s' \/ (k = key /\ s' = s).
Proof.
  unfold pooled, Put. destruct (decide (k = key)) as [->|Hk].
  - rewrite lookup_insert_eq. simpl. rewrite elem_of_app, list_elem_of_singleton. naive_solver.
  - rewrite lookup_insert_ne by done. naive_solver.
Qed.

Lemma pool_Put_ok key s p : distinct p -> (forall k, ~ pooled p k s) -> distinct (Put key s p).
Proof.
  intros [Hn Hd] Hs. split.
  - intros k. unfold Put. destruct (decide (k = key)) as [->|Hk]; [|by rewrite lookup_insert_ne by done].
    rewrite lookup_insert_eq. simpl. apply NoDup_app. split_and!; [done| |apply NoDup_singleton].
    intros x Hx ->%list_elem_of_singleton. by apply (Hs key).
  - intros k k' x. rewrite !Put_pooled. intros [H|[-> ->]] [H'|[-> E]]; [by eapply Hd| | |done].
    + subst x. by destruct (Hs k).
    + by destruct (Hs k').
Qed.
End ResourcePool.

Module Rpc.
Section rpc.
Context {M : Type} {Req Resp : M -> Type} {W : Type} `{PR : Phxrpc M Req Resp W, IN : Inet}.

(** ** The server *)

Section dispatcher.
Context {Srv : Type} (uri_func_map : list (string * M)).
Context (service : forall m, Req m -> Srv -> option (Z * Resp m * Srv)).

Definition EINVAL : Z := 22.
Definition ENOMEM : Z := 12.

Definition find_func (uri : string) : option M := snd <$> (snd <$> list_find (fun p => p.1 = uri) uri_func_map).

(** A member function of a dispatcher; [None] for the response is one that
    could not be packed. *)
Definition handle (m : M) (req : BaseRequest) (s : Srv) : option (Z * option BaseResponse * Srv) :=
  match ToPb m req with
  | None => Some (- EINVAL, None, s)
  | Some req_pb =>
      r ← service m req_pb s;
      let '(ret, resp_pb, s) := r in
      match FromPb m resp_pb with
      | None => Some (- ENOMEM, None, s)
      | Some resp => Some (ret, Some resp, s)
      end
  end.
End dispatcher.

(** ** The client *)

Section client.
Context (uri : M -> string) (master_addr : forall m, Req m -> Addr).

#[local] Notation pool := (gmap Z (list nat)).

(** A connection from the pool, or a new one. *)
Definition take (addr : Addr) (p : pool) (w : W) : option nat * pool * W :=
  match ResourcePool.Get (EncodeAddr addr) p with
  | (Some socket, p) => (Some socket, p, w)
  | (None, p) => let '(socket, w) := Open (ip addr) (port addr) w in (socket, p, w)
  end.

(** It goes back unless the call failed on the connection. *)
Definition give (addr : Addr) (socket : nat) (ret : Z) (p : pool) : pool :=
  if negb (-1 =? ret) && negb (-202 =? ret) then ResourcePool.Put (EncodeAddr addr) socket p else p.

(** A [Proto...] function of a client. *)
Definition Proto (m : M) (req : Req m) (resp : Resp m) (p : pool) (w : W) : Z * Resp m * pool * W :=
  let addr := master_addr m req in
  match take addr p w with
  | (None, p, w) => (as_integer RET_ERR_SYS, resp, p, w)
  | (Some socket, p, w) =>
      let '(ret, resp, w) := Call m socket (uri m) req resp w in (ret, resp, give addr socket ret p, w)
  end.

(** A function of a client without [Proto], for the tools: [ep] is what
    [GetRandom] returns, the connection is closed afterwards. *)
Definition call_endpoint (ep : option (string * Z)) (m : M) (req : Req m) (resp : Resp m) (w : W) : Z * Resp m * W :=
  match ep with
  | None => (-1, resp, w)
  | Some (ip, port) =>
      match Open ip port w with
      | (None, w) => (-1, resp, w)
      | (Some socket, w) => Call m socket (uri m) req resp w
      end
  end.

(** ** The threads of a client

    A call is two steps, between which other threads take and give back
    connections.  Giving back is part of the second: the connection is nobody
    else's until then. *)

Record request := mkRequest { meth : M; rq : Req meth; rs : Resp meth }.
Record answer := mkAnswer { an_req : request; an_ret : Z; an_resp : Resp (meth an_req) }.

Definition addr_of (r : request) : Addr := master_addr (meth r) (rq r).

Record state := mkState {
  sockets : pool;
  world : W;
  calls : gmap nat (request * nat);   (* by thread: the request and the connection *)
  answers : list answer;
}.

Context (others : W -> W -> Prop).

Inductive step (s : state) : state -> Prop :=
| take_step t r o p w :
    calls s !! t = None -> addr_ok (addr_of r) -> take (addr_of r) (sockets s) (world s) = (o, p, w) ->
    step s (match o with
            | Some socket => mkState p w (<[t := (r, socket)]> (calls s)) (answers s)
            | None => mkState p w (calls s) (mkAnswer r (as_integer RET_ERR_SYS) (rs r) :: answers s)
            end)
| call_step t r socket ret resp w :
    calls s !! t = Some (r, socket) ->
    Call (meth r) socket (uri (meth r)) (rq r) (rs r) (world s) = (ret, resp, w) ->
    step s (mkState (give (addr_of r) socket ret (sockets s)) w (delete t (calls s)) (mkAnswer r ret resp :: answers s))
| others_step w : others (world s) w -> step s (mkState (sockets s) w (calls s) (answers s)).

(** [Proto] is the two steps of one thread. *)
Lemma Proto_steps s t r ret resp p w :
  calls s !! t = None -> addr_ok (addr_of r) ->
  Proto (meth r) (rq r) (rs r) (sockets s) (world s) = (ret, resp, p, w) ->
  rtc step s (mkState p w (calls s) (mkAnswer r ret resp :: answers s)).
Proof.
  intros Ht Ha. unfold Proto. fold (addr_of r).
  destruct (take (addr_of r) (sockets s) (world s)) as [[o p1] w1] eqn:Et.
  pose proof (take_step s t r o p1 w1 Ht Ha Et) as H1. destruct o as [k|].
  2:{ intros [= <- <- <- <-]. by apply rtc_once. }
  destruct (Call (meth r) k (uri (meth r)) (rq r) (rs r) w1) as [[ret1 resp1] w2] eqn:Ec. intros [= <- <- <- <-].
  eapply rtc_l; [exact H1|]. apply rtc_once.
  pose proof (call_step (mkState p1 w1 (<[t := (r, k)]> (calls s)) (answers s)) t r k ret1 resp1 w2
    (lookup_insert_eq _ _ _) Ec) as H2. cbn [sockets calls answers] in H2. by rewrite delete_insert_id in H2.
Qed.
End client.
End rpc.
#[global] Arguments state {M} Req Resp W.
#[global] Arguments request {M} Req Resp.
#[global] Arguments answer {M} Req Resp.
End Rpc.

(** ** What phxrpc promises

    [peer] is the address a connection was opened for, [idle] says that nothing
    is on the way on it, [states] are the states the server at an address goes
    through.  A call on an idle connection that fails neither with -1 nor with
    -202, the codes of a broken connection, has brought the request to the
    function of its uri, and its response back, and leaves the connection idle;
    no call touches another connection. *)
Class PhxrpcLaws {M : Type} {Req Resp : M -> Type} {W : Type} (PR : Phxrpc Req Resp W) {Srv : Type}
    (uri_func_map : string * Z -> list (string * M)) (service : string * Z -> forall m, Req m -> Srv -> option (Z * Resp m * Srv))
    (states : string * Z -> Srv -> Prop) (others : W -> W -> Prop) := {
  peer : W -> nat -> option (string * Z);
  idle : W -> nat -> Prop;
  Open_new ip port w s w' : Open ip port w = (Some s, w') ->
    peer w s = None /\ peer w' s = Some (ip, port) /\ idle w' s;
  Open_others ip port w o w' s : Open ip port w = (o, w') -> o <> Some s ->
    peer w' s = peer w s /\ (idle w s -> idle w' s);
  Call_peer m s uri req resp w ret resp' w' s' : Call m s uri req resp w = (ret, resp', w') -> peer w' s' = peer w s';
  Call_others m s uri req resp w ret resp' w' s' : Call m s uri req resp w = (ret, resp', w') -> s' <> s ->
    idle w s' -> idle w' s';
  others_keep w w' s : others w w' -> peer w' s = peer w s /\ (idle w s -> idle w' s);
  Call_idle m s uri req resp w ret resp' w' : Call m s uri req resp w = (ret, resp', w') ->
    idle w s -> ret <> -1 -> ret <> -202 -> idle w' s;
  Call_answered m s uri req resp w ret resp' w' h m' : Call m s uri req resp w = (ret, resp', w') ->
    idle w s -> peer w s = Some h -> ret <> -1 -> ret <> -202 -> Rpc.find_func (uri_func_map h) uri = Some m' ->
    exists breq out st st', states h st /\ states h st' /\
      Rpc.handle (service h) m' breq st = Some (ret, out, st') /\ ToPb m breq = Some req /\
      (forall r b, out = Some b -> FromPb m r = Some b -> resp' = r);
}.

Module RpcCalls.
Import Rpc.
Section calls.
Context {M : Type} {Req Resp : M -> Type} {W Srv : Type} {PR : Phxrpc Req Resp W}.
Context {uri_func_map : string * Z -> list (string * M)}
  {service : string * Z -> forall m, Req m -> Srv -> option (Z * Resp m * Srv)}.
Context {states : string * Z -> Srv -> Prop} {others : W -> W -> Prop}.
Context {PL : PhxrpcLaws PR uri_func_map service states others} {IN : Inet} (uri : M -> string) (master_addr : forall m, Req m -> Addr).

#[local] Notation state := (Rpc.state Req Resp W).
#[local] Notation step := (Rpc.step uri master_addr others).
#[local] Notation addr_of := (Rpc.addr_of master_addr).

Definition host (a : Addr) : string * Z := (ip a, port a).

(** The server that the request names has answered it, by the function of the
    call, if it has that function at all. *)
Definition answered (a : answer Req Resp) : Prop :=
  let r := an_req a in
  find_func (uri_func_map (host (addr_of r))) (uri (meth r)) = Some (meth r) ->
  exists st st', states (host (addr_of r)) st /\ states (host (addr_of r)) st' /\
    exists ret resp, service (host (addr_of r)) (meth r) (rq r) st = Some (ret, resp, st') /\
      ((an_ret a = ret /\ an_resp a = resp) \/ (an_ret a = - ENOMEM /\ FromPb (meth r) resp = None)).

(** Every pooled connection is idle, at the address of its key, and in no call. *)
Record inv (s : state) : Prop := {
  inv_distinct : ResourcePool.distinct (sockets s);
  inv_pooled k c : ResourcePool.pooled (sockets s) k c ->
    idle (world s) c /\ exists a, addr_ok a /\ EncodeAddr a = k /\ peer (world s) c = Some (host a);
  inv_calls t r c : calls s !! t = Some (r, c) ->
    addr_ok (addr_of r) /\ idle (world s) c /\ peer (world s) c = Some (host (addr_of r)) /\
    forall k, ~ ResourcePool.pooled (sockets s) k c;
  inv_own t t' r r' c : calls s !! t = Some (r, c) -> calls s !! t' = Some (r', c) -> t = t';
  inv_answers a : a ∈ answers s -> an_ret a <> -1 -> an_ret a <> -202 -> answered a;
}.

Lemma EncodeAddr_inj a b : addr_ok a -> addr_ok b -> EncodeAddr a = EncodeAddr b -> a = b.
Proof. intros Ha Hb E. by rewrite <-(DecodeAddr_EncodeAddr a Ha), <-(DecodeAddr_EncodeAddr b Hb), E. Qed.

Definition start (w : W) : state := mkState ∅ w ∅ [].

Lemma inv_start w : inv (start w).
Proof.
  split; simpl.
  - split; [intros k; rewrite lookup_empty; constructor|]. unfold ResourcePool.pooled. intros k k' s.
    rewrite lookup_empty. by intros ?%elem_of_nil.
  - unfold ResourcePool.pooled. intros k c. rewrite lookup_empty. by intros ?%elem_of_nil.
  - by intros t r c ?%lookup_empty_Some.
  - by intros t t' r r' c ?%lookup_empty_Some.
  - by intros a ?%elem_of_nil.
Qed.

(** The world moves without a call of this process. *)
Lemma inv_world s w :
  inv s -> (forall c, is_Some (peer (world s) c) -> peer w c = peer (world s) c /\ (idle (world s) c -> idle w c)) ->
  inv (mkState (sockets s) w (calls s) (answers s)).
Proof.
  intros [Hd Hp Hc Ho Ha] Hw. split; simpl; try done.
  - intros k c Hk. destruct (Hp k c Hk) as (Hi & a & Hok & Hk' & Hpe). destruct (Hw c) as [E Hi']; [by eexists|].
    split; [auto|]. exists a. by rewrite E.
  - intros t r c Ht. destruct (Hc t r c Ht) as (Hok & Hi & Hpe & Hn). destruct (Hw c) as [E Hi']; [by eexists|].
    rewrite E. auto.
Qed.

(** A thread gets a connection that nobody else has. *)
Lemma inv_take s t r c p :
  inv s -> calls s !! t = None -> addr_ok (addr_of r) -> ResourcePool.distinct p ->
  (forall k c', ResourcePool.pooled p k c' -> ResourcePool.pooled (sockets s) k c') ->
  (forall k, ~ ResourcePool.pooled p k c) -> (forall t' r', calls s !! t' <> Some (r', c)) ->
  idle (world s) c -> peer (world s) c = Some (host (addr_of r)) ->
  inv (mkState p (world s) (<[t := (r, c)]> (calls s)) (answers s)).
Proof.
  intros [Hd Hp Hc Ho Ha] Ht Hok Hd' Hsub Hout Hfree Hi Hpe. split; simpl; try done.
  - intros k c' Hk. apply Hp, Hsub, Hk.
  - intros t' r' c' [[<- [= <- <-]]|[_ H']]%lookup_insert_Some; [done|].
    destruct (Hc t' r' c' H') as (? & ? & ? & Hn). split_and!; [done..|]. intros k Hk. by apply (Hn k), Hsub.
  - intros t1 t2 r1 r2 c' [[<- [= <- <-]]|[_ H1]]%lookup_insert_Some [[<- E]|[_ H2]]%lookup_insert_Some; [done| | |by eapply Ho].
    + by destruct (Hfree t2 r2).
    + injection E as <- <-. by destruct (Hfree t1 r1).
Qed.

Lemma take_inv s t r o p w :
  inv s -> calls s !! t = None -> addr_ok (addr_of r) -> take (addr_of r) (sockets s) (world s) = (o, p, w) ->
  inv (match o with
       | Some c => mkState p w (<[t := (r, c)]> (calls s)) (answers s)
       | None => mkState p w (calls s) (mkAnswer r (as_integer RET_ERR_SYS) (rs r) :: answers s)
       end).
Proof.
  intros Hi Ht Hok. unfold take. destruct (ResourcePool.Get _ _) as [o1 p1] eqn:Eg.
  destruct (ResourcePool.pool_Get_ok _ _ _ _ Eg (inv_distinct s Hi)) as (Hd & Hget & Hsub). destruct o1 as [c|].
  - intros [= <- <- <-]. destruct (Hget c eq_refl) as [Hin Hout].
    destruct (inv_pooled s Hi _ _ Hin) as (Hidle & a & Ha & Ek & Hpe).
    apply EncodeAddr_inj in Ek as ->; [|done..]. apply inv_take; try done.
    intros t' r' Hc. destruct (inv_calls s Hi _ _ _ Hc) as (_ & _ & _ & Hn). by apply (Hn (EncodeAddr (addr_of r))).
  - assert (p1 = sockets s) as ->. { unfold ResourcePool.Get in Eg. repeat case_match; congruence. }
    destruct (Open _ _ _) as [o2 w2] eqn:Eo. intros [= <- <- <-].
    assert (Hw : inv (mkState (sockets s) w2 (calls s) (answers s))).
    { apply inv_world; [done|]. intros c Hc. apply (Open_others _ _ _ _ _ _ Eo). intros ->.
      apply Open_new in Eo as [Hno _]. rewrite Hno in Hc. by destruct Hc. }
    destruct o2 as [c|].
    + apply Open_new in Eo as (Hno & Hpe & Hidle).
      assert (Hfresh : forall k, ~ ResourcePool.pooled (sockets s) k c).
      { intros k Hk. destruct (inv_pooled s Hi _ _ Hk) as (_ & a & _ & _ & E). congruence. }
      apply (inv_take (mkState (sockets s) w2 (calls s) (answers s)) t r c); try done.
      intros t' r' Hc. destruct (inv_calls s Hi _ _ _ Hc) as (_ & _ & E & _). congruence.
    + destruct Hw as [? ? ? ? Ha]. split; try done. simpl. intros a [->|Hin]%elem_of_cons; [|by apply Ha].
      simpl. intros H1. by destruct H1.
Qed.

Lemma call_inv s t r c ret resp w :
  inv s -> calls s !! t = Some (r, c) ->
  Call (meth r) c (uri (meth r)) (rq r) (rs r) (world s) = (ret, resp, w) ->
  inv (mkState (give (addr_of r) c ret (sockets s)) w (delete t (calls s)) (mkAnswer r ret resp :: answers s)).
Proof.
  intros [Hd Hp Hc Ho Ha] Ht Ecall. destruct (Hc t r c Ht) as (Hok & Hidle & Hpe & Hout).
  pose proof (fun c' => Call_peer _ _ _ _ _ _ _ _ _ c' Ecall) as Hpeer.
  pose proof (fun c' => Call_others _ _ _ _ _ _ _ _ _ c' Ecall) as Hothers.
  assert (Hother : forall t' r', delete t (calls s) !! t' = Some (r', c) -> False).
  { intros t' r' [Hne H']%lookup_delete_Some. by apply Hne, (Ho t t' r r' c). }
  assert (Hgive : give (addr_of r) c ret (sockets s) = sockets s \/
    (ret <> -1 /\ ret <> -202 /\ give (addr_of r) c ret (sockets s) = ResourcePool.Put (EncodeAddr (addr_of r)) c (sockets s))).
  { unfold give. destruct (Z.eqb_spec (-1) ret), (Z.eqb_spec (-202) ret); simpl; auto. }
  assert (Hpool : forall k c', ResourcePool.pooled (give (addr_of r) c ret (sockets s)) k c' ->
    ResourcePool.pooled (sockets s) k c' \/ (ret <> -1 /\ ret <> -202 /\ k = EncodeAddr (addr_of r) /\ c' = c)).
  { intros k c'. destruct Hgive as [->|(? & ? & ->)]; [by left|]. rewrite ResourcePool.Put_pooled. naive_solver. }
  split; simpl.
  - destruct Hgive as [->|(_ & _ & ->)]; [done|]. by apply ResourcePool.pool_Put_ok.
  - intros k c' [Hk|(H1 & H2 & -> & ->)]%Hpool.
    + destruct (Hp k c' Hk) as (Hi & a & ? & ? & ?). rewrite Hpeer. split; [|by exists a].
      apply Hothers; [|done]. intros ->. by apply (Hout k).
    + rewrite Hpeer. split; [by eapply Call_idle|]. by exists (addr_of r).
  - intros t' r' c' H'. pose proof H' as [_ H'']%lookup_delete_Some. destruct (Hc t' r' c' H'') as (? & ? & ? & Hn).
    assert (c' <> c) by (intros ->; by eapply Hother). rewrite Hpeer. split_and!; [done|by apply Hothers|done|].
    intros k [Hk|(_ & _ & _ & ?)]%Hpool; [by apply (Hn k)|done].
  - intros t1 t2 r1 r2 c' [_ H1]%lookup_delete_Some [_ H2]%lookup_delete_Some. by eapply Ho.
  - intros a [->|Hin]%elem_of_cons; [|by apply Ha]. simpl. intros H1 H2. intros Hf. simpl in *.
    destruct (Call_answered _ _ _ _ _ _ _ _ _ _ _ Ecall Hidle Hpe H1 H2 Hf) as (breq & out & st & st' & Hs & Hs' & Hh & Hreq & Hresp).
    exists st, st'. split; [done|]. split; [done|]. unfold handle in Hh. rewrite Hreq in Hh.
    destruct (service _ _ _ st) as [[[ret1 resp1] st1]|]; [|done]. cbn [mbind option_bind] in Hh.
    destruct (FromPb (meth r) resp1) as [b|] eqn:Eb; injection Hh as <- <- <-; (eexists _, resp1; split; [reflexivity|]).
    + left. split; [done|]. by apply (Hresp resp1 b).
    + by right.
Qed.

Lemma step_keeps s s' : inv s -> step s s' -> inv s'.
Proof.
  intros Hi [t r o p w Ht Hok Et|t r c ret resp w Ht Ec|w Hw]; [by eapply take_inv|by eapply call_inv|].
  apply inv_world; [done|]. intros c _. by apply others_keep.
Qed.

(** Connections are shared without mixing up answers.  However the threads of
    a client interleave and connections are used again: no two threads use one
    connection; and a call whose result is not a broken connection was handled
    by the function it names, at the server that its request names, and its
    result is what that function returned. *)
Theorem calls_answered w s :
  rtc step (start w) s ->
  (forall a, a ∈ answers s -> an_ret a <> -1 -> an_ret a <> -202 -> answered a) /\
  (forall t t' r r' c, calls s !! t = Some (r, c) -> calls s !! t' = Some (r', c) -> t = t').
Proof using PL.
  intros Hr. assert (Hi : inv s).
  { remember (start w) as s0 eqn:E. assert (H0 : inv s0) by (subst; apply inv_start). clear E.
    induction Hr as [|s0 s1 s2 Hs _ IH]; [done|]. by apply IH, (step_keeps s0). }
  split; [exact (inv_answers s Hi)|exact (inv_own s Hi)].
Qed.
End calls.
End RpcCalls.
