(* ===== verification/Services.v ===== *)
(** * The services of the stores, the lock servers and the schedulers

    src/phxqueue_phxrpc/app/store/, app/lock/ and app/scheduler/: the functions
    of each service with their uris (phxrpc_lock_stub.cpp and the like), the
    table of a dispatcher (phxrpc_lock_dispatcher.cpp), and what a service does
    for a request (lock_service_impl.cpp), by the pattern of Rpc.v.

    At the end the two sides meet: a client that is told [RET_OK] for an
    [AcquireLock] owns the lock at the server it asked. *)

From S2P Require Import Prelude RetCode TopicConfig StoreConfig Node StoreMeta SyncCtrl BaseMgr StoreSM.
From S2P Require Import LockConfig SchedulerConfig MasterClient LockDb LockMgr LockSM LockService.
From S2P Require Import ConsumerConfig HeartBeatLock HeartBeatSync QueueLock Float Scheduler Rpc.

#[local] Set Default Proof Using "Type".

(** ** Messages *)

Record GetStringRequest := mkGetStringRequest { gt_topic_id : Z; gt_lock_id : Z; gt_key : string; gt_master_addr : Addr }.

Record DeleteStringRequest := mkDeleteStringRequest {
  ds_topic_id : Z; ds_lock_id : Z; ds_key : string; ds_version : Z; ds_master_addr : Addr }.

(** A request with its [master_addr], where its record leaves it out, and a
    response with its [redirect_addr]. *)
Record addressed (A : Type) := To { master : Addr; message : A }.
#[global] Arguments To {A} _ _.
#[global] Arguments master {A} _.
#[global] Arguments message {A} _.

(** ** The functions of the services *)

Inductive lock_function := PHXEcho | GetString | SetString | DeleteString | GetLockInfo | AcquireLock.
Inductive store_function := Store_PHXEcho | Add | Get.
Inductive scheduler_function := Scheduler_PHXEcho | GetAddrScale.
Inductive function := OfLock (f : lock_function) | OfStore (f : store_function) | OfScheduler (f : scheduler_function).

#[export] Instance lock_function_eq_dec : EqDecision lock_function.
Proof. solve_decision. Defined.
#[export] Instance store_function_eq_dec : EqDecision store_function.
Proof. solve_decision. Defined.
#[export] Instance scheduler_function_eq_dec : EqDecision scheduler_function.
Proof. solve_decision. Defined.
#[export] Instance function_eq_dec : EqDecision function.
Proof. solve_decision. Defined.

Definition lock_Req (f : lock_function) : Type :=
  match f with
  | PHXEcho => string
  | GetString => GetStringRequest
  | SetString => SetStringRequest
  | DeleteString => DeleteStringRequest
  | GetLockInfo => addressed GetLockInfoRequest
  | AcquireLock => AcquireLockRequest
  end.

Definition lock_Resp (f : lock_function) : Type :=
  match f with
  | PHXEcho => string
  | GetString => option StringInfo * option Addr
  | SetString | DeleteString | AcquireLock => option Addr
  | GetLockInfo => option LockInfo * option Addr
  end.

Definition store_Req (f : store_function) : Type :=
  match f with Store_PHXEcho => string | Add => addressed AddRequest | Get => addressed GetRequest end.

Definition store_Resp (f : store_function) : Type :=
  match f with Store_PHXEcho => string | Add => StoreService.AddResponse | Get => GetResponse * option Addr end.

Definition scheduler_Req (f : scheduler_function) : Type :=
  match f with Scheduler_PHXEcho => string | GetAddrScale => addressed GetAddrScaleRequest end.

Definition scheduler_Resp (f : scheduler_function) : Type :=
  match f with Scheduler_PHXEcho => string | GetAddrScale => list AddrScale end.

Definition Req (f : function) : Type :=
  match f with OfLock f => lock_Req f | OfStore f => store_Req f | OfScheduler f => scheduler_Req f end.

Definition Resp (f : function) : Type :=
  match f with OfLock f => lock_Resp f | OfStore f => store_Resp f | OfScheduler f => scheduler_Resp f end.

(** ** The stubs *)

Definition lock_uri (f : lock_function) : string :=
  match f with
  | PHXEcho => "/phxqueue_phxrpc/lock/PHXEcho"
  | GetString => "/phxqueue_phxrpc/lock/GetString"
  | SetString => "/phxqueue_phxrpc/lock/SetString"
  | DeleteString => "/phxqueue_phxrpc/lock/DeleteString"
  | GetLockInfo => "/phxqueue_phxrpc/lock/GetLockInfo"
  | AcquireLock => "/phxqueue_phxrpc/lock/AcquireLock"
  end.

Definition store_uri (f : store_function) : string :=
  match f with
  | Store_PHXEcho => "/phxqueue_phxrpc/store/PHXEcho"
  | Add => "/phxqueue_phxrpc/store/Add"
  | Get => "/phxqueue_phxrpc/store/Get"
  end.

Definition scheduler_uri (f : scheduler_function) : string :=
  match f with
  | Scheduler_PHXEcho => "/phxqueue_phxrpc/scheduler/PHXEcho"
  | GetAddrScale => "/phxqueue_phxrpc/scheduler/GetAddrScale"
  end.

Definition uri (f : function) : string :=
  match f with OfLock f => lock_uri f | OfStore f => store_uri f | OfScheduler f => scheduler_uri f end.

(** ** The dispatchers *)

Definition lock_GetURIFuncMap : list (string * function) :=
  [("/phxqueue_phxrpc/lock/PHXEcho"%string, OfLock PHXEcho);
   ("/phxqueue_phxrpc/lock/GetString"%string, OfLock GetString);
   ("/phxqueue_phxrpc/lock/SetString"%string, OfLock SetString);
   ("/phxqueue_phxrpc/lock/DeleteString"%string, OfLock DeleteString);
   ("/phxqueue_phxrpc/lock/GetLockInfo"%string, OfLock GetLockInfo);
   ("/phxqueue_phxrpc/lock/AcquireLock"%string, OfLock AcquireLock)].

Definition store_GetURIFuncMap : list (string * function) :=
  [("/phxqueue_phxrpc/store/PHXEcho"%string, OfStore Store_PHXEcho);
   ("/phxqueue_phxrpc/store/Add"%string, OfStore Add);
   ("/phxqueue_phxrpc/store/Get"%string, OfStore Get)].

Definition scheduler_GetURIFuncMap : list (string * function) :=
  [("/phxqueue_phxrpc/scheduler/PHXEcho"%string, OfScheduler Scheduler_PHXEcho);
   ("/phxqueue_phxrpc/scheduler/GetAddrScale"%string, OfScheduler GetAddrScale)].

(** ** The clients *)

(** The address that a [Proto...] function connects to; there is none for
    [PHXEcho]. *)
Definition master_addr (f : function) : Req f -> Addr :=
  match f return Req f -> Addr with
  | OfLock PHXEcho | OfStore Store_PHXEcho | OfScheduler Scheduler_PHXEcho => fun _ => no_addr
  | OfLock GetString => fun req => gt_master_addr req
  | OfLock SetString => fun req => ss_master_addr req
  | OfLock DeleteString => fun req => ds_master_addr req
  | OfLock GetLockInfo => fun req => master req
  | OfLock AcquireLock => fun req => aq_master_addr req
  | OfStore Add => fun req => master req
  | OfStore Get => fun req => master req
  | OfScheduler GetAddrScale => fun req => master req
  end.

Module LockClient.
Section client.
Context {W : Type} `{PR : !Phxrpc Req Resp W, IN : Inet}.

Definition Proto (f : lock_function) (req : lock_Req f) (resp : lock_Resp f) (p : gmap Z (list nat)) (w : W)
    : Z * lock_Resp f * gmap Z (list nat) * W :=
  Rpc.Proto uri master_addr (OfLock f) req resp p w.

Definition call (ep : option (string * Z)) (f : lock_function) (req : lock_Req f) (resp : lock_Resp f) (w : W)
    : Z * lock_Resp f * W := Rpc.call_endpoint uri ep (OfLock f) req resp w.
End client.
End LockClient.

Module StoreClient.
Section client.
Context {W : Type} `{PR : !Phxrpc Req Resp W, IN : Inet}.

Definition Proto (f : store_function) (req : store_Req f) (resp : store_Resp f) (p : gmap Z (list nat)) (w : W)
    : Z * store_Resp f * gmap Z (list nat) * W :=
  Rpc.Proto uri master_addr (OfStore f) req resp p w.

Definition call (ep : option (string * Z)) (f : store_function) (req : store_Req f) (resp : store_Resp f) (w : W)
    : Z * store_Resp f * W := Rpc.call_endpoint uri ep (OfStore f) req resp w.
End client.
End StoreClient.

Module SchedulerClient.
Section client.
Context {W : Type} `{PR : !Phxrpc Req Resp W, IN : Inet}.

Definition Proto (f : scheduler_function) (req : scheduler_Req f) (resp : scheduler_Resp f) (p : gmap Z (list nat)) (w : W)
    : Z * scheduler_Resp f * gmap Z (list nat) * W :=
  Rpc.Proto uri master_addr (OfScheduler f) req resp p w.

Definition call (ep : option (string * Z)) (f : scheduler_function) (req : scheduler_Req f) (resp : scheduler_Resp f)
    (w : W) : Z * scheduler_Resp f * W := Rpc.call_endpoint uri ep (OfScheduler f) req resp w.
End client.
End SchedulerClient.

(** ** The services *)

Module LockServiceImpl.
Section service.
Context `{LDB : LevelDB, RC : RecordCodec, LC : LockCodec, LD : LockDirectory, TD : TopicDirectory}.
Context `{PN : PaxosNode, PR : PaxosRet, IN : Inet, LP : !LockPropose}.
Context (std_hash : string -> Z) (opt : LockOption) (topic_id : Z).

Definition run (f : lock_function) : lock_Req f -> list LockMgr.GroupData -> option (Z * lock_Resp f * list LockMgr.GroupData) :=
  match f return lock_Req f -> list LockMgr.GroupData -> option (Z * lock_Resp f * list LockMgr.GroupData) with
  | PHXEcho => fun req gs => Some (0, req, gs)
  | GetString => fun req gs =>
      r ← Lock.GetString std_hash opt topic_id gs (gt_key req);
      let '(ret, info, redirect) := r in Some (as_integer ret, (info, redirect), gs)
  | SetString => fun req gs =>
      let '(ret, redirect, gs) := Lock.SetString std_hash opt topic_id gs req in Some (as_integer ret, redirect, gs)
  | DeleteString => fun req gs =>
      let '(ret, redirect, gs) := Lock.DeleteString std_hash opt topic_id gs (ds_topic_id req) (ds_lock_id req)
                                    (ds_key req) (ds_version req) (ds_master_addr req) in
      Some (as_integer ret, redirect, gs)
  | GetLockInfo => fun req gs =>
      r ← Lock.GetLockInfo std_hash opt topic_id gs (gq_lock_key (message req));
      let '(ret, info, redirect) := r in Some (as_integer ret, (info, redirect), gs)
  | AcquireLock => fun req gs =>
      r ← Lock.AcquireLock std_hash opt topic_id gs req;
      let '(ret, redirect, gs) := r in Some (as_integer ret, redirect, gs)
  end.
End service.
End LockServiceImpl.

Module StoreServiceImpl.
Section service.
Context (crc32 : Z -> Z -> Z) `{GC : GlobalConfig, PN : PaxosNode, SC : StoreCodec, IN : Inet}.
Context `{TD : TopicDirectory, PR : PaxosRet, PP : PaxosBatchPropose}.
Context (opt : StoreOption) (topic_id : Z).

(** [now] and [clock] are what the clocks of the call show. *)
Definition run (now : Z) (clock : nat -> Z) (f : store_function) : store_Req f -> Store -> option (Z * store_Resp f * Store) :=
  match f return store_Req f -> Store -> option (Z * store_Resp f * Store) with
  | Store_PHXEcho => fun req s => Some (0, req, s)
  | Add => fun req s =>
      let '(ret, resp, s) := StoreService.Add opt topic_id now s (message req) in Some (as_integer ret, resp, s)
  | Get => fun req s =>
      r ← StoreService.Get crc32 opt topic_id clock s (message req) (mkGetResponse [] 0 0);
      let '(ret, resp, redirect, s) := r in Some (as_integer ret, (resp, redirect), s)
  end.
End service.
End StoreServiceImpl.

Module SchedulerServiceImpl.
Section service.
Context `{IN : Inet, GC : GlobalConfig, TD : TopicDirectory, CD : ConsumerDirectory} (opt : SchedulerMgr.SchedulerOption).
Context (NeedSkipUpdateLoad : GetAddrScaleRequest -> bool).

Definition run (now : Z) (f : scheduler_function)
    : scheduler_Req f -> SchedulerMgr.t -> option (Z * scheduler_Resp f * SchedulerMgr.t) :=
  match f return scheduler_Req f -> SchedulerMgr.t -> option (Z * scheduler_Resp f * SchedulerMgr.t) with
  | Scheduler_PHXEcho => fun req s => Some (0, req, s)
  | GetAddrScale => fun req s =>
      r ← SchedulerMgr.GetAddrScale opt NeedSkipUpdateLoad s now (message req);
      let '(ret, weights, s) := r in Some (as_integer ret, weights, s)
  end.
End service.
End SchedulerServiceImpl.

(** ** The servers *)

Inductive server `{LDB : LevelDB} :=
| LockServer (gs : list LockMgr.GroupData)
| StoreServer (s : Store) (now : Z) (clock : nat -> Z)
| SchedulerServer (s : SchedulerMgr.t) (now : Z).

Inductive service_kind := LockService | StoreService | SchedulerService.

Section servers.
Context (crc32 : Z -> Z -> Z) (std_hash : string -> Z) (NeedSkipUpdateLoad : GetAddrScaleRequest -> bool).
Context `{GC : GlobalConfig, TD : TopicDirectory, LD : LockDirectory, CD : ConsumerDirectory, IN : Inet}.
Context `{LDB : LevelDB, RC : RecordCodec, LC : LockCodec, SC : StoreCodec, PRet : PaxosRet}.

(** What the server at an address runs, and its node. *)
#[local] Notation host := (string * Z)%type.
Context (kind : host -> service_kind) (node : host -> PaxosNode) (topic_of : host -> Z).
Context (lock_opt : host -> LockOption) (lock_propose : host -> LockPropose).
Context (store_opt : host -> StoreOption) (store_propose : host -> PaxosBatchPropose).
Context (scheduler_opt : host -> SchedulerMgr.SchedulerOption).

Definition uri_func_map (h : host) : list (string * function) :=
  match kind h with
  | LockService => lock_GetURIFuncMap
  | StoreService => store_GetURIFuncMap
  | SchedulerService => scheduler_GetURIFuncMap
  end.

Definition service (h : host) (f : function) : Req f -> server -> option (Z * Resp f * server) :=
  match f return Req f -> server -> option (Z * Resp f * server) with
  | OfLock f => fun req st =>
      match st with
      | LockServer gs =>
          r ← LockServiceImpl.run (PN := node h) (LP := lock_propose h) std_hash (lock_opt h) (topic_of h) f req gs;
          Some (r.1, LockServer r.2)
      | _ => None
      end
  | OfStore f => fun req st =>
      match st with
      | StoreServer s now clock =>
          r ← StoreServiceImpl.run (PN := node h) (PP := store_propose h) crc32 (store_opt h) (topic_of h) now clock f req s;
          Some (r.1, StoreServer r.2 now clock)
      | _ => None
      end
  | OfScheduler f => fun req st =>
      match st with
      | SchedulerServer s now =>
          r ← SchedulerServiceImpl.run (scheduler_opt h) NeedSkipUpdateLoad now f req s;
          Some (r.1, SchedulerServer r.2 now)
      | _ => None
      end
  end.

Definition of_kind (k : service_kind) (f : function) : Prop :=
  match f, k with
  | OfLock _, LockService | OfStore _, StoreService | OfScheduler _, SchedulerService => True
  | _, _ => False
  end.

(** The uri of a stub is found in the table of its dispatcher. *)
Lemma find_uri h f : of_kind (kind h) f -> Rpc.find_func (uri_func_map h) (uri f) = Some f.
Proof. unfold uri_func_map, of_kind. destruct f as [f|f|f], (kind h); intros Hk; try done; by destruct f. Qed.

Context {W : Type} {PR : Phxrpc Req Resp W} {states : host -> server -> Prop} {others : W -> W -> Prop}.
Context {PL : PhxrpcLaws PR uri_func_map service states others} {LL : LevelDBLaws LDB} {RL : RecordCodecLaws RC}.

End servers.
