(* ===== verification/SchedulerSync.v ===== *)
(** * Consumers and the scheduler together

    The consumers of src/phxqueue/consumer/hblock.cpp ask the scheduler of
    src/phxqueue/scheduler/schedulermgr.cpp for their weights.  The scheduler
    tells all of them the same between two rounds of balancing
    ([Scheduler]), and consumers with the same weights handle every queue
    once ([HeartBeatSync]). *)

From S2P Require Import Prelude HashUtil RetCode TopicConfig StoreConfig Node ConsumerConfig.
From S2P Require Import HeartBeatLock HeartBeatSync Float Scheduler.

#[local] Set Default Proof Using "Type".

Module SchedulerSync.
Import HeartBeatSync.
Section cluster.
Context `{IN : Inet, GC : GlobalConfig, TD : TopicDirectory, CD : ConsumerDirectory}.
Context (so : SchedulerMgr.SchedulerOption) (NeedSkipUpdateLoad : GetAddrScaleRequest -> bool).
Context (crc32 : Z -> list Z -> Z) (topic_id : Z).

(** The call of a consumer reaches the scheduler: the world is the state of
    the scheduler and its clock.  A scheduler whose conversion of a load is
    undefined does not answer. *)
Definition scheduler_call (req : GetAddrScaleRequest) (w : SchedulerMgr.t * Z)
    : RetCode * list AddrScale * (SchedulerMgr.t * Z) :=
  match SchedulerMgr.GetAddrScale so NeedSkipUpdateLoad w.1 w.2 req with
  | Some (ret, l, s) => (ret, l, (s, w.2))
  | None => (RET_ERR_SYS, [], w)
  end.

(** The weights that the scheduler has for a group. *)
Definition weights_of_group (g : Z) (weights : list AddrScale) : list AddrScale :=
  filter (fun a => serves topic_id g a = true) weights.

(** A consumer that is answered uses the weights of the scheduler for a
    dynamic group that it serves. *)
Lemma answered_scales opt h cpu w m g weights tc ids :
  SchedulerMgr.reports so NeedSkipUpdateLoad m w.1 -> SchedulerMgr.topic_weights m topic_id = Some weights ->
  GetTopicConfigByTopicID topic_id = (RET_OK, Some tc) -> is_dynamic tc g = true ->
  GetConsumerGroupIDsByConsumerAddr topic_id (self_addr opt) = (RET_OK, ids) -> g ∈ ids ->
  (scheduler_call (addr_scale_request topic_id opt (UpdateProcUsed h) cpu) w).1.1 = RET_OK ->
  weights_of_group g weights <> [] ->
  scales_of scheduler_call topic_id opt h cpu w !! g = Some (weights_of_group g weights).
Proof.
  clear crc32. intros Hrep Hw Ht Hd Hids Hg Hans Hne. unfold scales_of, GetAddrScale.
  destruct (GetConsumerConfig topic_id) as [rc [cc|]] eqn:Ec.
  2: { unfold GetConsumerGroupIDsByConsumerAddr in Hids. rewrite Ec in Hids. destruct rc; simplify_eq. }
  destruct rc; try (unfold GetConsumerGroupIDsByConsumerAddr in Hids; rewrite Ec in Hids; by simplify_eq).
  rewrite Hids, Ht. set (dynamic := filter (fun id => is_dynamic tc id = true) ids).
  assert (Hgd : g ∈ dynamic) by (unfold dynamic; by apply elem_of_filter).
  rewrite (bool_decide_eq_false_2 (dynamic = ∅)) by set_solver.
  destruct (scheduler_call _ w) as [[ret l] w1] eqn:Ecall. simpl in Hans. subst ret.
  assert (l = weights) as ->.
  { unfold scheduler_call in Ecall. destruct (SchedulerMgr.GetAddrScale _ _ _ _ _) as [[[r l1] s1]|] eqn:Ea; [|done].
    injection Ecall as -> -> <-. apply SchedulerMgr.GetAddrScale_weights in Ea as [_ Ea].
    destruct (Ea eq_refl) as [E _]. cbn [addr_scale_request gs_topic_id] in E.
    rewrite (SchedulerMgr.reports_weights so NeedSkipUpdateLoad m), Hw in E by done. congruence. }
  cbn [fst snd]. rewrite collect_lookup, (bool_decide_eq_true_2 (g ∈ dynamic)), (bool_decide_eq_true_2 (g ∈ ids)) by done.
  cbn zeta. unfold weights_of_group in *. by destruct (filter _ weights).
Qed.

(** C9: Each queue of a dynamic group is handled at one address.  Between two
    rounds of balancing, let consumers that serve the group sync with the
    scheduler, which has a positive weight for at least one consumer of the
    group.  Then for every queue of the group there is one address with a
    positive weight such that a consumer that was answered, redistributes the
    group and has enough processes holds the queue exactly when it has that
    address; whatever the consumers report and in whichever order they come. *)
Theorem scheduled_handles_once m g weights all queue tc :
  int_ids topic_id -> GetAllQueues topic_id g = Some (RET_OK, all) -> queue ∈ all ->
  GetTopicConfigByTopicID topic_id = (RET_OK, Some tc) -> is_dynamic tc g = true ->
  SchedulerMgr.topic_weights m topic_id = Some weights ->
  (exists a, a ∈ weights_of_group g weights /\ 0 < as_scale a) ->
  exists a, a ∈ weights_of_group g weights /\ 0 < as_scale a /\
  forall opt h cpu w h' w' ids,
    SchedulerMgr.reports so NeedSkipUpdateLoad m w.1 ->
    GetConsumerGroupIDsByConsumerAddr topic_id (self_addr opt) = (RET_OK, ids) -> g ∈ ids ->
    set_Forall is_i32 (dom (scales_of scheduler_call topic_id opt h cpu w)) ->
    (scheduler_call (addr_scale_request topic_id opt (UpdateProcUsed h) cpu) w).1.1 = RET_OK ->
    Sync scheduler_call crc32 topic_id opt h cpu w = Some (RET_OK, h', w') ->
    changed crc32 (served scheduler_call topic_id opt h cpu w) (GetLastModTime topic_id) g (weights_of_group g weights) = true ->
    enough scheduler_call crc32 topic_id opt h cpu w g ->
    (HeartBeatLock.key queue ∈ HeartBeatLock.held (to_u32 g) (HeartBeatLock.queues h') <->
     Consumer.local_encoded_addr opt = EncodeAddr (as_addr a)).
Proof.
  intros Hids Hall Hq Ht Hd Hw Hpos.
  destruct (handles_once scheduler_call crc32 topic_id g (weights_of_group g weights) all queue Hids Hall Hq Hpos)
    as (a & Ha & Hap & H). exists a. split_and!; [done..|].
  intros opt h cpu w h' w' ids Hrep Hg Hgin Hi Hans HS Hc Hen. apply (H opt h cpu w h' w'); [done|done| |done].
  split; [|done]. eapply answered_scales; [done..|]. intros E. destruct Hpos as (b & Hb & _). rewrite E in Hb. by apply elem_of_nil in Hb.
Qed.
End cluster.
End SchedulerSync.
