(* ===== verification/KeepMaster.v ===== *)
(** * The master of the schedulers

    [KeepMasterThread::KeepMaster] of src/phxqueue/scheduler/keepmasterthread.cpp
    and [Scheduler::InitTopicID] of src/phxqueue/scheduler/scheduler.cpp.  A
    scheduler is master while it holds a lock of the lock server; it counts the
    lease of its own lock from the clock reading before the calls, and the
    lease of another one's from the reading with which it first saw it.

    [KeepMaster] runs a call after the other.  [Masters] is the state machine of
    several schedulers whose calls interleave at the lock server. *)

From S2P Require Import Prelude Keys HashUtil RetCode TopicConfig StoreConfig Node LockConfig SchedulerConfig.
From S2P Require Import MasterClient LockDb LockMgr LockSM ConsumerConfig HeartBeatLock QueueLock Float Scheduler.

#[local] Set Default Proof Using "Type".

Module KeepMaster.

(** ** The decisions *)

(** The version and when it is overdue, after the lock server's answer to a
    call that started at [now]. *)
Definition observed (now : Z) (ret : RetCode) (info : LockInfo) (version overdue_time_ms : Z) : Z * Z :=
  if bool_decide (ret = RET_ERR_KEY_NOT_EXIST) then (0, now)
  else if version =? li_version info then (version, overdue_time_ms)
  else (li_version info, to_u64 (now + li_lease_time_ms info)).

Definition need_acquire_lock (client_id : string) (now : Z) (ret : RetCode) (info : LockInfo) (overdue_time_ms : Z) : bool :=
  bool_decide (ret = RET_ERR_KEY_NOT_EXIST) || bool_decide (client_id = li_client_id info) || (overdue_time_ms <? now).

Section keep.
Context `{GC : GlobalConfig, TD : TopicDirectory, LD : LockDirectory, SD : SchedulerDirectory}.
Context {W : Type} `{CE : ClientEnv W, LR : LockRpc W}.
Context (opt : SchedulerMgr.SchedulerOption) (NeedDropMaster : bool).

(** The thread-local variables, the cache of the lock's master, the state of
    the scheduler. *)
Record t := mk {
  version : Z;
  overdue_time_ms : Z;
  addr_cache_ : gmap string (Addr * Z);
  mgr : SchedulerMgr.t;
}.

Definition set_cache (st : t) (c : gmap string (Addr * Z)) : t := mk (version st) (overdue_time_ms st) c (mgr st).

(** [Scheduler::RawGetLockInfo] and [RawAcquireLock]. *)
Definition RawGetLockInfo (lock_id : Z) (lock_key : string) (st : t) (w : W) : RetCode * LockInfo * t * W :=
  let topic_id := SchedulerMgr.so_topic_id opt in
  let '(ret, resp, c, w) :=
    MasterClient.ClientCall gr_redirect_addr (rpc_GetLockInfo (mkGetLockInfoRequest topic_id lock_id lock_key))
      (lock_route_key topic_id lock_id lock_key) (lock_candidates topic_id lock_id)
      (mkGetLockInfoResponse no_lock_info no_addr) (addr_cache_ st) w in
  (ret, gr_lock_info resp, set_cache st c, w).

Definition RawAcquireLock (lock_id : Z) (lock_info : LockInfo) (st : t) (w : W) : RetCode * t * W :=
  let topic_id := SchedulerMgr.so_topic_id opt in
  let '(ret, _, c, w) :=
    MasterClient.ClientCall (fun addr => addr) (rpc_AcquireLock topic_id lock_id lock_info)
      (lock_route_key topic_id lock_id (li_lock_key lock_info)) (lock_candidates topic_id lock_id)
      no_addr (addr_cache_ st) w in
  (ret, set_cache st c, w).

Definition GetLockID : RetCode * option Z :=
  match GetLockConfig (SchedulerMgr.so_topic_id opt) with
  | (RET_OK, Some lock_config) =>
      match LockConfig.GetAllLockID lock_config ∅ with
      | (RET_OK, lock_ids) =>
          match set_items lock_ids with
          | [] => (RET_ERR_RANGE_LOCK, None)
          | lock_id :: _ => (RET_OK, Some lock_id)
          end
      | (ret, _) => (ret, None)
      end
  | (ret, _) => (ret, None)
  end.

(** The calls, once the configuration is read. *)
Definition keep_master (lock_id lease_time_ms : Z) (lock_key : string) (st : t) (w : W) : RetCode * t * W :=
  let client_id := SchedulerMgr.so_ip opt in
  let '(now, w) := GetSteadyClockMS w in
  let '(ret, info, st, w) := RawGetLockInfo lock_id lock_key st w in
  if negb (bool_decide (ret = RET_ERR_KEY_NOT_EXIST)) && negb (is_ok ret) then (ret, st, w) else
  let '(v, overdue) := observed now ret info (version st) (overdue_time_ms st) in
  let st := mk v overdue (addr_cache_ st) (mgr st) in
  if need_acquire_lock client_id now ret info overdue then
    let '(ret, st, w) := RawAcquireLock lock_id (mkLockInfo lock_key v client_id lease_time_ms) st w in
    if is_ok ret then
      let '(ret, m) := SchedulerMgr.RenewMaster (mgr st) (to_u64 (now + lease_time_ms)) in
      (ret, mk (version st) (overdue_time_ms st) (addr_cache_ st) m, w)
    else (ret, st, w)
  else (RET_NO_NEED_LOCK, st, w).

Definition KeepMaster (st : t) (w : W) : RetCode * t * W :=
  if NeedDropMaster then (RET_ERR_SVR_BLOCK, st, w) else
  match GetLockID with
  | (RET_OK, Some lock_id) =>
      match GetTopicConfigByTopicID (SchedulerMgr.so_topic_id opt) with
      | (RET_OK, Some topic_config) =>
          let t := TopicConfig.topic (TopicConfig.proto topic_config) in
          keep_master lock_id (to_u64 (TopicConfig.scheduler_lock_lease_time_s t * 1000))
            (TopicConfig.scheduler_lock_key t) st w
      | (ret, _) => (ret, st, w)
      end
  | (ret, _) => (ret, st, w)
  end.

(** [Scheduler::InitTopicID]: the topic named, or the one whose scheduler has
    this address. *)
Definition has_addr (a : Addr) : bool :=
  bool_decide (ip a = SchedulerMgr.so_ip opt) && (port a =? SchedulerMgr.so_port opt).

Definition serves_topic (topic_id : Z) : bool :=
  match GetSchedulerConfig topic_id with
  | (RET_OK, Some scheduler_config) => let '(ret, addrs) := SchedulerConfig.GetScheduler scheduler_config in
                                       is_ok ret && existsb has_addr addrs
  | _ => false
  end.

Definition InitTopicID (topic : string) : RetCode * option Z :=
  if negb (bool_decide (topic = ""%string)) then
    let '(ret, topic_id) := GetTopicIDByTopicName topic in (ret, if is_ok ret then Some topic_id else None)
  else
    match GetAllTopicID with
    | (RET_OK, topic_ids) =>
        match list_find (fun topic_id => serves_topic topic_id = true) (set_items topic_ids) with
        | Some (_, topic_id) => (RET_OK, Some topic_id)
        | None => (RET_ERR_RANGE_ADDR, None)
        end
    | (ret, _) => (ret, None)
    end.

(** ** One scheduler *)

Lemma RawGetLockInfo_state lock_id key st w ret info st' w' :
  RawGetLockInfo lock_id key st w = (ret, info, st', w') ->
  version st' = version st /\ overdue_time_ms st' = overdue_time_ms st /\ mgr st' = mgr st.
Proof. unfold RawGetLockInfo. by destruct (MasterClient.ClientCall _ _ _ _ _ _ _) as [[[? ?] ?] ?]; intros; simplify_eq. Qed.

Lemma RawAcquireLock_state lock_id info st w ret st' w' :
  RawAcquireLock lock_id info st w = (ret, st', w') ->
  version st' = version st /\ overdue_time_ms st' = overdue_time_ms st /\ mgr st' = mgr st.
Proof. unfold RawAcquireLock. by destruct (MasterClient.ClientCall _ _ _ _ _ _ _) as [[[? ?] ?] ?]; intros; simplify_eq. Qed.

(** The mastership is renewed only with the lock, and no longer than its
    lease.  A [keep_master] changes the time until which the scheduler is
    master only when it returns RET_OK; then the lock server has just granted
    the lock to this scheduler, in the version it had shown, and the new time
    is the clock reading before the calls plus the lease that was asked for. *)
Theorem keep_master_ok lock_id lease key st w ret st' w' :
  keep_master lock_id lease key st w = (ret, st', w') ->
  (ret <> RET_OK /\ mgr st' = mgr st) \/
  (ret = RET_OK /\ exists now w1 ret1 info st1 w2 v overdue st2,
     GetSteadyClockMS w = (now, w1) /\ RawGetLockInfo lock_id key st w1 = (ret1, info, st1, w2) /\
     observed now ret1 info (version st) (overdue_time_ms st) = (v, overdue) /\
     need_acquire_lock (SchedulerMgr.so_ip opt) now ret1 info overdue = true /\
     RawAcquireLock lock_id (mkLockInfo key v (SchedulerMgr.so_ip opt) lease)
       (mk v overdue (addr_cache_ st1) (mgr st)) w2 = (RET_OK, st2, w') /\
     SchedulerMgr.master_expire_time_ms (mgr st') = to_u64 (now + lease)).
Proof.
  unfold keep_master. destruct (GetSteadyClockMS w) as [now w1] eqn:Ec.
  destruct (RawGetLockInfo lock_id key st w1) as [[[ret1 info] st1] w2] eqn:Eg.
  pose proof (RawGetLockInfo_state _ _ _ _ _ _ _ _ Eg) as (E1 & E2 & E3).
  destruct (negb (bool_decide (ret1 = _)) && negb (is_ok ret1)) eqn:Eerr.
  { intros [= <- <- <-]. left. split; [|done]. intros ->. by rewrite andb_false_r in Eerr. }
  destruct (observed now ret1 info (version st1) (overdue_time_ms st1)) as [v overdue] eqn:Eo.
  rewrite E3. destruct (need_acquire_lock _ _ _ _ _) eqn:En; [|intros [= <- <- <-]; by left].
  destruct (RawAcquireLock _ _ _ _) as [[ret2 st2] w3] eqn:Ea.
  pose proof (RawAcquireLock_state _ _ _ _ _ _ _ Ea) as (_ & _ & E6). simpl in E6.
  destruct (is_ok ret2) eqn:Eok.
  - apply is_ok_true in Eok as ->. cbn [SchedulerMgr.RenewMaster]. intros [= <- <- <-]. right. split; [done|].
    rewrite E1, E2 in Eo. by exists now, w1, ret1, info, st1, w2, v, overdue, st2.
  - intros [= <- <- <-]. left. split; [by intros ->|done].
Qed.

(** Schedulers on one host share the lock.  A scheduler names itself to the
    lock server by its IP alone; so when another scheduler on the same host
    holds the lock, it asks for it at once, whatever the lease. *)
Theorem same_host_acquires lock_id lease key st w now w1 info st1 w2 :
  GetSteadyClockMS w = (now, w1) -> RawGetLockInfo lock_id key st w1 = (RET_OK, info, st1, w2) ->
  li_client_id info = SchedulerMgr.so_ip opt ->
  exists overdue, keep_master lock_id lease key st w =
    (let '(ret, st2, w3) := RawAcquireLock lock_id (mkLockInfo key (li_version info) (SchedulerMgr.so_ip opt) lease)
       (mk (li_version info) overdue (addr_cache_ st1) (mgr st1)) w2 in
     if is_ok ret then (RET_OK, mk (version st2) (overdue_time_ms st2) (addr_cache_ st2)
                          (SchedulerMgr.RenewMaster (mgr st2) (to_u64 (now + lease))).2, w3)
     else (ret, st2, w3)).
Proof.
  intros Hc Hg Hi. unfold keep_master. rewrite Hc, Hg. change (is_ok RET_OK) with true. rewrite andb_false_r.
  unfold observed, need_acquire_lock. rewrite bool_decide_eq_false_2 by done. rewrite Hi, (bool_decide_eq_true_2 (_ = _)) by done.
  destruct (Z.eqb_spec (version st1) (li_version info)) as [E|E]; rewrite ?E; by eexists.
Qed.
End keep.
End KeepMaster.

(** ** Several schedulers

    Schedulers, named by their client id, run [KeepMaster] at the same time.
    A call is cut where it leaves the scheduler: it reads the clock
    ([step_look]), the lock server answers ([step_answer]), the lock server
    executes the request ([step_execute]), the reply arrives ([step_reply]).
    Calls may fail at every point ([step_fail]).  Time is one clock; an answer
    takes at most [d] ms; the lock server executes the compare-and-swap of
    [LockDb] and gives every record a new version, and may drop a record whose
    lease has run out, as its clean thread does. *)
Module Masters.
Import KeepMaster.
Section masters.
Context (lease d : Z) (lease_ok : 0 <= lease /\ 0 <= d).

Inductive pc :=
| Idle
| Looking (now : Z)
| Acquiring (now version : Z)
| Granted (now : Z).

Record client := mkClient {
  c_pc : pc;
  c_version : Z;
  c_overdue : Z;
  c_expire : Z;                (* [master_expire_time_ms] *)
}.

Record lock := mkLock {
  l_version : Z;
  l_holder : string;
  l_granted : Z;               (* when the server executed the request *)
}.

Record state := mkState {
  now : Z;
  record : option lock;
  next_version : Z;
  clients : string -> client;
}.

Definition set_client (s : state) (c : string) (k : client) : state :=
  mkState (now s) (record s) (next_version s) (fun x => if decide (x = c) then k else clients s x).

Definition set_pc (k : client) (p : pc) : client := mkClient p (c_version k) (c_overdue k) (c_expire k).

(** What the lock server shows. *)
Definition shown (r : option lock) : RetCode * LockInfo :=
  match r with
  | None => (RET_ERR_KEY_NOT_EXIST, no_lock_info)
  | Some l => (RET_OK, mkLockInfo "" (l_version l) (l_holder l) lease)
  end.

(** The scheduler [c] after the answer to a look at [t0]. *)
Definition answered (c : string) (t0 : Z) (r : option lock) (k : client) : client :=
  let '(ret, info) := shown r in
  let '(v, overdue) := observed t0 ret info (c_version k) (c_overdue k) in
  mkClient (if need_acquire_lock c t0 ret info overdue then Acquiring t0 v else Idle) v overdue (c_expire k).

(** The condition of [LockDb.cas]. *)
Definition accepts (r : option lock) (version : Z) : bool :=
  LockDb.version_ok false ((fun l => mkRecord (l_version l) (l_holder l) lease 0) <$> r) version.

Definition initial (t0 : Z) : state := mkState t0 None 1 (fun _ => mkClient Idle 0 0 0).

Inductive step : state -> state -> Prop :=
| step_tick s t : now s <= t -> t + lease <= UINT64_MAX ->
    step s (mkState t (record s) (next_version s) (clients s))
| step_look s c : c_pc (clients s c) = Idle ->
    step s (set_client s c (set_pc (clients s c) (Looking (now s))))
| step_answer s c t0 : c_pc (clients s c) = Looking t0 -> now s - t0 <= d ->
    step s (set_client s c (answered c t0 (record s) (clients s c)))
| step_execute s c t0 v : c_pc (clients s c) = Acquiring t0 v -> accepts (record s) v = true ->
    step s (mkState (now s) (Some (mkLock (next_version s) c (now s))) (next_version s + 1)
              (clients (set_client s c (set_pc (clients s c) (Granted t0)))))
| step_reply s c t0 : c_pc (clients s c) = Granted t0 ->
    step s (set_client s c (mkClient Idle (c_version (clients s c)) (c_overdue (clients s c)) (to_u64 (t0 + lease))))
| step_fail s c :
    step s (set_client s c (set_pc (clients s c) Idle))
| step_clean s l : record s = Some l -> l_granted l + lease < now s ->
    step s (mkState (now s) None (next_version s) (clients s)).

Inductive reachable (t0 : Z) : state -> Prop :=
| reachable_initial : 0 <= t0 -> t0 + lease <= UINT64_MAX -> reachable t0 (initial t0)
| reachable_step s s' : reachable t0 s -> step s s' -> reachable t0 s'.

Definition is_master (s : state) (c : string) : Prop := now s < c_expire (clients s c).

(** ** At most one master *)

(** The clock reading of a call that is under way. *)
Definition pc_time (p : pc) : option Z :=
  match p with Idle => None | Looking t => Some t | Acquiring t _ => Some t | Granted t => Some t end.

(** What is known of the past: [last c] is the clock reading of the call of [c]
    that was executed last, [owner v] who was granted version [v]. *)
Record inv (last : string -> option Z) (owner : Z -> option string) (s : state) : Prop := {
  inv_now : 0 <= now s /\ now s + lease <= UINT64_MAX;
  inv_next : 1 <= next_version s;
  inv_pc : forall c t, c_pc (clients s c) = Looking t \/ (exists v, c_pc (clients s c) = Acquiring t v) \/
                       c_pc (clients s c) = Granted t ->
             0 <= t <= now s /\ (forall t', last c = Some t' -> t' <= t);
  inv_last : forall c t, last c = Some t -> 0 <= t <= now s;
  inv_granted : forall c t, c_pc (clients s c) = Granted t -> last c = Some t;
  inv_expire : forall c, c_expire (clients s c) = 0 \/ exists t, last c = Some t /\ c_expire (clients s c) <= t + lease;
  inv_version : forall c, 0 <= c_version (clients s c) < next_version s;
  inv_record : forall l, record s = Some l ->
    0 < l_version l < next_version s /\ owner (l_version l) = Some (l_holder l) /\ l_granted l <= now s /\
    (exists t, last (l_holder l) = Some t /\ t <= l_granted l) /\
    (forall c, c_version (clients s c) = l_version l -> l_granted l - d + lease <= c_overdue (clients s c));
  inv_acquiring : forall c t v, c_pc (clients s c) = Acquiring t v ->
    v = c_version (clients s c) /\ (v = 0 \/ owner v = Some c \/ c_overdue (clients s c) < t);
  inv_exclusive : forall c t, last c = Some t ->
    (exists l, record s = Some l /\ l_holder l = c) \/ t + lease - d < now s;
}.

Lemma set_client_eq s c k : clients (set_client s c k) c = k.
Proof. simpl. by rewrite decide_True. Qed.

Lemma set_client_ne s c k x : x <> c -> clients (set_client s c k) x = clients s x.
Proof. intros. simpl. by rewrite decide_False. Qed.

(** A scheduler that changes neither the record nor its expiry. *)
Lemma inv_set_client last owner s c k :
  inv last owner s ->
  (forall t, c_pc k = Looking t \/ (exists v, c_pc k = Acquiring t v) \/ c_pc k = Granted t ->
     0 <= t <= now s /\ (forall t', last c = Some t' -> t' <= t)) ->
  (forall t, c_pc k = Granted t -> last c = Some t) ->
  (c_expire k = 0 \/ exists t, last c = Some t /\ c_expire k <= t + lease) ->
  0 <= c_version k < next_version s ->
  (forall l, record s = Some l -> c_version k = l_version l -> l_granted l - d + lease <= c_overdue k) ->
  (forall t v, c_pc k = Acquiring t v -> v = c_version k /\ (v = 0 \/ owner v = Some c \/ c_overdue k < t)) ->
  inv last owner (set_client s c k).
Proof.
  intros [] Hpc Hgr Hex Hv Hr Hac.
  split; try done.
  - intros x t. destruct (decide (x = c)) as [->|Hne]; [rewrite set_client_eq; apply Hpc|].
    rewrite set_client_ne by done. apply inv_pc0.
  - intros x t. destruct (decide (x = c)) as [->|Hne]; [rewrite set_client_eq; apply Hgr|].
    rewrite set_client_ne by done. apply inv_granted0.
  - intros x. destruct (decide (x = c)) as [->|Hne]; [rewrite set_client_eq; apply Hex|].
    rewrite set_client_ne by done. apply inv_expire0.
  - intros x. destruct (decide (x = c)) as [->|Hne]; [rewrite set_client_eq; apply Hv|].
    rewrite set_client_ne by done. apply inv_version0.
  - intros l Hl. destruct (inv_record0 l Hl) as (H1 & H2 & H3 & H4 & H5).
    do 4 (split; [done|]). intros x. destruct (decide (x = c)) as [->|Hne]; [rewrite set_client_eq; by apply Hr|].
    rewrite set_client_ne by done. apply H5.
  - intros x t v. destruct (decide (x = c)) as [->|Hne]; [rewrite set_client_eq; apply Hac|].
    rewrite set_client_ne by done. apply inv_acquiring0.
Qed.

Lemma inv_step_answer last owner s c t0 :
  inv last owner s -> c_pc (clients s c) = Looking t0 -> now s - t0 <= d ->
  inv last owner (set_client s c (answered c t0 (record s) (clients s c))).
Proof using lease_ok.
  intros Hi Hpc Hd. pose proof Hi as [(Hn & Hn2) Hnx Hp Hl Hg He Hv Hr Ha Hx].
  destruct (Hp c t0 (or_introl Hpc)) as [Ht Hlast].
  assert (Hpc' : forall (k : client) t, (c_pc k = Idle \/ exists v, c_pc k = Acquiring t0 v) ->
    c_pc k = Looking t \/ (exists v, c_pc k = Acquiring t v) \/ c_pc k = Granted t ->
    0 <= t <= now s /\ (forall t', last c = Some t' -> t' <= t)).
  { intros k t [E|[v0 E]] [?|[[v ?]|?]]; try congruence. assert (t = t0) as -> by congruence. done. }
  unfold answered, shown. destruct (record s) as [l|] eqn:Er.
  - destruct (Hr l eq_refl) as (Hlv & How & Hgr & _ & Hov). cbn [observed].
    unfold observed, need_acquire_lock. rewrite !bool_decide_eq_false_2 with (P := RET_OK = _) by done.
    cbn [li_version li_client_id li_lease_time_ms orb].
    set (ov := if c_version (clients s c) =? l_version l then c_overdue (clients s c) else to_u64 (t0 + lease)).
    replace (if c_version (clients s c) =? l_version l then _ else _) with (l_version l, ov).
    2: { unfold ov. destruct (Z.eqb_spec (c_version (clients s c)) (l_version l)) as [->|]; done. }
    assert (Hov' : l_granted l - d + lease <= ov).
    { unfold ov. destruct (Z.eqb_spec (c_version (clients s c)) (l_version l)); [by apply Hov|]. rewrite to_u64_id by ilia. lia. }
    destruct (_ || _) eqn:En; (apply inv_set_client; simpl; [done| |done|by apply He|lia| |]).
    + intros t Hk. eapply (Hpc' (mkClient (Acquiring t0 (l_version l)) 0 0 0)); [right; by eexists|exact Hk].
    + rewrite Er. intros l' [= <-] _. done.
    + intros t v [= <- <-]. split; [done|]. simpl_bool. destruct En as [En|En]; simpl_bool; [right; left|by right; right].
      by subst c.
    + intros t Hk. eapply (Hpc' (mkClient Idle 0 0 0)); [by left|exact Hk].
    + rewrite Er. intros l' [= <-] _. done.
    + done.
  - unfold observed, need_acquire_lock. rewrite !bool_decide_eq_true_2 by done. simpl.
    apply inv_set_client; simpl; [done| |done|by apply He|lia| |].
    + intros t Hk. eapply (Hpc' (mkClient (Acquiring t0 0) 0 0 0)); [right; by eexists|exact Hk].
    + rewrite Er. done.
    + intros t v [= <- <-]. split; [done|by left].
Qed.

Lemma inv_step_execute last owner s c t0 v :
  inv last owner s -> c_pc (clients s c) = Acquiring t0 v -> accepts (record s) v = true ->
  inv (fun x => if decide (x = c) then Some t0 else last x)
    (fun x => if decide (x = next_version s) then Some c else owner x)
    (mkState (now s) (Some (mkLock (next_version s) c (now s))) (next_version s + 1)
       (clients (set_client s c (set_pc (clients s c) (Granted t0))))).
Proof using lease_ok.
  intros [(Hn & Hn2) Hnx Hp Hl Hg He Hv Hr Ha Hx] Hpc Hacc.
  destruct (Hp c t0) as [Ht Hlast]; [right; left; by eexists|]. destruct (Ha c t0 v Hpc) as [Hvc Hwhy].
  assert (Hown : forall x k, x < next_version s -> (if decide (x = next_version s) then Some k else owner x) = owner x).
  { intros x k Hlt. rewrite decide_False by lia. done. }
  split; cbn [now record next_version clients set_client].
  - done.
  - lia.
  - intros x t. destruct (decide (x = c)) as [->|Hne]; simpl; [|by apply Hp].
    intros [?|[[? ?]|[= <-]]]; try done. split; [done|]. by intros t' [= <-].
  - intros x t. destruct (decide (x = c)) as [->|Hne]; [intros [= <-]; lia|by apply Hl].
  - intros x t. destruct (decide (x = c)) as [->|Hne]; simpl; [by intros [= <-]|by apply Hg].
  - intros x. destruct (decide (x = c)) as [->|Hne]; simpl; [|by apply He].
    destruct (He c) as [?|(t & Hlc & Hle)]; [by left|right]. exists t0. split; [done|]. specialize (Hlast t Hlc). lia.
  - intros x. specialize (Hv x). destruct (decide (x = c)) as [->|Hne]; simpl; lia.
  - intros l [= <-]. cbn [l_version l_holder l_granted]. split_and!; [lia|lia|by rewrite decide_True|lia| |].
    + exists t0. rewrite decide_True by done. split; [done|lia].
    + intros x Hx'. exfalso. specialize (Hv x). destruct (decide (x = c)) as [->|Hne]; simpl in Hx'; lia.
  - intros x t v'. destruct (decide (x = c)) as [->|Hne]; simpl; [done|]. intros Hpcx. destruct (Ha x t v' Hpcx) as [-> Hw].
    split; [done|]. rewrite Hown by apply Hv. done.
  - intros x t. destruct (decide (x = c)) as [->|Hne]; [intros _; left; by eexists|]. intros Hlx. right.
    destruct (Hx x t Hlx) as [(l & Hrec & Hh)|?]; [|lia].
    destruct (Hr l Hrec) as ((Hlv & _) & How & _ & (t' & Hlt & Htg) & Hov). rewrite Hh in *.
    assert (t' = t) as -> by congruence. unfold accepts in Hacc. rewrite Hrec in Hacc. simpl in Hacc. simpl_bool.
    specialize (Hov c ltac:(congruence)). destruct Hwhy as [?|[Hw|?]]; [lia| |lia]. exfalso. congruence.
Qed.

Lemma inv_step last owner s s' : inv last owner s -> step s s' -> exists last' owner', inv last' owner' s'.
Proof using lease_ok.
  intros Hi Hs. destruct Hs as [s t Hle Hub|s c Hpc|s c t0 Hpc Hd|s c t0 v Hpc Ha|s c t0 Hpc|s c|s l Hr Hc].
  - exists last, owner. destruct Hi. split; simpl; try done; try lia.
    + intros c t0 Hc. destruct (inv_pc0 c t0 Hc). split; [lia|done].
    + intros c t0 Hc. specialize (inv_last0 c t0 Hc). lia.
    + intros l Hl. destruct (inv_record0 l Hl) as (? & ? & ? & ? & ?). split_and!; try done; lia.
    + intros c t0 Hc. destruct (inv_exclusive0 c t0 Hc); [by left|right; lia].
  - exists last, owner. pose proof Hi as []. apply inv_set_client; simpl; try done; auto.
    + intros t [[= <-]|[[v ?]|?]]; try done. split; [lia|]. intros t' Ht'. specialize (inv_last0 c t' Ht'). lia.
    + intros l Hl. by apply inv_record0.
  - exists last, owner. by apply inv_step_answer.
  - eexists _, _. by apply (inv_step_execute last owner s c t0 v).
  - exists last, owner. pose proof Hi as []. pose proof (inv_granted0 c t0 Hpc) as Hl. pose proof (inv_last0 c t0 Hl).
    apply inv_set_client; simpl; try done; auto.
    + intros t [?|[[v ?]|?]]; done.
    + right. exists t0. split; [done|]. rewrite to_u64_id by ilia. lia.
    + intros l Hrl. by apply inv_record0.
  - exists last, owner. pose proof Hi as []. apply inv_set_client; simpl; try done; auto.
    + intros t [?|[[v ?]|?]]; done.
    + intros l Hl. by apply inv_record0.
  - exists last, owner. destruct Hi. split; simpl; try done. intros c t Hl. right.
    destruct (inv_exclusive0 c t Hl) as [(l' & Hr' & <-)|?]; [|done]. rewrite Hr in Hr'. injection Hr' as <-.
    destruct (inv_record0 l Hr) as (_ & _ & _ & (t' & Ht' & Hle) & _). rewrite Hl in Ht'. injection Ht' as <-. lia.
Qed.

Lemma masters_inv t0 s : reachable t0 s -> exists last owner, inv last owner s.
Proof using lease_ok.
  induction 1 as [H0 Hub|s s' _ (last & owner & IH) Hs]; [|by eapply inv_step].
  exists (fun _ => None), (fun _ => None). split; simpl; try done; try lia.
  - intros c t [?|[[v ?]|?]]; done.
Qed.

(** C8: At most one master.  Whatever the interleaving of the calls, the failures
    and the delays, if every answer to a look at the lock takes at most [d] ms,
    two schedulers with different client ids are masters at the same time only
    in the last [d] ms of one's mastership. *)
Theorem one_master t0 s a b :
  reachable t0 s -> a <> b -> is_master s a -> is_master s b ->
  c_expire (clients s a) - d < now s \/ c_expire (clients s b) - d < now s.
Proof using lease_ok.
  intros (last & owner & [(Hn & _) _ _ _ _ He _ _ _ Hx])%masters_inv Hne Ha Hb. unfold is_master in *.
  destruct (He a) as [?|(ta & Hla & Hea)]; [lia|]. destruct (He b) as [?|(tb & Hlb & Heb)]; [lia|].
  destruct (Hx a ta Hla) as [(l & Hl & Hlh)|?]; [|lia]. destruct (Hx b tb Hlb) as [(l' & Hl' & Hlh')|?]; [|lia].
  exfalso. congruence.
Qed.
End masters.
End Masters.
