(* ===== verification/Consume.v ===== *)
(** * Handling the items of a consumer

    The consume thread of src/phxqueue/consumer/consumer.cpp: the items of a
    pull are put into buckets, one per handler ([MakeHandleBuckets]), and the
    handlers, coroutines of one thread, empty their buckets ([TaskDispatch],
    [HandleRoutineFunc], [Handle]).

    A coroutine gives up the thread inside the code of the application, so a
    handling is two steps: it begins, it finishes.  What that code did is an
    argument of the second one ([UserRun]). *)

From S2P Require Import Prelude RetCode TopicConfig StoreConfig Node StoreMeta SyncCtrl BaseMgr.
From S2P Require Import LockConfig SchedulerConfig MasterClient.

#[local] Set Default Proof Using "Type".

Inductive HandleResult := RES_OK | RES_ERROR | RES_IGNORE.

#[export] Instance HandleResult_eq_dec : EqDecision HandleResult.
Proof. solve_decision. Defined.

(** [comm::proto::ConsumerContext]. *)
Record ConsumerContext := mkContext {
  cc_topic_id : Z;
  cc_consumer_group_id : Z;
  cc_store_id : Z;
  cc_queue_id : Z;
  cc_prev_cursor_id : Z;
  cc_next_cursor_id : Z;
}.

(** What the application did in one handling: [UncompressBuffer], the handler
    that [GetHandler] made, if any, and [CompressBuffer].  The handler returns
    its result, the item and the buffer as it left them, and whether it said
    that it updated the buffer. *)
Record UserRun := mkUserRun {
  UncompressBuffer : string -> Z -> RetCode * string;
  GetHandler : Z -> option (QItem -> string -> HandleResult * QItem * string * bool);
  CompressBuffer : string -> Z -> string;
}.

Module Consume.

Definition set_buffer (item : QItem) (buffer : string) : QItem :=
  mkQItem buffer (item_pub_id item) (item_consumer_group_ids item) (item_atime item) (item_atime_ms item)
    (item_count item) (item_cursor_id item) (meta_topic_id item) (meta_handle_id item) (meta_uin item)
    (meta_hash item) (item_buffer_type item) (meta_consumer_group_ids item) (meta_pub_id item) (meta_atime item)
    (meta_atime_ms item) (meta_client_id item).

(** [None] for a shift that is undefined. *)
Definition SkipHandle (cc : ConsumerContext) (item : QItem) : option bool :=
  let n := cc_consumer_group_id cc - 1 in
  if (0 <=? n) && (n <? 64) then Some (Z.land (item_consumer_group_ids item) (Z.shiftl 1 n) =? 0) else None.

Definition Handle (run : UserRun) (item : QItem) : RetCode * QItem * HandleResult :=
  match UncompressBuffer run (item_buffer item) (item_buffer_type item) with
  | (RET_OK, uncompressed_buffer) =>
      match GetHandler run (meta_handle_id item) with
      | None => (RET_ERR_RANGE_HANDLE, item, RES_ERROR)
      | Some handler =>
          let '(result, item, buffer, updated) := handler item uncompressed_buffer in
          (RET_OK, if updated : bool then set_buffer item (CompressBuffer run buffer (item_buffer_type item)) else item, result)
      end
  | (ret, _) => (ret, item, RES_ERROR)
  end.

Definition HandleRoutineFunc (cc : ConsumerContext) (run : UserRun) (item : option QItem)
    : option (option QItem * HandleResult) :=
  match item with
  | None => Some (None, RES_ERROR)
  | Some item =>
      skip ← SkipHandle cc item;
      if skip : bool then Some (Some item, RES_OK) else
      let '(_, item, result) := Handle run item in Some (Some item, result)
  end.

(** ** Buckets *)

Section buckets.
Context `{GC : GlobalConfig} {W : Type} `{CE : ClientEnv W} (topic_id : Z) (nhandler : nat).

Record filling := mkFilling {
  handle_buckets : list (list nat);
  nbucket_used : nat;
  uin2bucket_idx : gmap Z nat;
}.

Definition empty_buckets : list (list nat) := replicate nhandler [].

(** The bucket of an item whose [uin] has none yet.  [None] without handlers:
    the remainder by 0 is undefined. *)
Definition next_bucket (f : filling) (w : W) : option (nat * nat * W) :=
  if Nat.leb nhandler (nbucket_used f) then
    if Nat.eqb nhandler 0 then None else
    let '(r, w) := FastRand w in Some (Nat.modulo (Z.to_nat r) nhandler, nbucket_used f, w)
  else Some (nbucket_used f, S (nbucket_used f), w).

Definition push (i bucket_idx : nat) (buckets : list (list nat)) : list (list nat) :=
  alter (fun q => q ++ [i]) bucket_idx buckets.

Definition put (by_random_uin : bool) (f : filling) (i : nat) (item : QItem) (w : W) : option (filling * W) :=
  let key := meta_uin item in
  let keyed := negb (key =? 0) && negb by_random_uin in
  match (if keyed then uin2bucket_idx f !! key else None) with
  | Some bucket_idx => Some (mkFilling (push i bucket_idx (handle_buckets f)) (nbucket_used f) (uin2bucket_idx f), w)
  | None =>
      x ← next_bucket f w;
      let '(bucket_idx, used, w) := x in
      Some (mkFilling (push i bucket_idx (handle_buckets f)) used
              (if keyed then <[key := bucket_idx]> (uin2bucket_idx f) else uin2bucket_idx f), w)
  end.

Fixpoint fill (by_random_uin : bool) (f : filling) (i : nat) (items : list (option QItem)) (w : W) : option (filling * W) :=
  match items with
  | [] => Some (f, w)
  | item :: items =>
      item ← item;
      x ← put by_random_uin f i item w;
      fill by_random_uin x.1 (S i) items x.2
  end.

Definition MakeHandleBuckets (cc : ConsumerContext) (items : list (option QItem)) (w : W)
    : option (RetCode * list (list nat) * W) :=
  match GetTopicConfigByTopicID topic_id with
  | (RET_OK, Some topic_config) =>
      match TopicConfig.GetQueueInfoByQueue topic_config (cc_queue_id cc) with
      | (RET_OK, Some queue_info) =>
          x ← fill (negb (qi_handle_by_random_uin queue_info =? 0)) (mkFilling empty_buckets 0 ∅) 0 items w;
          Some (RET_OK, handle_buckets x.1, x.2)
      | (ret, _) => Some (ret, empty_buckets, w)
      end
  | (ret, _) => Some (ret, empty_buckets, w)
  end.

(** ** What the buckets hold *)

(** Items that must not be handled at the same time. *)
Definition same_uin (items : list (option QItem)) (i j : nat) : Prop :=
  exists a b, items !! i = Some (Some a) /\ items !! j = Some (Some b) /\ meta_uin a = meta_uin b /\ meta_uin a <> 0.

Record filled (by_random_uin : bool) (items : list (option QItem)) (f : filling) : Prop := {
  filled_length : length (handle_buckets f) = nhandler;
  filled_used : (nbucket_used f <= nhandler)%nat;
  filled_once : concat (handle_buckets f) ≡ₚ seq 0 (length items);
  filled_sorted : Forall (StronglySorted lt) (handle_buckets f);
  filled_map : forall key b, uin2bucket_idx f !! key = Some b -> (b < nhandler)%nat;
  filled_uin : by_random_uin = false -> forall i a, items !! i = Some (Some a) -> meta_uin a <> 0 ->
    exists b q, uin2bucket_idx f !! meta_uin a = Some b /\ handle_buckets f !! b = Some q /\ i ∈ q;
}.

Lemma concat_push i b buckets : (b < length buckets)%nat -> concat (push i b buckets) ≡ₚ concat buckets ++ [i].
Proof.
  unfold push. revert b. induction buckets as [|q l IH]; intros [|b] Hb; cbn in *; [lia..| |].
  - solve_Permutation.
  - fold (alter (fun q => q ++ [i]) b l). rewrite IH by lia. by rewrite app_assoc.
Qed.

Lemma push_sorted i b buckets :
  Forall (StronglySorted lt) buckets -> (forall j, j ∈ concat buckets -> (j < i)%nat) ->
  Forall (StronglySorted lt) (push i b buckets).
Proof.
  intros Hs Hlt. apply Forall_lookup. intros k q Hk. unfold push in Hk. rewrite Forall_lookup in Hs.
  destruct (decide (k = b)) as [->|Hne].
  - rewrite list_lookup_alter_eq in Hk. apply fmap_Some in Hk as (q0 & Hq0 & ->).
    apply StronglySorted_app_2; [|by eapply Hs|repeat constructor].
    intros x y Hx ->%list_elem_of_singleton. apply Hlt, elem_of_concat. exists q0. split; [by eapply list_elem_of_lookup_2|done].
  - rewrite list_lookup_alter_ne in Hk by done. by eapply Hs.
Qed.

Lemma next_bucket_lt f w b used w' : (nbucket_used f <= nhandler)%nat -> next_bucket f w = Some (b, used, w') ->
  (b < nhandler)%nat /\ (used <= nhandler)%nat.
Proof.
  intros Hu. unfold next_bucket. destruct (Nat.leb_spec nhandler (nbucket_used f)); [|intros [= <- <- _]; lia].
  destruct (Nat.eqb_spec nhandler 0); [done|]. destruct (FastRand w) as [r w1]. intros [= <- <- _].
  split; [by apply Nat.mod_upper_bound|done].
Qed.

Lemma push_lookup i b buckets k q :
  buckets !! k = Some q -> exists q', push i b buckets !! k = Some q' /\ (forall x, x ∈ q -> x ∈ q') /\ (k = b -> i ∈ q').
Proof.
  intros Hk. unfold push. destruct (decide (k = b)) as [->|Hne].
  - exists (q ++ [i]). rewrite list_lookup_alter_eq, Hk. split_and!; [done| |]; intros; apply elem_of_app; [by left|right; left].
  - exists q. by rewrite list_lookup_alter_ne.
Qed.

Lemma filled_put by_random_uin items f item b used (m : gmap Z nat) :
  filled by_random_uin items f -> (b < nhandler)%nat -> (used <= nhandler)%nat ->
  (forall key, key <> meta_uin item -> m !! key = uin2bucket_idx f !! key) ->
  (forall b', uin2bucket_idx f !! meta_uin item = Some b' -> by_random_uin = false -> meta_uin item <> 0 -> b' = b) ->
  (by_random_uin = false -> meta_uin item <> 0 -> m !! meta_uin item = Some b) ->
  (forall b', m !! meta_uin item = Some b' -> (b' < nhandler)%nat) ->
  filled by_random_uin (items ++ [Some item]) (mkFilling (push (length items) b (handle_buckets f)) used m).
Proof.
  intros [Hlen Hu Ho Hs Hm Huin] Hb Hused Hother Hsame Hnew Hmb. split; simpl.
  - unfold push. by rewrite length_alter.
  - done.
  - rewrite concat_push by lia. rewrite Ho, length_app. simpl. by rewrite seq_app.
  - apply push_sorted; [done|]. intros j. rewrite Ho, elem_of_seq. lia.
  - intros key b' Hkey. destruct (decide (key = meta_uin item)) as [->|]; [by apply Hmb|].
    rewrite Hother in Hkey by done. by eapply Hm.
  - intros Hr i a Hi Ha. apply lookup_app_Some in Hi as [Hi|[Hi1 Hi2]].
    + destruct (Huin Hr i a Hi Ha) as (b' & q & Hb' & Hq & Hin).
      destruct (push_lookup (length items) b _ _ _ Hq) as (q' & Hq' & Hin' & _).
      exists b', q'. split; [|split; [done|by apply Hin']].
      destruct (decide (meta_uin a = meta_uin item)) as [E|E]; [|by rewrite Hother].
      rewrite E in *. rewrite (Hsame b') by done. by apply Hnew.
    + apply list_lookup_singleton_Some in Hi2 as [Hi2 [= ->]]. assert (i = length items) as -> by lia.
      destruct (lookup_lt_is_Some_2 (handle_buckets f) b) as [q Hq]; [lia|].
      destruct (push_lookup (length items) b _ _ _ Hq) as (q' & Hq' & _ & Hin'). exists b, q'. split; [by apply Hnew|].
      split; [done|by apply Hin'].
Qed.

Lemma put_filled by_random_uin items f item w f' w' :
  filled by_random_uin items f -> put by_random_uin f (length items) item w = Some (f', w') ->
  filled by_random_uin (items ++ [Some item]) f'.
Proof.
  intros Hf. pose proof Hf as [Hlen Hu _ _ Hm _]. unfold put.
  set (keyed := negb (meta_uin item =? 0) && negb by_random_uin).
  assert (Hk : keyed = true <-> by_random_uin = false /\ meta_uin item <> 0).
  { unfold keyed. destruct by_random_uin, (Z.eqb_spec (meta_uin item) 0); simpl; naive_solver. }
  destruct (if keyed then uin2bucket_idx f !! meta_uin item else None) as [b|] eqn:Eb.
  - intros [= <- _]. destruct keyed; [|done]. destruct (proj1 Hk eq_refl) as [Hr Hne].
    apply filled_put; try done; [by eapply Hm|congruence|intros; by eapply Hm].
  - intros ([[b used] w1] & Hn & [= <- _])%bind_Some. apply next_bucket_lt in Hn as [Hb Hused]; [|done].
    destruct keyed eqn:Ek.
    + destruct (proj1 Hk eq_refl) as [Hr Hne]. apply filled_put; try done.
      * intros key Hkey. by rewrite lookup_insert_ne.
      * congruence.
      * intros _ _. by rewrite lookup_insert_eq.
      * intros b'. rewrite lookup_insert_eq. by intros [= <-].
    + apply filled_put; try done; [naive_solver|naive_solver|intros; by eapply Hm].
Qed.

Lemma fill_filled by_random_uin f l items w f' w' :
  filled by_random_uin l f -> fill by_random_uin f (length l) items w = Some (f', w') ->
  filled by_random_uin (l ++ items) f'.
Proof.
  revert f l w. induction items as [|item items IH]; intros f l w Hf Hfill; simpl in Hfill.
  { injection Hfill as <- _. by rewrite app_nil_r. }
  apply bind_Some in Hfill as (a & -> & Hfill). apply bind_Some in Hfill as ([f1 w1] & Hput & Hfill).
  apply put_filled in Hput; [|done]. rewrite cons_middle, app_assoc. eapply IH; [done|]. rewrite length_app. simpl.
  rewrite Nat.add_comm. exact Hfill.
Qed.

Lemma filled_empty by_random_uin : filled by_random_uin [] (mkFilling empty_buckets 0 ∅).
Proof.
  unfold empty_buckets. split; simpl.
  - apply length_replicate.
  - lia.
  - by induction nhandler.
  - by apply Forall_replicate, SSorted_nil.
  - intros key b. by rewrite lookup_empty.
  - done.
Qed.

Lemma made_buckets cc items w buckets w' :
  MakeHandleBuckets cc items w = Some (RET_OK, buckets, w') ->
  length buckets = nhandler /\ concat buckets ≡ₚ seq 0 (length items) /\ Forall (StronglySorted lt) buckets /\
  exists c qi, GetTopicConfigByTopicID topic_id = (RET_OK, Some c) /\
    TopicConfig.GetQueueInfoByQueue c (cc_queue_id cc) = (RET_OK, Some qi) /\
    (qi_handle_by_random_uin qi = 0 -> forall i j, same_uin items i j ->
       exists b q, buckets !! b = Some q /\ i ∈ q /\ j ∈ q).
Proof.
  unfold MakeHandleBuckets. destruct (GetTopicConfigByTopicID topic_id) as [rt [c|]] eqn:Et.
  2: { pose proof (GetTopicConfig_found topic_id) as Hf. rewrite Et in Hf. intros; destruct rt; simplify_eq; done. }
  destruct rt; try (intros; by simplify_eq).
  destruct (TopicConfig.GetQueueInfoByQueue c (cc_queue_id cc)) as [rq [qi|]] eqn:Eq.
  2: { unfold TopicConfig.GetQueueInfoByQueue in Eq. destruct rq; intros; simplify_eq.
       destruct (TopicConfig.queue2queue_info_id c !! _); simplify_eq. unfold TopicConfig.GetQueueInfoByQueueInfoID in Eq. by case_match. }
  destruct rq; try (intros; by simplify_eq).
  intros ([f w1] & Hf & [= <- _])%bind_Some. apply (fill_filled _ _ []) in Hf; [|apply filled_empty].
  destruct Hf as [H1 _ H2 H3 _ H5]. simpl in *. split_and!; [done..|]. exists c, qi. split_and!; [done..|].
  intros Hr i j (a & b & Ha & Hb & E & Hne).
  assert (Hrand : negb (qi_handle_by_random_uin qi =? 0) = false) by (by rewrite Hr).
  destruct (H5 Hrand i a Ha Hne) as (k & q & Hk & Hq & Hi).
  destruct (H5 Hrand j b Hb ltac:(congruence)) as (k' & q' & Hk' & Hq' & Hj). rewrite <-E, Hk in Hk'. injection Hk' as <-.
  rewrite Hq in Hq'. injection Hq' as <-. by exists k, q.
Qed.

Lemma failed_buckets cc items w ret buckets w' :
  MakeHandleBuckets cc items w = Some (ret, buckets, w') -> ret <> RET_OK -> buckets = empty_buckets.
Proof.
  unfold MakeHandleBuckets. intros H Hr. repeat case_match; simplify_eq; try done.
  all: by apply bind_Some in H as (x & _ & [= <- _ _]).
Qed.

(** Items go to the handlers once, in order, and the items of a [uin] to
    one.  When [MakeHandleBuckets] succeeds there is a bucket per handler; every
    item is in exactly one bucket, in the order of the pull; and unless the
    queue says to handle by random [uin], items with the same [uin], other than
    0, are in the same bucket. *)
Theorem MakeHandleBuckets_partition cc items w buckets w' :
  MakeHandleBuckets cc items w = Some (RET_OK, buckets, w') ->
  length buckets = nhandler /\ concat buckets ≡ₚ seq 0 (length items) /\ Forall (StronglySorted lt) buckets /\
  exists c qi, GetTopicConfigByTopicID topic_id = (RET_OK, Some c) /\
    TopicConfig.GetQueueInfoByQueue c (cc_queue_id cc) = (RET_OK, Some qi) /\
    (qi_handle_by_random_uin qi = 0 -> forall i j, same_uin items i j ->
       exists b q, buckets !! b = Some q /\ i ∈ q /\ j ∈ q).
Proof. apply made_buckets. Qed.
End buckets.
End Consume.
