(* ===== verification/Dispatch.v ===== *)
(** * The coroutines of the consume thread

    [TaskDispatch] of src/phxqueue/consumer/consumer.cpp: the dispatcher wakes
    a coroutine per handler and one per batch handler and waits until they have
    counted every item and every batch.  The coroutines share the thread; one
    gives it up only inside the code of the application, so a handling is two
    steps, the pop of its item and the rest of [HandleRoutineFunc], with steps of
    the others between them.  A schedule is a list of these steps.

    A batch handler runs [BatchHandle] of the class, which reads the items. *)

From S2P Require Import Prelude RetCode TopicConfig StoreConfig Node StoreMeta SyncCtrl BaseMgr.
From S2P Require Import LockConfig SchedulerConfig MasterClient Consume.

#[local] Set Default Proof Using "Type".

Module Dispatch.

Record state := mkState {
  items : list (option QItem);
  handle_results : list HandleResult;
  buckets : list (list nat);                  (* [handle_buckets] *)
  co : list (option nat);                     (* the item each handler is in the middle of *)
  batch_handle_finish : list bool;
  nhandle_task_finished : nat;
  nbatch_handle_task_finished : nat;
  handled : list nat;                         (* history: the items whose handling has ended, in order *)
}.

Inductive event :=
  | Begin (cid : nat)
  | Finish (cid : nat) (run : UserRun)
  | Batch (cid : nat).

Section dispatch.
Context (cc : ConsumerContext) (nhandler nbatch_handler : nat).

(** The state when the dispatcher has made the buckets [bs] of the items. *)
Definition start (its : list (option QItem)) (results : list HandleResult) (bs : list (list nat)) : state :=
  mkState its results bs (replicate nhandler None) (replicate nbatch_handler false) 0 0 [].

(** [ProcessAllHandleTasks], up to the call of [HandleRoutineFunc]. *)
Definition begin_handle (cid : nat) (s : state) : option state :=
  c ← co s !! cid;
  q ← buckets s !! cid;
  match c, q with
  | None, idx :: q =>
      Some (mkState (items s) (handle_results s) (<[cid := q]> (buckets s)) (<[cid := Some idx]> (co s))
              (batch_handle_finish s) (nhandle_task_finished s) (nbatch_handle_task_finished s) (handled s))
  | _, _ => None
  end.

(** The rest of the loop's body: [HandleRoutineFunc] and [HandleTaskFinish]. *)
Definition finish_handle (cid : nat) (run : UserRun) (s : state) : option state :=
  c ← co s !! cid;
  idx ← c;
  item ← items s !! idx;
  x ← Consume.HandleRoutineFunc cc run item;
  Some (mkState (<[idx := x.1]> (items s)) (<[idx := x.2]> (handle_results s)) (buckets s) (<[cid := None]> (co s))
          (batch_handle_finish s) (S (nhandle_task_finished s)) (nbatch_handle_task_finished s) (handled s ++ [idx])).

(** [ProcessAllBatchHandleTasks]. *)
Definition batch_handle (cid : nat) (s : state) : option state :=
  f ← batch_handle_finish s !! cid;
  if f : bool then None else
  Some (mkState (items s) (handle_results s) (buckets s) (co s) (<[cid := true]> (batch_handle_finish s))
          (nhandle_task_finished s) (S (nbatch_handle_task_finished s)) (handled s)).

Definition exec (e : event) (s : state) : option state :=
  match e with
  | Begin cid => begin_handle cid s
  | Finish cid run => finish_handle cid run s
  | Batch cid => batch_handle cid s
  end.

Fixpoint schedule (es : list event) (s : state) : option state :=
  match es with
  | [] => Some s
  | e :: es => s ← exec e s; schedule es s
  end.

Definition IsAllTaskFinish (s : state) : bool :=
  Nat.eqb (nhandle_task_finished s) (length (items s)) && Nat.eqb (nbatch_handle_task_finished s) nbatch_handler.

Definition running (s : state) (i : nat) : Prop := exists cid, co s !! cid = Some (Some i).

(** ** What every schedule keeps *)

(** A list of queues, one of which changes. *)
Lemma concat_delete {A} (l : list (list A)) i q : l !! i = Some q -> concat l ≡ₚ q ++ concat (delete i l).
Proof.
  intros H. rewrite <-(take_drop_middle l i q H) at 1. rewrite delete_take_drop, !concat_app. simpl. solve_Permutation.
Qed.

Lemma concat_insert {A} (l : list (list A)) i q q' : l !! i = Some q -> concat (<[i := q']> l) ≡ₚ q' ++ concat (delete i l).
Proof.
  intros H. rewrite insert_take_drop by by eapply lookup_lt_Some. rewrite delete_take_drop, !concat_app. simpl. solve_Permutation.
Qed.

Lemma concat_replicate_nil {A} n : concat (replicate n (@nil A)) = [].
Proof. by induction n. Qed.

(** The items in the hands of the handlers, and the batches to do. *)
Definition in_hand (s : state) : list nat := concat (option_list <$> co s).
Definition batches (s : state) : list unit := concat ((fun f : bool => if f then [] else [tt]) <$> batch_handle_finish s).

Lemma elem_of_snoc (l : list nat) i x : i ∈ l ++ [x] <-> i ∈ l \/ i = x.
Proof. by rewrite elem_of_app, list_elem_of_singleton. Qed.

Section schedules.
Context (its : list (option QItem)) (bs : list (list nat)) (Hbs : NoDup (concat bs)).

(** The part of bucket [q0] that is behind handler [b], in its hands, and
    before it. *)
Definition split (s : state) (b : nat) (q0 : list nat) : Prop :=
  exists q c, buckets s !! b = Some q /\ co s !! b = Some c /\
    q0 = filter (fun i => i ∈ q0) (handled s) ++ option_list c ++ q.

Record inv (s : state) : Prop := {
  inv_split : forall b q0, bs !! b = Some q0 -> split s b q0;
  inv_buckets : length (buckets s) = length bs;
  inv_co : length (co s) = length bs;
  inv_perm : handled s ++ in_hand s ++ concat (buckets s) ≡ₚ concat bs;
  inv_count : nhandle_task_finished s = length (handled s);
  inv_items : length (items s) = length its;
  inv_results : length (handle_results s) = length its;
  inv_done : forall i, i ∈ handled s -> exists item run item' r, its !! i = Some item /\
    Consume.HandleRoutineFunc cc run item = Some (item', r) /\
    items s !! i = Some item' /\ handle_results s !! i = Some r;
  inv_todo : forall i, i ∉ handled s -> items s !! i = its !! i;
  inv_batch : (nbatch_handle_task_finished s + length (batches s) = nbatch_handler)%nat;
}.

(** An item is in one bucket only. *)
Lemma bucket_unique b b' q q' i : bs !! b = Some q -> bs !! b' = Some q' -> i ∈ q -> i ∈ q' -> b = b'.
Proof using Hbs.
  intros Hb Hb' Hi Hi'. destruct (decide (b = b')) as [|Hne]; [done|exfalso].
  revert b b' Hb Hb' Hne. induction bs as [|q0 l IH]; intros b b' Hb Hb' Hne; [done|].
  simpl in Hbs. apply NoDup_app in Hbs as (_ & Hd & Hl).
  destruct b as [|b], b' as [|b']; simpl in *; [lia| | |by eapply (IH Hl b b'); auto].
  - injection Hb as ->. apply (Hd i Hi). apply elem_of_concat. exists q'. split; [by eapply list_elem_of_lookup_2|done].
  - injection Hb' as ->. apply (Hd i Hi'). apply elem_of_concat. exists q. split; [by eapply list_elem_of_lookup_2|done].
Qed.

Lemma bucket_NoDup b q : bs !! b = Some q -> NoDup q.
Proof using Hbs.
  revert b. induction bs as [|q0 l IH]; intros b Hb; [done|]. simpl in Hbs. apply NoDup_app in Hbs as (Hq & _ & Hl).
  destruct b as [|b]; simpl in Hb; [by injection Hb as <-|by eapply IH].
Qed.
(** Where an item of a handler comes from. *)
Lemma split_running s b q0 i : inv s -> bs !! b = Some q0 -> co s !! b = Some (Some i) -> i ∈ q0 /\ i ∉ handled s.
Proof using Hbs.
  intros Hi Hb Hc. destruct (inv_split s Hi b q0 Hb) as (q & c & _ & Hc' & E). rewrite Hc in Hc'. injection Hc' as <-.
  assert (Hin : i ∈ q0) by (rewrite E; simpl; set_solver). split; [done|]. intros Hh.
  pose proof (bucket_NoDup b q0 Hb) as Hn. rewrite E in Hn. apply NoDup_app in Hn as (_ & Hd & _).
  apply (Hd i); [by apply list_elem_of_filter|simpl; left].
Qed.

Lemma start_inv results : length results = length its -> length bs = nhandler -> inv (start its results bs).
Proof.
  intros Hres Hlen. split; simpl; try done.
  - intros b q0 Hb. exists q0, None. split; [done|]. split; [|done].
    apply lookup_replicate. split; [done|]. rewrite <-Hlen. by eapply lookup_lt_Some.
  - by rewrite length_replicate.
  - unfold in_hand. simpl. rewrite fmap_replicate. simpl.
    by rewrite concat_replicate_nil.
  - intros i. by rewrite elem_of_nil.
  - unfold batches. simpl. rewrite fmap_replicate. clear Hlen.
    induction nbatch_handler as [|k IH]; simpl; [done|congruence].
Qed.

Lemma begin_inv cid s s' : inv s -> begin_handle cid s = Some s' -> inv s'.
Proof.
  intros Hi (c & Hc & (q & Hq & E)%bind_Some)%bind_Some. destruct c as [|], q as [|idx q]; try done. injection E as <-.
  destruct Hi as [Hs H1 H2 H3 H4 H5 H6 H7 H8 H10]. split; simpl; try done; [|by rewrite length_insert..|].
  - intros b q0 Hb. destruct (Hs b q0 Hb) as (qb & cb & Hqb & Hcb & E). unfold split; simpl.
    destruct (decide (b = cid)) as [->|Hne].
    + exists q, (Some idx). rewrite !list_lookup_insert_eq by by eapply lookup_lt_Some. simplify_eq. done.
    + exists qb, cb. by rewrite !list_lookup_insert_ne.
  - rewrite <-H3. unfold in_hand; simpl. rewrite list_fmap_insert.
    assert (Ho : (option_list <$> co s) !! cid = Some []) by by rewrite list_lookup_fmap, Hc.
    rewrite (concat_insert _ _ _ _ Ho), (concat_delete _ _ _ Ho), (concat_insert _ _ _ _ Hq), (concat_delete _ _ _ Hq).
    simpl. solve_Permutation.
Qed.

Lemma finish_inv cid run s s' : inv s -> finish_handle cid run s = Some s' -> inv s'.
Proof using Hbs.
  intros Hi (c & Hc & (idx & -> & (item & Hit & ([item' r] & Hx & [= <-])%bind_Some)%bind_Some)%bind_Some)%bind_Some.
  destruct (lookup_lt_is_Some_2 bs cid) as [q0 Hq0]; [rewrite <-(inv_co s Hi); by eapply lookup_lt_Some|].
  destruct (split_running s cid q0 idx Hi Hq0 Hc) as [Hin Hnh].
  assert (Hlt : (idx < length (items s))%nat) by by eapply lookup_lt_Some.
  destruct Hi as [Hs H1 H2 H3 H4 H5 H6 H7 H8 H10]. split; simpl; try done.
  - intros b q Hb. destruct (Hs b q Hb) as (qb & cb & Hqb & Hcb & E). unfold split; simpl. rewrite filter_app.
    destruct (decide (b = cid)) as [->|Hne].
    + exists qb, None. rewrite list_lookup_insert_eq by by eapply lookup_lt_Some. simplify_eq. simpl in *.
      rewrite filter_cons_True, filter_nil by done. split_and!; [done..|]. rewrite <-app_assoc. simpl. done.
    + exists qb, cb. rewrite list_lookup_insert_ne by done. split_and!; [done..|]. simpl.
      rewrite filter_cons_False, filter_nil, app_nil_r; [done|]. intros Hiq. apply Hne. by eapply bucket_unique.
  - by rewrite length_insert.
  - rewrite <-H3. unfold in_hand; simpl. rewrite list_fmap_insert.
    assert (Ho : (option_list <$> co s) !! cid = Some [idx]) by by rewrite list_lookup_fmap, Hc.
    rewrite (concat_insert _ _ _ _ Ho), (concat_delete _ _ _ Ho). simpl. solve_Permutation.
  - rewrite length_app. simpl. lia.
  - by rewrite length_insert.
  - by rewrite length_insert.
  - intros i [Hi| ->]%elem_of_snoc.
    + assert (i <> idx) by (intros ->; done). destruct (H7 i Hi) as (a & u & a' & ra & ? & ? & ? & ?).
      exists a, u, a', ra. by rewrite !list_lookup_insert_ne by done.
    + exists item, run, item', r. rewrite !list_lookup_insert_eq by lia. by rewrite <-H8.
  - intros i Hn. rewrite elem_of_snoc in Hn. rewrite list_lookup_insert_ne by naive_solver. apply H8. naive_solver.
Qed.

Lemma batch_pending cid s s' : batch_handle cid s = Some s' -> length (batches s) = S (length (batches s')).
Proof.
  intros (f & Hf & E)%bind_Some. destruct f; [done|]. injection E as <-. unfold batches; simpl. rewrite list_fmap_insert.
  set (g := (fun f : bool => if f then [] else [tt])).
  assert (Ho : (g <$> batch_handle_finish s) !! cid = Some [tt]) by by rewrite list_lookup_fmap, Hf.
  by rewrite (concat_insert _ _ _ _ Ho), (concat_delete _ _ _ Ho).
Qed.

Lemma batch_inv cid s s' : inv s -> batch_handle cid s = Some s' -> inv s'.
Proof.
  intros Hi Hb. pose proof (batch_pending cid s s' Hb) as Hp. apply bind_Some in Hb as (f & Hf & E).
  destruct f; [done|]. injection E as <-. destruct Hi as [Hs H1 H2 H3 H4 H5 H6 H7 H8 H10]. split; simpl in *; try done. lia.
Qed.

Lemma exec_inv e s s' : inv s -> exec e s = Some s' -> inv s'.
Proof using Hbs. destruct e; simpl; [apply begin_inv|apply finish_inv|apply batch_inv]. Qed.

Lemma schedule_inv es s s' : inv s -> schedule es s = Some s' -> inv s'.
Proof using Hbs.
  revert s. induction es as [|e es IH]; intros s Hi; simpl; [by intros [= <-]|].
  intros (s1 & H1 & H2)%bind_Some. eapply IH; [|done]. by eapply exec_inv.
Qed.
End schedules.

(** The steps that are left: two per item before its handler, one per item in
    its hands, one per batch. *)
Definition left (s : state) : nat := 2 * length (concat (buckets s)) + length (in_hand s) + length (batches s).

Lemma start_left its results bs : left (start its results bs) = (2 * length (concat bs) + nbatch_handler)%nat.
Proof.
  unfold left, in_hand, batches. simpl. rewrite !fmap_replicate. simpl. rewrite concat_replicate_nil. simpl.
  assert (forall n, length (concat (replicate n [tt])) = n) as -> by (intros n; induction n; simpl; congruence). lia.
Qed.

Lemma exec_left e s s' : exec e s = Some s' -> left s = S (left s').
Proof.
  destruct e as [cid|cid run|cid]; simpl.
  - intros (c & Hc & (q & Hq & E)%bind_Some)%bind_Some. destruct c as [|], q as [|idx q]; try done. injection E as <-.
    unfold left, in_hand; simpl. rewrite list_fmap_insert.
    assert (Ho : (option_list <$> co s) !! cid = Some []) by by rewrite list_lookup_fmap, Hc.
    rewrite (concat_insert _ _ _ _ Ho), (concat_delete _ _ _ Ho), (concat_insert _ _ _ _ Hq), (concat_delete _ _ _ Hq).
    simpl. unfold batches. simpl. rewrite !length_app. lia.
  - intros (c & Hc & (idx & -> & (item & Hit & ([item' r] & Hx & [= <-])%bind_Some)%bind_Some)%bind_Some)%bind_Some.
    unfold left, in_hand; simpl. rewrite list_fmap_insert.
    assert (Ho : (option_list <$> co s) !! cid = Some [idx]) by by rewrite list_lookup_fmap, Hc.
    rewrite (concat_insert _ _ _ _ Ho), (concat_delete _ _ _ Ho). unfold batches. simpl. lia.
  - intros Hb. pose proof (batch_pending cid s s' Hb). apply bind_Some in Hb as (f & Hf & E).
    destruct f; [done|]. injection E as <-. unfold left, in_hand in *; simpl in *. lia.
Qed.

Lemma schedule_left es s s' : schedule es s = Some s' -> left s = (length es + left s')%nat.
Proof.
  revert s. induction es as [|e es IH]; intros s; simpl; [by intros [= <-]|].
  intros (s1 & H1%exec_left & H2%IH)%bind_Some. lia.
Qed.

(** Done is when no step is left. *)
Lemma finish_left its bs s : inv its bs s -> length (concat bs) = length its -> IsAllTaskFinish s = true <-> left s = 0%nat.
Proof.
  intros [_ _ _ H3%Permutation_length H4 H5 _ _ _ H8] Hl. rewrite !length_app in H3. unfold IsAllTaskFinish, left.
  rewrite andb_true_iff, !Nat.eqb_eq. lia.
Qed.

Lemma concat_nonempty {A} (l : list (list A)) : (0 < length (concat l))%nat -> exists i x q, l !! i = Some (x :: q).
Proof.
  induction l as [|[|x q] l IH]; simpl; [lia| |by exists 0%nat, x, q].
  intros (i & x & q & H)%IH. by exists (S i), x, q.
Qed.

(** A step is possible while one is left. *)
Lemma progress its bs s : inv its bs s -> (forall i, i ∈ concat bs -> (i < length its)%nat) ->
  (forall run item, is_Some (Consume.HandleRoutineFunc cc run item)) -> left s <> 0%nat ->
  exists cid, is_Some (begin_handle cid s) \/ is_Some (batch_handle cid s) \/ forall run, is_Some (finish_handle cid run s).
Proof.
  intros Hi Hr Hrun Hl. unfold left in Hl. destruct (decide (length (in_hand s) = 0)%nat) as [Hh|Hh].
  2: { destruct (concat_nonempty (option_list <$> co s)) as (cid & idx & q & Hq); [unfold in_hand in *; lia|].
       rewrite list_lookup_fmap in Hq. apply fmap_Some in Hq as ([c|] & Hc & E); [injection E as <- _|done].
       destruct (lookup_lt_is_Some_2 (items s) idx) as [item Hit].
       { rewrite (inv_items its bs s Hi). apply Hr. rewrite <-(inv_perm its bs s Hi). apply elem_of_app. right.
         apply elem_of_app. left. apply elem_of_concat. exists [idx]. split; [|left].
         apply list_elem_of_fmap. exists (Some idx). split; [done|by eapply list_elem_of_lookup_2]. }
       exists cid. right; right. intros run. destruct (Hrun run item) as [x Hx].
       unfold finish_handle. rewrite Hc. simpl. rewrite Hit. simpl. rewrite Hx. done. }
  destruct (decide (length (concat (buckets s)) = 0)%nat) as [Hb|Hb].
  - destruct (concat_nonempty ((fun f : bool => if f then [] else [tt]) <$> batch_handle_finish s)) as (cid & [] & q & Hq).
    { unfold batches in *. lia. }
    rewrite list_lookup_fmap in Hq. apply fmap_Some in Hq as (f & Hf & E). destruct f; [done|].
    exists cid. right; left. unfold batch_handle. by rewrite Hf.
  - destruct (concat_nonempty (buckets s)) as (cid & idx & q & Hq); [lia|].
    destruct (lookup_lt_is_Some_2 (co s) cid) as [c Hc].
    { rewrite (inv_co its bs s Hi), <-(inv_buckets its bs s Hi). by eapply lookup_lt_Some. }
    destruct c as [idx'|].
    + exfalso. unfold in_hand in *.
      assert (Ho : (option_list <$> co s) !! cid = Some [idx']) by by rewrite list_lookup_fmap, Hc.
      pose proof (Permutation_length (concat_delete _ _ _ Ho)) as Hp. rewrite Hh in Hp. done.
    + exists cid. left. unfold begin_handle. rewrite Hc. simpl. by rewrite Hq.
Qed.
End dispatch.

(** ** A dispatch, from the pull's items to their results *)

Section consume.
Context `{GC : GlobalConfig} {W : Type} `{CE : ClientEnv W} (topic_id : Z) (nhandler nbatch_handler : nat).
Context (cc : ConsumerContext) (its : list (option QItem)).

(** [Consume] and the part of [TaskDispatch] before the coroutines: every
    result is [RES_ERROR], the buckets are made.  A failure is logged. *)
Definition TaskDispatch (w : W) : option (RetCode * state * W) :=
  x ← Consume.MakeHandleBuckets topic_id nhandler cc its w;
  let '(ret, bs, w) := x in Some (ret, start nhandler nbatch_handler its (replicate (length its) RES_ERROR) bs, w).

Section dispatched.
Context (w w' : W) (s0 s : state) (es : list event).
Context (Hd : TaskDispatch w = Some (RET_OK, s0, w')) (Hs : schedule cc es s0 = Some s).

Lemma dispatched : exists bs, s0 = start nhandler nbatch_handler its (replicate (length its) RES_ERROR) bs /\
  inv cc nbatch_handler its bs s /\ Consume.MakeHandleBuckets topic_id nhandler cc its w = Some (RET_OK, bs, w') /\
  NoDup (concat bs) /\ concat bs ≡ₚ seq 0 (length its) /\ Forall (StronglySorted lt) bs.
Proof using Hd Hs.
  apply bind_Some in Hd as ([[ret bs] w1] & Hm & [= -> <- <-]). exists bs. split; [done|].
  destruct (Consume.made_buckets _ _ _ _ _ _ _ Hm) as (Hlen & Hp & Hsort & _).
  assert (NoDup (concat bs)) by (rewrite Hp; apply NoDup_seq). split_and!; try done.
  eapply schedule_inv; [done| |done]. apply start_inv; [by rewrite length_replicate|done].
Qed.

Lemma all_handled : IsAllTaskFinish nbatch_handler s = true ->
  handled s ≡ₚ seq 0 (length its) /\ batches s = [] /\
  length (items s) = length its /\ length (handle_results s) = length its /\
  forall i item, its !! i = Some item -> exists run item' r,
    Consume.HandleRoutineFunc cc run item = Some (item', r) /\ items s !! i = Some item' /\ handle_results s !! i = Some r.
Proof using Hd Hs.
  destruct dispatched as (bs & _ & Hi & _ & _ & Hp & _). intros Hf.
  assert (Hl : length (concat bs) = length its) by (rewrite Hp; apply length_seq).
  apply (finish_left cc nbatch_handler its bs s Hi Hl) in Hf. unfold left in Hf.
  assert (Hh : handled s ≡ₚ seq 0 (length its)).
  { rewrite <-Hp, <-(inv_perm _ _ _ _ _ Hi). rewrite (nil_length_inv (in_hand s)), (nil_length_inv (concat (buckets s))) by lia.
    by rewrite !app_nil_r. }
  split_and!; [done|apply nil_length_inv; lia|apply (inv_items _ _ _ _ _ Hi)|apply (inv_results _ _ _ _ _ Hi)|].
  intros i item Hit. destruct (inv_done _ _ _ _ _ Hi i) as (a & run & item' & r & Ha & H1 & H2 & H3).
  { rewrite Hh. apply elem_of_seq. apply lookup_lt_Some in Hit. lia. }
  rewrite Ha in Hit. injection Hit as ->. by exists run, item', r.
Qed.

(** C3: Every item of a pull is handled exactly once.  When the dispatcher sees
    that all tasks are finished, whatever the schedule was: every index of the
    pull is once in the history; its item and its result are what one
    [HandleRoutineFunc] made of the item that was pulled; and no batch is
    left. *)
Theorem dispatch_handles_once : IsAllTaskFinish nbatch_handler s = true ->
  handled s ≡ₚ seq 0 (length its) /\ batches s = [] /\
  length (items s) = length its /\ length (handle_results s) = length its /\
  forall i item, its !! i = Some item -> exists run item' r,
    Consume.HandleRoutineFunc cc run item = Some (item', r) /\ items s !! i = Some item' /\ handle_results s !! i = Some r.
Proof using Hd Hs. apply all_handled. Qed.

(** C19: Items of one [uin] are handled one after the other, in the order of the
    pull.  Unless the queue says to handle by random [uin], when an item has been
    handled or is being handled, every item with the same [uin], other than 0,
    that was pulled before it has been handled, and before it. *)
Theorem dispatch_in_order c qi i j : GetTopicConfigByTopicID topic_id = (RET_OK, Some c) ->
  TopicConfig.GetQueueInfoByQueue c (cc_queue_id cc) = (RET_OK, Some qi) -> qi_handle_by_random_uin qi = 0 ->
  Consume.same_uin its i j -> (i < j)%nat -> j ∈ handled s \/ running s j ->
  exists l1 l2, handled s = l1 ++ i :: l2 /\ j ∉ l1.
Proof using Hd Hs.
  intros Ht Hq Hr Hu Hij Hj. destruct dispatched as (bs & _ & Hi & Hm & Hn & Hp & Hsort).
  destruct (Consume.made_buckets _ _ _ _ _ _ _ Hm) as (_ & _ & _ & c' & qi' & Ht' & Hq' & Hb).
  rewrite Ht in Ht'. injection Ht' as <-. rewrite Hq in Hq'. injection Hq' as <-.
  destruct (Hb Hr i j Hu) as (b & q0 & Hb0 & Hiq & Hjq). rewrite Forall_lookup in Hsort. pose proof (Hsort b q0 Hb0) as Hss.
  destruct (inv_split _ _ _ _ _ Hi b q0 Hb0) as (q & cb & _ & Hcb & E).
  assert (Hbefore : j ∈ handled s \/ cb = Some j).
  { destruct Hj as [|(cid & Hc)]; [by left|right]. destruct (lookup_lt_is_Some_2 bs cid) as [q1 Hq1].
    { rewrite <-(inv_co _ _ _ _ _ Hi). by eapply lookup_lt_Some. }
    destruct (split_running _ _ _ _ Hn s cid q1 j Hi Hq1 Hc) as [Hjq1 _].
    rewrite (bucket_unique bs Hn cid b q1 q0 j) in Hc by done. congruence. }
  set (h := filter (fun i => i ∈ q0) (handled s)) in E. rewrite E in Hss.
  assert (Hih : i ∈ handled s).
  { rewrite E in Hiq. apply elem_of_app in Hiq as [H|Hrest]; [by apply list_elem_of_filter in H as [_ ?]|exfalso].
    assert (j < i \/ j = i)%nat; [|lia]. destruct Hbefore as [Hjh| ->].
    - left. eapply (StronglySorted_app_1_elem_of lt h); [done| |done]. by apply list_elem_of_filter.
    - apply StronglySorted_app_1_r in Hss. simpl in Hss, Hrest. apply elem_of_cons in Hrest as [|Hrest]; [by right|left].
      apply StronglySorted_inv in Hss as [_ Hall]. rewrite Forall_forall in Hall. by apply Hall. }
  apply list_elem_of_split in Hih as (l1 & l2 & El). exists l1, l2. split; [done|]. intros Hjl.
  apply StronglySorted_app_1_l in Hss. unfold h in Hss. rewrite El, filter_app, filter_cons_True in Hss by done.
  assert (j < i)%nat; [|lia]. eapply (StronglySorted_app_1_elem_of lt); [done| |left]. by apply list_elem_of_filter.
Qed.

End dispatched.

Lemma unmade_hangs w w' ret s0 es s : TaskDispatch w = Some (ret, s0, w') -> ret <> RET_OK -> its <> [] ->
  schedule cc es s0 = Some s -> IsAllTaskFinish nbatch_handler s = false.
Proof.
  intros ([[ret1 bs] w1] & Hm & [= -> <- <-])%bind_Some Hret Hits Hs. apply Consume.failed_buckets in Hm as ->; [|done].
  assert (Hi : inv cc nbatch_handler its (Consume.empty_buckets nhandler) s).
  { eapply schedule_inv; [| |done]; unfold Consume.empty_buckets; [rewrite concat_replicate_nil; constructor|].
    apply start_inv; by rewrite length_replicate. }
  unfold IsAllTaskFinish. pose proof (Permutation_length (inv_perm _ _ _ _ _ Hi)) as Hp.
  unfold Consume.empty_buckets in Hp. rewrite concat_replicate_nil, !length_app in Hp. simpl in Hp.
  rewrite (inv_count _ _ _ _ _ Hi), (inv_items _ _ _ _ _ Hi). apply andb_false_iff. left. apply Nat.eqb_neq.
  destruct its; simpl; [done|lia].
Qed.

(** A dispatch whose buckets could not be made never ends.  When
    [MakeHandleBuckets] fails, the failure is only logged, and with an item in the
    pull no schedule reaches a state in which all tasks are finished: the
    dispatcher waits for a count that no coroutine will increment, and [Consume]
    waits for the dispatcher. *)
Theorem dispatch_hangs w w' ret s0 es s : TaskDispatch w = Some (ret, s0, w') -> ret <> RET_OK -> its <> [] ->
  schedule cc es s0 = Some s -> IsAllTaskFinish nbatch_handler s = false.
Proof. apply unmade_hangs. Qed.
End consume.
End Dispatch.
