(* ===== verification/Freq.v ===== *)
(** * Limiting the rate of the workers (src/phxqueue/consumer/freqman.cpp)

    The workers count what they handle; a process of its own turns the
    configured limits per minute into limits of the workers ([UpdateLimitInfo]),
    which a worker asks for before every pull ([Judge]).  The counts and the
    limits are in memory that the processes share; here an operation on it is
    atomic.  The rates are computed in [double] ([Float]); [None] where a
    conversion or an index is undefined. *)

From Stdlib Require Import Floats.SpecFloat.
From S2P Require Import Prelude Float RetCode TopicConfig StoreConfig Node HeartBeatLock.
From S2P Require Import LockConfig SchedulerConfig MasterClient StoreMeta SyncCtrl BaseMgr Consume.

#[local] Set Default Proof Using "Type".

Module FreqMan.

Definition MAX_VPID : Z := 10000.
Definition MAX_HANDLE_ID_NUM : Z := 1000.

Record LimitInfo_t := mkLimit {
  nhandle_limit : Z;
  li_nrefill : Z;
  li_refill_interval_ms : Z;
}.

Record ConsumeStat_t := mkStat {
  nget : Z;
  nhandle_tot : Z;
  handle_id_rank2nhandle : list Z;      (* MAX_HANDLE_ID_NUM + 1 of them *)
}.

(** [FreqManShm_t]. *)
Record Shm := mkShm {
  limit_infos : list LimitInfo_t;
  consume_stats : list ConsumeStat_t;
}.

Definition no_limit : LimitInfo_t := mkLimit 0 0 0.

Definition Init : Shm :=
  mkShm (replicate (Z.to_nat (MAX_VPID + 1)) no_limit)
    (replicate (Z.to_nat (MAX_VPID + 1)) (mkStat 0 0 (replicate (Z.to_nat (MAX_HANDLE_ID_NUM + 1)) 0))).

(** [None] when it writes behind the array. *)
Definition ClearConsumeStat (stat : ConsumeStat_t) (nhandle_id : nat) : option ConsumeStat_t :=
  let l := handle_id_rank2nhandle stat in
  if Nat.leb nhandle_id (length l) then Some (mkStat 0 0 (replicate nhandle_id 0 ++ drop nhandle_id l)) else None.

Section freq.
Context `{GC : GlobalConfig} (topic_id : Z).

Definition nhandle_ids (c : TopicConfig.t) : nat :=
  length (TopicConfig.handle_ids (TopicConfig.topic (TopicConfig.proto c))).

Definition count_item (c : TopicConfig.t) (cc : ConsumerContext) (stat : ConsumeStat_t) (item : QItem) : option ConsumeStat_t :=
  skip ← Consume.SkipHandle cc item;
  if skip : bool then Some stat else
  match TopicConfig.GetHandleIDRank c (meta_handle_id item) with
  | (RET_OK, Some rank) =>
      if MAX_HANDLE_ID_NUM <? rank then Some stat else
      Some (mkStat (nget stat) (nhandle_tot stat + 1)
              (alter (fun n => n + 1) (Z.to_nat rank) (handle_id_rank2nhandle stat)))
  | _ => Some stat
  end.

(** [last] is the time of the configuration that was seen last, [mod_time]
    that of [c]. *)
Definition UpdateConsumeStat (vpid : Z) (cc : ConsumerContext) (items : list QItem) (last mod_time : Z) (shm : Shm)
    : option (Shm * Z) :=
  if MAX_VPID <? vpid then Some (shm, last) else
  stat ← consume_stats shm !! Z.to_nat vpid;
  match GetTopicConfigByTopicID topic_id with
  | (RET_OK, Some c) =>
      stat ← (if negb (last =? mod_time) then ClearConsumeStat stat (nhandle_ids c) else Some stat);
      stat ← foldM (count_item c cc) (mkStat (nget stat + 1) (nhandle_tot stat) (handle_id_rank2nhandle stat)) items;
      Some (mkShm (limit_infos shm) (<[Z.to_nat vpid := stat]> (consume_stats shm)), mod_time)
  | _ => Some (shm, last)
  end.

(** ** The limits *)

(** [need_block], [need_freqlimit], [nrefill], [refill_interval_ms]. *)
Record verdict := mkVerdict {
  need_block : bool;
  need_freqlimit : bool;
  nrefill : Z;
  refill_interval_ms : Z;
}.

Definition Judge (vpid : Z) (shm : Shm) : option verdict :=
  if MAX_VPID <? vpid then Some (mkVerdict false false 0 0) else
  limit ← limit_infos shm !! Z.to_nat vpid;
  stat ← consume_stats shm !! Z.to_nat vpid;
  Some (if nhandle_limit limit =? 0 then mkVerdict false false 0 0
        else mkVerdict (nhandle_limit limit <? nhandle_tot stat) true (li_nrefill limit) (li_refill_interval_ms limit)).

Definition dbl : Z -> spec_float := of_int float64.
#[local] Notation "x ·/ y" := (fdiv float64 x y) (at level 40, left associativity).
#[local] Notation "x ·* y" := (fmul float64 x y) (at level 40, left associativity).

(** The worker [queue] pulls from a queue that the limit is about. *)
Definition concerns (fi : FreqInfo) (stores queue_ids : gset Z) (queue : Queue_t) : bool :=
  negb (q_magic queue =? 0) && (q_consumer_group_id queue =? to_u32 (fi_consumer_group_id fi)) &&
  bool_decide (to_i32 (q_store_id queue) ∈ stores) && bool_decide (to_i32 (q_queue_id queue) ∈ queue_ids).

(** [handle_id_rank2nhandle[rank]].  With rank [-1], outside the array, C++
    promises nothing; the word before the array is [nhandle_tot]. *)
Definition rank_count (stat : ConsumeStat_t) (rank : Z) : option Z :=
  if rank =? -1 then Some (nhandle_tot stat) else handle_id_rank2nhandle stat !! Z.to_nat rank.

(** The sums over the workers that the limit is about: [proc_used], [nget],
    [nhandle_tot] and [nhandle]. *)
Record sums := mkSums { proc_used : Z; s_nget : Z; s_nhandle_tot : Z; s_nhandle : Z }.

Definition add_stat (rank : Z) (s : sums) (stat : ConsumeStat_t) : option sums :=
  n ← rank_count stat rank;
  Some (mkSums (proc_used s + 1) (s_nget s + nget stat) (s_nhandle_tot s + nhandle_tot stat) (s_nhandle s + n)).

Definition or_one (n : Z) : Z := if n =? 0 then 1 else n.

Definition sum_stats (rank : Z) (stats : list ConsumeStat_t) : option sums :=
  s ← foldM (add_stat rank) (mkSums 0 0 0 0) stats;
  Some (mkSums (proc_used s) (or_one (s_nget s)) (or_one (s_nhandle_tot s)) (or_one (s_nhandle s))).

(** The doubles of a limit. *)
Record rate := mkRate {
  limit_per_proc : spec_float;
  handled_pct_per_proc : spec_float;
  handle_rate : spec_float;
  rate_limit : spec_float;              (* [nhandle_limit] *)
}.

Definition rate_of (fi : FreqInfo) (diff_time_ms proc_tot : Z) (s : sums) : rate :=
  let limit_per_proc := dbl (fi_limit_per_min fi) ·/ dbl 60 ·* dbl diff_time_ms ·/ dbl 1000 ·/ dbl proc_tot in
  let handle_rate := dbl (s_nhandle s) ·/ dbl (s_nhandle_tot s) in
  mkRate limit_per_proc (dbl (s_nhandle s) ·/ dbl (proc_used s) ·/ limit_per_proc) handle_rate
    (limit_per_proc ·/ handle_rate).

(** [nrefill] and [refill_interval_ms]. *)
Definition refill_of (diff_time_ms : Z) (r : rate) : option (Z * Z) :=
  interval ← trunc (dbl diff_time_ms ·/ (limit_per_proc r ·/ (dbl 1 ·* handle_rate r)));
  if interval =? 0 then
    n ← trunc (dbl 1 ·* limit_per_proc r ·/ dbl diff_time_ms ·/ handle_rate r); Some (n, 1)
  else Some (1, interval).

(** The limit of one worker; 0.1 is the [double] nearest to it. *)
Definition limit_of (rank : Z) (s : sums) (r : rate) (refill : Z * Z) (stat : ConsumeStat_t) : option LimitInfo_t :=
  n ← rank_count stat rank;
  let prop := dbl n ·/ (dbl (s_nhandle s) ·/ dbl (proc_used s)) in
  let prop := if flt prop (dbl 1 ·/ dbl 10) then dbl 1 ·/ dbl 10 else prop in
  let prop := if n =? 0 then dbl 1 else prop in
  limit ← trunc (rate_limit r ·* prop);
  interval ← trunc (dbl refill.2 ·/ prop);
  Some (mkLimit (or_one limit) refill.1 (or_one interval)).

(** The stores that serve the pub, and the queues of the limit's queue info. *)
Definition valid_store_ids (fi : FreqInfo) (store_ids : gset Z) : gset Z :=
  filter (fun id => (match GetPubIDsByStoreID topic_id id with
                     | (RET_OK, pubs) => bool_decide (fi_pub_id fi ∈ pubs)
                     | _ => false
                     end) = true) store_ids.

Definition valid_queue_ids (c : TopicConfig.t) (fi : FreqInfo) : option (gset Z) :=
  x ← TopicConfig.GetQueuesByQueueInfoID c (fi_queue_info_id fi); Some x.2.

(** The rank of the handler a limit is about; [None] when it has none. *)
Definition freq_rank (c : TopicConfig.t) (fi : FreqInfo) : option Z :=
  if fi_handle_id fi =? -1 then Some (-1) else
  match TopicConfig.GetHandleIDRank c (fi_handle_id fi) with (RET_OK, Some rank) => Some rank | _ => None end.

Definition pub_has_group (c : TopicConfig.t) (fi : FreqInfo) : bool :=
  match TopicConfig.GetPubByPubID c (fi_pub_id fi) with
  | (RET_OK, Some pub) => bool_decide (fi_consumer_group_id fi ∈ pub_consumer_group_ids pub)
  | _ => false
  end.

(** What the loop over the limits carries: the limit infos that are written,
    one per worker, and the largest handled share of each kind of limit. *)
Record update := mkUpdate {
  limits : list (option LimitInfo_t);       (* [None]: not [updated] *)
  max_handle_pct : gmap (Z * Z * Z) spec_float;
}.

(** The loop's body for the workers [ws], each its queue and its counts. *)
Definition apply_freq (c : TopicConfig.t) (store_ids : gset Z) (diff_time_ms : Z) (ws : list (Queue_t * ConsumeStat_t))
    (u : update) (fi : FreqInfo) : option update :=
  if fi_limit_per_min fi =? 0 then Some u else
  match freq_rank c fi with
  | None => Some u
  | Some rank =>
      if negb (pub_has_group c fi) then Some u else
      let stores := valid_store_ids fi store_ids in
      if bool_decide (stores = ∅) then Some u else
      queue_ids ← valid_queue_ids c fi;
      if bool_decide (queue_ids = ∅) then Some u else
      let proc_tot := Z.of_nat (size stores * size queue_ids) in
      let mine := fun w : Queue_t * ConsumeStat_t => concerns fi stores queue_ids w.1 in
      s ← sum_stats rank (filter (fun w => mine w = true) ws).*2;
      if proc_used s =? 0 then Some u else
      let r := rate_of fi diff_time_ms proc_tot s in
      let key := (fi_pub_id fi, fi_consumer_group_id fi, fi_queue_info_id fi) in
      if match max_handle_pct u !! key with Some pct => flt (handled_pct_per_proc r) pct | None => false end then Some u else
      refill ← refill_of diff_time_ms r;
      ls ← mapM (fun wl : (Queue_t * ConsumeStat_t) * option LimitInfo_t =>
             if mine wl.1 then l ← limit_of rank s r refill wl.1.2; Some (Some l) else Some wl.2)
           (zip ws (limits u));
      Some (mkUpdate ls (<[key := handled_pct_per_proc r]> (max_handle_pct u)))
  end.

(** [now] is the clock, [last_update_time] its reading at the last call. *)
Definition UpdateLimitInfo (nprocs : nat) (queues : RetCode * list Queue_t) (now last_update_time : Z) (shm : Shm)
    : option (RetCode * Shm) :=
  let diff_time_ms := now -u last_update_time in
  match GetTopicConfigByTopicID topic_id with
  | (RET_OK, Some c) =>
      match GetStoreConfig topic_id with
      | (RET_OK, Some store_config) =>
          match queues with
          | (RET_OK, queues) =>
              if negb (Nat.eqb (length queues) nprocs) then Some (RET_ERR_UNEXPECTED, shm) else
              let ws := zip queues (consume_stats shm) in
              if Nat.ltb (length ws) nprocs then None else
              u ← foldM (apply_freq c (StoreConfig.GetAllStoreID store_config ∅).2 diff_time_ms ws)
                    (mkUpdate (replicate nprocs None) ∅) (TopicConfig.GetAllFreqInfo c).2;
              Some (RET_OK, mkShm ((default no_limit <$> limits u) ++ drop nprocs (limit_infos shm)) (consume_stats shm))
          | (ret, _) => Some (ret, shm)
          end
      | (ret, _) => Some (ret, shm)
      end
  | (ret, _) => Some (ret, shm)
  end.

Definition ClearAllConsumeStat (nprocs : nat) (shm : Shm) : option Shm :=
  match GetTopicConfigByTopicID topic_id with
  | (RET_OK, Some c) =>
      stats ← mapM (fun stat => ClearConsumeStat stat (nhandle_ids c)) (take nprocs (consume_stats shm));
      Some (mkShm (limit_infos shm) (stats ++ drop nprocs (consume_stats shm)))
  | _ => Some shm
  end.

(** ** The counts *)

Definition sum_counts (l : list Z) : Z := foldr Z.add 0 l.

(** The counts of the configured handlers add up to what was handled. *)
Definition stat_ok (n : nat) (stat : ConsumeStat_t) : Prop :=
  length (handle_id_rank2nhandle stat) = Z.to_nat (MAX_HANDLE_ID_NUM + 1) /\
  nhandle_tot stat = sum_counts (take n (handle_id_rank2nhandle stat)).

Definition ranks_ok (c : TopicConfig.t) : Prop :=
  forall handle_id rank, TopicConfig.GetHandleIDRank c handle_id = (RET_OK, Some rank) -> 0 <= rank < Z.of_nat (nhandle_ids c).

Lemma Rebuild_ranks_ok need_check p c : TopicConfig.Rebuild need_check p = Some (RET_OK, c) -> ranks_ok c.
Proof.
  unfold TopicConfig.Rebuild. intros (c1 & _ & (c2 & _ & (c3 & _ & (ranks & Hr & [= <-])%bind_Some)%bind_Some)%bind_Some)%bind_Some.
  unfold ranks_ok, TopicConfig.GetHandleIDRank, nhandle_ids; simpl. clear c1 c2 c3.
  set (ids := TopicConfig.handle_ids (TopicConfig.topic p)) in *. unfold TopicConfig.rebuild_handle_ids in Hr.
  set (P := fun m : gmap Z Z => forall h r, m !! h = Some r -> 0 <= r < Z.of_nat (length ids)).
  assert (HP : P ranks).
  { eapply (foldM_inv_elem P); [|by intros h r; rewrite lookup_empty|exact Hr].
    intros m [i id] m' Hin Hm (u & _ & [= <-])%bind_Some h r. unfold emplace.
    apply elem_of_lookup_imap in Hin as (j & x & [= <- <-] & Hj%lookup_lt_Some).
    destruct (m !! id); [by apply Hm|]. rewrite lookup_insert. case_decide; [intros [= <-]; lia|by apply Hm]. }
  intros h r. destruct (ranks !! h) eqn:E; [|done]. intros [= <-]. by apply HP in E.
Qed.

Lemma sum_replicate n : sum_counts (replicate n 0) = 0.
Proof. by induction n. Qed.

Lemma sum_alter l n i : (i < n)%nat -> (i < length l)%nat ->
  sum_counts (take n (alter (fun k => k + 1) i l)) = sum_counts (take n l) + 1.
Proof.
  revert n i. induction l as [|x l IH]; intros [|n] [|i] Hi Hl; simpl in *; try lia.
  fold (alter (fun k => k + 1) i l). rewrite IH by lia. lia.
Qed.

Lemma ClearConsumeStat_ok stat n stat' :
  length (handle_id_rank2nhandle stat) = Z.to_nat (MAX_HANDLE_ID_NUM + 1) ->
  ClearConsumeStat stat n = Some stat' -> stat_ok n stat' /\ nget stat' = 0 /\ nhandle_tot stat' = 0.
Proof.
  unfold ClearConsumeStat, stat_ok. intros Hl. destruct (Nat.leb_spec n (length (handle_id_rank2nhandle stat))); [|done].
  intros [= <-]; simpl. rewrite length_app, length_replicate, length_drop, take_app_length', sum_replicate by by rewrite length_replicate.
  split_and!; [lia|done..].
Qed.

(** An item is counted when it is handled and its handler has a rank. *)
Definition counted (c : TopicConfig.t) (cc : ConsumerContext) (item : QItem) : bool :=
  bool_decide (Consume.SkipHandle cc item = Some false) &&
  match TopicConfig.GetHandleIDRank c (meta_handle_id item) with
  | (RET_OK, Some rank) => rank <=? MAX_HANDLE_ID_NUM
  | _ => false
  end.

Lemma count_item_ok c cc stat item stat' : ranks_ok c -> stat_ok (nhandle_ids c) stat -> count_item c cc stat item = Some stat' ->
  stat_ok (nhandle_ids c) stat' /\ nget stat' = nget stat /\
  nhandle_tot stat' = nhandle_tot stat + (if counted c cc item then 1 else 0).
Proof.
  intros Hc [Hl Hs] ([] & Hskip & E)%bind_Some; unfold counted; rewrite Hskip; simpl.
  { injection E as <-. split_and!; [done|done|lia]. }
  pose proof (Hc (meta_handle_id item)) as Hr. destruct (TopicConfig.GetHandleIDRank c (meta_handle_id item)) as [[] [rank|]];
    try (injection E as <-; split_and!; [done|done|lia]).
  destruct (Hr rank eq_refl) as [Hr0 Hr1]. destruct (Z.ltb_spec MAX_HANDLE_ID_NUM rank).
  { injection E as <-. rewrite (proj2 (Z.leb_gt _ _)) by lia. split_and!; [done|done|lia]. }
  injection E as <-. rewrite (proj2 (Z.leb_le _ _)) by lia. unfold stat_ok; simpl. unfold MAX_HANDLE_ID_NUM in *.
  rewrite length_alter, Hs, sum_alter by lia. done.
Qed.

Lemma count_items_ok c cc items stat stat' : ranks_ok c -> stat_ok (nhandle_ids c) stat ->
  foldM (count_item c cc) stat items = Some stat' ->
  stat_ok (nhandle_ids c) stat' /\ nget stat' = nget stat /\
  nhandle_tot stat' = nhandle_tot stat + Z.of_nat (length (filter (fun item => counted c cc item = true) items)).
Proof.
  intros Hc. revert stat. induction items as [|item items IH]; intros stat Hs Hf.
  { injection Hf as <-. split_and!; [done|done|simpl; lia]. }
  apply foldM_cons in Hf as (s1 & H1 & H2). apply count_item_ok in H1 as (Hs1 & Hg1 & Ht1); [|done..].
  destruct (IH s1 Hs1 H2) as (Hs' & Hg & Ht). split_and!; [done|congruence|]. rewrite Ht, Ht1, filter_cons.
  destruct (counted c cc item); simpl; lia.
Qed.

(** The counts of a worker are what it handled.  After a pull, the worker's
    [nhandle_tot] has grown by the items that it handled and whose handler is
    configured (from 0 when the configuration is new), it is still the sum over
    the configured handlers, and no other worker's counts changed. *)
Theorem UpdateConsumeStat_counts c vpid cc items last mod_time shm shm' last' stat :
  ranks_ok c -> GetTopicConfigByTopicID topic_id = (RET_OK, Some c) -> 0 <= vpid <= MAX_VPID ->
  consume_stats shm !! Z.to_nat vpid = Some stat ->
  length (handle_id_rank2nhandle stat) = Z.to_nat (MAX_HANDLE_ID_NUM + 1) ->
  (last = mod_time -> stat_ok (nhandle_ids c) stat) ->
  UpdateConsumeStat vpid cc items last mod_time shm = Some (shm', last') ->
  exists stat', consume_stats shm' = <[Z.to_nat vpid := stat']> (consume_stats shm) /\ limit_infos shm' = limit_infos shm /\
    last' = mod_time /\ stat_ok (nhandle_ids c) stat' /\
    nget stat' = (if last =? mod_time then nget stat else 0) + 1 /\
    nhandle_tot stat' = (if last =? mod_time then nhandle_tot stat else 0) +
      Z.of_nat (length (filter (fun item => counted c cc item = true) items)).
Proof.
  intros Hc Ht Hv Hst Hl Hok. unfold UpdateConsumeStat. rewrite (proj2 (Z.ltb_ge _ _)), Hst, Ht by lia. simpl.
  intros (s1 & H1 & (s2 & H2 & [= <- <-])%bind_Some)%bind_Some. exists s2.
  split; [done|]. split; [done|]. split; [done|].
  assert (stat_ok (nhandle_ids c) s1 /\ nget s1 = (if last =? mod_time then nget stat else 0) /\
    nhandle_tot s1 = (if last =? mod_time then nhandle_tot stat else 0)) as (Hs1 & Hg1 & Ht1).
  { destruct (Z.eqb_spec last mod_time); simpl in H1; [injection H1 as <-; split_and!; [by apply Hok|done..]|].
    by apply ClearConsumeStat_ok in H1. }
  apply count_items_ok in H2 as (Hs2 & Hg2 & Ht2); [|done|exact Hs1]. simpl in *. by rewrite Hg2, Ht2, Hg1, Ht1.
Qed.

(** ** What a limit is *)

Definition limit_ok (l : LimitInfo_t) : Prop := nhandle_limit l = 0 \/ li_refill_interval_ms l <> 0.

Definition shm_ok (shm : Shm) : Prop := Forall limit_ok (limit_infos shm).

Lemma or_one_nonzero n : or_one n <> 0.
Proof. unfold or_one. destruct (Z.eqb_spec n 0); lia. Qed.

(** The limits that are written, for the workers [qs]. *)
Definition limits_for (c : TopicConfig.t) (store_ids : gset Z) (qs : list Queue_t) (ls : list (option LimitInfo_t)) : Prop :=
  length ls = length qs /\
  forall i l q, ls !! i = Some (Some l) -> qs !! i = Some q ->
    nhandle_limit l <> 0 /\ li_refill_interval_ms l <> 0 /\
    exists fi queue_ids, fi ∈ (TopicConfig.GetAllFreqInfo c).2 /\ fi_limit_per_min fi <> 0 /\
      valid_queue_ids c fi = Some queue_ids /\ concerns fi (valid_store_ids fi store_ids) queue_ids q = true.

Lemma apply_freq_limits c store_ids diff ws u fi u' :
  fi ∈ (TopicConfig.GetAllFreqInfo c).2 -> limits_for c store_ids ws.*1 (limits u) ->
  apply_freq c store_ids diff ws u fi = Some u' -> limits_for c store_ids ws.*1 (limits u').
Proof.
  intros Hfi Hu. unfold apply_freq. destruct (Z.eqb_spec (fi_limit_per_min fi) 0); [by intros [= <-]|].
  destruct (freq_rank c fi) as [rank|]; [|by intros [= <-]].
  destruct (negb (pub_has_group c fi)); [by intros [= <-]|]. case_bool_decide; [by intros [= <-]|].
  intros (queue_ids & Hq & E)%bind_Some. revert E. case_bool_decide; [by intros [= <-]|].
  intros (s & Hs & E)%bind_Some. revert E. destruct (proc_used s =? 0); [by intros [= <-]|]. cbn zeta.
  case_match; [by intros [= <-]|]. intros (refill & _ & (ls & Hm & [= <-])%bind_Some)%bind_Some. simpl.
  destruct Hu as [Hlen Hu]. apply mapM_Some in Hm. split.
  { apply Forall2_length in Hm. rewrite length_zip in Hm. rewrite length_fmap in *. lia. }
  intros i l q Hl Hqi. destruct (Forall2_lookup_r _ _ _ _ _ Hm Hl) as ([w ol] & Hz & E). simpl in E.
  apply lookup_zip_Some in Hz as [Hw Hol]. rewrite list_lookup_fmap, Hw in Hqi. injection Hqi as <-.
  destruct (concerns fi _ queue_ids w.1) eqn:Ec.
  - apply bind_Some in E as (l0 & Hl0 & [= <-]). unfold limit_of in Hl0.
    apply bind_Some in Hl0 as (k & _ & (lim & _ & (interval & _ & [= <-])%bind_Some)%bind_Some). simpl.
    split_and!; [apply or_one_nonzero..|]. by exists fi, queue_ids.
  - injection E as ->. apply (Hu i); [done|]. by rewrite list_lookup_fmap, Hw.
Qed.

(** Limits come from the configuration.  After [UpdateLimitInfo] succeeds, a
    worker is unlimited, or it is limited to something other than 0 with a refill
    interval other than 0, and then the configuration has a limit about the pub's
    stores and the queues from one of which the worker pulls for the group.
    The limits of slots without a worker are as they were. *)
Theorem UpdateLimitInfo_limits nprocs queues now last shm shm' c sc :
  GetTopicConfigByTopicID topic_id = (RET_OK, Some c) -> GetStoreConfig topic_id = (RET_OK, Some sc) ->
  (nprocs <= length (limit_infos shm))%nat ->
  UpdateLimitInfo nprocs queues now last shm = Some (RET_OK, shm') ->
  consume_stats shm' = consume_stats shm /\ length (limit_infos shm') = length (limit_infos shm) /\
  forall i l, limit_infos shm' !! i = Some l ->
    if decide (i < nprocs)%nat then
      l = no_limit \/
      nhandle_limit l <> 0 /\ li_refill_interval_ms l <> 0 /\
      exists q fi queue_ids, queues.2 !! i = Some q /\ fi ∈ (TopicConfig.GetAllFreqInfo c).2 /\ fi_limit_per_min fi <> 0 /\
        valid_queue_ids c fi = Some queue_ids /\
        concerns fi (valid_store_ids fi (StoreConfig.GetAllStoreID sc ∅).2) queue_ids q = true
    else limit_infos shm !! i = Some l.
Proof.
  intros Hc Hsc Hn. unfold UpdateLimitInfo. rewrite Hc, Hsc. destruct queues as [[] qs]; try done.
  destruct (Nat.eqb_spec (length qs) nprocs) as [Hqs|]; [|done]. cbn [negb].
  set (ws := zip qs (consume_stats shm)). destruct (Nat.ltb_spec (length ws) nprocs) as [|Hws]; [done|].
  intros (u & Hu & [= <-])%bind_Some. simpl.
  assert (Hfst : ws.*1 = qs).
  { unfold ws in *. rewrite length_zip in Hws. apply fst_zip. lia. }
  assert (limits_for c (StoreConfig.GetAllStoreID sc ∅).2 ws.*1 (limits u)) as [Hlen Hl].
  { eapply (foldM_inv_elem (fun u => limits_for c _ ws.*1 (limits u))); [| |exact Hu].
    - intros a fi a' Hin Ha. by apply apply_freq_limits.
    - simpl. split; [by rewrite length_replicate, Hfst|]. intros i l q Hi. by apply lookup_replicate in Hi as [? _]. }
  rewrite Hfst in *. rewrite length_app, length_fmap, length_drop. split_and!; [done|lia|].
  intros i l Hi. case_decide as Hd.
  - rewrite lookup_app_l, list_lookup_fmap in Hi by (rewrite length_fmap; lia).
    apply fmap_Some in Hi as ([l0|] & Hi & ->); [right|by left]. simpl.
    destruct (lookup_lt_is_Some_2 qs i) as [q Hq]; [lia|].
    destruct (Hl i l0 q Hi Hq) as (H1 & H2 & fi & ids & H3). split_and!; [done..|]. by exists q, fi, ids.
  - rewrite lookup_app_r, length_fmap, lookup_drop in Hi by (rewrite length_fmap; lia).
    by replace (nprocs + (i - length (limits u)))%nat with i in Hi by lia.
Qed.

Lemma UpdateLimitInfo_ok nprocs queues now last shm ret shm' : (nprocs <= length (limit_infos shm))%nat ->
  shm_ok shm -> UpdateLimitInfo nprocs queues now last shm = Some (ret, shm') -> shm_ok shm'.
Proof.
  intros Hn Hs Hu. destruct (decide (ret = RET_OK)) as [->|Hr].
  - assert (exists c sc, GetTopicConfigByTopicID topic_id = (RET_OK, Some c) /\ GetStoreConfig topic_id = (RET_OK, Some sc)) as (c & sc & Hc & Hsc).
    { unfold UpdateLimitInfo in Hu. repeat case_match; simplify_eq; eauto; exfalso.
      - by eapply GetStoreConfig_found.
      - by eapply GetTopicConfig_found. }
    pose proof (UpdateLimitInfo_limits nprocs queues now last shm shm' c sc Hc Hsc Hn Hu) as (_ & _ & Hl).
    apply Forall_lookup. intros i l Hi. specialize (Hl i l Hi). case_decide.
    + destruct Hl as [->|(_ & ? & _)]; [by left|by right].
    + by eapply Forall_lookup.
  - unfold UpdateLimitInfo in Hu. repeat case_match; simplify_eq; try done. by apply bind_Some in Hu as (? & _ & [= <- _]).
Qed.

Lemma UpdateConsumeStat_limits vpid cc items last mod_time shm shm' last' :
  UpdateConsumeStat vpid cc items last mod_time shm = Some (shm', last') ->
  limit_infos shm' = limit_infos shm /\ length (consume_stats shm') = length (consume_stats shm).
Proof.
  unfold UpdateConsumeStat. destruct (MAX_VPID <? vpid); [by intros [= <- _]|]. intros (stat & _ & E)%bind_Some. revert E.
  case_match; case_match; try (by intros [= <- _]). case_match; [|by intros [= <- _]].
  intros (s1 & _ & (s2 & _ & [= <- _])%bind_Some)%bind_Some. simpl. by rewrite length_insert.
Qed.

Lemma ClearAllConsumeStat_limits nprocs shm shm' : ClearAllConsumeStat nprocs shm = Some shm' ->
  limit_infos shm' = limit_infos shm /\ length (consume_stats shm') = length (consume_stats shm).
Proof.
  unfold ClearAllConsumeStat. destruct (GetTopicConfigByTopicID topic_id) as [[] [c|]]; try (by intros [= <-]).
  intros (stats & Hm & [= <-])%bind_Some. apply mapM_Some, Forall2_length in Hm. simpl. split; [done|].
  rewrite length_app, length_drop, <-Hm, length_take. lia.
Qed.

Lemma UpdateLimitInfo_lengths nprocs queues now last shm ret shm' : (nprocs <= length (limit_infos shm))%nat ->
  UpdateLimitInfo nprocs queues now last shm = Some (ret, shm') ->
  length (limit_infos shm') = length (limit_infos shm) /\ length (consume_stats shm') = length (consume_stats shm).
Proof.
  intros Hn. unfold UpdateLimitInfo. repeat case_match; try (by intros [= _ <-]).
  intros (u & Hu & [= _ <-])%bind_Some. simpl. split; [|done].
  assert (length (limits u) = nprocs) as Hlen.
  { eapply (foldM_inv_elem (fun u => length (limits u) = nprocs)); [| |exact Hu]; [|simpl; by rewrite length_replicate].
    intros a fi a' _ Ha. unfold apply_freq. destruct (fi_limit_per_min fi =? 0); [by intros [= <-]|].
    destruct (freq_rank _ fi) as [rank|]; [|by intros [= <-]].
    destruct (negb (pub_has_group _ fi)); [by intros [= <-]|]. case_match; [by intros [= <-]|].
    intros (ids & _ & E)%bind_Some. revert E. case_match; [by intros [= <-]|]. intros (sm & _ & E)%bind_Some. revert E.
    case_match; [by intros [= <-]|]. cbn zeta. case_match; [by intros [= <-]|].
    intros (rf & _ & (ls & Hm & [= <-])%bind_Some)%bind_Some. apply mapM_Some, Forall2_length in Hm. rewrite length_zip in Hm. simpl.
    rewrite <-Hm, Ha. match goal with H : Nat.ltb _ _ = false |- _ => apply Nat.ltb_ge in H; lia end. }
  rewrite length_app, length_fmap, length_drop. lia.
Qed.

(** The states of the shared memory: workers count, and the other process
    updates the limits and clears the counts, in any order. *)
Inductive reachable (nprocs : nat) : Shm -> Prop :=
| reachable_Init : reachable nprocs Init
| reachable_count vpid cc items last mod_time shm shm' last' : reachable nprocs shm ->
    UpdateConsumeStat vpid cc items last mod_time shm = Some (shm', last') -> reachable nprocs shm'
| reachable_limit queues now last shm ret shm' : reachable nprocs shm ->
    UpdateLimitInfo nprocs queues now last shm = Some (ret, shm') -> reachable nprocs shm'
| reachable_clear shm shm' : reachable nprocs shm -> ClearAllConsumeStat nprocs shm = Some shm' -> reachable nprocs shm'.

Lemma reachable_ok nprocs shm : Z.of_nat nprocs <= MAX_VPID + 1 -> reachable nprocs shm ->
  shm_ok shm /\ length (limit_infos shm) = Z.to_nat (MAX_VPID + 1) /\ length (consume_stats shm) = Z.to_nat (MAX_VPID + 1).
Proof.
  intros Hn. induction 1 as [|vpid cc items last mt shm shm' last' _ (Hs & H1 & H2) Hu|queues now last shm ret shm' _ (Hs & H1 & H2) Hu|
    shm shm' _ (Hs & H1 & H2) Hu].
  - unfold Init, shm_ok; cbn [limit_infos consume_stats]. rewrite !length_replicate. split_and!; [|done..].
    apply Forall_replicate. by left.
  - apply UpdateConsumeStat_limits in Hu as [E1 E2]. unfold shm_ok. by rewrite E1, E2.
  - assert (Hle : (nprocs <= length (limit_infos shm))%nat) by lia.
    pose proof (UpdateLimitInfo_lengths _ _ _ _ _ _ _ Hle Hu) as [E1 E2]. rewrite E1, E2.
    split_and!; [by eapply UpdateLimitInfo_ok|done..].
  - apply ClearAllConsumeStat_limits in Hu as [E1 E2]. unfold shm_ok. by rewrite E1, E2.
Qed.

End freq.
End FreqMan.
