(* ===== verification/Process.v ===== *)
(** * The pull thread of a worker

    [Consumer::Process] of src/phxqueue/consumer/consumer.cpp and what it calls:
    a worker that holds the lock of a queue asks the store for items, hands them
    to the consume thread ([Dispatch]), gives the items that failed back to the
    store ([AfterConsume]) and asks for the next ones, until it is time to renew
    the lock.

    A call interacts with an outside world [W], as in MasterClient.v.  What one
    turn of the loop finds besides it is its [input].  Sleeping passes time
    only and is left out. *)

From Stdlib Require Import Floats.SpecFloat.
From S2P Require Import Prelude Float RetCode TopicConfig StoreConfig LockConfig SchedulerConfig MasterClient.
From S2P Require Import Node StoreMeta SyncCtrl BaseMgr StoreSM AddRequests Consume Dispatch HeartBeatLock Freq.

#[local] Set Default Proof Using "Type".

(** A response of the store and its redirection. *)
Definition GetReply : Type := GetResponse * option Addr.

Module Process.

(** The cursor ids of a context whose queue is new. *)
Definition no_cursors (cc : ConsumerContext) (g s q : Z) : ConsumerContext :=
  mkContext (cc_topic_id cc) g s q UINT64_MAX UINT64_MAX.

(** The context after a successful [Lock] in [ChildRun]. *)
Definition after_lock (cc : ConsumerContext) (consumer_group_id store_id queue_id : Z) : ConsumerContext :=
  if negb (cc_consumer_group_id cc =? consumer_group_id) || negb (cc_store_id cc =? store_id) ||
     negb (cc_queue_id cc =? queue_id)
  then no_cursors cc consumer_group_id store_id queue_id else cc.

Definition UpdateConsumerContextByGetResponse (resp : GetResponse) (cc : ConsumerContext) : ConsumerContext :=
  mkContext (cc_topic_id cc) (cc_consumer_group_id cc) (cc_store_id cc) (cc_queue_id cc)
    (resp_prev_cursor_id resp) (resp_next_cursor_id resp).

(** [now] is read only for a queue with a delay. *)
Definition MakeGetRequest (topic_id : Z) (cc : ConsumerContext) (queue_info : QueueInfo) (limit now : Z) : GetRequest :=
  let delayed := 0 <? qi_delay queue_info in
  mkGetRequest topic_id (cc_store_id cc) (cc_queue_id cc) (to_i32 limit)
    (if delayed then now / 1000 -u qi_delay queue_info else 0) (cc_consumer_group_id cc)
    (if delayed then now mod 1000 else 0) (cc_prev_cursor_id cc) (cc_next_cursor_id cc) false.

Definition set_request (req : GetRequest) (prev next limit : Z) : GetRequest :=
  mkGetRequest (gr_topic_id req) (gr_store_id req) (gr_queue_id req) limit (gr_atime req) (gr_consumer_group_id req)
    (gr_atime_ms req) prev next (gr_random req).

(** [CustomGetRequest] of the class: what has been read is done with. *)
Definition CustomGetRequest (req : GetRequest) : GetRequest :=
  set_request req (gr_next_cursor_id req) (gr_next_cursor_id req) (gr_limit req).

(** ** The quota of a limited worker *)

Definition dbl : Z -> spec_float := of_int float64.

(** [freq_quota] and [last_fill_time], statics of [Process]. *)
Record quota := mkQuota { freq_quota : spec_float; last_fill_time : Z }.

Definition blocked (v : FreqMan.verdict) (now : Z) (q : quota) : quota :=
  mkQuota (if flt (dbl 0) (freq_quota q) then dbl (FreqMan.nrefill v) else freq_quota q) now.

Definition fill_quota (v : FreqMan.verdict) (now : Z) (q : quota) : quota :=
  let interval := FreqMan.refill_interval_ms v in
  let q :=
    if last_fill_time q =? 0 then mkQuota (dbl (FreqMan.nrefill v)) now
    else let passed := now -u last_fill_time q in
      if to_u64 interval <=? passed then
        mkQuota (fadd float64 (freq_quota q)
                   (fmul float64 (fdiv float64 (dbl passed) (dbl interval)) (dbl (FreqMan.nrefill v)))) now
      else q in
  mkQuota (if flt (dbl 10000000) (freq_quota q) then dbl 10000000 else freq_quota q) (last_fill_time q).

(** The limit of the request; [None] when the conversion is undefined. *)
Definition limited (v : FreqMan.verdict) (now : Z) (q : quota) (limit : Z) : option (quota * Z) :=
  if FreqMan.need_freqlimit v then
    let q := fill_quota v now q in
    if flt (freq_quota q) (dbl limit) then
      limit ← (if SFleb (dbl 0) (freq_quota q) then trunc (freq_quota q) else Some 0); Some (q, limit)
    else Some (q, limit)
  else Some (mkQuota (dbl 0) 0, limit).

(** ** The limit of a pull adapts *)

Definition on_fail (limit : Z) : Z := let limit := limit / 2 in if limit <? 1 then 1 else limit.

Definition on_success (maxlimit limit : Z) : Z :=
  let limit := to_u32 (limit + (if 10 <=? maxlimit then maxlimit / 10 else 1)) in
  if maxlimit <? limit then maxlimit else limit.

(** ** Items that failed *)

Definition retry_item (consumer_group_ids now : Z) (item : QItem) : QItem :=
  mkQItem (item_buffer item) (item_pub_id item) consumer_group_ids (now / 1000) (now mod 1000)
    (to_u32 (item_count item + 1)) (item_cursor_id item) (meta_topic_id item) (meta_handle_id item)
    (meta_uin item) (meta_hash item) (item_buffer_type item) (meta_consumer_group_ids item)
    (meta_pub_id item) (meta_atime item) (meta_atime_ms item) (meta_client_id item).

Definition retry_items (items : list (option QItem)) (handle_results : list HandleResult) : list (option QItem) :=
  (filter (fun x : option QItem * HandleResult => x.2 = RES_ERROR) (zip items handle_results)).*1.

Record ConsumerOption := mkOption {
  opt_nhandler : nat;
  opt_nbatch_handler : nat;
  use_store_master_client_on_get : bool;
  use_store_master_client_on_add : bool;
}.

(** What a turn of the loop finds: the shared memory of [FreqMan], at its start
    and, as another process clears it, after its items are handled; the schedule
    of the coroutines that handle its items; what time and the application did
    to the world meanwhile; the attempts it is given for each [Add]. *)
Record input (W : Type) := mkInput {
  in_shm : FreqMan.Shm;
  in_stat_shm : FreqMan.Shm;
  in_schedule : list Dispatch.event;
  in_elapse : W -> W;
  in_attempts : nat;
}.
#[global] Arguments in_shm {_} _.
#[global] Arguments in_stat_shm {_} _.
#[global] Arguments in_schedule {_} _.
#[global] Arguments in_elapse {_} _.
#[global] Arguments in_attempts {_} _.

(** What a turn did, from the request on. *)
Record round := mkRound {
  r_req : GetRequest;
  r_ret : RetCode;
  r_resp : GetResponse;
  r_items : list QItem;                     (* pulled and not to be skipped *)
  r_handled : list (option QItem);          (* the items as the handlers left them *)
  r_results : list HandleResult;
  r_adds : list AddRequest;                 (* given back and accepted *)
  r_stats : option FreqMan.Shm;             (* the counts, when the items were handled *)
}.

(** [topic_config_last_mod_time] is the static of [UpdateConsumeStat]. *)
Record t := mk {
  cc : ConsumerContext;
  limit : Z;
  q : quota;
  addr_cache_ : gmap string (Addr * Z);
  topic_config_last_mod_time : Z;
}.

Section process.
Context `{GC : GlobalConfig} {W : Type} `{CE : ClientEnv W} (ByteSize : QItem -> Z) (topic_id : Z) (vpid : Z).
Context (opt : ConsumerOption) (GetSteadyClockMS GetTimestampMS : W -> Z * W).
Context (rpc_Get : GetRequest -> Addr -> GetReply -> W -> RetCode * GetReply * W).
Context (rpc_Add : AddRequest -> Addr -> StoreService.AddResponse -> W -> RetCode * StoreService.AddResponse * W).

(** A call by the [StoreMasterClient], or without it. *)
Definition call {Resp} (use_store_master_client : bool) (redirect_of : Resp -> Addr)
    (rpc : Addr -> Resp -> W -> RetCode * Resp * W) (topic_id store_id queue_id : Z) (resp : Resp)
    (c : gmap string (Addr * Z)) (w : W) : RetCode * Resp * gmap string (Addr * Z) * W :=
  if use_store_master_client then
    MasterClient.ClientCall redirect_of rpc (store_route_key topic_id store_id queue_id)
      (store_candidates topic_id store_id) resp c w
  else let '(ret, resp, w) := rpc MasterClient.no_master_addr resp w in (ret, resp, c, w).

Definition call_Get (req : GetRequest) (c : gmap string (Addr * Z)) (w : W) :=
  call (use_store_master_client_on_get opt) (fun r : GetReply => default MasterClient.no_master_addr r.2) (rpc_Get req)
    (gr_topic_id req) (gr_store_id req) (gr_queue_id req) (mkGetResponse [] 0 0, None) c w.

Definition call_Add (req : AddRequest) (c : gmap string (Addr * Z)) (w : W) :=
  call (use_store_master_client_on_add opt)
    (fun r => default MasterClient.no_master_addr (StoreService.addr_redirect r)) (rpc_Add req)
    (ar_topic_id req) (ar_store_id req) (ar_queue_id req) (StoreService.mkAddResponse None None) c w.

(** The update of every item reads the clock. *)
Fixpoint restamp (consumer_group_ids : Z) (items : list (option QItem)) (w : W) : list (option QItem) * W :=
  match items with
  | [] => ([], w)
  | None :: items => let '(l, w) := restamp consumer_group_ids items w in (None :: l, w)
  | Some item :: items =>
      let '(now, w) := GetTimestampMS w in
      let '(l, w) := restamp consumer_group_ids items w in (Some (retry_item consumer_group_ids now item) :: l, w)
  end.

(** [Add] until it succeeds; [None] when it has not with [n] attempts. *)
Fixpoint add_forever (n : nat) (req : AddRequest) (c : gmap string (Addr * Z)) (w : W)
    : option (gmap string (Addr * Z) * W) :=
  match n with
  | O => None
  | S n => let '(ret, _, c, w) := call_Add req c w in if is_ok ret then Some (c, w) else add_forever n req c w
  end.

Fixpoint add_all (n : nat) (reqs : list AddRequest) (c : gmap string (Addr * Z)) (w : W)
    : option (gmap string (Addr * Z) * W) :=
  match reqs with
  | [] => Some (c, w)
  | req :: reqs =>
      if bool_decide (ar_items req = []) then add_all n reqs c w else
      x ← add_forever n req c w; add_all n reqs x.1 x.2
  end.

(** The requests are returned with the result. *)
Definition AfterConsume (n : nat) (cc : ConsumerContext) (items : list (option QItem)) (handle_results : list HandleResult)
    (c : gmap string (Addr * Z)) (w : W) : option (list AddRequest * gmap string (Addr * Z) * W) :=
  if Nat.ltb (length handle_results) (length items) then Some ([], c, w) else
  match retry_items items handle_results with
  | [] => Some ([], c, w)
  | retry =>
      let k := cc_consumer_group_id cc - 1 in
      if negb ((0 <=? k) && (k <? 64)) then None else
      let '(retry, w) := if is_ok (GetTopicConfigByTopicID (cc_topic_id cc)).1 then restamp (Z.shiftl 1 k) retry w
                         else (retry, w) in
      match AddRequests.MakeAddRequests ByteSize (cc_topic_id cc) retry None with
      | (RET_OK, reqs) => x ← add_all n reqs c w; Some (reqs, x.1, x.2)
      | _ => Some ([], c, w)
      end
  end.

(** The consume thread's part and the counts of what it handled; [None] while
    not all tasks are finished.  [last] is the time of the configuration of the
    last counts, [mod_time] of this one. *)
Definition Consume (i : input W) (last mod_time : Z) (cc : ConsumerContext) (items : list QItem) (w : W)
    : option (list (option QItem) * list HandleResult * (FreqMan.Shm * Z) * W) :=
  x ← Dispatch.TaskDispatch topic_id (opt_nhandler opt) (opt_nbatch_handler opt) cc (Some <$> items) w;
  s ← Dispatch.schedule cc (in_schedule i) x.1.2;
  if negb (Dispatch.IsAllTaskFinish (opt_nbatch_handler opt) s) then None else
  handled ← mapM id (Dispatch.items s);
  stats ← FreqMan.UpdateConsumeStat topic_id vpid cc handled last mod_time (in_stat_shm i);
  Some (Dispatch.items s, Dispatch.handle_results s, stats, in_elapse i x.2).

(** Between the response and the next turn. *)
Definition handle_response (i : input W) (last mod_time : Z) (c : TopicConfig.t) (queue_info : QueueInfo) (req : GetRequest)
    (resp : GetResponse) (cc : ConsumerContext) (cache : gmap string (Addr * Z)) (w : W)
    : option (round * gmap string (Addr * Z) * Z * W) :=
  let items := filter (fun item =>
      TopicConfig.ShouldSkip c item (cc_consumer_group_id cc) (qi_queue_info_id queue_info) = false) (resp_items resp) in
  if negb (qi_drop_all queue_info =? 0) then Some (mkRound req RET_OK resp items [] [] [] None, cache, last, w) else
  x ← match items with
      | [] => Some ([], [], None, last, w)
      | _ => x ← Consume i last mod_time cc items w;
             let '(handled, results, (shm, last), w) := x in Some (handled, results, Some shm, last, w)
      end;
  let '(handled, results, stats, last, w) := x in
  y ← AfterConsume (in_attempts i) cc handled results cache w;
  let '(adds, cache, w) := y in
  Some (mkRound req RET_OK resp items handled results adds stats, cache, last, w).

(** A turn of the loop, with the round it makes, if any; [None] as its state
    when [Process] returns. *)
Definition turn (mod_time : Z) (c : TopicConfig.t) (queue_info : QueueInfo) (start_loop_time : Z) (i : input W) (s : t) (w : W)
    : option (option t * list round * W) :=
  let tp := TopicConfig.topic (TopicConfig.proto c) in
  let maxlimit := to_u32 (TopicConfig.batch_limit tp) in
  let '(now, w) := GetSteadyClockMS w in
  if start_loop_time <? (now -u to_i32 (TopicConfig.consumer_lock_interval_s tp * 1000)) then Some (None, [], w) else
  let '(ts, w) := if 0 <? qi_delay queue_info then GetTimestampMS w else (0, w) in
  let req := MakeGetRequest topic_id (cc s) queue_info (limit s) ts in
  v ← FreqMan.Judge vpid (in_shm i);
  if FreqMan.need_block v then 
    Some (Some (mk (cc s) (limit s) (blocked v now (q s)) (addr_cache_ s) (topic_config_last_mod_time s)), [], w) else
  ql ← limited v now (q s) (gr_limit req);
  let req := CustomGetRequest (set_request req (gr_prev_cursor_id req) (gr_next_cursor_id req) ql.2) in
  let '(ret, (resp, _), cache, w) := call_Get req (addr_cache_ s) w in
  let quota := mkQuota (fsub float64 (freq_quota ql.1) (dbl (Z.of_nat (length (resp_items resp))))) (last_fill_time ql.1) in
  if negb (is_ok ret) then
    Some (Some (mk (cc s) (on_fail (limit s)) quota cache (topic_config_last_mod_time s)),
          [mkRound req ret resp [] [] [] [] None], w)
  else
    let cc := UpdateConsumerContextByGetResponse resp (cc s) in
    x ← handle_response i (topic_config_last_mod_time s) mod_time c queue_info req resp cc cache w;
    let '(r, cache, last, w) := x in
    Some (Some (mk cc (on_success maxlimit (limit s)) quota cache last), [r], w).

(** The loop, a turn per input; [true] when it returned. *)
Fixpoint loop (mod_time : Z) (c : TopicConfig.t) (queue_info : QueueInfo) (start_loop_time : Z) (inputs : list (input W))
    (s : t) (w : W)
    : option (bool * t * list round * W) :=
  match inputs with
  | [] => Some (false, s, [], w)
  | i :: inputs =>
      x ← turn mod_time c queue_info start_loop_time i s w;
      let '(next, rounds, w) := x in
      match next with
      | None => Some (true, s, rounds, w)
      | Some s =>
          y ← loop mod_time c queue_info start_loop_time inputs s w;
          let '(done, s, rest, w) := y in Some (done, s, rounds ++ rest, w)
      end
  end.

(** A configuration that is newer than the last one empties the quota. *)
Definition fresh_quota (last_mod_time mod_time : Z) (q : quota) : quota :=
  if negb (last_mod_time =? mod_time) && flt (dbl 0) (freq_quota q) then mkQuota (dbl 0) (last_fill_time q) else q.

(** [last_mod_time] is the time of the configuration of the last call,
    [stat_time] of the last counts, [mod_time] of this one.  [RET_OK] with [false]: still in the loop. *)
Definition Process (last_mod_time stat_time mod_time : Z) (inputs : list (input W)) (cc : ConsumerContext) (q : quota)
    (cache : gmap string (Addr * Z)) (w : W) : option (RetCode * bool * t * list round * W) :=
  match GetTopicConfigByTopicID topic_id with
  | (RET_OK, Some c) =>
      let limit := to_u32 (TopicConfig.batch_limit (TopicConfig.topic (TopicConfig.proto c))) in
      let s := mk cc limit q cache stat_time in
      if negb (TopicConfig.IsValidQueue c (cc_queue_id cc) (-1) (cc_consumer_group_id cc))
      then Some (RET_ERR_RANGE_QUEUE, true, s, [], w) else
      match TopicConfig.GetQueueInfoByQueue c (cc_queue_id cc) with
      | (RET_OK, Some queue_info) =>
          if qi_delay queue_info <? 0 then Some (RET_ERR_RANGE, true, s, [], w) else
          let '(start_loop_time, w) := GetSteadyClockMS w in
          x ← loop mod_time c queue_info start_loop_time inputs
                (mk cc limit (fresh_quota last_mod_time mod_time q) cache stat_time) w;
          let '(done, s, rounds, w) := x in Some (RET_OK, done, s, rounds, w)
      | (ret, _) => Some (ret, true, s, [], w)
      end
  | (ret, _) => Some (ret, true, mk cc 0 q cache stat_time, [], w)
  end.

(** ** What is given back *)

#[local] Existing Instance AddRequests.routes_dec.

(** Requests that the store accepted one after the other. *)
Inductive added : list AddRequest -> W -> W -> Prop :=
| added_nil w : added [] w w
| added_empty req reqs w w' : ar_items req = [] -> added reqs w w' -> added (req :: reqs) w w'
| added_cons req reqs l a w resp1 resp2 w1 w2 w3 w' :
    MasterClient.trace (rpc_Add req) w l w1 -> rpc_Add req a resp1 w1 = (RET_OK, resp2, w2) ->
    MasterClient.trace (rpc_Add req) w2 [] w3 -> added reqs w3 w' -> added (req :: reqs) w w'.

Lemma call_Add_trace req c w ret resp c' w' : call_Add req c w = (ret, resp, c', w') ->
  exists l, MasterClient.trace (rpc_Add req) w l w'.
Proof.
  unfold call_Add, call. destruct (use_store_master_client_on_add opt).
  - intros (l & H & _)%MasterClient.ClientCall_calls. by exists l.
  - destruct (rpc_Add req MasterClient.no_master_addr _ w) as [[r1 p1] w1] eqn:E. intros ?; simplify_eq.
    eexists. eapply MasterClient.trace_rpc; [exact E|constructor].
Qed.

Lemma call_Add_ok req c w resp c' w' : call_Add req c w = (RET_OK, resp, c', w') ->
  exists l a w1 resp1 resp2 w2, MasterClient.trace (rpc_Add req) w l w1 /\
    rpc_Add req a resp1 w1 = (RET_OK, resp2, w2) /\ MasterClient.trace (rpc_Add req) w2 [] w'.
Proof.
  unfold call_Add, call. destruct (use_store_master_client_on_add opt); [by apply MasterClient.ClientCall_ok|].
  destruct (rpc_Add req MasterClient.no_master_addr _ w) as [[r1 p1] w1] eqn:E. intros ?; simplify_eq.
  eexists [], _, w, _, _, _. split; [constructor|]. split; [exact E|constructor].
Qed.

Lemma add_forever_ok n req c w c' w' : add_forever n req c w = Some (c', w') ->
  exists l a w1 resp1 resp2 w2, MasterClient.trace (rpc_Add req) w l w1 /\
    rpc_Add req a resp1 w1 = (RET_OK, resp2, w2) /\ MasterClient.trace (rpc_Add req) w2 [] w'.
Proof.
  revert c w. induction n as [|n IH]; intros c w; simpl; [done|].
  destruct (call_Add req c w) as [[[ret resp] c1] w1] eqn:E. destruct (is_ok ret) eqn:Er.
  - apply is_ok_true in Er as ->. intros [= <- <-]. by eapply call_Add_ok.
  - intros (l & a & x1 & r1 & r2 & x2 & H1 & H2 & H3)%IH. apply call_Add_trace in E as [l0 H0].
    exists (l0 ++ l), a, x1, r1, r2, x2. split; [|done]. by eapply MasterClient.trace_app.
Qed.

Lemma add_all_ok n reqs c w c' w' : add_all n reqs c w = Some (c', w') -> added reqs w w'.
Proof.
  revert c w. induction reqs as [|req reqs IH]; intros c w; simpl; [intros [= _ <-]; constructor|].
  case_bool_decide; [intros H1%IH; by constructor|]. intros ([c1 w1] & H1 & H2%IH)%bind_Some.
  apply add_forever_ok in H1 as (l & a & x1 & r1 & r2 & x2 & H3 & H4 & H5). by eapply added_cons.
Qed.

Lemma restamp_elem m l w l' w' : restamp m l w = (l', w') ->
  (forall item, Some item ∈ l -> exists now, Some (retry_item m now item) ∈ l') /\
  (forall x, Some x ∈ l' -> exists item now, Some item ∈ l /\ x = retry_item m now item).
Proof.
  revert w l' w'. induction l as [|[item|] l IH]; intros w l' w'; simpl.
  - intros [= <- _]. split; intros ? []%elem_of_nil.
  - destruct (GetTimestampMS w) as [now w1]. destruct (restamp m l w1) as [l1 w2] eqn:E. intros [= <- _].
    destruct (IH _ _ _ E) as [H1 H2]. split.
    + intros x [Hx|Hx]%elem_of_cons; [injection Hx as ->; exists now; left|].
      destruct (H1 x Hx) as [k Hk]. exists k. by right.
    + intros x [Hx|Hx]%elem_of_cons; [injection Hx as ->; exists item, now; split; [left|done]|].
      destruct (H2 x Hx) as (y & k & Hy & ->). exists y, k. split; [by right|done].
  - destruct (restamp m l w) as [l1 w2] eqn:E. intros [= <- _]. destruct (IH _ _ _ E) as [H1 H2]. split.
    + intros x [|Hx]%elem_of_cons; [done|]. destruct (H1 x Hx) as [k Hk]. exists k. by right.
    + intros x [|Hx]%elem_of_cons; [done|]. destruct (H2 x Hx) as (y & k & Hy & ->). exists y, k. split; [by right|done].
Qed.

Lemma elem_of_new_items l x : x ∈ AddRequests.new_items_of l None <-> Some x ∈ l.
Proof.
  unfold AddRequests.new_items_of. simpl. rewrite list_fmap_id, list_elem_of_omap. split.
  - by intros (y & Hy & ->).
  - intros Hx. by exists (Some x).
Qed.

Lemma retry_items_elem items results i x :
  items !! i = Some x -> results !! i = Some RES_ERROR -> x ∈ retry_items items results.
Proof.
  intros Hx Hr. apply list_elem_of_fmap. exists (x, RES_ERROR). split; [done|]. apply list_elem_of_filter. split; [done|].
  apply list_elem_of_lookup. exists i. by apply lookup_zip_Some.
Qed.

Lemma retry_items_sub items results x : x ∈ retry_items items results -> x ∈ items.
Proof.
  intros ([y r] & -> & [_ Hy]%list_elem_of_filter)%list_elem_of_fmap. apply list_elem_of_lookup in Hy as [i Hi].
  apply lookup_zip_Some in Hi as [Hi _]. by eapply list_elem_of_lookup_2.
Qed.

Definition own_mask (cc : ConsumerContext) : Z := Z.shiftl 1 (cc_consumer_group_id cc - 1).

(** Items that failed are given back when they are small enough and their
    retries are not used up. *)
Lemma AfterConsume_adds c n cc items results cache w adds cache' w' :
  (forall item, 0 <= ByteSize item <= INT32_MAX) -> AddRequests.limits_ok c -> 1 <= AddRequests.batch_limit_of c ->
  GetTopicConfigByTopicID (cc_topic_id cc) = (RET_OK, Some c) ->
  AfterConsume n cc items results cache w = Some (adds, cache', w') ->
  (exists w1, added adds w1 w') /\
  (length items = length results ->
   (forall item now, Some item ∈ items -> ByteSize (retry_item (own_mask cc) now item) <= AddRequests.byte_limit_of c) ->
   forall i item id, items !! i = Some (Some item) -> results !! i = Some RES_ERROR ->
     AddRequests.routes c id (retry_item (own_mask cc) 0 item) ->
     exists now, retry_item (own_mask cc) now item ∈ concat (ar_items <$> adds)).
Proof.
  intros Hb Hlim H1 Hc. unfold AfterConsume. destruct (Nat.ltb_spec (length results) (length items)).
  { intros [= <- _ <-]. split; [exists w; constructor|]. lia. }
  destruct (retry_items items results) as [|x0 l0] eqn:Er.
  { intros [= <- _ <-]. split; [exists w; constructor|]. intros _ _ i item id Hi Hr _. exfalso.
    pose proof (retry_items_elem _ _ _ _ Hi Hr) as He. rewrite Er in He. by apply elem_of_nil in He. }
  rewrite <-Er. clear x0 l0 Er. destruct (negb _); [done|]. rewrite Hc. cbn [fst]. change (is_ok RET_OK) with true. cbv iota.
  fold (own_mask cc). destruct (restamp (own_mask cc) (retry_items items results) w) as [l w1] eqn:El.
  apply restamp_elem in El as [He1 He2].
  destruct (AddRequests.MakeAddRequests ByteSize (cc_topic_id cc) l None) as [rm reqs] eqn:Em. intros Hr.
  assert (Hadd : exists w1, added adds w1 w').
  { destruct rm; try (injection Hr as <- _ <-; exists w1; constructor).
    apply bind_Some in Hr as ([c1 w2] & Ha & [= <- _ <-]). exists w1. by eapply add_all_ok. }
  split; [done|]. intros Hlen Hfit i item id Hi Hres Hroute.
  destruct (He1 item) as [now Hnow]; [by eapply retry_items_elem|]. exists now.
  destruct (AddRequests.add_requests_ok ByteSize (cc_topic_id cc) l None c Hb Hlim Hc H1) as [reqs' Em'].
  { apply Forall_forall. intros x Hx%elem_of_new_items. destruct (He2 x Hx) as (y & k & Hy & ->).
    apply Hfit. by eapply retry_items_sub. }
  rewrite Em in Em'. injection Em' as -> ->. apply bind_Some in Hr as ([c1 w2] & _ & [= <- _ _]).
  destruct (AddRequests.add_requests_complete ByteSize _ _ _ c reqs' Hb Hlim Hc Em) as [_ Hall].
  assert (Hin : retry_item (own_mask cc) now item ∈ filter (AddRequests.routes c id) (concat (ar_items <$> reqs'))).
  { rewrite Hall. apply list_elem_of_filter. split; [exact Hroute|]. by apply elem_of_new_items. }
  by apply list_elem_of_filter in Hin as [_ ?].
Qed.

(** ** A round *)

Definition to_handle (c : TopicConfig.t) (queue_info : QueueInfo) (cc : ConsumerContext) (items : list QItem) : list QItem :=
  filter (fun item => TopicConfig.ShouldSkip c item (cc_consumer_group_id cc) (qi_queue_info_id queue_info) = false) items.

(** Every item of [items] was handled once, with these outcomes. *)
Definition handled_once (cc : ConsumerContext) (items : list QItem) (handled : list (option QItem)) (results : list HandleResult)
    : Prop :=
  length handled = length items /\ length results = length items /\
  forall i item, items !! i = Some item -> exists run item' res,
    Consume.HandleRoutineFunc cc run (Some item) = Some (Some item', res) /\
    handled !! i = Some (Some item') /\ results !! i = Some res.

(** Every item that failed was given back to the store, counted, for its
    consumer group only; unless it is too large or its retries are used up. *)
Definition given_back (c : TopicConfig.t) (cc : ConsumerContext) (handled : list (option QItem)) (results : list HandleResult)
    (adds : list AddRequest) : Prop :=
  (exists w w', added adds w w') /\
  ((forall item now, Some item ∈ handled -> ByteSize (retry_item (own_mask cc) now item) <= AddRequests.byte_limit_of c) ->
   forall i item id, handled !! i = Some (Some item) -> results !! i = Some RES_ERROR ->
     AddRequests.routes c id (retry_item (own_mask cc) 0 item) ->
     exists now, retry_item (own_mask cc) now item ∈ concat (ar_items <$> adds)).

(** What is done about a response before the next request. *)
Definition completed (c : TopicConfig.t) (queue_info : QueueInfo) (cc : ConsumerContext) (r : round) : Prop :=
  r_items r = to_handle c queue_info cc (resp_items (r_resp r)) /\
  (qi_drop_all queue_info <> 0 \/
   handled_once cc (r_items r) (r_handled r) (r_results r) /\ given_back c cc (r_handled r) (r_results r) (r_adds r)).

Lemma HandleRoutineFunc_item cc0 run item x res :
  Consume.HandleRoutineFunc cc0 run (Some item) = Some (x, res) -> exists item', x = Some item'.
Proof.
  unfold Consume.HandleRoutineFunc. intros ([] & _ & E)%bind_Some; [injection E as <- _; eauto|].
  destruct (Consume.Handle run item) as [[? ?] ?]. injection E as <- _. eauto.
Qed.

Lemma Consume_handles i last mod_time cc0 items w handled results stats w' :
  items <> [] -> Consume i last mod_time cc0 items w = Some (handled, results, stats, w') -> handled_once cc0 items handled results.
Proof.
  intros Hne ([[ret s0] w1] & Hd & (s & Hs & E)%bind_Some)%bind_Some. cbn [fst snd] in *.
  destruct (Dispatch.IsAllTaskFinish _ s) eqn:Ef; [|done]. apply bind_Some in E as (l & _ & (u & _ & [= <- <- _ _])%bind_Some).
  destruct (decide (ret = RET_OK)) as [->|Hr].
  - destruct (Dispatch.all_handled _ _ _ _ _ _ _ _ _ _ Hd Hs Ef) as (_ & _ & H1 & H2 & H3).
    rewrite length_fmap in *. split_and!; [done..|]. intros k item Hk.
    destruct (H3 k (Some item)) as (run & x & res & Hx & H4 & H5); [by rewrite list_lookup_fmap, Hk|].
    destruct (HandleRoutineFunc_item _ _ _ _ _ Hx) as [item' ->]. by exists run, item', res.
  - assert (Hf : Dispatch.IsAllTaskFinish (opt_nbatch_handler opt) s = false); [|congruence].
    eapply Dispatch.unmade_hangs; [exact Hd|exact Hr| |exact Hs]. by destruct items.
Qed.

Definition sizes_ok (c : TopicConfig.t) : Prop :=
  (forall item, 0 <= ByteSize item <= INT32_MAX) /\ AddRequests.limits_ok c /\ 1 <= AddRequests.batch_limit_of c.

Lemma handle_response_completed i last mod_time c qi req resp cc0 cache w r cache' last' w' :
  sizes_ok c -> GetTopicConfigByTopicID (cc_topic_id cc0) = (RET_OK, Some c) ->
  handle_response i last mod_time c qi req resp cc0 cache w = Some (r, cache', last', w') ->
  r_req r = req /\ r_ret r = RET_OK /\ r_resp r = resp /\ completed c qi cc0 r.
Proof.
  intros (Hb & Hlim & H1) Hc. unfold handle_response. fold (to_handle c qi cc0 (resp_items resp)).
  set (items := to_handle c qi cc0 (resp_items resp)).
  destruct (Z.eqb_spec (qi_drop_all qi) 0) as [Hd|Hd]; cbn [negb].
  - intros ([[[[handled results] stats] l1] w1] & Hh & ([[adds c1] w2] & Ha & [= <- _ _ _])%bind_Some)%bind_Some.
    split_and!; [done..|]. split; [done|]. right. simpl.
    assert (Hho : handled_once cc0 items handled results).
    { destruct items as [|x l].
      2: { apply bind_Some in Hh as ([[[h1 r1] [s1 m1]] w3] & Hh & [= <- <- _ _ _]). by eapply Consume_handles. }
      injection Hh as <- <- _ _ _.
      split_and!; [done..|]. intros k item. by rewrite lookup_nil. }
    split; [done|]. destruct Hho as (Hl1 & Hl2 & _).
    apply (AfterConsume_adds c) in Ha as [[w3 Hw] Hg]; [|done..]. split; [eauto|]. apply Hg. congruence.
  - intros [= <- _ _ _]. split_and!; [done..|]. split; [done|]. by left.
Qed.

(** ** The session *)

(** The client's position after some rounds. *)
Definition cursor_after (c : Z) (rounds : list round) : Z :=
  foldl (fun c r => if is_ok (r_ret r) then resp_next_cursor_id (r_resp r) else c) c rounds.

Definition same_ids (a b : ConsumerContext) : Prop :=
  cc_topic_id a = cc_topic_id b /\ cc_consumer_group_id a = cc_consumer_group_id b /\
  cc_store_id a = cc_store_id b /\ cc_queue_id a = cc_queue_id b.

Lemma update_same_ids resp a b : same_ids a b ->
  UpdateConsumerContextByGetResponse resp a = UpdateConsumerContextByGetResponse resp b.
Proof. unfold UpdateConsumerContextByGetResponse. by intros (-> & -> & -> & ->). Qed.

(** What the rounds of a session do, [a] being the context at its start. *)
Definition round_ok (c : TopicConfig.t) (qi : QueueInfo) (a : ConsumerContext) (pos : Z) (r : round) : Prop :=
  gr_prev_cursor_id (r_req r) = pos /\ gr_next_cursor_id (r_req r) = pos /\
  gr_topic_id (r_req r) = topic_id /\ gr_store_id (r_req r) = cc_store_id a /\ gr_queue_id (r_req r) = cc_queue_id a /\
  gr_consumer_group_id (r_req r) = cc_consumer_group_id a /\ gr_random (r_req r) = false /\
  (r_ret r = RET_OK -> completed c qi (UpdateConsumerContextByGetResponse (r_resp r) a) r).

Lemma turn_round mod_time c qi start i s w next rounds w' a :
  sizes_ok c -> GetTopicConfigByTopicID (cc_topic_id a) = (RET_OK, Some c) -> same_ids (cc s) a ->
  turn mod_time c qi start i s w = Some (next, rounds, w') ->
  match next with
  | None => rounds = []
  | Some s' => same_ids (cc s') a /\
      (rounds = [] /\ cc s' = cc s \/
       exists r, rounds = [r] /\ round_ok c qi a (cc_next_cursor_id (cc s)) r /\
         cc_next_cursor_id (cc s') = cursor_after (cc_next_cursor_id (cc s)) [r])
  end.
Proof.
  intros Hsz Hc Hids. unfold turn. destruct (GetSteadyClockMS w) as [now w0]. case_match; [by intros [= <- <- _]|].
  destruct (if 0 <? qi_delay qi then _ else _) as [ts w1]. intros (v & _ & Ht)%bind_Some.
  destruct (FreqMan.need_block v); [injection Ht as <- <- _; split; [done|by left]|].
  apply bind_Some in Ht as ([ql lim] & _ & Ht). set (req := CustomGetRequest _) in Ht.
  destruct (call_Get req (addr_cache_ s) w1) as [[[ret [resp redirect]] cache] w2].
  assert (Hreq : forall r, r_req r = req -> (r_ret r = RET_OK -> completed c qi (UpdateConsumerContextByGetResponse (r_resp r) a) r) ->
            round_ok c qi a (cc_next_cursor_id (cc s)) r).
  { intros r Hr Hok. destruct Hids as (_ & Hg & Hs & Hq). unfold round_ok. rewrite Hr. by split_and!. }
  destruct (is_ok ret) eqn:Er; cbn [negb] in Ht.
  - apply is_ok_true in Er as ->. apply bind_Some in Ht as ([[[r c1] l1] w3] & Hh & [= <- <- _]). simpl.
    rewrite (update_same_ids resp _ a Hids) in Hh |- *.
    apply (handle_response_completed _ _ _ c) in Hh as (H1 & H2 & H3 & H4); [|done|done].
    split; [done|]. right. exists r. split_and!; [done| |unfold cursor_after; simpl; rewrite H2; simpl; by rewrite H3].
    apply Hreq; [done|]. by rewrite H3.
  - injection Ht as <- <- _. split; [done|]. right. eexists. split_and!; [done| |unfold cursor_after; simpl; by rewrite Er].
    apply Hreq; [done|]. simpl. intros ->. done.
Qed.

Lemma loop_rounds mod_time c qi start inputs s w done s' rounds w' a :
  sizes_ok c -> GetTopicConfigByTopicID (cc_topic_id a) = (RET_OK, Some c) -> same_ids (cc s) a ->
  loop mod_time c qi start inputs s w = Some (done, s', rounds, w') ->
  same_ids (cc s') a /\ cc_next_cursor_id (cc s') = cursor_after (cc_next_cursor_id (cc s)) rounds /\
  forall i r, rounds !! i = Some r -> round_ok c qi a (cursor_after (cc_next_cursor_id (cc s)) (take i rounds)) r.
Proof.
  intros Hsz Hc. revert s w done s' rounds w'. induction inputs as [|i inputs IH]; intros s w done s' rounds w' Hids Hl; simpl in Hl.
  { injection Hl as <- <- <- <-. split_and!; [done..|]. intros i r. by rewrite lookup_nil. }
  apply bind_Some in Hl as ([[next rs] w1] & Ht & Hl). apply (turn_round _ _ _ _ _ _ _ _ _ _ a) in Ht; [|done..].
  destruct next as [s1|].
  2: { injection Hl as <- <- <- <-. subst rs. split_and!; [done..|]. intros k r. by rewrite lookup_nil. }
  apply bind_Some in Hl as ([[[d s2] rest] w2] & Hl & [= <- <- <- <-]).
  destruct Ht as [Hids1 Hr]. destruct (IH _ _ _ _ _ _ Hids1 Hl) as (H1 & H2 & H3).
  destruct Hr as [[-> Hcc]|(r & -> & Hok & Hn)]; [rewrite Hcc in *; by split_and!|].
  rewrite Hn in *. split_and!; [done|exact H2|]. intros [|k] x Hx; simpl in Hx |- *; [by injection Hx as <-|]. by apply H3.
Qed.


(** ** The limit *)

Lemma on_fail_bounds l maxlimit : 1 <= l <= maxlimit -> 1 <= on_fail l <= maxlimit.
Proof. intros H. unfold on_fail. destruct (Z.ltb_spec (l / 2) 1); [lia|]. split; [done|]. Z.div_mod_to_equations. lia. Qed.

Lemma on_success_bounds l maxlimit : 1 <= l <= maxlimit -> maxlimit <= INT32_MAX -> 1 <= on_success maxlimit l <= maxlimit /\ l <= on_success maxlimit l.
Proof.
  intros H Hm. unfold on_success. set (d := if 10 <=? maxlimit then maxlimit / 10 else 1).
  assert (Hd : 1 <= d <= maxlimit).
  { unfold d. destruct (Z.leb_spec 10 maxlimit); [|lia]. Z.div_mod_to_equations. lia. }
  unfold to_u32. rewrite (Z.mod_small (l + d)) by (unfold INT32_MAX in *; lia). destruct (Z.ltb_spec maxlimit (l + d)); lia.
Qed.

(** The limit of a pull adapts within its bounds.  In every run of [Process]
    with a positive batch limit the limit stays between 1 and the batch limit;
    and from one request to the next it does not grow when the call fails (and
    is halved, but not below 1) and does not shrink when it succeeds. *)
Theorem Process_limit mod_time c qi start inputs s w done s' rounds w' :
  let maxlimit := TopicConfig.batch_limit (TopicConfig.topic (TopicConfig.proto c)) in
  1 <= limit s <= maxlimit -> maxlimit <= INT32_MAX ->
  loop mod_time c qi start inputs s w = Some (done, s', rounds, w') ->
  1 <= limit s' <= maxlimit /\
  (Forall (fun r => r_ret r = RET_OK) rounds -> limit s <= limit s') /\
  (Forall (fun r => r_ret r <> RET_OK) rounds -> limit s' <= Z.max 1 (limit s / 2 ^ Z.of_nat (length rounds))).
Proof.
  intros maxlimit Hl Hm. revert s w done s' rounds w' Hl.
  induction inputs as [|i inputs IH]; intros s w done s' rounds w' Hl; simpl.
  { intros [= <- <- <- <-]. split_and!; [lia..|]. intros _. simpl. rewrite Z.div_1_r. lia. }
  intros ([[next rs] w1] & Ht & Hr)%bind_Some.
  assert (Hnext : match next with
    | None => rs = []
    | Some s1 => 1 <= limit s1 <= maxlimit /\
        (rs = [] /\ limit s1 = limit s \/ exists r, rs = [r] /\
           (r_ret r = RET_OK -> limit s <= limit s1) /\ (r_ret r <> RET_OK -> limit s1 = Z.max 1 (limit s / 2)))
    end).
  { revert Ht. unfold turn. destruct (GetSteadyClockMS w) as [now w0]. destruct (start <? _); [by intros [= <- <- _]|].
    destruct (if 0 <? qi_delay qi then _ else _) as [ts w2]. intros (v & _ & Ht)%bind_Some.
    destruct (FreqMan.need_block v); [injection Ht as <- <- _; split; [done|by left]|].
    apply bind_Some in Ht as ([ql lim] & _ & Ht).
    destruct (call_Get _ (addr_cache_ s) w2) as [[[ret [resp redirect]] cache] w3].
    destruct (is_ok ret) eqn:Er; cbn [negb] in Ht.
    - apply is_ok_true in Er as ->. apply bind_Some in Ht as ([[[r c1] l1] w4] & Hh & [= <- <- _]). simpl.
      fold maxlimit. assert (to_u32 maxlimit = maxlimit) as -> by (unfold to_u32; apply Z.mod_small; unfold INT32_MAX in *; lia).
      destruct (on_success_bounds (limit s) maxlimit) as [H1 H2]; [lia..|]. split; [done|]. right. exists r. split_and!; [done..|].
      intros Hne. exfalso. apply Hne. revert Hh. unfold handle_response. destruct (negb (qi_drop_all qi =? 0)); [by intros [= <- _ _ _]|].
      intros ([[[[x1 x2] x3] x4] x5] & _ & E)%bind_Some. by apply bind_Some in E as ([[y1 y2] y3] & _ & [= <- _ _ _]).
    - apply is_ok_false in Er. injection Ht as <- <- _. simpl. split; [by apply on_fail_bounds|]. right. eexists. split_and!; [done|done|].
      intros _. unfold on_fail. destruct (Z.ltb_spec (limit s / 2) 1); lia. }
  destruct next as [s1|].
  2: { injection Hr as <- <- <- <-. subst rs. split_and!; [lia..|]. intros _. simpl. rewrite Z.div_1_r. lia. }
  apply bind_Some in Hr as ([[[d s2] rest] w2] & Hl2 & [= <- <- <- <-]).
  destruct Hnext as [Hb Hrs]. destruct (IH _ _ _ _ _ _ Hb Hl2) as (H1 & H2 & H3). split; [done|].
  destruct Hrs as [[-> <-]|(r & -> & Hok & Hbad)]; [done|]. split.
  - intros [Hr1 Hr2]%Forall_cons. specialize (Hok Hr1). specialize (H2 Hr2). lia.
  - intros [Hr1 Hr2]%Forall_cons. rewrite (Hbad Hr1) in *. specialize (H3 Hr2). etrans; [exact H3|].
    cbn [app length]. rewrite Nat2Z.inj_succ, Z.pow_succ_r, <-Z.div_div by lia.
    assert (0 < 2 ^ Z.of_nat (length rest)) by (apply Z.pow_pos_nonneg; lia).
    destruct (Z.max_spec 1 (limit s / 2)) as [[? ->]|[? ->]]; [lia|].
    assert (1 / 2 ^ Z.of_nat (length rest) <= 1) by (apply Z.div_le_upper_bound; lia). lia.
Qed.
End process.
End Process.
