(* ===== verification/MultiProc.v ===== *)
(** * The processes of a consumer (src/phxqueue/comm/multiproc.cpp)

    [Consumer::Run] forks the process that syncs with the scheduler
    ([HeartBeatLock::RunSync]) and the one that balances the limits
    ([FreqMan::Run]), and then [MultiProc::ForkAndRun] keeps one worker process
    for each slot, which runs [ChildRun(i)] (Worker.v).

    The operating system is a set of running processes and of those that have
    exited and wait for [waitpid].  The steps are the exit of a process and a
    turn of the parent's loop; a fork returns a pid that is not in use, or -1.
    The sleeps of the loop are left out. *)

From S2P Require Import Prelude.

(** What a process runs: [ChildRun(i)], or something else of the consumer. *)
Inductive job := Slot (i : Z) | Helper.

#[export] Instance job_eq_dec : EqDecision job.
Proof. solve_decision. Defined.

Module MultiProc.

Record t := mk {
  children_ : list Z;
  running : gmap Z job;
  exited : gset Z;
}.

(** The first [i] with [children_[i] == pid]. *)
Fixpoint find_child (pid : Z) (l : list Z) : option nat :=
  match l with
  | [] => None
  | p :: l => if p =? pid then Some 0%nat else S <$> find_child pid l
  end.

(** [fork] for slot [i] has returned [pid]; the child, if there is one, runs. *)
Definition forked (i : nat) (pid : Z) (st : t) : t :=
  mk (<[i := pid]> (children_ st))
     (if 0 <? pid then <[pid := Slot (Z.of_nat i)]> (running st) else running st) (exited st).

(** The first loop of [ForkAndRun]; [pids] is what the forks return. *)
Fixpoint start_children (i : nat) (pids : list Z) (st : t) : t :=
  match pids with
  | [] => st
  | pid :: pids => start_children (S i) pids (forked i pid st)
  end.

Definition ForkAndRun_start (pids : list Z) (st : t) : t :=
  start_children 0 pids (mk (replicate (length pids) 0) (running st) (exited st)).

(** A turn of the second loop in which [waitpid] returns [pid]; [new_pid] is
    what [fork] returns. *)
Definition reap (pid new_pid : Z) (st : t) : t :=
  let st := mk (children_ st) (running st) (exited st ∖ {[pid]}) in
  match find_child pid (children_ st) with
  | Some i => forked i new_pid st
  | None => st
  end.

(** A pid that [fork] may return. *)
Definition fresh (pid : Z) (st : t) : Prop := 0 < pid /\ running st !! pid = None /\ pid ∉ exited st.

Inductive step (st : t) : t -> Prop :=
  | exit_step pid j : running st !! pid = Some j ->
      step st (mk (children_ st) (delete pid (running st)) ({[pid]} ∪ exited st))
  | reap_step pid new_pid : pid ∈ exited st ->
      fresh new_pid (mk (children_ st) (running st) (exited st ∖ {[pid]})) \/ new_pid = -1 ->
      step st (reap pid new_pid st).

(** A step in which no fork fails. *)
Inductive good_step (st : t) : t -> Prop :=
  | good_exit pid j : running st !! pid = Some j ->
      good_step st (mk (children_ st) (delete pid (running st)) ({[pid]} ∪ exited st))
  | good_reap pid new_pid : pid ∈ exited st ->
      fresh new_pid (mk (children_ st) (running st) (exited st ∖ {[pid]})) -> good_step st (reap pid new_pid st).

(** ** Properties *)

Lemma find_child_Some pid l i : find_child pid l = Some i -> l !! i = Some pid.
Proof.
  revert i. induction l as [|p l IH]; intros i; simpl; [done|]. destruct (p =? pid) eqn:E; simpl_bool.
  - intros [= <-]. by subst.
  - intros (j & Hj & ->)%fmap_Some. by apply IH.
Qed.

Lemma find_child_elem pid l : pid ∈ l -> is_Some (find_child pid l).
Proof.
  induction l as [|p l IH]; [by intros ?%elem_of_nil|]. intros [->|Hin]%elem_of_cons; simpl.
  - by rewrite Z.eqb_refl.
  - case_match; [done|]. destruct (IH Hin) as [i ->]. by eexists.
Qed.

(** Every slot has one process, which runs or waits to be replaced, and no
    other process has its job. *)
Record inv (st : t) : Prop := {
  inv_nodup : NoDup (children_ st);
  inv_positive pid : pid ∈ children_ st -> 0 < pid;
  inv_child i pid : children_ st !! i = Some pid ->
    running st !! pid = Some (Slot (Z.of_nat i)) \/ (running st !! pid = None /\ pid ∈ exited st);
  inv_slot pid i : running st !! pid = Some (Slot i) -> 0 <= i /\ children_ st !! Z.to_nat i = Some pid;
  inv_apart pid : pid ∈ exited st -> running st !! pid = None;
}.

Lemma exit_inv st pid j : inv st -> running st !! pid = Some j ->
  inv (mk (children_ st) (delete pid (running st)) ({[pid]} ∪ exited st)).
Proof.
  intros [Hn Hp Hc Hs Ha] Hr. split; simpl; [done|done| | |].
  - intros i p Hi. destruct (decide (p = pid)) as [->|Hne]; [right; rewrite lookup_delete_eq; set_solver|].
    rewrite lookup_delete_ne by done. destruct (Hc i p Hi) as [?|[? ?]]; [by left|right; set_solver].
  - intros p i [Hne Hi]%lookup_delete_Some. by apply Hs.
  - intros p. destruct (decide (p = pid)) as [->|Hne]; [by rewrite lookup_delete_eq|].
    rewrite lookup_delete_ne by done. intros Hp'. apply Ha. set_solver.
Qed.

Lemma reap_inv st pid new_pid : inv st -> pid ∈ exited st ->
  fresh new_pid (mk (children_ st) (running st) (exited st ∖ {[pid]})) -> inv (reap pid new_pid st).
Proof.
  intros [Hn Hp Hc Hs Ha] He (Hf1 & Hf2 & Hf3). cbn [running exited] in Hf2, Hf3. unfold reap. cbn [children_].
  destruct (find_child pid (children_ st)) as [i|] eqn:Ef.
  - apply find_child_Some in Ef. assert (Hi : (i < length (children_ st))%nat) by (by apply lookup_lt_Some in Ef).
    assert (Hnew : forall j p, j <> i -> children_ st !! j = Some p -> p <> new_pid).
    { intros j p Hj Hjp ->. destruct (Hc j new_pid Hjp) as [H|[_ H]]; [congruence|].
      destruct (decide (new_pid = pid)) as [E|Hd]; [|apply Hf3; set_solver].
      apply Hj, (NoDup_lookup (children_ st) j i pid); [done| |done]. by rewrite <-E. }
    unfold forked. rewrite (proj2 (Z.ltb_lt _ _) Hf1). cbn [children_ running exited]. split; cbn [children_ running exited].
    + apply NoDup_alt. intros j k p. rewrite !list_lookup_insert_Some.
      intros [(Ej & Ep & _)|[Hj Hjp]] [(Ek & Ep' & _)|[Hk Hkp]]; [congruence| | |].
      * exfalso. by apply (Hnew k p).
      * exfalso. by apply (Hnew j p).
      * by apply (NoDup_lookup (children_ st) j k p).
    + intros p [j Hj]%list_elem_of_lookup. apply list_lookup_insert_Some in Hj as [(_ & <- & _)|[_ Hj]]; [done|].
      apply Hp. by apply list_elem_of_lookup_2 with j.
    + intros j p. rewrite list_lookup_insert_Some. intros [(<- & <- & _)|[Hj Hjp]]; [left; by rewrite lookup_insert_eq|].
      rewrite lookup_insert_ne by (intros <-; by apply (Hnew j new_pid)).
      destruct (Hc j p Hjp) as [?|[? ?]]; [by left|right]. split; [done|]. apply elem_of_difference. split; [done|].
      intros ->%elem_of_singleton. apply Hj. by apply (NoDup_lookup (children_ st) i j pid).
    + intros p j. rewrite lookup_insert_Some. intros [[<- [= <-]]|[Hne Hr]].
      * split; [lia|]. rewrite Nat2Z.id. by apply list_lookup_insert_eq.
      * destruct (Hs p j Hr) as [Hj Hjp]. split; [done|]. rewrite list_lookup_insert_ne; [done|]. intros ->.
        rewrite Ef in Hjp. injection Hjp as <-. rewrite (Ha pid He) in Hr. done.
    + intros p Hin. rewrite lookup_insert_ne by (intros <-; by apply Hf3). apply Ha. set_solver.
  - split; cbn [children_ running exited]; [done|done| |done|].
    + intros j p Hj. destruct (Hc j p Hj) as [?|[? ?]]; [by left|right]. split; [done|].
      apply elem_of_difference. split; [done|]. intros ->%elem_of_singleton.
      destruct (find_child_elem pid (children_ st)) as [k Hk]; [by apply list_elem_of_lookup_2 with j|congruence].
    + intros p Hin. apply Ha. set_solver.
Qed.

Lemma start_children_spec pids i st pre rest :
  children_ st = pre ++ rest -> length pre = i -> length rest = length pids ->
  Forall (fun p => 0 < p) pids -> NoDup pids ->
  let st' := start_children i pids st in
  children_ st' = pre ++ pids /\ exited st' = exited st /\
  (forall k p, pids !! k = Some p -> running st' !! p = Some (Slot (Z.of_nat (i + k)))) /\
  (forall p, p ∉ pids -> running st' !! p = running st !! p).
Proof.
  revert i st pre rest. induction pids as [|pid pids IH]; intros i st pre rest Hc Hi Hl Hp Hn; cbn [start_children].
  { destruct rest; [|done]. split_and!; try done. }
  destruct rest as [|x rest]; [done|]. apply Forall_cons in Hp as [Hp1 Hp]. apply NoDup_cons in Hn as [Hn1 Hn].
  destruct (IH (S i) (forked i pid st) (pre ++ [pid]) rest) as (H1 & H2 & H3 & H4); try done.
  - unfold forked. cbn [children_]. rewrite Hc, <-Hi, insert_app_r_alt, Nat.sub_diag, <-app_assoc by lia. done.
  - rewrite length_app. simpl. lia.
  - by injection Hl.
  - split_and!; [by rewrite H1, <-app_assoc|by rewrite H2| |].
    + intros [|k] p; simpl.
      * intros [= ->]. rewrite H4 by done. unfold forked. cbn [running]. rewrite (proj2 (Z.ltb_lt _ _) Hp1), lookup_insert_eq.
        by rewrite Nat.add_0_r.
      * intros Hk. rewrite (H3 k p Hk). do 2 f_equal. lia.
    + intros p [Hne Hni]%not_elem_of_cons. rewrite H4 by done. unfold forked. cbn [running].
      destruct (0 <? pid); [|done]. by rewrite lookup_insert_ne.
Qed.

(** The parent before the first fork: it has other children at most. *)
Definition before (pids : list Z) (st : t) : Prop :=
  NoDup pids /\ (forall p, p ∈ pids -> fresh p st) /\ (forall p i, running st !! p <> Some (Slot i)) /\
  (forall p, p ∈ exited st -> running st !! p = None).

Lemma processes_start_inv pids st : before pids st -> inv (ForkAndRun_start pids st) /\ length (children_ (ForkAndRun_start pids st)) = length pids.
Proof.
  intros (Hn & Hf & Hs & Ha). unfold ForkAndRun_start.
  destruct (start_children_spec pids 0 (mk (replicate (length pids) 0) (running st) (exited st)) [] (replicate (length pids) 0))
    as (H1 & H2 & H3 & H4); [done|done|by rewrite length_replicate| |done|].
  { apply Forall_forall. intros p Hp. by apply Hf. }
  cbn [running exited app] in *. split; [|by rewrite H1]. split.
  - by rewrite H1.
  - intros p. rewrite H1. apply Hf.
  - intros i p. rewrite H1. intros Hi. left. by apply H3.
  - intros p i Hr. destruct (decide (p ∈ pids)) as [[k Hk]%list_elem_of_lookup|Hp].
    + rewrite (H3 k p Hk) in Hr. injection Hr as <-. split; [lia|]. rewrite H1. by rewrite Nat2Z.id.
    + rewrite H4 in Hr by done. by apply Hs in Hr.
  - intros p. rewrite H2. intros Hp. rewrite H4; [by apply Ha|]. intros (_ & _ & ?)%Hf. done.
Qed.

Lemma good_steps_inv st st' : rtc good_step st st' -> inv st -> inv st' /\ length (children_ st') = length (children_ st).
Proof.
  induction 1 as [st|st st1 st2 Hs _ IH]; [done|]. intros Hi.
  destruct Hs as [pid j Hr|pid new_pid He Hf].
  - destruct (IH (exit_inv _ _ _ Hi Hr)) as [? Hl]. by split.
  - destruct (IH (reap_inv _ _ _ Hi He Hf)) as [? Hl]. split; [done|]. rewrite Hl. unfold reap. cbn [children_].
    destruct (find_child _ _); [|done]. unfold forked. cbn [children_]. by rewrite length_insert.
Qed.

(** While no fork fails, every slot has at most one process at any time, and
    exactly one when no exited child is left to be replaced. *)
Theorem one_process_per_slot pids st st' i :
  before pids st -> rtc good_step (ForkAndRun_start pids st) st' -> (i < length pids)%nat ->
  (forall p q, running st' !! p = Some (Slot (Z.of_nat i)) -> running st' !! q = Some (Slot (Z.of_nat i)) -> p = q) /\
  exists pid, children_ st' !! i = Some pid /\
    (running st' !! pid = Some (Slot (Z.of_nat i)) \/ pid ∈ exited st').
Proof.
  intros Hb Hr Hi. destruct (processes_start_inv pids st Hb) as [H0 Hl0]. destruct (good_steps_inv _ _ Hr H0) as [[Hn Hp Hc Hs Ha] Hl].
  split.
  - intros p q [_ Hp1]%Hs [_ Hq]%Hs. congruence.
  - destruct (lookup_lt_is_Some_2 (children_ st') i) as [pid Hpid]; [lia|]. exists pid. split; [done|].
    destruct (Hc i pid Hpid) as [?|[_ ?]]; auto.
Qed.

(** A slot whose fork has failed stays empty. *)
Lemma lost_slot st st' i : step st st' -> (forall p, p ∈ exited st -> 0 < p) ->
  children_ st !! i = Some (-1) -> children_ st' !! i = Some (-1).
Proof.
  intros [pid j Hr|pid new_pid He Hf] Hpos Hi; [done|]. unfold reap. cbn [children_].
  destruct (find_child pid (children_ st)) as [k|] eqn:Ef; [|done]. apply find_child_Some in Ef.
  unfold forked. cbn [children_]. rewrite list_lookup_insert_ne; [done|]. intros ->. rewrite Hi in Ef. injection Ef as E.
  specialize (Hpos pid He). lia.
Qed.

(** The other processes of the consumer are not started again. *)
Lemma helper_not_restarted st pid new_pid : pid ∉ children_ st ->
  reap pid new_pid st = mk (children_ st) (running st) (exited st ∖ {[pid]}).
Proof.
  intros Hp. unfold reap. cbn [children_]. destruct (find_child pid (children_ st)) as [i|] eqn:E; [|done].
  apply find_child_Some in E. exfalso. apply Hp. by apply list_elem_of_lookup_2 with i.
Qed.

(** The sync process, 5, and two workers; worker 11 exits and 13 takes its
    slot. *)
Definition booted : t := mk [] {[5 := Helper]} ∅.

Lemma one_process_per_slot_witness :
  exists st', rtc good_step (ForkAndRun_start [11; 12] booted) st' /\
    running st' !! 13 = Some (Slot 0) /\ running st' !! 12 = Some (Slot 1) /\
    forall p q, running st' !! p = Some (Slot 0) -> running st' !! q = Some (Slot 0) -> p = q.
Proof.
  assert (Hb : before [11; 12] booted).
  { split_and!.
    - apply (bool_decide_unpack _). by vm_compute.
    - intros p Hp. unfold fresh, booted. simpl. rewrite !elem_of_cons, elem_of_nil in Hp.
      split_and!; [lia|rewrite lookup_singleton_ne; [done|lia]|apply not_elem_of_empty].
    - intros p i. unfold booted. simpl. intros [_ ?]%lookup_singleton_Some. done.
    - intros p ?%not_elem_of_empty. done. }
  set (s0 := ForkAndRun_start [11; 12] booted).
  set (s1 := mk (children_ s0) (delete 11 (running s0)) ({[11]} ∪ exited s0)).
  assert (Hr : rtc good_step s0 (reap 11 13 s1)).
  { eapply rtc_l; [apply (good_exit s0 11 (Slot 0)); reflexivity|]. fold s1.
    eapply rtc_l; [apply (good_reap s1 11 13)|apply rtc_refl].
    - apply elem_of_union. left. by apply elem_of_singleton.
    - split; [lia|]. split; [reflexivity|]. apply (bool_decide_unpack _). by vm_compute. }
  exists (reap 11 13 s1). split; [exact Hr|]. split; [reflexivity|]. split; [reflexivity|].
  apply (one_process_per_slot [11; 12] booted _ 0 Hb Hr). simpl. lia.
Defined.
End MultiProc.
