(* ===== verification/Worker.v ===== *)
(** * A worker process

    The loop of [Consumer::ChildRun] of src/phxqueue/consumer/consumer.cpp, which
    composes the lock of a queue ([QueueLock]) with the pull ([Process]), and the
    two checks that end the process.  The consume thread that [ChildRun] starts is
    part of [Process]. *)

From Stdlib Require Import Floats.SpecFloat.
From S2P Require Import Prelude Float Keys HashUtil RetCode TopicConfig StoreConfig LockConfig SchedulerConfig MasterClient.
From S2P Require Import Node StoreMeta SyncCtrl BaseMgr LockDb LockMgr LockSM StoreSM AddRequests Consume Dispatch HeartBeatLock.
From S2P Require Import QueueLock Freq Process.

#[local] Set Default Proof Using "Type".

Module Worker.

(** The conversion of a [double] to [uint32_t]; undefined when it is not one. *)
Definition trunc_u32 (f : spec_float) : option Z :=
  match f with
  | S754_zero _ => Some 0
  | S754_finite s m e =>
      let v := if 0 <=? e then Z.pos m * 2 ^ e else Z.pos m / 2 ^ (- e) in
      let v := if s then - v else v in
      if (0 <=? v) && (v <? 4294967296) then Some v else None
  | _ => None
  end.

(** [limit + limit / 100.0 * (vpid % 20)] *)
Definition fixed_limit (limit vpid : Z) : option Z :=
  let dbl := of_int float64 in
  trunc_u32 (fadd float64 (dbl limit) (fmul float64 (fdiv float64 (dbl limit) (dbl 100)) (dbl (Z.rem vpid 20)))).

Section worker.
Context `{GC : GlobalConfig, LD : LockDirectory} {W : Type} `{CE : ClientEnv W, LR : LockRpc W}.
Context (ByteSize : QItem -> Z) (topic_id : Z) (vpid : nat).
Context (lock_opt : HeartBeatLock.ConsumerOption) (opt : Process.ConsumerOption) (GetTimestampMS : W -> Z * W).
Context (rpc_Get : GetRequest -> Addr -> GetReply -> W -> RetCode * GetReply * W).
Context (rpc_Add : AddRequest -> Addr -> StoreService.AddResponse -> W -> RetCode * StoreService.AddResponse * W).

(** The context, and the variables that keep their values between the calls of
    [Lock], [Process], [CheckMaxLoop] and [CheckMem]. *)
Record t := mk {
  cc : ConsumerContext;
  lock : QueueLock.t;
  q : Process.quota;
  addr_cache_ : gmap string (Addr * Z);
  last_topic_config_mod_time : Z;
  last_stat_mod_time : Z;
  nloop : Z;
  last_check_time : Z;
}.

(** What a turn finds: the shared slots of the heartbeat, the time and the pages
    that [MemStat::Stat] reads (resident, shared), the time of the topic's
    configuration, the turns of [Process]. *)
Record input := mkInput {
  in_slots : HeartBeatLock.t;
  in_now : Z;
  in_mem : option (Z * Z);
  in_mod_time : Z;
  in_process : list (Process.input W);
}.

(** [None] in the result: the process exits. *)
Definition CheckMaxLoop (nloop : Z) : option (option Z) :=
  match GetTopicConfigByTopicID topic_id with
  | (RET_OK, Some c) =>
      let nloop := to_u32 (nloop + 1) in
      let max_loop := TopicConfig.consumer_max_loop_per_proc (TopicConfig.topic (TopicConfig.proto c)) in
      limit ← fixed_limit max_loop (Z.of_nat vpid);
      Some (if negb (max_loop =? 0) && (limit <? nloop) then None else Some nloop)
  | _ => Some (Some nloop)
  end.

Definition CheckMem (now : Z) (mem : option (Z * Z)) (last_check_time : Z) : option (option Z) :=
  match GetTopicConfigByTopicID topic_id with
  | (RET_OK, Some c) =>
      let mem_size_limit := TopicConfig.consumer_max_mem_size_mb_per_proc (TopicConfig.topic (TopicConfig.proto c)) in
      if mem_size_limit =? 0 then Some (Some last_check_time) else
      if last_check_time + 60 <? now then
        match mem with
        | None => Some (Some now)
        | Some (resident, share) =>
            if share <? resident then
              limit ← fixed_limit mem_size_limit (Z.of_nat vpid);
              Some (if limit <? (resident - share) / 256 then None else Some now)
            else Some (Some now)
        end
      else Some (Some last_check_time)
  | _ => Some (Some last_check_time)
  end.

(** What a turn did. *)
Inductive event :=
  | NoLock (ret : RetCode)
  | Exits
  | Pulls (start : ConsumerContext) (ret : RetCode) (done : bool) (rounds : list Process.round) (stop : ConsumerContext).

Definition turn (i : input) (s : t) (w : W) : option (event * t * W) :=
  '(ret, target, l, w) ← QueueLock.Lock topic_id lock_opt (in_slots i) vpid (lock s) w;
  match target with
  | None =>
      Some (NoLock ret, mk (cc s) l (q s) (addr_cache_ s) (last_topic_config_mod_time s) (last_stat_mod_time s) (nloop s) (last_check_time s), w)
  | Some (consumer_group_id, store_id, queue_id) =>
      let cc := Process.after_lock (cc s) consumer_group_id store_id queue_id in
      loops ← CheckMaxLoop (nloop s);
      match loops with
      | None => Some (Exits, s, w)
      | Some nloop =>
          checked ← CheckMem (in_now i) (in_mem i) (last_check_time s);
          match checked with
          | None => Some (Exits, s, w)
          | Some last_check_time =>
              '(ret, done, p, rounds, w) ← Process.Process ByteSize topic_id (Z.of_nat vpid) opt GetSteadyClockMS GetTimestampMS
                  rpc_Get rpc_Add (last_topic_config_mod_time s) (last_stat_mod_time s) (in_mod_time i) (in_process i)
                  cc (q s) (addr_cache_ s) w;
              Some (Pulls cc ret done rounds (Process.cc p),
                    mk (Process.cc p) l (Process.q p) (Process.addr_cache_ p)
                      (if is_ok ret then in_mod_time i else last_topic_config_mod_time s)
                      (Process.topic_config_last_mod_time p) nloop last_check_time, w)
          end
      end
  end.

(** The loop, until the process exits or is still in [Process]. *)
Fixpoint run (inputs : list input) (s : t) (w : W) : option (list event * t * W) :=
  match inputs with
  | [] => Some ([], s, w)
  | i :: inputs =>
      '(e, s, w) ← turn i s w;
      match e with
      | Exits | Pulls _ _ false _ _ => Some ([e], s, w)
      | _ => '(es, s, w) ← run inputs s w; Some (e :: es, s, w)
      end
  end.

(** The state when the loop starts. *)
Definition start : t :=
  mk (mkContext topic_id 0 0 0 0 0) QueueLock.Init (Process.mkQuota (Process.dbl 0) 0) ∅ 0 0 0 0.

(** ** Where a pull starts *)

(** The queue of a slot, as [Lock] returns it. *)
Definition slot_queue (i : input) (c : ConsumerContext) : Prop :=
  exists queue, HeartBeatLock.queues (in_slots i) !! vpid = Some queue /\ HeartBeatLock.locked queue = true /\
    cc_consumer_group_id c = to_i32 (q_consumer_group_id queue) /\ cc_store_id c = to_i32 (q_store_id queue) /\
    cc_queue_id c = to_i32 (q_queue_id queue).

Lemma Lock_target h st w ret g sid qid st' w' : QueueLock.Lock topic_id lock_opt h vpid st w = Some (ret, Some (g, sid, qid), st', w') ->
  exists queue, HeartBeatLock.queues h !! vpid = Some queue /\ HeartBeatLock.locked queue = true /\
    g = to_i32 (q_consumer_group_id queue) /\ sid = to_i32 (q_store_id queue) /\ qid = to_i32 (q_queue_id queue) /\
    exists c x, GetTopicConfigByTopicID topic_id = (RET_OK, Some c) /\
      TopicConfig.GetConsumerGroupByConsumerGroupID c g = (RET_OK, Some x).
Proof.
  unfold QueueLock.Lock. intros (queue & Hq & H)%bind_Some. exists queue. split; [done|].
  destruct (QueueLock.DoLock _ _ _ _ _ _) as [[r l] w1] eqn:Hd. destruct (is_ok r) eqn:Hr; [|done]. simpl in H. injection H as _ <- <- <- _ _.
  unfold QueueLock.DoLock in Hd. destruct (HeartBeatLock.locked queue); [|simpl in Hd; by simplify_eq]. simpl in Hd.
  destruct (GetTopicConfigByTopicID topic_id) as [r1 [c|]] eqn:Ht.
  2: { pose proof (GetTopicConfig_found topic_id) as Hnf. rewrite Ht in Hnf. by destruct r1; simplify_eq. }
  destruct (decide (r1 = RET_OK)) as [->|Hr1]; [|by destruct r1; simplify_eq].
  destruct (TopicConfig.GetConsumerGroupByConsumerGroupID c _) as [r2 x] eqn:Hg.
  assert (Hx : exists y, r2 = RET_OK /\ x = Some y).
  { unfold TopicConfig.GetConsumerGroupByConsumerGroupID in Hg. clear -Hg Hd Hr.
    destruct (TopicConfig.consumer_group_id2consumer_group c !! _) as [y|]; injection Hg as <- <-; [by exists y|].
    simpl in Hd. by simplify_eq. }
  destruct Hx as (y & -> & ->). split_and!; try done. by exists c, y.
Qed.

Lemma turn_pulls i s w e s' w' : turn i s w = Some (e, s', w') ->
  match e with
  | Pulls c ret done rounds c' =>
      slot_queue i c /\ cc s' = c' /\ (c = cc s \/ cc_prev_cursor_id c = UINT64_MAX /\ cc_next_cursor_id c = UINT64_MAX) /\
      exists tc x, GetTopicConfigByTopicID topic_id = (RET_OK, Some tc) /\
        TopicConfig.GetConsumerGroupByConsumerGroupID tc (cc_consumer_group_id c) = (RET_OK, Some x)
  | _ => cc s' = cc s
  end.
Proof.
  unfold turn. destruct (QueueLock.Lock _ _ _ _ _ _) as [[[[ret target] l] w1]|] eqn:Hl; [|done]. cbn [mbind option_bind].
  destruct target as [[[g sid] qid]|]; [|intros [= <- <- <-]; done]. apply Lock_target in Hl as (queue & H1 & H2 & H3 & H4 & H5 & H6).
  destruct (CheckMaxLoop _) as [[n|]|]; [|intros [= <- <- <-]; done|done]. cbn [mbind option_bind].
  destruct (CheckMem _ _ _) as [[m|]|]; [|intros [= <- <- <-]; done|done]. cbn [mbind option_bind].
  destruct (Process.Process _ _ _ _ _ _ _ _ _ _ _ _ _ _ _ _) as [[[[[r d] p] rs] w2]|]; [|done]. cbn [mbind option_bind].
  intros [= <- <- <-]. assert (Hids : let c := Process.after_lock (cc s) g sid qid in
    cc_consumer_group_id c = g /\ cc_store_id c = sid /\ cc_queue_id c = qid /\
    (c = cc s \/ cc_prev_cursor_id c = UINT64_MAX /\ cc_next_cursor_id c = UINT64_MAX)).
  { unfold Process.after_lock. destruct (Z.eqb_spec (cc_consumer_group_id (cc s)) g), (Z.eqb_spec (cc_store_id (cc s)) sid),
      (Z.eqb_spec (cc_queue_id (cc s)) qid); simpl; auto 10. }
  destruct Hids as (E1 & E2 & E3 & E4). split_and!; [|done|done|by rewrite E1].
  exists queue. by rewrite E1, E2, E3.
Qed.

Lemma run_cons i inputs s w es s' w' : run (i :: inputs) s w = Some (es, s', w') ->
  exists e s1 w1 es1, turn i s w = Some (e, s1, w1) /\ es = e :: es1 /\
    (es1 = [] \/ run inputs s1 w1 = Some (es1, s', w') /\ e <> Exits).
Proof.
  simpl. destruct (turn i s w) as [[[e s1] w1]|]; [|done]. cbn [mbind option_bind]. intros H. exists e, s1, w1.
  assert (Hrun : forall o : option (list event * t * W), ('(es, s, w) ← o; Some (e :: es, s, w)) = Some (es, s', w') ->
    exists es1, es = e :: es1 /\ o = Some (es1, s', w')).
  { intros [[[es1 s2] w2]|]; [|done]. cbn [mbind option_bind]. intros [= <- <- <-]. by exists es1. }
  destruct e as [r| |c1 r1 [] rs1 c1'];
    first [injection H as <- <- <-; exists []; by auto | apply Hrun in H as (es1 & -> & H); exists es1; by auto].
Qed.

(** A pull starts at the queue in the process's slot; without a position, or
    with the context that the loop started with, or with that in which the last
    pull stopped. *)
Lemma run_pulls inputs s w es s' w' i c ret done rounds c' : run inputs s w = Some (es, s', w') ->
  es !! i = Some (Pulls c ret done rounds c') ->
  (exists inp, inputs !! i = Some inp /\ slot_queue inp c) /\
  (exists tc x, GetTopicConfigByTopicID topic_id = (RET_OK, Some tc) /\
     TopicConfig.GetConsumerGroupByConsumerGroupID tc (cc_consumer_group_id c) = (RET_OK, Some x)) /\
  (cc_prev_cursor_id c = UINT64_MAX /\ cc_next_cursor_id c = UINT64_MAX \/
   c = cc s \/
   exists j c0 ret0 done0 rounds0, (j < i)%nat /\ es !! j = Some (Pulls c0 ret0 done0 rounds0 c) /\
     forall k e, (j < k < i)%nat -> es !! k = Some e -> exists r, e = NoLock r).
Proof.
  cut (run inputs s w = Some (es, s', w') -> es !! i = Some (Pulls c ret done rounds c') ->
    (exists inp, inputs !! i = Some inp /\ slot_queue inp c) /\
    (exists tc x, GetTopicConfigByTopicID topic_id = (RET_OK, Some tc) /\
       TopicConfig.GetConsumerGroupByConsumerGroupID tc (cc_consumer_group_id c) = (RET_OK, Some x)) /\
    (cc_prev_cursor_id c = UINT64_MAX /\ cc_next_cursor_id c = UINT64_MAX \/
     (c = cc s /\ forall k e, (k < i)%nat -> es !! k = Some e -> exists r, e = NoLock r) \/
     exists j c0 ret0 done0 rounds0, (j < i)%nat /\ es !! j = Some (Pulls c0 ret0 done0 rounds0 c) /\
       forall k e, (j < k < i)%nat -> es !! k = Some e -> exists r, e = NoLock r)).
  { intros H H1 H2. destruct (H H1 H2) as (? & ? & [?|[[? _]|?]]); auto. }
  revert s w es i. induction inputs as [|inp inputs IH]; intros s w es i; [intros [= <- <- <-]; by destruct i|].
  intros (e & s1 & w1 & es1 & Ht & -> & Hrun)%run_cons Hi. apply turn_pulls in Ht. destruct i as [|i]; simpl in Hi.
  { injection Hi as ->. destruct Ht as (H1 & _ & H3 & H4). split; [by exists inp|]. split; [done|].
    destruct H3 as [->|?]; [right; left|by left]. split; [done|]. intros. lia. }
  destruct Hrun as [->|[Hrun Hne]]; [by rewrite lookup_nil in Hi|].
  destruct (IH s1 w1 es1 i Hrun Hi) as (H1 & H2 & H3). split; [done|]. split; [done|].
  destruct H3 as [?|[[Hc Hno]|(j & c0 & ret0 & done0 & rounds0 & Hj & Hl & Hno)]]; [by left| |right; right].
  - right. destruct e as [r| |c1 r1 d1 rs1 c1']; [left|done|right].
    + split; [by rewrite <-Ht|]. intros [|k] e Hk He; [injection He as <-; by exists r|]. apply (Hno k); [lia|done].
    + exists 0%nat, c1, r1, d1, rs1. destruct Ht as (_ & Hcc & _). split; [lia|]. split; [by rewrite Hc, Hcc|].
      intros [|k] e Hk He; [lia|]. apply (Hno k); [lia|done].
  - exists (S j), c0, ret0, done0, rounds0. split; [lia|]. split; [done|]. intros [|k] e' Hk He; [lia|]. apply (Hno k); [lia|done].
Qed.


(** ** When the process ends *)

Definition is_pull (e : event) : bool := match e with Pulls _ _ _ _ _ => true | _ => false end.

Lemma turn_counts i s w e s' w' tc limit : turn i s w = Some (e, s', w') -> GetTopicConfigByTopicID topic_id = (RET_OK, Some tc) ->
  TopicConfig.consumer_max_loop_per_proc (TopicConfig.topic (TopicConfig.proto tc)) <> 0 ->
  fixed_limit (TopicConfig.consumer_max_loop_per_proc (TopicConfig.topic (TopicConfig.proto tc))) (Z.of_nat vpid) = Some limit ->
  limit < 4294967295 -> 0 <= nloop s <= limit ->
  if is_pull e then nloop s' = nloop s + 1 /\ nloop s + 1 <= limit else nloop s' = nloop s.
Proof.
  intros Ht Htc Hn Hl Hlim Hs. unfold turn in Ht. destruct (QueueLock.Lock _ _ _ _ _ _) as [[[[ret target] l] w1]|]; [|done].
  cbn [mbind option_bind] in Ht. destruct target as [[[g sid] qid]|]; [|by injection Ht as <- <- <-].
  unfold CheckMaxLoop in Ht. rewrite Htc, Hl in Ht. cbn [mbind option_bind] in Ht. rewrite (proj2 (Z.eqb_neq _ _) Hn) in Ht.
  unfold to_u32 in Ht. rewrite Z.mod_small in Ht by lia. cbn [negb andb] in Ht.
  destruct (Z.ltb_spec limit (nloop s + 1)); [by injection Ht as <- <- <-|].
  destruct (CheckMem _ _ _) as [[m|]|]; [|by injection Ht as <- <- <-|done]. cbn [mbind option_bind] in Ht.
  destruct (Process.Process _ _ _ _ _ _ _ _ _ _ _ _ _ _ _ _) as [[[[[r d] p] rs] w2]|]; [|done]. by injection Ht as <- <- <-.
Qed.

(** A process with a limit ends: it pulls at most [limit] times. *)
Lemma run_bounded inputs s w es s' w' tc limit : run inputs s w = Some (es, s', w') ->
  GetTopicConfigByTopicID topic_id = (RET_OK, Some tc) ->
  TopicConfig.consumer_max_loop_per_proc (TopicConfig.topic (TopicConfig.proto tc)) <> 0 ->
  fixed_limit (TopicConfig.consumer_max_loop_per_proc (TopicConfig.topic (TopicConfig.proto tc))) (Z.of_nat vpid) = Some limit ->
  limit < 4294967295 -> 0 <= nloop s <= limit -> Z.of_nat (length (List.filter is_pull es)) <= limit - nloop s.
Proof.
  intros Hrun Htc Hn Hl Hlim. revert s w es Hrun. induction inputs as [|inp inputs IH]; intros s w es Hrun Hs.
  { injection Hrun as <- _ _. simpl. lia. }
  apply run_cons in Hrun as (e & s1 & w1 & es1 & Ht & -> & Hrun). apply (turn_counts _ _ _ _ _ _ tc limit) in Ht; [|done..].
  assert (Hes1 : Z.of_nat (length (List.filter is_pull es1)) <= limit - nloop s1).
  { destruct Hrun as [->|[Hrun _]]; [simpl|eapply IH; [exact Hrun|]]; destruct (is_pull e); lia. }
  simpl. destruct (is_pull e); simpl; lia.
Qed.
End worker.
End Worker.
