(* ===== verification/Delivery.v ===== *)
(** * From the store to the handlers, at least once

    A consumer group's queue as the store's [Get] (BaseMgr.v) and the workers
    ([Process]) use it together: a worker asks with its position as both cursor
    ids, a response may get lost on the way back, the store takes new items in
    between, another worker may take over, with no position or with the one it
    had when it last left the queue ([ChildRun], Worker.v), and another master may
    know an older position only.

    [handled] is history.  A worker is done with the response it got when it
    asks again: that is [Process.Process_acknowledges].  One that crashes
    before leaves the response unhandled. *)

From S2P Require Import Prelude RetCode TopicConfig StoreConfig Node StoreMeta SyncCtrl BaseMgr.

#[local] Set Default Proof Using "Type".

Module Delivery.
Section delivery.
Context (crc32 : Z -> Z -> Z) `{GC : GlobalConfig, PN : PaxosNode, SC : StoreCodec}.
Context (opt : StoreOption) (topic_id g qid : Z) (tc : TopicConfig.t) (qi : QueueInfo).

Record state := mk {
  store : Store;
  pos : Z;                              (* the worker's cursor id, -1 without one *)
  pending : list GetResponse;           (* the response it is working on *)
  handled : list GetResponse;           (* the responses that were handled *)
  left_at : list Z;                     (* where workers left the queue *)
}.

(** The request of a worker at [c]. *)
Definition asks (req : GetRequest) (c : Z) : Prop :=
  gr_topic_id req = topic_id /\ gr_queue_id req = qid /\ gr_consumer_group_id req = g /\ gr_random req = false /\
  gr_prev_cursor_id req = c /\ gr_next_cursor_id req = c /\ is_i32 (gr_limit req).

Definition item (s : Store) : SyncCtrlItem := SyncCtrl.item_of opt (st_sync s) g qid.

(** A store that can be read, and its queue. *)
Definition readable (s : Store) (q : StoreMetaQueue.t) : Prop :=
  SyncCtrl.buf_ok opt (st_sync s) /\ BaseMgr.item_ok (item s) /\
  (forall cp, BaseMgr.get_cp opt s qid = Some cp -> is_u64 cp.1 /\ is_u64 cp.2) /\
  BaseMgr.queue_at s qid = Some q /\ BaseMgr.sorted_queue q /\ BaseMgr.real_queue q.

(** [x] was added after everything at [c]. *)
Definition newer (c x : Z) : Prop := c = UINT64_MAX \/ c < x.

(** What happens to a store besides the reads of the group: items are added
    and erased, and another master may know only an older position.  [cs] are the
    positions that workers may come back with. *)
Definition changes (cs : list Z) (s s' : Store) : Prop :=
  exists q q', readable s q /\ readable s' q' /\
    (prev_valid (item s') = true -> prev_valid (item s) = true /\ prev_cursor_id (item s') <= prev_cursor_id (item s)) /\
    forall x, x ∈ BaseMgr.cursors q' -> x ∈ BaseMgr.cursors q \/
      (forall c, c ∈ cs -> newer c x) /\ (prev_valid (item s') = true -> newer (prev_cursor_id (item s')) x).

Definition got (s : Store) (c : Z) (resp : GetResponse) (s' : Store) : Prop :=
  exists req clock, asks req c /\
    BaseMgr.Get crc32 opt topic_id s clock req (mkGetResponse [] 0 0) = Some (RET_OK, resp, s').

(** A worker that leaves the queue ([Leaves]) has handled what it got, and keeps
    its position in case its next lock is of the same queue ([Returns]). *)
Inductive step : state -> state -> Prop :=
  | Arrives s c ps hs ls resp s' : got s c resp s' -> step (mk s c ps hs ls) (mk s' (resp_next_cursor_id resp) [resp] (hs ++ ps) ls)
  | Lost s c ps hs ls resp s' : got s c resp s' -> step (mk s c ps hs ls) (mk s' c [] (hs ++ ps) ls)
  | Leaves s c ps hs ls : step (mk s c ps hs ls) (mk s UINT64_MAX [] (hs ++ ps) (c :: ls))
  | Returns s c ps hs ls c' : c' ∈ ls -> step (mk s c ps hs ls) (mk s c' [] hs ls)
  | TakeOver s c ps hs ls : step (mk s c ps hs ls) (mk s UINT64_MAX [] hs ls)
  | Changes s c ps hs ls s' : changes (c :: ls) s s' -> step (mk s c ps hs ls) (mk s' c ps hs ls).

Inductive reachable (s0 : Store) : state -> Prop :=
  | reach_start : reachable s0 (mk s0 UINT64_MAX [] [] [])
  | reach_step a b : reachable s0 a -> step a b -> reachable s0 b.

(** The items the group is to see. *)
Definition for_group (it : QItem) : Prop :=
  meta_topic_id it = topic_id /\ Z.testbit (item_consumer_group_ids it) (g - 1) = true /\
  TopicConfig.ShouldSkip tc it g (qi_queue_info_id qi) = false.

(** The items of an instance are in responses. *)
Definition delivered (rs : list GetResponse) (x : Z) : Prop :=
  exists raw, BaseMgr.GetItemsByCursorID opt qid x = (RET_OK, raw) /\
    forall it, it ∈ raw -> for_group it -> exists resp, resp ∈ rs /\ it ∈ resp_items resp.

(** ** A read covers what it passes *)

Lemma succ_first e metas c c' x :
  key_sorted StoreMeta.cursor_id metas -> Forall BaseMgr.real (StoreMeta.cursor_id <$> metas) ->
  x ∈ (StoreMeta.cursor_id <$> metas) -> BaseMgr.cursor c -> (c = UINT64_MAX \/ c < x) -> is_u64 (BaseMgr.e_cp e) ->
  (BaseMgr.e_min_instance_id e = UINT64_MAX \/ BaseMgr.e_min_instance_id e <= x) -> BaseMgr.succ e metas c = Some c' -> c' <= x.
Proof.
  intros Hs Hr Hx Hcur Hc Hcp Hmin. apply list_elem_of_fmap in Hx as (m & -> & Hm). unfold BaseMgr.succ, no_cursor.
  destruct (_ || _) eqn:Eb.
  - intros (m' & Hh & ->)%fmap_Some. assert (Hin : m ∈ StoreMetaQueue.above c metas).
    { unfold StoreMetaQueue.above, no_cursor. destruct (Z.eqb_spec c UINT64_MAX); [done|].
      rewrite upper_bound_filter by done. apply list_elem_of_filter. split; [lia|done]. }
    assert (Hsa : key_sorted StoreMeta.cursor_id (StoreMetaQueue.above c metas)).
    { unfold StoreMetaQueue.above. destruct (no_cursor c); [done|]. eapply key_sorted_suffix; [apply upper_bound_suffix|done]. }
    destruct (StoreMetaQueue.above c metas) as [|y l]; [done|]. injection Hh as ->. by eapply key_sorted_head_min.
  - simpl_bool. assert (c < StoreMeta.cursor_id m /\ BaseMgr.real c) as [Hlt Hrc].
    { destruct Hcur as [->|?]; [unfold is_u64, UINT64_MAX in *; lia|]. unfold BaseMgr.real in *. lia. }
    destruct (_ && _) eqn:Em; simpl_bool; intros [= <-]; [lia|].
    unfold BaseMgr.real in Hrc. rewrite to_u64_id by (unfold is_u64, UINT64_MAX in *; lia). lia.
Qed.

Lemma path_covers e metas c cs x :
  key_sorted StoreMeta.cursor_id metas -> Forall BaseMgr.real (StoreMeta.cursor_id <$> metas) ->
  x ∈ (StoreMeta.cursor_id <$> metas) -> BaseMgr.cursor c -> (c = UINT64_MAX \/ c < x) ->
  is_u64 (BaseMgr.e_cp e) -> is_u64 (BaseMgr.e_min_instance_id e) ->
  (BaseMgr.e_min_instance_id e = UINT64_MAX \/ BaseMgr.e_min_instance_id e <= x) -> BaseMgr.path e metas c cs ->
  default c (last cs) <> UINT64_MAX -> x <= default c (last cs) -> x ∈ cs.
Proof.
  intros Hs Hr Hx Hcur Hc Hcp Hmin0 Hmin. revert c Hcur Hc. induction cs as [|c1 cs IH]; intros c Hcur Hc Hp Hn Hle; simpl in *.
  { destruct Hc; [done|lia]. }
  destruct Hp as [H1 Hp]. pose proof (succ_first e metas c c1 x Hs Hr Hx Hcur Hc Hcp Hmin H1) as Hle1.
  apply BaseMgr.succ_real in H1 as [Hreal _]; [|done..].
  destruct (decide (x = c1)) as [->|Hne]; [left|right].
  change (match last cs with Some y => Some y | None => Some c1 end) with (last (c1 :: cs)) in *.
  rewrite last_cons in *. apply (IH c1); [by right|right; lia|done|by destruct (last cs)|by destruct (last cs)].
Qed.

(** ** Where a read starts *)

Section store.
Hypothesis Hopt : opt_ok opt.
Hypothesis Hpair : SyncCtrl.pair_ok opt g qid.

(** A read starts at the worker's position, at the recorded position, or, if
    there is none, at the beginning. *)
Lemma adjust_ack s q req c ret prev next : readable s q -> asks req c -> BaseMgr.cursor c ->
  BaseMgr.adjust opt s req = Some (ret, prev, next) ->
  ret = RET_OK /\ prev = next /\ BaseMgr.cursor prev /\
  (prev = UINT64_MAX \/ prev = c \/ prev_valid (item s) = true /\ prev = prev_cursor_id (item s)) /\
  (prev_valid (item s) = true -> prev <> UINT64_MAX /\ prev_cursor_id (item s) <= prev).
Proof using Hopt Hpair.
  clear crc32. intros (Hb & Hi & _) (_ & Hq & Hg & Hr & Hp & Hn & _) Hc Ha.
  assert (Hok : ret = RET_OK /\ BaseMgr.cursors_ok (item s) prev next).
  { unfold item in *. rewrite <-Hg, <-Hq in *. apply (BaseMgr.adjust_ok opt s req); auto; by rewrite ?Hp, ?Hn. }
  destruct Hok as (-> & Hcp & _ & _ & Hpv). split; [done|]. cut (prev = next /\ (prev = UINT64_MAX \/ prev = c \/
    prev_valid (item s) = true /\ prev = prev_cursor_id (item s))); [naive_solver|]. clear Hcp Hpv.
  unfold BaseMgr.adjust in Ha. rewrite Hr, Hp, Hn, Hg, Hq in Ha. unfold SyncCtrl.AdjustNextCursorID in Ha.
  rewrite SyncCtrl.bad_arg_pair_ok, SyncCtrl.item_of_lookup in Ha by done. fold (item s) in Ha. cbn [mbind option_bind] in Ha.
  destruct Hi as (_ & Hni & Hord). unfold SyncCtrl.ordered, BaseMgr.real, BaseMgr.cursor, no_cursor in *.
  rewrite Z.ltb_irrefl, andb_false_r, orb_false_r in Ha. revert Ha. clear Hb Hr Hp Hn Hg Hq.
  destruct (prev_valid (item s)) eqn:Ep, (next_valid (item s)) eqn:En; cbn [negb andb orb];
    repeat match goal with Htt : true = true -> _ |- _ => specialize (Htt eq_refl) end;
    repeat match goal with |- context [if ?b then _ else _] => destruct b eqn:? end; cbn; intros [= <- <-];
    simpl_bool; split; try done; try (by left); try (by right; left); try (by right; right); try lia.
Qed.

Lemma get_cp_min s cp : BaseMgr.get_cp opt s qid = Some cp ->
  cp.2 = UINT64_MAX \/ cp.2 = GetMinChosenInstanceID (BaseMgr.paxos_group_of opt qid).
Proof.
  unfold BaseMgr.get_cp. intros (st & _ & [= <-])%bind_Some. destruct st as [st|]; [|by left].
  destruct (CheckPointStat.GetCheckPoint st) as [r x]. destruct r; simpl; auto.
Qed.

Hypothesis Htopic : GetTopicConfigByTopicID topic_id = (RET_OK, Some tc).
Hypothesis Hqi : TopicConfig.GetQueueInfoByQueue tc qid = (RET_OK, Some qi).

(** ** One read *)

(** What a read from [c] gives: the positions of the store go to where it
    started and where it ended, the queue is as before, and it delivered every
    instance of the queue in between that the log still has. *)
Lemma got_delivers s q c resp s' : readable s q -> BaseMgr.cursor c -> got s c resp s' ->
  exists p q', readable s' q' /\ BaseMgr.cursors q' = BaseMgr.cursors q /\ BaseMgr.cursor (resp_next_cursor_id resp) /\
    (p = UINT64_MAX \/ p = c \/ prev_valid (item s) = true /\ p = prev_cursor_id (item s)) /\
    (prev_valid (item s') = true -> prev_cursor_id (item s') = p \/
       prev_valid (item s) = true /\ prev_cursor_id (item s') = prev_cursor_id (item s)) /\
    forall x, x ∈ BaseMgr.cursors q -> GetMinChosenInstanceID (BaseMgr.paxos_group_of opt qid) <= x ->
      (p = UINT64_MAX \/ p < x) -> resp_next_cursor_id resp <> UINT64_MAX -> x <= resp_next_cursor_id resp ->
      delivered [resp] x.
Proof using Hopt Hpair Htopic Hqi.
  intros Hrd Hc (req & clock & Hasks & Hg). pose proof Hrd as (Hb & Hi & Hcp & Hq & Hs & Hr).
  pose proof Hasks as (Eg1 & Eg2 & Eg3 & Eg4 & _ & _ & Hlim).
  apply BaseMgr.Get_inv in Hg as (e & next & q1 & l & sync & Hst & Hq1 & Hl & Hrec & -> & ->).
  rewrite Eg2, Hq in Hq1. injection Hq1 as <-.
  destruct Hst as (tc' & qi' & prev & nx & svr & cp & Ht & Hqi' & _ & Hadj & _ & Hgcp & Hnext & He).
  rewrite Htopic in Ht. injection Ht as <-. rewrite Eg2, Hqi in Hqi'. injection Hqi' as <-. rewrite Eg2 in Hgcp.
  unfold BaseMgr.start_cursors in Hnext, He. rewrite Eg4 in Hnext, He. cbn [fst snd] in *. subst next.
  destruct (adjust_ack _ _ _ _ _ _ _ Hrd Hasks Hc Hadj) as (_ & <- & Hcprev & Hfrom & Hpv).
  destruct (Hcp _ Hgcp) as [Hcp1 Hcp2].
  apply BaseMgr.get_loop_path in Hl as (cs & bs & H1 & H2 & H3 & H4 & H5 & _); [|exact topic_id|by rewrite He].
  cbn [BaseMgr.l_queue BaseMgr.l_next_cursor_id BaseMgr.l_items] in *.
  pose proof H1 as Hfwd. apply BaseMgr.path_forward in Hfwd as [Hreal Hfwd]; [|by rewrite ?He..].
  rewrite <-H4 in Hreal, Hfwd. assert (BaseMgr.e_prev_cursor_id e = prev) as Hep by (by rewrite He). rewrite Hep in *.
  apply BaseMgr.record_item in Hrec as [Hb' Hi']; [|done..|by rewrite Eg2, Eg3|done]. rewrite Eg2, Eg3 in Hi'.
  assert (Hqs : BaseMgr.queue_at (mkStoreState (st_queues (BaseMgr.set_queue s qid (BaseMgr.l_queue l))) sync (st_cps s)) qid =
            Some (BaseMgr.l_queue l)).
  { unfold BaseMgr.queue_at, BaseMgr.set_queue; simpl. apply list_lookup_insert_eq. by eapply lookup_lt_Some. }
  exists prev, (BaseMgr.l_queue l). rewrite Eg2. unfold readable, item. cbn [st_sync resp_next_cursor_id].
  split_and!; try done.
  - rewrite Hi'. apply BaseMgr.recorded_ok; done.
  - unfold BaseMgr.sorted_queue in *. by rewrite H5.
  - unfold BaseMgr.real_queue, BaseMgr.cursors in *. by rewrite H5.
  - unfold BaseMgr.cursors. by rewrite H5.
  - rewrite Hi'. unfold no_cursor. destruct (Z.eqb_spec prev UINT64_MAX), (Z.eqb_spec (BaseMgr.l_next_cursor_id l) UINT64_MAX); simpl; intros Hv; (by left) || (right; by split).
  - intros x Hx Hmin Hpx Hn Hle. assert (Hin : x ∈ cs).
    { eapply (path_covers e); [exact Hs|exact Hr|exact Hx|exact Hcprev|exact Hpx|by rewrite He|by rewrite He| |exact H1|by rewrite <-H4|by rewrite <-H4].
      rewrite He; simpl. destruct (get_cp_min s cp Hgcp) as [->| ->]; auto. }
    apply list_elem_of_lookup in Hin as [i Hi0]. destruct (Forall2_lookup_l _ _ _ _ _ H2 Hi0) as (batch & Hbi & Hd).
    destruct Hd as [(Hne & Hle' & _)|(_ & raw & Hraw & ->)].
    { rewrite Hep in *. destruct Hpx; [done|lia]. }
    exists raw. rewrite He in Hraw. simpl in Hraw. rewrite Eg2 in Hraw. split; [done|]. intros it Hit Hfg.
    eexists. split; [left|]. simpl. rewrite H3. simpl. apply elem_of_concat. eexists. split; [by eapply list_elem_of_lookup_2|].
    apply list_elem_of_filter. split; [|done]. unfold BaseMgr.visible, for_group in *. rewrite He; simpl. by rewrite Eg1, Eg3.
Qed.

(** ** Positions are behind the deliveries *)

Definition covered (q : StoreMetaQueue.t) (rs : list GetResponse) (c : Z) : Prop :=
  c <> UINT64_MAX -> forall x, x ∈ BaseMgr.cursors q -> GetMinChosenInstanceID (BaseMgr.paxos_group_of opt qid) <= x ->
    x <= c -> delivered rs x.

Definition inv (a : state) : Prop :=
  exists q, readable (store a) q /\ BaseMgr.cursor (pos a) /\ covered q (handled a ++ pending a) (pos a) /\
    (prev_valid (item (store a)) = true -> covered q (handled a) (prev_cursor_id (item (store a)))) /\
    Forall (fun c => BaseMgr.cursor c /\ covered q (handled a) c) (left_at a).

Lemma covered_cursors q q' rs c : BaseMgr.cursors q' = BaseMgr.cursors q -> covered q rs c -> covered q' rs c.
Proof. intros E. unfold covered. by rewrite E. Qed.

Lemma covered_app q rs rs' c : covered q rs c -> covered q (rs ++ rs') c.
Proof.
  intros Hc Hn x Hx Hmin Hle. destruct (Hc Hn x Hx Hmin Hle) as (raw & Hr & H). exists raw. split; [done|]. intros it Hit Hf.
  destruct (H it Hit Hf) as (resp & Hin & ?). exists resp. rewrite elem_of_app. auto.
Qed.

Lemma delivered_app rs rs' x : delivered rs x \/ delivered rs' x -> delivered (rs ++ rs') x.
Proof.
  intros [(raw & Hr & H)|(raw & Hr & H)]; exists raw; (split; [done|]); intros it Hit Hf;
    destruct (H it Hit Hf) as (resp & Hin & ?); exists resp; rewrite elem_of_app; auto.
Qed.

(** The position that a read leaves. *)
Lemma got_covered s q c rs s' q' p :
  BaseMgr.cursors q' = BaseMgr.cursors q -> covered q rs c ->
  (prev_valid (item s) = true -> covered q rs (prev_cursor_id (item s))) ->
  (p = UINT64_MAX \/ p = c \/ prev_valid (item s) = true /\ p = prev_cursor_id (item s)) ->
  (prev_valid (item s') = true -> prev_cursor_id (item s') = p \/
     prev_valid (item s) = true /\ prev_cursor_id (item s') = prev_cursor_id (item s)) ->
  covered q rs p /\ (prev_valid (item s') = true -> covered q' rs (prev_cursor_id (item s'))).
Proof.
  intros Eq Hc Hprev Hp Hp'. assert (Hcp : covered q rs p).
  { destruct Hp as [->|[->|[Hv ->]]]; [by intros ?|done|by apply Hprev]. }
  split; [done|]. intros Hv. unfold covered in *. rewrite Eq. destruct (Hp' Hv) as [->|[Hv' ->]]; [done|by apply Hprev].
Qed.

Lemma left_app q q' rs rs' ls : BaseMgr.cursors q' = BaseMgr.cursors q ->
  Forall (fun c => BaseMgr.cursor c /\ covered q rs c) ls -> Forall (fun c => BaseMgr.cursor c /\ covered q' (rs ++ rs') c) ls.
Proof.
  intros Eq Hl. eapply Forall_impl; [exact Hl|]. intros c [Hc Hcov]. split; [done|]. by eapply covered_cursors, covered_app.
Qed.

(** Items that are newer than a position do not matter to it. *)
Lemma covered_changes q q' rs c : covered q rs c ->
  (forall x, x ∈ BaseMgr.cursors q' -> x ∈ BaseMgr.cursors q \/ newer c x) -> covered q' rs c.
Proof. intros Hc Hx Hn x Hin Hmin Hle. destruct (Hx x Hin) as [Hq|[?|?]]; [by apply Hc|done|lia]. Qed.

Lemma delivery_step_inv a b : inv a -> step a b -> inv b.
Proof using Hopt Hpair Htopic Hqi.
  intros (q & Hrd & Hcur & Hc & Hp & Hl) Hst.
  destruct Hst as [s c ps hs ls resp s' Hg|s c ps hs ls resp s' Hg|s c ps hs ls|s c ps hs ls c' Hc'|s c ps hs ls|s c ps hs ls s' Hch];
    cbn [store pos pending handled left_at] in *.
  - destruct (got_delivers _ _ _ _ _ Hrd Hcur Hg) as (p & q' & Hrd' & Eq & Hcn & Hfrom & Hto & Hdel).
    destruct (got_covered s q c (hs ++ ps) s' q' p Eq Hc (fun Hv => covered_app _ _ _ _ (Hp Hv)) Hfrom Hto) as [Hcp Hcp'].
    exists q'. split_and!; [done|done| |done|by eapply left_app]. intros Hn x Hx Hmin Hle. rewrite Eq in Hx. apply delivered_app.
    destruct (decide (p = UINT64_MAX \/ p < x)) as [Hlt|Hge]; [right; by apply Hdel|left]. apply Hcp; [tauto|done..|lia].
  - destruct (got_delivers _ _ _ _ _ Hrd Hcur Hg) as (p & q' & Hrd' & Eq & _ & Hfrom & Hto & _).
    destruct (got_covered s q c (hs ++ ps) s' q' p Eq Hc (fun Hv => covered_app _ _ _ _ (Hp Hv)) Hfrom Hto) as [_ Hcp'].
    exists q'. cbn [store pos pending handled left_at]. rewrite app_nil_r. split_and!; [done|done|by eapply covered_cursors|done|by eapply left_app].
  - exists q. cbn [store pos pending handled left_at]. split_and!; [done|by left|by intros ?|intros Hv; apply covered_app; by apply Hp|].
    constructor; [done|]. by apply (left_app q).
  - exists q. cbn [store pos pending handled left_at]. rewrite app_nil_r. rewrite Forall_forall in Hl. destruct (Hl _ Hc') as [Hcc Hcv].
    split_and!; [done..|]. by apply Forall_forall.
  - exists q. split_and!; [done|by left|by intros ?|done|done].
  - destruct Hch as (q1 & q2 & Hrd1 & Hrd2 & Hprev & Hx). assert (q1 = q) as ->.
    { destruct Hrd as (_ & _ & _ & H1 & _), Hrd1 as (_ & _ & _ & H2 & _). congruence. }
    assert (Hnew : forall c', c' ∈ c :: ls -> forall x, x ∈ BaseMgr.cursors q2 -> x ∈ BaseMgr.cursors q \/ newer c' x).
    { intros c' Hin x Hq2. destruct (Hx x Hq2) as [?|[Hn _]]; [by left|right; by apply Hn]. }
    exists q2. cbn [store pos pending handled left_at]. split_and!; [done|done|eapply covered_changes, Hnew; [done|left]| |].
    + intros Hv Hn x Hin Hmin Hle. destruct (Hprev Hv) as [Hv0 Hle0].
      destruct (Hx x Hin) as [Hq|[_ Hnw]]; [|destruct (Hnw Hv); [done|lia]].
      apply (Hp Hv0); [|done..|lia]. destruct Hrd as (_ & [Hreal _] & _). specialize (Hreal Hv0).
      unfold BaseMgr.real in Hreal. lia.
    + rewrite Forall_forall in *. intros c' Hin. destruct (Hl _ Hin) as [Hcc Hcv]. split; [done|].
      eapply covered_changes, Hnew; [done|by right].
Qed.

End store.
End delivery.
End Delivery.
