(* ===== verification/Deployment.v ===== *)
(** * A small deployment

    Concrete instances of the interfaces: the built-in sample topic of
    topicconfig.cpp, one store with two queues groups, an in-memory database,
    an injective encoding of the messages into strings, a paxos node that knows
    one instance.  The worked examples of [Examples] run the code on them. *)

From S2P Require Import Prelude RetCode TopicConfig StoreConfig Node StoreMeta SyncCtrl BaseMgr StoreSM KeepSync.
From S2P Require Import LockConfig LockDb LockMgr LockSM LockService.
From stdpp Require Import countable.

#[local] Open Scope Z_scope.

(** ** An injective encoding into strings *)

Fixpoint string_of_pos (p : positive) : string :=
  match p with
  | xH => ""
  | xO p => String "0" (string_of_pos p)
  | xI p => String "1" (string_of_pos p)
  end.

Fixpoint pos_of_string (s : string) : positive :=
  match s with
  | EmptyString => xH
  | String c r => if Ascii.eqb c "0" then xO (pos_of_string r) else xI (pos_of_string r)
  end.

Lemma pos_of_string_of_pos p : pos_of_string (string_of_pos p) = p.
Proof. induction p as [p IH|p IH|]; simpl; by rewrite ?IH. Qed.

Definition to_wire `{Countable A} (a : A) : string := string_of_pos (encode a).
Definition of_wire `{Countable A} (s : string) : option A := decode (pos_of_string s).

Lemma of_to_wire `{Countable A} (a : A) : of_wire (to_wire a) = Some a.
Proof. unfold of_wire, to_wire. by rewrite pos_of_string_of_pos, decode_encode. Qed.

#[export] Instance Addr_countable : Countable Addr.
Proof.
  refine (inj_countable' (fun a => (ip a, port a, paxos_port a)) (fun '(i, p, q) => mkAddr i p q) _).
  by intros [].
Defined.

#[export] Instance LocalRecordInfo_countable : Countable LocalRecordInfo.
Proof.
  refine (inj_countable' (fun r => (rec_version r, rec_value r, rec_lease_time_ms r, rec_expire_time_ms r))
    (fun '(a, b, c, d) => mkRecord a b c d) _).
  by intros [].
Defined.

#[export] Instance QItem_eq_dec : EqDecision QItem.
Proof. solve_decision. Defined.

(** The numbers and the strings of an item, as two lists: a nest of pairs
    doubles the length of the encoding at every level. *)
#[export] Instance QItem_countable : Countable QItem.
Proof.
  refine (inj_countable (fun r =>
      ([item_pub_id r; item_consumer_group_ids r; item_atime r; item_atime_ms r; item_count r; item_cursor_id r;
        meta_topic_id r; meta_handle_id r; meta_uin r; meta_hash r; item_buffer_type r; meta_consumer_group_ids r;
        meta_pub_id r; meta_atime r; meta_atime_ms r], [item_buffer r; meta_client_id r]))
    (fun p => match p with
              | ([f1; f2; f3; f4; f5; f6; f7; f8; f9; f10; f11; f12; f13; f14; f15], [f0; f16]) =>
                  Some (mkQItem f0 f1 f2 f3 f4 f5 f6 f7 f8 f9 f10 f11 f12 f13 f14 f15 f16)
              | _ => None
              end) _).
  by intros [].
Defined.

#[export] Instance AddRequest_eq_dec : EqDecision AddRequest.
Proof. solve_decision. Defined.

#[export] Instance AddRequest_countable : Countable AddRequest.
Proof.
  refine (inj_countable' (fun r => (ar_topic_id r, ar_store_id r, ar_queue_id r, ar_items r))
    (fun '(f0, f1, f2, f3) => mkAddRequest f0 f1 f2 f3) _).
  by intros [].
Defined.

#[export] Instance ConsumerGroupDetail_eq_dec : EqDecision SyncCtrl.ConsumerGroupDetail.
Proof. solve_decision. Defined.

#[export] Instance ConsumerGroupDetail_countable : Countable SyncCtrl.ConsumerGroupDetail.
Proof.
  refine (inj_countable' (fun r => (SyncCtrl.d_consumer_group_id r, SyncCtrl.d_prev_cursor_id r))
    (fun '(f0, f1) => SyncCtrl.mkDetail f0 f1) _).
  by intros [].
Defined.

#[export] Instance QueueDetail_eq_dec : EqDecision SyncCtrl.QueueDetail.
Proof. solve_decision. Defined.

#[export] Instance QueueDetail_countable : Countable SyncCtrl.QueueDetail.
Proof.
  refine (inj_countable' (fun r => (SyncCtrl.d_queue_id r, SyncCtrl.d_details r))
    (fun '(f0, f1) => SyncCtrl.mkQueueDetail f0 f1) _).
  by intros [].
Defined.

#[export] Instance StorePaxosArgs_eq_dec : EqDecision StorePaxosArgs.
Proof. solve_decision. Defined.

#[export] Instance StorePaxosArgs_countable : Countable StorePaxosArgs.
Proof.
  refine (inj_countable' (fun r => (args_add_req r, args_sync_ctrl_info r, args_master_addr r, args_timestamp r))
    (fun '(f0, f1, f2, f3) => mkStorePaxosArgs f0 f1 f2 f3) _).
  by intros [].
Defined.

#[export] Instance LockInfo_eq_dec : EqDecision LockInfo.
Proof. solve_decision. Defined.

#[export] Instance LockInfo_countable : Countable LockInfo.
Proof.
  refine (inj_countable' (fun r => (li_lock_key r, li_version r, li_client_id r, li_lease_time_ms r))
    (fun '(f0, f1, f2, f3) => mkLockInfo f0 f1 f2 f3) _).
  by intros [].
Defined.

#[export] Instance StringInfo_eq_dec : EqDecision StringInfo.
Proof. solve_decision. Defined.

#[export] Instance StringInfo_countable : Countable StringInfo.
Proof.
  refine (inj_countable' (fun r => (si_key r, si_version r, si_value r, si_lease_time_ms r))
    (fun '(f0, f1, f2, f3) => mkStringInfo f0 f1 f2 f3) _).
  by intros [].
Defined.

#[export] Instance AcquireLockRequest_eq_dec : EqDecision AcquireLockRequest.
Proof. solve_decision. Defined.

#[export] Instance AcquireLockRequest_countable : Countable AcquireLockRequest.
Proof.
  refine (inj_countable' (fun r => (aq_topic_id r, aq_lock_id r, aq_lock_info r, aq_master_addr r))
    (fun '(f0, f1, f2, f3) => mkAcquireLockRequest f0 f1 f2 f3) _).
  by intros [].
Defined.

#[export] Instance SetStringRequest_eq_dec : EqDecision SetStringRequest.
Proof. solve_decision. Defined.

#[export] Instance SetStringRequest_countable : Countable SetStringRequest.
Proof.
  refine (inj_countable' (fun r => (ss_topic_id r, ss_lock_id r, ss_string_info r, ss_master_addr r))
    (fun '(f0, f1, f2, f3) => mkSetStringRequest f0 f1 f2 f3) _).
  by intros [].
Defined.

#[export] Instance LockPaxosArgs_eq_dec : EqDecision LockPaxosArgs.
Proof. solve_decision. Defined.

#[export] Instance LockPaxosArgs_countable : Countable LockPaxosArgs.
Proof.
  refine (inj_countable' (fun r => (la_acquire_lock_req r, la_set_string_req r, la_master_addr r))
    (fun '(f0, f1, f2) => mkLockPaxosArgs f0 f1 f2) _).
  by intros [].
Defined.

(** ** The codecs *)

#[export] Instance wire_store : StoreCodec := {|
  ParseFromString := of_wire;
  SerializeToString := to_wire;
  ByteSize item := Z.of_nat (String.length (item_buffer item));
|}.

Lemma wire_store_law (a : StorePaxosArgs) : ParseFromString (SerializeToString a) = Some a.
Proof. apply of_to_wire. Qed.

#[export] Instance wire_record : RecordCodec := {|
  rec_ParseFromString := of_wire;
  rec_SerializeToString r := Some (to_wire r);
|}.

#[export] Instance wire_record_laws : RecordCodecLaws wire_record.
Proof. split. intros r. exists (to_wire r). split; [done|]. apply of_to_wire. Defined.

#[export] Instance wire_lock : LockCodec := {|
  lock_ParseFromString := of_wire;
  lock_SerializeToString := to_wire;
|}.

Lemma wire_lock_law (a : LockPaxosArgs) : lock_ParseFromString (lock_SerializeToString a) = Some a.
Proof. apply of_to_wire. Qed.

(** ** The database: a map that [Open] finds with the contents [disk] *)

Definition entries (m : gmap string string) : list (string * string) :=
  (fun k => (k, default ""%string (m !! k))) <$> map_keys m.

Definition mem_db (disk : gmap string string) : LevelDB := {|
  leveldb := gmap string string;
  ldb_Open _ _ := Some disk;
  ldb_Get d k := match d !! k with Some v => (StatusOk, v) | None => (StatusNotFound, ""%string) end;
  ldb_Put d _ k v := (StatusOk, <[k := v]> d);
  ldb_Delete d _ k := (StatusOk, delete k d);
  ldb_entries := entries;
|}.

#[export] Instance mem_db_laws disk : LevelDBLaws (mem_db disk).
Proof.
  refine {| contents := (fun d : @leveldb (mem_db disk) => d : gmap string string) |}; try done.
  intros d. split.
  - assert (E : (entries d).*1 = map_keys d).
    { unfold entries. rewrite <-list_fmap_compose. apply list_fmap_id. }
    cbn. rewrite E. apply LockDb.map_keys_sorted.
  - intros k v. cbn. unfold entries. rewrite list_elem_of_fmap. split.
    + intros (k' & [= -> ->] & Hk). apply LockDb.elem_of_map_keys in Hk as [w ->]. done.
    + intros Hk. exists k. rewrite Hk. split; [done|]. apply LockDb.elem_of_map_keys. by exists v.
Defined.

(** ** Configuration *)

#[export] Instance loopback : Inet := {|
  inet_addr s := if bool_decide (s = "127.0.0.1"%string) then 16777343 else 0;
  inet_ntoa z := if z =? 16777343 then "127.0.0.1"%string else "0.0.0.0"%string;
|}.

Definition sample_topic : TopicConfig.t :=
  match TopicConfig.Rebuild true (TopicConfig.ReadConfig).2 with
  | Some (_, c) => c
  | None => TopicConfig.cleared (TopicConfig.ReadConfig).2
  end.

Lemma sample_disjoint : TopicConfig.disjoint_ranges sample_topic.
Proof.
  assert (E : TopicConfig.queue_info_id2ranges sample_topic =
              list_to_map [(1, [(0, 9)]); (2, [(10, 19)]); (3, [(1000, 1009)]); (4, [(1010, 1019)])]) by by vm_compute.
  intros q id1 id2 rs1 rs2. rewrite E. intros H1 H2.
  apply elem_of_list_to_map_2 in H1, H2. rewrite !elem_of_cons, elem_of_nil in H1, H2. unfold TopicConfig.in_range.
  destruct H1 as [[= -> ->]|[[= -> ->]|[[= -> ->]|[[= -> ->]|[]]]]],
    H2 as [[= -> ->]|[[= -> ->]|[[= -> ->]|[[= -> ->]|[]]]]]; cbn [existsb fst snd]; lia.
Qed.

Definition stores : list Store_proto := [mkStore 1 [mkAddr "127.0.0.1" 5100 5101; mkAddr "127.0.0.1" 5200 5201] [] 100].

Definition sample_store : StoreConfig.t :=
  match StoreConfig.Rebuild true stores with Some (_, c) => c | None => StoreConfig.mk ∅ ∅ end.

Definition sample_lock : LockConfig.t :=
  match LockConfig.Rebuild true (LockConfig.ReadConfig).2 with Some (_, c) => c | None => LockConfig.mk ∅ ∅ end.

#[export] Instance config : GlobalConfig.
Proof.
  refine {| GetTopicConfigByTopicID id := if id =? 1000 then (RET_OK, Some sample_topic) else (RET_ERR_RANGE_TOPIC, None);
            GetStoreConfig id := if id =? 1000 then (RET_OK, Some sample_store) else (RET_ERR_RANGE_TOPIC, None);
            GetLastModTime _ := 1 |};
    intros id; by destruct (id =? 1000).
Defined.

#[export] Instance lock_directory : LockDirectory.
Proof.
  refine {| GetLockConfig id := if id =? 1000 then (RET_OK, Some sample_lock) else (RET_ERR_RANGE_TOPIC, None) |};
    intros id; by destruct (id =? 1000).
Defined.

#[export] Instance topics : TopicDirectory := {|
  GetTopicIDByTopicName _ := (RET_OK, 1000);
  GetAllTopicID := (RET_OK, {[1000]});
|}.

(** Two paxos groups, two consumer groups, the 20 queues of the sample topic. *)
Definition store_opt : StoreOption := mkStoreOption (mkAddr "127.0.0.1" 5100 5101) 2 2 20.

Definition lock_opt : LockOption := mkLockOption (mkAddr "127.0.0.1" 7100 7101) 2 1 60 100 100 false.

(** ** The node: every instance adds one item to queue 3, whose group this
    server is the master of. *)

Definition item : QItem := mkQItem "hello" 1 3 100 0 0 0 1000 0 7 0 0 3 1 100 0 "".
Definition add_request : AddRequest := mkAddRequest 1000 1 3 [item].
Definition add_args (now : Z) : StorePaxosArgs := mkStorePaxosArgs (Some add_request) None (mkAddr "" 0 0) (to_u64 now).

#[export] Instance node : PaxosNode := {|
  GetMinChosenInstanceID _ := 0;
  GetNowInstanceID _ := 10;
  GetInstanceValue _ _ := (0, [(to_wire (add_args 100), StoreSM_ID)]);
  IsIMMaster g := g =? 1;
  GetMaster _ := ("127.0.0.1"%string, 5201);
  Paxos_GetInstanceValue_Value_NotExist := 1;
  Paxos_GetInstanceValue_Value_Not_Chosen_Yet := 2;
|}.

#[export] Instance paxos_ret : PaxosRet := {|
  PaxosTryCommitRet_OK := 0;
  PaxosTryCommitRet_Timeout := 14;
  PaxosTryCommitRet_TooManyThreadWaiting_Reject := 18;
  PaxosTryCommitRet_Value_Size_TooLarge := 16;
|}.

#[export] Instance batch_propose : PaxosBatchPropose := {|
  BatchPropose s _ _ := (0, 5, RET_OK, s);
|}.

(** Lock proposals: executed at once at instance 9, or timing out. *)
Definition quiet_propose (disk : gmap string string) : @LockPropose (mem_db disk) := {|
  Propose gs g buf :=
    match of_wire buf with
    | Some args =>
        match gs !! Z.to_nat g with
        | Some gd =>
            match LockSM.DoExecute (LDB := mem_db disk) 0 0 ST_MAP gd 9 args false with
            | Some (out, gd') => (0, 9, default RET_OK out, <[Z.to_nat g := gd']> gs)
            | None => (14, 0, RET_OK, gs)
            end
        | None => (14, 0, RET_OK, gs)
        end
    | None => (14, 0, RET_OK, gs)
    end;
|}.

Definition timeout_propose (disk : gmap string string) : @LockPropose (mem_db disk) := {|
  Propose gs _ _ := (14, 0, RET_OK, gs);
|}.

Definition crc (pre_crc cursor_id : Z) : Z := (pre_crc * 31 + cursor_id) mod 4294967296.
