(* ===== verification/StoreExamples.v ===== *)
(** * Worked examples: configuration and store

    Every theorem with hypotheses is applied to the deployment of [Deployment],
    so its hypotheses are met by the code running on concrete data. *)

From S2P Require Import Prelude RetCode TopicConfig StoreConfig Node StoreMeta SyncCtrl BaseMgr StoreSM KeepSync.
From S2P Require Import LockConfig LockDb LockMgr LockSM LockService GroupMaster Deployment.

#[local] Open Scope Z_scope.

(** Closes a goal the kernel decides by evaluation. *)
Ltac eval_done := vm_compute; repeat split; congruence.

(** ** Configuration *)

Lemma GetQueueByRank_correct_witness :
  TopicConfig.GetQueueByRank sample_topic 2 3 = (RET_OK, Some 13) /\
  TopicConfig.GetQueueByRank sample_topic 2 10 = (RET_ERR_RANGE_RANK, None).
Proof.
  split.
  - rewrite (TopicConfig.GetQueueByRank_correct true (TopicConfig.ReadConfig).2 RET_OK sample_topic 2 3);
      [by vm_compute|by vm_compute|eval_done].
  - rewrite (TopicConfig.GetQueueByRank_correct true (TopicConfig.ReadConfig).2 RET_OK sample_topic 2 10);
      [by vm_compute|by vm_compute|eval_done].
Defined.

Lemma GetQueueByLoopRank_total_witness :
  exists q, TopicConfig.GetQueueByLoopRank sample_topic 2 UINT64_MAX = (RET_OK, Some q) /\
    TopicConfig.all_queues [(10, 19)] !! Z.to_nat (UINT64_MAX mod 10) = Some q /\
    existsb (TopicConfig.in_range q) [(10, 19)] = true.
Proof.
  apply (TopicConfig.GetQueueByLoopRank_total true (TopicConfig.ReadConfig).2 RET_OK sample_topic 2 [(10, 19)] UINT64_MAX);
    [by vm_compute|by vm_compute|done|eval_done|eval_done].
Defined.

Lemma GetQueueInfoByQueue_of_rank_witness :
  exists qi, TopicConfig.GetQueueInfoByQueue sample_topic 1003 = (RET_OK, Some qi) /\
             TopicConfig.GetQueueInfoByQueueInfoID sample_topic 3 = (RET_OK, Some qi).
Proof.
  apply (TopicConfig.GetQueueInfoByQueue_of_rank true (TopicConfig.ReadConfig).2 RET_OK sample_topic 3 3 1003);
    [by vm_compute|exact sample_disjoint|eval_done|by vm_compute].
Defined.

Lemma GetQueueInfoIDByCount_ladder_witness :
  TopicConfig.GetQueueInfoIDByCount sample_topic 1 100 = (RET_OK, Some 3) /\
  TopicConfig.GetQueueInfoIDByCount sample_topic 1 101 = (RET_ERR_RANGE_CNT, None).
Proof.
  split.
  - rewrite (TopicConfig.GetQueueInfoIDByCount_ladder sample_topic 1 (mkPub 1 [1; 3] [1; 2]) 100 200);
      [by vm_compute|by vm_compute| |lia].
    repeat constructor; eexists; (split; [by vm_compute|]); cbn; lia.
  - rewrite (TopicConfig.GetQueueInfoIDByCount_ladder sample_topic 1 (mkPub 1 [1; 3] [1; 2]) 101 200);
      [by vm_compute|by vm_compute| |lia].
    repeat constructor; eexists; (split; [by vm_compute|]); cbn; lia.
Defined.

Lemma DecodeAddr_EncodeAddr_witness :
  DecodeAddr (EncodeAddr (mkAddr "127.0.0.1" 5100 5101)) = mkAddr "127.0.0.1" 5100 5101.
Proof. apply DecodeAddr_EncodeAddr. eval_done. Defined.

Lemma GetStoreByAddr_correct_witness :
  exists a, a ∈ addrs (mkStore 1 [mkAddr "127.0.0.1" 5100 5101; mkAddr "127.0.0.1" 5200 5201] [] 100) /\
    EncodeAddr a = EncodeAddr (mkAddr "127.0.0.1" 5200 5201) /\
    StoreConfig.store_id2store sample_store !! 1 =
      Some (mkStore 1 [mkAddr "127.0.0.1" 5100 5101; mkAddr "127.0.0.1" 5200 5201] [] 100).
Proof.
  assert (Hr : StoreConfig.Rebuild true stores = Some (RET_OK, sample_store)) by (vm_compute; reflexivity).
  assert (E : StoreConfig.GetStoreByAddr sample_store (mkAddr "127.0.0.1" 5200 5201) =
    (RET_OK, Some (mkStore 1 [mkAddr "127.0.0.1" 5100 5101; mkAddr "127.0.0.1" 5200 5201] [] 100)))
    by (vm_compute; reflexivity).
  pose proof (StoreConfig.GetStoreByAddr_correct stores RET_OK sample_store (mkAddr "127.0.0.1" 5200 5201) Hr) as H.
  rewrite E in H. exact H.
Defined.
(** ** The queue of a store *)

Definition queue_579 : StoreMetaQueue.t :=
  foldl (fun q c => (StoreMetaQueue.PushBack crc q (StoreMeta_of c)).2) StoreMetaQueue.empty [5; 7; 9].

Lemma queue_579_wf : StoreMetaQueue.wf crc queue_579.
Proof.
  unfold StoreMetaQueue.wf.
  replace (StoreMetaQueue.metas queue_579) with
    [mkMeta 5 0 (crc 0 5); mkMeta 7 1 (crc (crc 0 5) 7); mkMeta 9 2 (crc (crc (crc 0 5) 7) 9)] by by vm_compute.
  split; [repeat split|]. repeat constructor; cbn; ilia.
Qed.

Lemma SizeGT_counts_witness : StoreMetaQueue.SizeGT queue_579 (StoreMeta_of 6) = 2.
Proof. rewrite (StoreMetaQueue.SizeGT_counts crc queue_579 6 queue_579_wf). by vm_compute. Defined.

Lemma Next_successor_witness :
  exists m ok q, StoreMetaQueue.Next crc queue_579 (StoreMeta_of 5) = (Some (m, ok), q) /\
    m ∈ StoreMetaQueue.metas queue_579 /\ 5 < StoreMeta.cursor_id m.
Proof.
  pose proof (StoreMetaQueue.Next_successor crc queue_579 5 queue_579_wf) as H.
  destruct (StoreMetaQueue.Next crc queue_579 (StoreMeta_of 5)) as [[[m ok]|] q] eqn:E.
  - exists m, ok, q. destruct H as (? & _ & H & _). split_and!; [done..|by apply H].
  - exfalso. vm_compute in E. discriminate E.
Defined.

Definition pushed_5 : StoreMetaQueue.sys :=
  StoreMetaQueue.mkSys (StoreMetaQueue.PushBack crc StoreMetaQueue.empty (StoreMeta_of 5)).2 UINT64_MAX [5] [] true.

Lemma pushed_5_reachable : rtc (StoreMetaQueue.sys_step crc) StoreMetaQueue.sys_init pushed_5.
Proof.
  apply rtc_once. apply (StoreMetaQueue.step_push crc StoreMetaQueue.sys_init 5); [by vm_compute|].
  by intros x ?%elem_of_nil.
Qed.

Lemma dequeue_progress_witness :
  exists m ok q, StoreMetaQueue.Next crc (StoreMetaQueue.queue pushed_5) (StoreMeta_of UINT64_MAX) = (Some (m, ok), q).
Proof. apply (StoreMetaQueue.dequeue_progress crc pushed_5 pushed_5_reachable). by vm_compute. Defined.

Definition popped_5 : StoreMetaQueue.sys :=
  let r := StoreMetaQueue.Next crc (StoreMetaQueue.queue pushed_5) (StoreMeta_of UINT64_MAX) in
  StoreMetaQueue.mkSys r.2 5 [5] [5] true.

Lemma dequeue_ordered_witness :
  exists pending, [5] = [5] ++ (StoreMeta.cursor_id <$> pending) /\
    pending `suffix_of` StoreMetaQueue.metas (StoreMetaQueue.queue popped_5) /\
    StoreMetaQueue.crc_ok popped_5 = true /\ StronglySorted Z.lt [5].
Proof.
  apply (StoreMetaQueue.dequeue_ordered crc popped_5).
  eapply rtc_r; [exact pushed_5_reachable|].
  apply (StoreMetaQueue.step_next crc pushed_5 (mkMeta 5 0 (crc 0 5)) true
           (StoreMetaQueue.Next crc (StoreMetaQueue.queue pushed_5) (StoreMeta_of UINT64_MAX)).2).
  vm_compute. reflexivity.
Defined.

(** ** The positions *)

Lemma store_opt_ok : opt_ok store_opt.
Proof. eval_done. Qed.

Definition zero_buf : list SyncCtrlItem := replicate 40 zero_item.

(** Group 1 has processed queue 3 up to 5 and was handed out up to 7. *)
Definition buf_57 : list SyncCtrlItem :=
  <[SyncCtrl.idx store_opt 1 3 := mkItem SYNCCTRL_MAGIC SYNCCTRL_MAGIC 5 7]> zero_buf.

Lemma zero_buf_ok : SyncCtrl.buf_ok store_opt zero_buf.
Proof. by vm_compute. Qed.
Lemma buf_57_ok : SyncCtrl.buf_ok store_opt buf_57.
Proof. by vm_compute. Qed.
Lemma pair_13 : SyncCtrl.pair_ok store_opt 1 3.
Proof. eval_done. Qed.
Lemma pair_23 : SyncCtrl.pair_ok store_opt 2 3.
Proof. eval_done. Qed.

Lemma idx_bounds_inj_witness :
  Z.of_nat (SyncCtrl.idx store_opt 1 3) < 40 /\
  (SyncCtrl.idx store_opt 1 3 = SyncCtrl.idx store_opt 2 3 -> 1 = 2 /\ 3 = 3).
Proof. apply (SyncCtrl.idx_bounds_inj store_opt 1 3 2 3 store_opt_ok pair_13 pair_23). Defined.

Lemma negative_group_out_of_bounds_witness :
  SyncCtrl.bad_arg store_opt (-1) 0 = false /\ zero_buf !! SyncCtrl.idx store_opt (-1) 0 = None /\
  SyncCtrl.GetCursorID store_opt zero_buf (-1) 0 true = None.
Proof. apply (SyncCtrl.negative_group_out_of_bounds store_opt zero_buf store_opt_ok zero_buf_ok). Defined.

Lemma GetCursorID_UpdateCursorID_witness :
  exists buf', SyncCtrl.UpdateCursorID store_opt zero_buf 1 3 8 true = Some (RET_OK, buf') /\
    SyncCtrl.buf_ok store_opt buf' /\ SyncCtrl.GetCursorID store_opt buf' 1 3 true = Some (RET_OK, 8).
Proof.
  destruct (SyncCtrl.GetCursorID_UpdateCursorID store_opt store_opt_ok zero_buf 1 3 8 true 1 3 true
              zero_buf_ok pair_13 pair_13) as (buf' & H1 & H2 & H3).
  exists buf'. split_and!; [done..|]. rewrite H3. by rewrite decide_True.
Defined.

(** A client that has fallen behind is moved to the server's position. *)
Lemma AdjustNextCursorID_correct_witness :
  exists ret prev' next', SyncCtrl.AdjustNextCursorID store_opt buf_57 1 3 2 3 = Some (ret, prev', next') /\
    5 <= prev' /\ prev' <= next'.
Proof.
  destruct (SyncCtrl.AdjustNextCursorID_correct store_opt store_opt_ok buf_57 1 3 2 3) as (ret & p & n & H1 & H2);
    [exact buf_57_ok|exact pair_13|eval_done|eval_done|eval_done|by vm_compute|].
  exists ret, p, n. split; [done|]. destruct H2 as [(_ & H & _)|(_ & _ & H3 & H4)].
  - exfalso. vm_compute in H. discriminate H.
  - split; [apply H3; by vm_compute|apply H4; left; by vm_compute].
Defined.

Definition details : list SyncCtrl.QueueDetail :=
  [SyncCtrl.mkQueueDetail 3 [SyncCtrl.mkDetail 1 9; SyncCtrl.mkDetail 2 4]].

Lemma details_are_ok : SyncCtrl.details_ok store_opt details.
Proof. repeat constructor; by vm_compute. Qed.

Lemma SyncCursorID_advances_witness :
  exists buf' queues', SyncCtrl.SyncCursorID store_opt buf_57 (replicate 20 queue_579) details
      = Some (RET_OK, buf', queues') /\ SyncCtrl.all_advance store_opt buf_57 buf' /\
    Forall (fun qd => Forall (SyncCtrl.reached store_opt buf' (SyncCtrl.d_queue_id qd)) (SyncCtrl.d_details qd)) details /\
    StoreMetaQueue.metas <$> queues' = StoreMetaQueue.metas <$> replicate 20 queue_579.
Proof.
  apply (SyncCtrl.SyncCursorID_advances store_opt store_opt_ok buf_57 (replicate 20 queue_579) details);
    [exact buf_57_ok|by vm_compute|exact details_are_ok].
Defined.

(** Group 1 does not subscribe to the pub of queue 13: a change of the
    configuration erases its position there and keeps the one on queue 3. *)
Definition buf_stale : list SyncCtrlItem :=
  <[SyncCtrl.idx store_opt 1 13 := mkItem SYNCCTRL_MAGIC SYNCCTRL_MAGIC 4 4]> buf_57.

Lemma ClearSyncCtrl_correct_witness :
  exists buf', SyncCtrl.ClearSyncCtrl store_opt 1000 2 1 buf_stale = Some (2, buf') /\
    SyncCtrl.item_of store_opt buf' 1 3 = mkItem SYNCCTRL_MAGIC SYNCCTRL_MAGIC 5 7 /\
    SyncCtrl.item_of store_opt buf' 1 13 = zero_item.
Proof.
  assert (Hp : GetPubIDsByStoreID 1000 1 = (RET_OK, (TopicConfig.GetAllPubID sample_topic).2)) by by vm_compute.
  destruct (SyncCtrl.ClearSyncCtrl_correct store_opt store_opt_ok 1000 sample_topic sample_store 1
              (TopicConfig.GetAllPubID sample_topic).2 2 1 buf_stale) as (buf' & H1 & H2);
    [by vm_compute|by vm_compute|by vm_compute|by vm_compute|exact Hp|].
  exists buf'. split; [done|]. split; [rewrite H2 by exact pair_13; by vm_compute|].
  rewrite H2 by eval_done. by vm_compute.
Defined.

(** ** The store *)

Lemma topic_1000 : GetTopicConfigByTopicID 1000 = (RET_OK, Some sample_topic).
Proof. reflexivity. Qed.

Definition store_57 : Store :=
  mkStoreState (<[3%nat := queue_579]> (replicate 20 StoreMetaQueue.empty)) buf_57
    [CheckPointStat.zero; CheckPointStat.zero].

(** Group 1 reads queue 3: it has handed 7 out and hands in 6. *)
Definition get_request : GetRequest := mkGetRequest 1000 1 3 10 0 1 0 UINT64_MAX 6 false.

Definition got : GetResponse * Store :=
  match BaseMgr.Get crc store_opt 1000 store_57 (fun _ => 0) get_request (mkGetResponse [] 0 0) with
  | Some (_, resp, s') => (resp, s')
  | None => (mkGetResponse [] 0 0, store_57)
  end.

Lemma got_eq : BaseMgr.Get crc store_opt 1000 store_57 (fun _ => 0) get_request (mkGetResponse [] 0 0)
               = Some (RET_OK, got.1, got.2).
Proof. by vm_compute. Qed.

Lemma queue_at_3 : queue_at store_57 3 = Some queue_579.
Proof. by vm_compute. Qed.
Lemma queue_579_cursors : BaseMgr.cursors queue_579 = [5; 7; 9].
Proof. by vm_compute. Qed.
Lemma queue_579_sorted : BaseMgr.sorted_queue queue_579.
Proof.
  unfold BaseMgr.sorted_queue.
  replace (StoreMetaQueue.metas queue_579) with
    [mkMeta 5 0 (crc 0 5); mkMeta 7 1 (crc (crc 0 5) 7); mkMeta 9 2 (crc (crc (crc 0 5) 7) 9)] by by vm_compute.
  repeat constructor.
Qed.
Lemma queue_579_real : BaseMgr.real_queue queue_579.
Proof. unfold BaseMgr.real_queue. rewrite queue_579_cursors. repeat constructor; vm_compute; congruence. Qed.

Lemma Get_no_gap_witness :
  exists batches, resp_items got.1 = concat batches /\ length (resp_items got.1) = 2%nat /\
    resp_next_cursor_id got.1 = 9.
Proof.
  destruct (BaseMgr.Get_no_gap crc store_opt 1000 store_57 (fun _ => 0) get_request got.1 got.2 queue_579
              queue_at_3 queue_579_sorted queue_579_real ltac:(vm_compute; split; congruence) got_eq)
    as (e & next & cs & batches & _ & _ & _ & _ & H & _).
  exists batches. split; [exact H|]. split; vm_compute; reflexivity.
Defined.

(** The next request of the client. *)
Definition resume (prev next : Z) : GetRequest := mkGetRequest 1000 1 3 10 0 1 0 prev next false.

Lemma resume_pair prev next :
  gr_consumer_group_id (resume prev next) = gr_consumer_group_id get_request /\
  gr_queue_id (resume prev next) = gr_queue_id get_request /\ gr_random (resume prev next) = false.
Proof. by split_and!. Qed.
Lemma resume_prev prev next : gr_prev_cursor_id (resume prev next) = prev.
Proof. reflexivity. Qed.
Lemma resume_next prev next : gr_next_cursor_id (resume prev next) = next.
Proof. reflexivity. Qed.
Lemma got_next : resp_next_cursor_id got.1 = 9.
Proof. vm_compute. reflexivity. Qed.

Lemma Get_resume_witness :
  BaseMgr.adjust store_opt got.2 (resume (resp_prev_cursor_id got.1) (resp_next_cursor_id got.1))
    = Some (RET_OK, resp_prev_cursor_id got.1, resp_next_cursor_id got.1).
Proof.
  assert (Hcp : forall cp, BaseMgr.get_cp store_opt store_57 3 = Some cp -> is_u64 cp.1 /\ is_u64 cp.2).
  { intros cp. replace (BaseMgr.get_cp store_opt store_57 3) with (Some (UINT64_MAX, 0)) by by vm_compute.
    intros [= <-]. vm_compute. repeat split; congruence. }
  assert (Hitem : BaseMgr.item_ok (SyncCtrl.item_of store_opt buf_57 1 3)).
  { replace (SyncCtrl.item_of store_opt buf_57 1 3) with (mkItem SYNCCTRL_MAGIC SYNCCTRL_MAGIC 5 7) by by vm_compute.
    split; [|split]; [intros _; unfold BaseMgr.real, UINT64_MAX; cbn; lia..|intros _ _; cbn; lia]. }
  assert (Hnext : BaseMgr.real 6) by (unfold BaseMgr.real, UINT64_MAX; lia).
  assert (Hlim : is_i32 10) by ilia.
  pose proof (BaseMgr.Get_resume crc store_opt 1000 store_57 (fun _ => 0) get_request got.1 got.2 queue_579
    (resume (resp_prev_cursor_id got.1) (resp_next_cursor_id got.1))
    store_opt_ok buf_57_ok pair_13 eq_refl Hcp queue_at_3 queue_579_sorted queue_579_real
    Hlim Hitem (or_introl eq_refl) (or_intror Hnext) got_eq) as (_ & _ & H).
  destruct (resume_pair (resp_prev_cursor_id got.1) (resp_next_cursor_id got.1)) as (H1 & H2 & H3).
  exact (H ltac:(rewrite got_next; done) H1 H2 H3 (resume_prev _ _) (resume_next _ _)).
Defined.

Lemma Get_defined_witness :
  is_Some (BaseMgr.Get crc store_opt 1000 store_57 (fun _ => 0) get_request (mkGetResponse [] 0 0)).
Proof.
  apply (BaseMgr.Get_defined crc store_opt 1000 store_57 (fun _ => 0) get_request (mkGetResponse [] 0 0) sample_topic
    store_opt_ok buf_57_ok pair_13); [vm_compute; congruence..|reflexivity].
Defined.

(** The log of group 1: an add to queue 3 at instances 5 and 8, and positions. *)
Definition positions_args : StorePaxosArgs := mkStorePaxosArgs None (Some details) (mkAddr "" 0 0) 0.
Definition store_log : list (Z * string) :=
  [(5, to_wire (add_args 100)); (6, to_wire positions_args); (8, to_wire (add_args 130))].

Lemma add_value_ok now : StoreSM.value_ok store_opt sample_topic (to_wire (add_args now)).
Proof.
  exists (add_args now). split; [apply of_to_wire|]. split; [|done].
  intros req [= <-]. split; [|split; [vm_compute; split; congruence|by vm_compute]].
  exists (mkQueueInfo 1 ["0-9"%string] 0 1 0 0). by vm_compute.
Qed.

Lemma execute_log_complete_witness :
  exists s', StoreSM.execute_log crc store_opt 1000 true
      (mkStoreState (BaseMgr.Init store_opt).2 zero_buf []) store_log = Some (true, s') /\
    5 ∈ StoreSM.queue_cursors s' 3.
Proof.
  destruct (StoreSM.execute_log_complete crc store_opt 1000 true sample_topic store_log zero_buf [] topic_1000
    store_opt_ok zero_buf_ok) as (s' & H1 & H2).
  - split; [|cbn; repeat constructor; lia].
    unfold BaseMgr.real, UINT64_MAX. repeat constructor; cbn; lia.
  - constructor; [exact (add_value_ok 100)|]. constructor; [|constructor; [exact (add_value_ok 130)|constructor]].
    exists positions_args. split; [apply of_to_wire|]. split; [done|]. intros info [= <-]. exact details_are_ok.
  - exists s'. split; [exact H1|]. destruct (H2 3) as [_ H3]; [lia|]. apply H3.
    exists (to_wire (add_args 100)). split; [apply list_elem_of_here|]. unfold StoreSM.adds_to.
    cbn [ParseFromString wire_store]. by rewrite of_to_wire.
Defined.



(** ** The sync thread *)

(** Group 2 has no position on queue 3 yet: the checkpoint round of paxos group
    1 must keep every instance. *)
Definition pubs_12 : gset Z := (TopicConfig.GetAllPubID sample_topic).2.
Definition cp_made : Z * Store :=
  default (0, store_57) (KeepSyncThread.make_cp store_opt sample_topic pubs_12 store_57 1 10).

Lemma cp_made_eq : KeepSyncThread.make_cp store_opt sample_topic pubs_12 store_57 1 10 = Some (cp_made.1, cp_made.2).
Proof. vm_compute. reflexivity. Qed.

Lemma buf_57_items g q : SyncCtrl.item_of store_opt buf_57 g q = zero_item \/
  SyncCtrl.item_of store_opt buf_57 g q = mkItem SYNCCTRL_MAGIC SYNCCTRL_MAGIC 5 7.
Proof.
  unfold SyncCtrl.item_of, buf_57. rewrite list_lookup_insert. case_decide; [by right|left].
  destruct (zero_buf !! SyncCtrl.idx store_opt g q) as [i|] eqn:E; [|done].
  unfold zero_buf in E. by apply lookup_replicate_1 in E as [-> _].
Qed.

Lemma empty_queue_ok : KeepSyncThread.queue_ok StoreMetaQueue.empty.
Proof.
  split_and!; [unfold BaseMgr.sorted_queue, key_sorted; apply SSorted_nil|apply Forall_nil_2|by vm_compute].
Qed.

Lemma store_57_ok : KeepSyncThread.store_ok store_opt store_57.
Proof.
  split_and!; [exact buf_57_ok| |by vm_compute|].
  - intros g q _. cbn [st_sync store_57]. destruct (buf_57_items g q) as [-> | ->]; [done|].
    intros _. unfold BaseMgr.real, UINT64_MAX. cbn. lia.
  - apply Forall_insert; [apply Forall_replicate, empty_queue_ok|].
    split_and!; [exact queue_579_sorted|exact queue_579_real|by vm_compute].
Qed.

Lemma make_cp_safe_witness :
  exists m, StoreMeta.cursor_id m = 9 /\ m ∈ KeepSyncThread.metas_at cp_made.2 3 /\ (cp_made.1 <> UINT64_MAX -> cp_made.1 < 9).
Proof.
  set (m := mkMeta 9 2 (crc (crc (crc 0 5) 7) 9)).
  assert (Hin : m ∈ KeepSyncThread.metas_at store_57 3).
  { replace (KeepSyncThread.metas_at store_57 3) with
      [mkMeta 5 0 (crc 0 5); mkMeta 7 1 (crc (crc 0 5) 7); m] by by vm_compute.
    apply list_elem_of_further, list_elem_of_further, list_elem_of_here. }
  assert (Hun : KeepSyncThread.unprocessed store_opt sample_topic pubs_12 (st_sync store_57) 3 9).
  { exists 1. split; [exact pair_13|]. split; [by vm_compute|]. right. by vm_compute. }
  destruct (KeepSyncThread.make_cp_safe crc store_opt 1000 sample_topic pubs_12 store_57 1 10 cp_made.1 cp_made.2 3 m
    store_opt_ok store_57_ok ltac:(vm_compute; split; congruence) cp_made_eq ltac:(vm_compute; split; congruence)
    eq_refl Hin Hun) as [H1 H2].
  exists m. by split_and!.
Defined.

Lemma DumpCheckPoint_monotone_witness :
  exists ret s' stat', KeepSyncThread.DumpCheckPoint store_57 1 4 true = Some (ret, s') /\
    st_cps s' = <[1%nat := stat']> (st_cps store_57) /\ (CheckPointStat.GetCheckPoint stat').2 = 4.
Proof.
  destruct (KeepSyncThread.DumpCheckPoint_monotone store_57 1 4 true CheckPointStat.zero)
    as (ret & s' & stat' & H1 & H2 & _ & _ & H3 & _);
    [vm_compute; split; congruence|vm_compute; split; congruence|reflexivity|].
  exists ret, s', stat'. split_and!; [exact H1|exact H2|]. rewrite H3. by vm_compute.
Defined.

Lemma replica_579 : StoreSM.replica_ok store_opt (mkStoreState (st_queues store_57) zero_buf []).
Proof.
  split_and!; [exact zero_buf_ok|by vm_compute|].
  apply Forall_insert; [apply Forall_replicate, empty_queue_ok|exact queue_579_sorted].
Qed.


Lemma replay_search_correct_witness :
  exists l mid, KeepSyncThread.replay_search (fun i => i <? 3) KeepSyncThread.replay_fuel 0 9 UINT64_MAX = Some (l, mid) /\
    (forall i, l < i <= 9 -> (i <? 3) = false).
Proof.
  destruct (KeepSyncThread.replay_search_correct crc (fun i => i <? 3) 0 9) as (l & mid & H1 & _ & _ & H2 & _);
    [lia|ilia|intros i j; lia|]. exists l, mid. split; [exact H1|exact H2].
Defined.

(** A group whose instance [i] carries the timestamp [i]. *)
Definition node_time : PaxosNode := {|
  GetMinChosenInstanceID _ := 0;
  GetNowInstanceID _ := 9;
  GetInstanceValue _ i := (0, [(to_wire (mkStorePaxosArgs None None (mkAddr "" 0 0) i), StoreSM_ID)]);
  IsIMMaster _ := true;
  GetMaster _ := ("127.0.0.1"%string, 5101);
  Paxos_GetInstanceValue_Value_NotExist := 1;
  Paxos_GetInstanceValue_Value_Not_Chosen_Yet := 2;
|}.

Lemma replay_skips_one_witness :
  KeepSyncThread.replay_instance (PN := node_time) (mkReplayInfo [] [] UINT64_MAX 3) 1 = Some (Some 3).
Proof.
  apply (KeepSyncThread.replay_skips_one (PN := node_time) (mkReplayInfo [] [] UINT64_MAX 3) 1);
    [reflexivity..|].
  intros i. unfold KeepSyncThread.probe. cbn [GetInstanceValue node_time].
  change (Paxos_GetInstanceValue_Value_Not_Chosen_Yet =? 0) with false.
  change (Paxos_GetInstanceValue_Value_NotExist =? 0) with false. cbn [negb Z.eqb].
  cbn [KeepSyncThread.first_before]. change (negb (StoreSM_ID =? StoreSM_ID)) with false. cbn iota.
  cbn [ParseFromString wire_store]. by rewrite of_to_wire.
Defined.

(** ** The masters of the groups *)

Lemma store_preferred_master_witness :
  exists a, a ∈ [mkAddr "127.0.0.1" 5100 5101; mkAddr "127.0.0.1" 5200 5201] /\
    forall opt, opt_addr opt ∈ [mkAddr "127.0.0.1" 5100 5101; mkAddr "127.0.0.1" 5200 5201] -> opt_ngroup opt = 2 ->
      (forall (PN : PaxosNode) mod_time clock st,
         filter (GroupMaster.about 1) (StoreKeepMaster.turn opt 1000 (fun _ => false) mod_time clock st).1 =
         if negb (IsIMMaster 1) && bool_decide (opt_addr opt = a)
         then [GroupMaster.Propose 1 (StoreKeepMaster.master_value a (clock 1))] else []) /\
      forall node_ready store instance_id timestamp,
        StoreSM.Execute crc opt 1000 node_ready store instance_id (StoreKeepMaster.master_value a timestamp) =
        Some (StoreSM.mkResult true RET_OK (bool_decide (opt_addr opt <> a) && node_ready), store).
Proof.
  apply (StoreKeepMaster.store_preferred_master crc 1000 sample_topic sample_store
           (mkStore 1 [mkAddr "127.0.0.1" 5100 5101; mkAddr "127.0.0.1" 5200 5201] [] 100) 2 1);
    [exact wire_store_law|done|by vm_compute|done| |apply (bool_decide_unpack _); by vm_compute|done|lia|lia].
  intros a Ha. apply elem_of_cons in Ha as [->|Ha%list_elem_of_singleton]; [|subst a]; by vm_compute.
Defined.
