(* ===== verification/LockExamples.v ===== *)
(** * Worked examples: lock server

    Every theorem with hypotheses is applied to the deployment of [Deployment],
    so its hypotheses are met by the code running on concrete data. *)

From S2P Require Import Prelude RetCode TopicConfig StoreConfig Node StoreMeta SyncCtrl BaseMgr StoreSM KeepSync.
From S2P Require Import LockConfig LockDb LockMgr LockSM LockService Deployment.

#[local] Open Scope Z_scope.

(** ** The lock server *)

Lemma GetLockByAddr_correct_witness :
  exists a, a ∈ lock_addrs (mkLock 1 [mkAddr "127.0.0.1" 7100 7101; mkAddr "127.0.0.1" 7200 7201;
                                      mkAddr "127.0.0.1" 7300 7301] 100) /\
    EncodeAddr a = EncodeAddr (mkAddr "127.0.0.1" 7200 7201).
Proof.
  assert (Hr : LockConfig.Rebuild true (LockConfig.ReadConfig).2 = Some (RET_OK, sample_lock)) by (vm_compute; reflexivity).
  assert (E : LockConfig.GetLockByAddr sample_lock (mkAddr "127.0.0.1" 7200 7201) =
    (RET_OK, Some (mkLock 1 [mkAddr "127.0.0.1" 7100 7101; mkAddr "127.0.0.1" 7200 7201;
                             mkAddr "127.0.0.1" 7300 7301] 100))) by (vm_compute; reflexivity).
  pose proof (LockConfig.GetLockByAddr_correct (LockConfig.ReadConfig).2 RET_OK sample_lock
    (mkAddr "127.0.0.1" 7200 7201) Hr) as H.
  rewrite E in H. destruct H as (a & H1 & H2 & _). exists a. by split.
Defined.
(** Lock [k] is held by [me] since instance 3; its lease ran out at 500. *)

Definition rec_k : LocalRecordInfo := mkRecord 3 "me" 1000 0.
Definition disk_k : gmap string string := {["k"%string := to_wire rec_k]}.

#[local] Instance db_k : LevelDB := mem_db disk_k.
#[local] Instance db_k_laws : LevelDBLaws db_k := mem_db_laws disk_k.

Definition map_k : LockDb.t :=
  LockDb.mk ST_MAP {["k"%string := mkRecord 3 "me" 1000 500]} None None None true "".
Definition ldb_k : LockDb.t := LockDb.mk ST_LEVELDB ∅ None (Some (disk_k : @leveldb db_k)) None true "".
Definition group_k : LockMgr.GroupData := LockMgr.mkGroup map_k ldb_k 3 3 3.

Lemma disk_k_parses k s :
  disk_k !! k = Some s -> exists r, rec_ParseFromString s = Some r /\ strip r = r.
Proof.
  unfold disk_k. intros [<- <-]%lookup_singleton_Some. exists rec_k. split; [apply of_to_wire|done].
Qed.

Lemma mirror_k : LockMgr.mirror ldb_k.
Proof. split; [done|]. exists disk_k. split; [done|]. intros k s _. apply disk_k_parses. Qed.

Lemma views_k k : LockDb.view map_k k = LockDb.view ldb_k k.
Proof.
  unfold LockDb.view. case_match; [|done]. cbn.
  destruct (decide (k = "k"%string)) as [->|Hne].
  - unfold disk_k. rewrite lookup_singleton_eq. cbn. rewrite lookup_singleton_eq. cbn. by rewrite of_to_wire.
  - unfold disk_k. rewrite !lookup_singleton_ne by done. done.
Qed.

Lemma LockDb_refines_cas_witness :
  (exists d', LockDb.AcquireLock 100 ldb_k (mkRecordKey 3 "k") (mkRecord 9 "you" 1000 0) true = Some (RET_OK, d') /\
     LockDb.view d' "k" = Some (mkRecord 9 "you" 1000 0)) /\
  (exists d', LockDb.VersionSetString 100 map_k (mkRecordKey 4 "k") (mkRecord 9 "you" 1000 0) true
     = Some (RET_ERR_VERSION_NOT_EQUAL, d')).
Proof.
  split.
  - destruct (LockDb.LockDb_refines_cas 100 ldb_k (mkRecordKey 3 "k") (mkRecord 9 "you" 1000 0) true
                (proj2 mirror_k) eq_refl) as [(d' & H1 & _ & _ & H2) _].
    exists d'. rewrite H2, H1. split; reflexivity.
  - destruct (LockDb.LockDb_refines_cas 100 map_k (mkRecordKey 4 "k") (mkRecord 9 "you" 1000 0) true
                I eq_refl) as [_ (d' & H1 & _)].
    exists d'. rewrite H1. reflexivity.
Defined.

Definition map_abc : LockDb.t :=
  LockDb.mk ST_MAP {["a"%string := rec_k; "b"%string := rec_k; "c"%string := rec_k]} None None None true "b".

Lemma ForwardLoopKey_round_robin_witness :
  exists start, forall j, (j < 3)%nat ->
    LockDb.loop_keys map_abc 3 !! j = Some (["a"; "b"; "c"]%string !! ((start + j) mod 3)%nat).
Proof.
  destruct (LockDb.ForwardLoopKey_round_robin map_abc 3 eq_refl ltac:(by vm_compute)) as [start H].
  exists start. intros j Hj. apply (H j Hj).
Defined.

Lemma disk_checkpoint_roundtrip_witness :
  exists g', LockMgr.WriteDiskCheckpoint group_k 12345 = Some (RET_OK, g') /\
    LockMgr.ReadDiskCheckpoint g' = Some (RET_OK, 12345, g').
Proof.
  destruct (LockMgr.disk_checkpoint_roundtrip group_k 12345 mirror_k) as (g' & H1 & H2 & _); [ilia|done|].
  by exists g'.
Defined.

Lemma init_group_recovers_witness :
  exists g, LockMgr.init_group (fun _ => 700) "/mirror/" 1 = Some g /\
    LockDb.view (LockMgr.map g) "k" = Some rec_k /\ LockMgr.last_instance_id g = NoCheckpoint.
Proof.
  destruct (LockMgr.init_group_recovers (LDB := db_k) (fun _ => 700) "/mirror/" 1 disk_k eq_refl) as (g & H1 & H2 & _ & _ & _ & H3 & _ & H4).
  { intros k s _. apply disk_k_parses. }
  exists g. split; [exact H1|]. split; [rewrite H2; by vm_compute|]. rewrite H4, H3. by vm_compute.
Defined.

(** [you] asks for the lock that [me] holds, then [me] renews it. *)
Definition log_k (sync : bool) : list LockSM.entry :=
  [LockSM.mkEntry 4 (LockSM.acquire_args "k" 0 "you" 1000) 10 11 sync;
   LockSM.mkEntry 5 (LockSM.acquire_args "k" 3 "me" 1000) 20 21 sync].

Lemma log_k_ok sync : LockSM.log_ok (LockSM.plain (log_k sync)).
Proof.
  repeat apply Forall_cons_2; [..|apply Forall_nil_2]; cbn;
    (split; [ilia|]); (split; [done|by apply LockSM.acquire_args_user]).
Qed.

Lemma map_mirror_agree_witness :
  exists g1 g2,
    LockSM.run ST_MAP group_k (log_k false) = Some ([Some RET_ERR_VERSION_NOT_EQUAL; Some RET_OK], g1) /\
    LockSM.run ST_LEVELDB group_k (log_k true) = Some ([Some RET_ERR_VERSION_NOT_EQUAL; Some RET_OK], g2) /\
    forall k, LockDb.view (LockMgr.map g1) k = LockDb.view (LockMgr.ldb g2) k.
Proof.
  destruct (LockSM.map_mirror_agree group_k (log_k false) (log_k true) eq_refl mirror_k views_k (log_k_ok false) eq_refl)
    as (outs & g1 & g2 & H1 & H2 & H3).
  assert (E : outs = [Some RET_ERR_VERSION_NOT_EQUAL; Some RET_OK]).
  { replace outs with (default [] (fst <$> LockSM.run ST_MAP group_k (log_k false))) by by rewrite H1.
    by vm_compute. }
  subst outs. exists g1, g2. split; [exact H1|]. split; [exact H2|]. intros k. apply H3.
Defined.

(** [me] renews the lock at instance 5. *)
Definition renew : LockSM.entry := LockSM.mkEntry 5 (LockSM.acquire_args "k" 3 "me" 1000) 20 21 false.
Definition late : LockSM.entry := LockSM.mkEntry 6 (LockSM.acquire_args "k" 3 "you" 1000) 30 31 false.
Definition group_5 : LockMgr.GroupData :=
  default group_k (snd <$> LockSM.DoExecute 20 21 ST_MAP group_k 5 (LockSM.acquire_args "k" 3 "me" 1000) false).

Lemma renewed : LockSM.DoExecute 20 21 ST_MAP group_k 5 (LockSM.acquire_args "k" 3 "me" 1000) false
                = Some (Some RET_OK, group_5).
Proof. reflexivity. Qed.

Lemma late_ok : LockSM.log_ok (LockSM.plain [late]).
Proof.
  apply Forall_cons_2; [|apply Forall_nil_2]. split; [cbn; ilia|]. split; [done|by apply LockSM.acquire_args_user].
Qed.

Lemma late_names : Forall (fun e' => LockSM.names (LockSM.e_args e') "k" 5 = false) [late].
Proof. apply Forall_cons_2; [reflexivity|apply Forall_nil_2]. Qed.


(** [me] renews on the mirror; the server restarts from what is on disk. *)
Section restart.

Definition disk_5 : gmap string string := {["k"%string := to_wire (mkRecord 5 "me" 1000 0)]}.
#[local] Instance db_5 : LevelDB := mem_db disk_5.
#[local] Instance db_5_laws : LevelDBLaws db_5 := mem_db_laws disk_5.

Definition map_3 : LockDb.t (LDB := db_5) :=
  LockDb.mk ST_MAP {["k"%string := mkRecord 3 "me" 1000 500]} None None None true "".
Definition ldb_3 : LockDb.t (LDB := db_5) := LockDb.mk ST_LEVELDB ∅ None (Some (disk_k : @leveldb db_5)) None true "".
Definition group_3 : LockMgr.GroupData (LDB := db_5) := LockMgr.mkGroup map_3 ldb_3 3 3 3.
Definition group_3' : LockMgr.GroupData (LDB := db_5) :=
  default group_3 (snd <$> LockSM.run ST_LEVELDB group_3 [renew]).

Lemma mirror_3 : LockMgr.mirror ldb_3.
Proof. split; [done|]. exists disk_k. split; [done|]. intros k s _. apply disk_k_parses. Qed.

Lemma views_3 k : LockDb.view map_3 k = LockDb.view ldb_3 k.
Proof. exact (views_k k). Qed.

Lemma renew_log_ok : LockSM.log_ok (LockSM.plain [renew]).
Proof.
  apply Forall_cons_2; [|apply Forall_nil_2]. split; [cbn; ilia|]. split; [done|by apply LockSM.acquire_args_user].
Qed.

Lemma renewed_3 : LockSM.run ST_LEVELDB group_3 [renew] = Some ([Some RET_OK], group_3').
Proof. reflexivity. Qed.

Lemma disk_3' : LockDb.leveldb_ (LockMgr.ldb group_3') = Some (disk_5 : @leveldb db_5).
Proof. reflexivity. Qed.

Lemma restart_equivalent_witness :
  exists g2 outs2 g3 g4, LockMgr.init_group (fun _ => 700) "/mirror/" 1 = Some g2 /\
    LockSM.run ST_MAP g2 [late] = Some (outs2, g3) /\
    LockSM.run ST_MAP group_3 [renew; late] = Some (Some RET_OK :: outs2, g4) /\
    LockDb.view (LockMgr.map g3) "k" = LockDb.view (LockMgr.map g4) "k".
Proof.
  destruct (LockSM.restart_equivalent (LDB := db_5) group_3 [renew] [late] [Some RET_OK] group_3' disk_5 (fun _ => 700) "/mirror/" 1
     eq_refl mirror_3 views_3 renew_log_ok late_ok renewed_3 disk_3') as (g2 & outs2 & g3 & g4 & H1 & H2 & H3 & H4);
   [reflexivity|reflexivity|].
  exists g2, outs2, g3, g4. split; [exact H1|]. split; [exact H2|]. split; [exact H3|exact (H4 _)].
Defined.

End restart.

Lemma replay_not_idempotent_witness :
  exists g1 g2,
    LockDb.view (LockMgr.ldb g1) "k" = None /\ LockDb.view (LockMgr.ldb g2) "k" = Some (mkRecord 5 "you" 1000 0) /\
    LockSM.run ST_LEVELDB g1 [LockSM.mkEntry 5 (LockSM.acquire_args "k" 2 "you" 1000) 0 0 false;
                              LockSM.mkEntry 6 (LockSM.acquire_args "k" 3 "" 0) 0 0 false]
      = Some ([Some RET_OK; Some RET_ERR_VERSION_NOT_EQUAL], g2).
Proof.
  destruct (LockSM.replay_not_idempotent group_k "k" rec_k "you" 5 mirror_k eq_refl)
    as (g1 & g2 & _ & H1 & H2 & H3); [by vm_compute|ilia|ilia|done|cbn; lia|].
  exists g1, g2. split; [exact H1|]. split; [exact H3|exact H2].
Defined.

(** Every key falls into group 1, which this server is the master of. *)
Definition std_hash (s : string) : Z := 4294967296.
Definition groups : list LockMgr.GroupData := [group_k; group_k].

Lemma quiet_executes disk gs g gd :
  gs !! Z.to_nat g = Some gd ->
  Lock.propose_executes (LP := quiet_propose disk) gs g.
Proof.
  intros Hg buf id res gs'. cbn [Propose quiet_propose].
  destruct (of_wire buf) as [args|] eqn:Ew; [|intros [=]]. rewrite Hg.
  destruct (LockSM.DoExecute (LDB := mem_db disk) 0 0 ST_MAP gd 9 args false) as [[out gd']|] eqn:Ed; [|intros [=]].
  intros [= <- <- <-]. exists args, gd, [], [], gd, 0, 0, out, gd'.
  split_and!; try done; [by apply Forall_nil_2|]. apply list_lookup_insert_eq. by eapply lookup_lt_Some.
Qed.

Lemma quiet_is_quiet disk : CleanThread.propose_quiet (LP := quiet_propose disk).
Proof.
  intros gs g buf pr id res gs'. cbn [Propose quiet_propose].
  destruct (of_wire buf) as [args|] eqn:Ew; [|intros [= <- <- <- <-]; by left].
  destruct (gs !! Z.to_nat g) as [gd|] eqn:Hg; [|intros [= <- <- <- <-]; by left].
  destruct (LockSM.DoExecute (LDB := mem_db disk) 0 0 ST_MAP gd 9 args false) as [[out gd']|] eqn:Ed;
    [|intros [= <- <- <- <-]; by left].
  intros [= <- <- <- <-]. right. by exists args, gd, 0, 0, out, gd'.
Qed.

Definition acquire_req (lease : Z) : AcquireLockRequest :=
  mkAcquireLockRequest 1000 1 (mkLockInfo "k" 3 "you" lease) no_addr.

Definition acquired : list LockMgr.GroupData :=
  match Lock.AcquireLock (LP := quiet_propose disk_k) std_hash lock_opt 1000 groups (acquire_req 1000) with
  | Some (_, _, gs') => gs'
  | None => groups
  end.

Lemma acquired_eq : Lock.AcquireLock (LP := quiet_propose disk_k) std_hash lock_opt 1000 groups (acquire_req 1000)
                    = Some (RET_OK, None, acquired).
Proof. reflexivity. Qed.

Lemma AcquireLock_grants_witness :
  exists g' id, acquired !! 1%nat = Some g' /\
    LockDb.view (LockMgr.map g') "k" = Some (mkRecord id "you" 1000 0).
Proof.
  destruct (Lock.AcquireLock_grants (LP := quiet_propose disk_k) std_hash lock_opt 1000 groups (acquire_req 1000)
    RET_OK None acquired group_k wire_lock_law (quiet_executes disk_k groups 1 group_k eq_refl) eq_refl eq_refl eq_refl
    ltac:(done) acquired_eq) as [H _].
  destruct (H eq_refl) as (_ & _ & g' & id & H1 & H2). exists g', id. split; [exact H1|exact H2].
Defined.

(** The owner's release times out. *)
Lemma release_without_proposal_witness :
  exists g' gs', Lock.AcquireLock (LP := timeout_propose disk_k) std_hash lock_opt 1000 groups
      (mkAcquireLockRequest 1000 1 (mkLockInfo "k" 3 "me" 0) no_addr) = Some (RET_OK, None, gs') /\
    gs' !! 1%nat = Some g' /\
    (exists g1, LockSM.DoExecute 1 2 ST_MAP g' 9 (LockSM.acquire_args "k" 0 "you" 1000) false = Some (Some RET_OK, g1)).
Proof.
  destruct (Lock.release_without_proposal (LP := timeout_propose disk_k) std_hash lock_opt 1000 groups
    (mkAcquireLockRequest 1000 1 (mkLockInfo "k" 3 "me" 0) no_addr) group_k rec_k 14 0 RET_OK "you" 1000 9 1 2)
    as (g' & gs' & H1 & H2 & H3 & _); [reflexivity..|done|reflexivity|done|].
  exists g', gs'. split; [exact H1|]. split; [exact H2|exact H3].
Defined.


(** The map and then the mirror execute one renewal. *)
Definition group_6 : LockMgr.GroupData :=
  default group_5 (snd <$> LockSM.DoExecute 20 21 ST_LEVELDB group_5 5 (LockSM.acquire_args "k" 3 "me" 1000) false).

Lemma mirrored : LockSM.DoExecute 20 21 ST_LEVELDB group_5 5 (LockSM.acquire_args "k" 3 "me" 1000) false
                = Some (Some RET_OK, group_6).
Proof. reflexivity. Qed.

Lemma renew_ok : LockSM.log_ok (LockSM.plain [renew]).
Proof.
  apply Forall_cons_2; [|apply Forall_nil_2]. split; [cbn; ilia|]. split; [done|by apply LockSM.acquire_args_user].
Qed.

