(* ===== verification/FileExamples.v ===== *)
(** * Worked examples: directories and checkpoints

    A file system in memory, a finite map from lists of names to nodes, that
    meets [FileSystemLaws], and one whose disk is full. *)

From S2P Require Import Prelude RetCode TopicConfig StoreConfig FileUtil FileTree Node StoreMeta SyncCtrl BaseMgr StoreSM.
From S2P Require Import LockDb LockMgr LockSM LockCheckpoint LockConfig LockService Startup Deployment LockExamples.

#[local] Open Scope Z_scope.

(** ** Paths *)

(** The parts of a path between the slashes. *)
Fixpoint split (s : string) : list string :=
  match s with
  | EmptyString => [""%string]
  | String c s =>
      if Ascii.eqb c "/" then ""%string :: split s else
      match split s with
      | h :: t => String c h :: t
      | [] => [String c ""]
      end
  end.

Definition names_in (s : string) : list string := List.filter (fun n => negb (bool_decide (n = ""%string)) && negb (bool_decide (n = "."%string))) (split s).

Lemma split_slash a b : split (a +:+ String "/" b) = split a ++ split b.
Proof.
  induction a as [|c a IH]; [done|]. change (String c a +:+ String "/" b) with (String c (a +:+ String "/" b)).
  cbn [split]. rewrite IH. destruct (Ascii.eqb c "/"); [done|].
  destruct a as [|d a]; [done|]. destruct (split (String d a)) eqn:E; [|done].
  cbn [split] in E. destruct (Ascii.eqb d "/"); [done|]. by destruct (split a).
Qed.

Lemma split_name n : has_slash n = false -> split n = [n].
Proof.
  induction n as [|c n IH]; [done|]. cbn [has_slash split]. intros [-> H]%orb_false_iff. by rewrite IH.
Qed.

Lemma names_in_join p n : good_name n = true -> names_in (join p n) = names_in p ++ [n].
Proof.
  intros Hn. unfold names_in, join. change ("/" +:+ n)%string with (String "/" n).
  rewrite split_slash, List.filter_app, (split_name n) by (by apply good_no_slash). f_equal. simpl.
  unfold good_name in Hn. simpl_bool. by rewrite !bool_decide_eq_false_2.
Qed.

(** ** A file system in memory *)

Abbreviation disk := (gmap (list string) inode).

Definition path_of (p : string) : option (list string) := if bool_decide (p = ""%string) then None else Some (names_in p).

Definition child_of (x : list string) (kv : list string * inode) : option dirent :=
  n ← last kv.1;
  if bool_decide (kv.1 = x ++ [n]) && good_name n then Some (mkDirent n (kind_of kv.2)) else None.

Definition dir_entries (m : disk) (x : list string) : list dirent :=
  mkDirent "." DT_DIR :: mkDirent ".." DT_DIR :: omap (child_of x) (map_to_list m).

Definition at_path {A : Type} (p : string) (m : disk) (missing : A) (f : list string -> option inode -> A) : A :=
  match path_of p with None => missing | Some x => f x (m !! x) end.

Definition new_at (x : list string) (v : inode) (m : disk) : option disk :=
  match m !! removelast x with Some NDir => Some (<[x := v]> m) | _ => None end.

#[export] Instance mem_fs : FileSystem disk := {|
  opendir p m := at_path p m (inl 2) (fun x v =>
    match v with None => inl 2 | Some NDir => inr (dir_entries m x) | Some _ => inl 20 end);
  closedir _ _ := 0;
  unlink p m := at_path p m (2, m) (fun x v =>
    match v with None => (2, m) | Some NDir => (21, m) | Some _ => (0, delete x m) end);
  rmdir p m := at_path p m (2, m) (fun x v =>
    match v with
    | None => (2, m)
    | Some NDir => if bool_decide (map_Forall (fun k _ => removelast k = x -> k = []) m) then (0, delete x m) else (39, m)
    | Some _ => (20, m)
    end);
  mkdir p _ m := at_path p m (2, m) (fun x v =>
    match v with Some _ => (17, m) | None => match new_at x NDir m with Some m' => (0, m') | None => (2, m) end end);
  stat p m := at_path p m (inl 2) (fun _ v => match v with Some _ => inr 493 | None => inl 2 end);
  access p m := at_path p m false (fun _ v => bool_decide (is_Some v));
  open_in p m := at_path p m false (fun _ v => match v with Some (NFile _) => true | _ => false end);
  rdbuf p m := at_path p m ""%string (fun _ v => match v with Some (NFile c) => c | _ => ""%string end);
  open_out p m := at_path p m (false, m) (fun x v =>
    match v with
    | Some (NFile _) => (true, <[x := NFile ""]> m)
    | Some _ => (false, m)
    | None => match new_at x (NFile "") m with Some m' => (true, m') | None => (false, m) end
    end);
  put p s m := at_path p m (true, m) (fun x v => match v with Some (NFile _) => (false, <[x := NFile s]> m) | _ => (true, m) end);
|}.

Lemma child_of_Some x kv e :
  child_of x kv = Some e -> kv.1 = x ++ [d_name e] /\ good_name (d_name e) = true /\ d_kind e = kind_of kv.2.
Proof.
  unfold child_of. destruct (last kv.1) as [n|]; [|done]. simpl. case_match eqn:E; [|done]. intros [= <-]. by simpl_bool.
Qed.

Lemma child_of_entry x n v : good_name n = true -> child_of x (x ++ [n], v) = Some (mkDirent n (kind_of v)).
Proof. intros Hn. unfold child_of. simpl. rewrite last_snoc. simpl. by rewrite bool_decide_eq_true_2, Hn. Qed.

Lemma child_names_NoDup x (l : list (list string * inode)) : NoDup l.*1 -> NoDup (d_name <$> omap (child_of x) l).
Proof.
  induction l as [|kv l IH]; simpl; [constructor|]. intros [Hk Hl]%NoDup_cons.
  destruct (child_of x kv) as [e|] eqn:E; [|auto]. apply child_of_Some in E as (E & _). simpl. constructor; [|auto].
  intros (e' & En & (kv' & Hin & E'%child_of_Some)%list_elem_of_omap)%list_elem_of_fmap. destruct E' as (E' & _).
  apply Hk. apply list_elem_of_fmap. exists kv'. split; [|done]. congruence.
Qed.

Lemma dir_entries_listing (m : disk) x : listing (fun n => m !! (x ++ [n])) (dir_entries m x).
Proof.
  split.
  - intros e. unfold dir_entries. rewrite !elem_of_cons. intros [->|[->|([k v] & Hin & (E & Hg & Hk)%child_of_Some)%list_elem_of_omap]].
    + left. auto.
    + left. auto.
    + right. apply elem_of_map_to_list in Hin. simpl in *. subst k. split; [done|].
      transitivity (kind_of <$> Some v); [f_equal; exact Hin|by rewrite Hk].
  - intros n v Hg Hn. unfold dir_entries. do 2 right. apply list_elem_of_omap. exists (x ++ [n], v).
    split; [by apply elem_of_map_to_list|by apply child_of_entry].
  - unfold dir_entries. rewrite !fmap_cons.
    assert (Hdot : forall s, good_name s = false -> s ∉ d_name <$> omap (child_of x) (map_to_list m)).
    { intros s Hs (e & -> & (kv & _ & (_ & Hg & _)%child_of_Some)%list_elem_of_omap)%list_elem_of_fmap. congruence. }
    constructor; [rewrite not_elem_of_cons; split; [done|by apply Hdot]|].
    constructor; [by apply Hdot|]. apply child_names_NoDup, NoDup_fst_map_to_list.
Qed.

Lemma at_path_eq {A : Type} (p : string) (m : disk) (x : list string) (d : A) f : path_of p = Some x -> at_path p m d f = f x (m !! x).
Proof. unfold at_path. by intros ->. Qed.

Lemma set_at_insert (m : disk) x v : set_at (fun y => m !! y) (fun y => <[x := v]> m !! y) x (Some v).
Proof. intros y. case_decide as E; [subst; by rewrite lookup_insert_eq|]. by rewrite lookup_insert_ne. Qed.

Lemma set_at_delete (m : disk) x : set_at (fun y => m !! y) (fun y => delete x m !! y) x None.
Proof. intros y. case_decide as E; [subst; by rewrite lookup_delete_eq|]. by rewrite lookup_delete_ne. Qed.

Lemma new_at_snoc (m : disk) d n v : m !! d = Some NDir -> new_at (d ++ [n]) v m = Some (<[d ++ [n] := v]> m).
Proof. intros Hd. unfold new_at. by rewrite removelast_last, Hd. Qed.

#[export] Instance mem_fs_laws : FileSystemLaws disk.
Proof.
  refine {| resolve := path_of; lookup_path := fun m x => m !! x |}.
  - intros p x n Hp Hn. unfold path_of in *. case_match eqn:E; [done|]. injection Hp as <-.
    rewrite bool_decide_eq_false_2 by apply join_nonempty. f_equal. by apply names_in_join.
  - intros p x m Hp Hx. simpl. rewrite (at_path_eq p m x) by done. rewrite Hx.
    eexists. split; [done|]. apply dir_entries_listing.
  - done.
  - intros p x c m Hp Hx. simpl. rewrite (at_path_eq p m x) by done. rewrite Hx. split; [done|]. apply set_at_delete.
  - intros p x m Hp Hx Hc. simpl. rewrite (at_path_eq p m x) by done. rewrite Hx, bool_decide_eq_true_2.
    + split; [done|]. apply set_at_delete.
    + intros k v Hk <-. destruct k as [|n k _] using rev_ind; [done|]. rewrite removelast_last in Hc. congruence.
  - intros p d n mode m Hp Hd Hn. simpl. rewrite (at_path_eq p m (d ++ [n])) by done. rewrite Hn, (new_at_snoc m d n NDir Hd).
    split; [done|]. apply set_at_insert.
  - intros p x m Hp [v Hv]. simpl. rewrite (at_path_eq p m x) by done. rewrite Hv. eauto.
  - intros p x c m Hp Hx. simpl. rewrite !(at_path_eq p m x) by done. by rewrite Hx.
  - intros p d n m Hp Hd Hn. simpl. rewrite (at_path_eq p m (d ++ [n])) by done. rewrite Hn, (new_at_snoc m d n (NFile "") Hd).
    split; [done|]. apply set_at_insert.
  - intros p x s m Hp Hx. simpl. rewrite (at_path_eq p m x) by done. rewrite Hx. split; [done|]. apply set_at_insert.
Defined.

(** ** Checking concrete disks *)

Definition is_treeb (m : disk) : bool :=
  forallb (fun kv => match last kv.1 with
                     | None => true
                     | Some n => bool_decide (m !! removelast kv.1 = Some NDir) && good_name n
                     end) (map_to_list m).

Lemma is_treeb_ok m : is_treeb m = true -> is_tree (lookup_path m).
Proof.
  intros Hm x n [v Hv]. change (m !! (x ++ [n]) = Some v) in Hv. apply elem_of_map_to_list in Hv. unfold is_treeb in Hm. rewrite forallb_forall in Hm.
  apply list_elem_of_In, Hm in Hv. simpl in Hv. rewrite last_snoc, removelast_last in Hv.
  simpl_bool. by split.
Qed.

(** The part of [k] after [x]. *)
Fixpoint strip (x k : list string) : option (list string) :=
  match x, k with
  | [], _ => Some k
  | a :: x, b :: k => if bool_decide (a = b) then strip x k else None
  | _, [] => None
  end.

Lemma strip_app x q : strip x (x ++ q) = Some q.
Proof. induction x as [|a x IH]; [done|]. simpl. by rewrite bool_decide_eq_true_2. Qed.

(** The entries below [x]. *)
Definition entries_below (m : disk) (x : list string) : list (list string * inode) :=
  omap (fun kv => q ← strip x kv.1; Some (q, kv.2)) (map_to_list m).

Lemma entries_below_spec m x q v : below m x q = Some v -> (q, v) ∈ entries_below m x.
Proof.
  intros Hq. apply list_elem_of_omap. exists (x ++ q, v). split; [by apply elem_of_map_to_list|].
  simpl. by rewrite strip_app.
Qed.

Definition directoryb (fuel : nat) (m : disk) (x : list string) : bool :=
  is_treeb m && bool_decide (m !! x = Some NDir) &&
  forallb (fun qv => (length qv.1 <? fuel)%nat) (entries_below m x).

Lemma directoryb_ok fuel m p x :
  path_of p = Some x -> directoryb fuel m x = true -> LockCheckpoint.directory fuel m p x.
Proof.
  unfold directoryb. intros Hp [[H1 H2]%andb_true_iff H3]%andb_true_iff.
  split; [done|by apply is_treeb_ok|by simpl_bool|].
  intros q [v Hv]. rewrite forallb_forall in H3. apply Nat.ltb_lt. refine (H3 (q, v) _). by apply list_elem_of_In, entries_below_spec.
Qed.

Definition plainb (m : disk) (x : list string) : bool :=
  forallb (fun qv => negb (bool_decide (qv.2 = NOther))) (entries_below m x).

Lemma plainb_ok m x : plainb m x = true -> forall q, below m x q <> Some NOther.
Proof.
  intros H q Hq. unfold plainb in H. rewrite forallb_forall in H.
  apply entries_below_spec, list_elem_of_In, H in Hq.
  simpl in Hq. by simpl_bool.
Qed.

Definition receivedb (sender : disk) (x file_list : list string) (receiver : disk) (y : list string) : bool :=
  forallb (fun qv => bool_decide (LockCheckpoint.files receiver y qv.1 =
      if decide (relative qv.1 ∈ file_list) then LockCheckpoint.files sender x qv.1 else None))
    (entries_below sender x ++ entries_below receiver y).

Lemma receivedb_ok sender x file_list receiver y :
  receivedb sender x file_list receiver y = true -> LockCheckpoint.received sender x file_list receiver y.
Proof.
  intros H q. unfold receivedb in H. rewrite forallb_forall in H.
  assert (Hin : forall v, (q, v) ∈ entries_below sender x ++ entries_below receiver y ->
    LockCheckpoint.files receiver y q = if decide (relative q ∈ file_list) then LockCheckpoint.files sender x q else None).
  { intros v Hv%list_elem_of_In%H. by simpl_bool. }
  destruct (below sender x q) as [v|] eqn:Es; [apply (Hin v), elem_of_app; left; by apply entries_below_spec|].
  destruct (below receiver y q) as [v|] eqn:Er; [apply (Hin v), elem_of_app; right; by apply entries_below_spec|].
  unfold LockCheckpoint.files. rewrite Es, Er. by case_decide.
Qed.

(** ** A checkpoint from server a to server b *)

Definition disk_a : disk := list_to_map
  [([], NDir); (["a"], NDir); (["a"; "mirror"], NDir); (["a"; "mirror"; "1"], NDir);
   (["a"; "mirror"; "1"; "CURRENT"], NFile "MANIFEST-000005"); (["a"; "mirror"; "1"; "000007.log"], NFile "records");
   (["a"; "mirror"; "1"; "lost"], NDir); (["a"; "mirror"; "1"; "lost"; "000003.ldb"], NFile "old")]%string.

(** Server b has received the files and has an old mirror. *)
Definition disk_b : disk := list_to_map
  [([], NDir); (["b"], NDir); (["b"; "mirror"], NDir); (["b"; "mirror"; "1"], NDir);
   (["b"; "mirror"; "1"; "CURRENT"], NFile "MANIFEST-000001"); (["b"; "mirror"; "1"; "000002.log"], NFile "stale");
   (["b"; "mirror"; "1"; "lost"], NDir); (["b"; "mirror"; "2"], NDir);
   (["b"; "tmp"], NDir); (["b"; "tmp"; "CURRENT"], NFile "MANIFEST-000005");
   (["b"; "tmp"; "000007.log"], NFile "records"); (["b"; "tmp"; "lost"], NDir);
   (["b"; "tmp"; "lost"; "000003.ldb"], NFile "old")]%string.

Definition mirror_a : list string := ["a"; "mirror"; "1"]%string.
Definition mirror_b : list string := ["b"; "mirror"; "1"]%string.
Definition tmp_b : list string := ["b"; "tmp"]%string.

Definition file_list_a : list string :=
  default [] (snd <$> LockCheckpoint.GetCheckpointState 5 "/a/mirror/" 1 disk_a).

Example file_list_a_has : elements (list_to_set file_list_a : gset string) =
  elements (list_to_set ["CURRENT"; "000007.log"; "lost/000003.ldb"]%string : gset string).
Proof. by vm_compute. Qed.

(** The files that hold the database of [restart_equivalent_witness]. *)
Definition db_of (f : list string -> option string) : option (@leveldb db_5) :=
  if bool_decide (f ["CURRENT"]%string = Some "MANIFEST-000005"%string) &&
     bool_decide (f ["000007.log"]%string = Some "records"%string)
  then Some (disk_5 : @leveldb db_5) else None.

Lemma db_of_ext f h : (forall q, f q = h q) -> db_of f = db_of h.
Proof. intros E. unfold db_of. by rewrite !E. Qed.

Definition groups_b : list (LockMgr.GroupData (LDB := db_5)) := [group_3; group_3; group_3].


(** ** A full disk *)

(** Files can be created, and nothing can be written to them. *)
Definition full_fs : FileSystem disk := {|
  opendir := @opendir disk mem_fs; closedir := @closedir disk mem_fs; unlink := @unlink disk mem_fs;
  rmdir := @rmdir disk mem_fs; mkdir := @mkdir disk mem_fs; stat := @stat disk mem_fs; access := @access disk mem_fs;
  open_in := @open_in disk mem_fs; rdbuf := @rdbuf disk mem_fs; open_out := @open_out disk mem_fs;
  put _ _ m := (true, m);
|}.

(** On a full disk [LoadCheckpointState] returns 0, and the mirror it leaves
    has only empty files. *)
Lemma full_disk_unreported :
  (fun r => (r.1.1, LockCheckpoint.files r.2 mirror_b ["CURRENT"]%string, LockCheckpoint.files r.2 mirror_b ["000007.log"]%string)) <$>
    LockCheckpoint.LoadCheckpointState (LDB := db_5) (FS := full_fs) 5 "/b/mirror/" groups_b 1 "/b/tmp" file_list_a disk_b
  = Some (0, Some ""%string, Some ""%string).
Proof. by vm_compute. Qed.

(** ** Two servers of a store *)

Definition data_disk : disk := list_to_map [([], NDir); (["data"], NDir)]%string.

(** Fresh files, which are mapped without an error. *)
Definition fresh : StoreStart.mapped := StoreStart.mkMapped [] (true, true, true) (fun _ => None) (fun _ => (true, true, true)).

Definition start_opt : StartOption := mkStartOption "test_topic" "/data" 3.

Definition other_opt : StoreOption := mkStoreOption (mkAddr "127.0.0.1" 5200 5201) 2 2 20.

Definition start (opt : StoreOption) : RetCode * option (Store * node_started) * disk :=
  StoreStart.Init (fun _ => 0) (fun o => o) opt start_opt fresh data_disk.

Definition started (opt : StoreOption) : Store * node_started :=
  default (mkStoreState [] [] [], mkStarted 0 (mkOptions [] 0 [] ("", 0) false "" false 0 false 0) [])%string (start opt).1.2.

Lemma start_ok opt : opt = store_opt \/ opt = other_opt ->
  start opt = (RET_OK, Some (started opt), (start opt).2).
Proof.
  intros Ho. assert (H : (start opt).1.1 = RET_OK /\ is_Some (start opt).1.2).
  { by destruct Ho as [-> | ->]; (split; [vm_compute; reflexivity|apply (bool_decide_unpack _); vm_compute; exact I]). }
  destruct H as [H1 [x H2]]. unfold started. destruct (start opt) as [[ret r] d]. simpl in *. by subst.
Qed.

Lemma store_members_agree_witness :
  vecNodeInfoList (ns_options (started store_opt).2) = [("127.0.0.1", 5101); ("127.0.0.1", 5201)]%string /\
  vecNodeInfoList (ns_options (started other_opt).2) = [("127.0.0.1", 5101); ("127.0.0.1", 5201)]%string.
Proof.
  assert (Hr : StoreConfig.Rebuild true stores = Some (RET_OK, sample_store)) by (vm_compute; reflexivity).
  destruct (store_members_agree (fun _ => 0) (fun _ => 0) store_opt other_opt start_opt start_opt fresh fresh data_disk data_disk
    (start store_opt).2 (start other_opt).2 (started store_opt).1 (started other_opt).1 (started store_opt).2 (started other_opt).2
    sample_store 1 (mkStore 1 [mkAddr "127.0.0.1" 5100 5101; mkAddr "127.0.0.1" 5200 5201] [] 100)) as (H1 & H2 & _).
  - rewrite <-surjective_pairing. apply (start_ok store_opt). by left.
  - rewrite <-surjective_pairing. apply (start_ok other_opt). by right.
  - vm_compute; reflexivity.
  - vm_compute; reflexivity.
  - by eapply StoreConfig.Rebuild_wf.
  - vm_compute; reflexivity.
  - by left.
  - right; by left.
  - reflexivity.
  - split; [rewrite H1|rewrite H2]; reflexivity.
Defined.
