(* ===== verification/ConsumerExamples.v ===== *)
(** * Worked examples: consumers and locks

    The theorems about consumers applied to two consumers of the sample topic,
    whose groups use dynamic weights and locks.  The worlds are clocks. *)

From S2P Require Import Prelude Keys HashUtil RetCode TopicConfig StoreConfig LockConfig SchedulerConfig.
From S2P Require Import MasterClient LockDb LockMgr LockSM ConsumerConfig HeartBeatLock HeartBeatSync QueueLock Deployment.

#[local] Open Scope Z_scope.

Ltac eval_done := vm_compute; repeat split; congruence.

(** ** The deployment *)

#[local] Instance clock : ClientEnv Z.
Proof. refine {| time_now w := (w, w + 1); FastRand w := (Z.abs w, w + 1) |}. intros w. simpl. lia. Defined.

Definition consumer_topic : TopicConfig.t :=
  let p := (TopicConfig.ReadConfig).2 in
  match TopicConfig.Rebuild true
    (TopicConfig.mkTopicConfigProto (TopicConfig.topic p) (TopicConfig.queue_infos p) (TopicConfig.pubs p)
       [mkConsumerGroup 1 1 0; mkConsumerGroup 2 1 0] [] [] []) with
  | Some (_, c) => c
  | None => sample_topic
  end.

#[local] Instance consumer_config : GlobalConfig.
Proof.
  refine {| GetTopicConfigByTopicID id := if id =? 1000 then (RET_OK, Some consumer_topic) else (RET_ERR_RANGE_TOPIC, None);
            GetStoreConfig id := if id =? 1000 then (RET_OK, Some sample_store) else (RET_ERR_RANGE_TOPIC, None);
            GetLastModTime _ := 1 |};
    intros id; by destruct (id =? 1000).
Defined.

Definition sample_consumers : ConsumerConfig.t :=
  match ConsumerConfig.Rebuild true (ConsumerConfig.ReadConfig).2 with Some (_, c) => c | None => ∅ end.

#[local] Instance consumer_directory : ConsumerDirectory.
Proof.
  refine {| GetConsumerConfig id := if id =? 1000 then (RET_OK, Some sample_consumers) else (RET_ERR_RANGE_TOPIC, None) |};
    intros id; by destruct (id =? 1000).
Defined.

Definition host (port : Z) : Addr := mkAddr "127.0.0.1" port 0.

(** The scheduler answers with these weights. *)
Definition weights : list AddrScale := [mkAddrScale (host 8001) 60; mkAddrScale (host 8002) 30].
Definition scheduler (_ : GetAddrScaleRequest) (w : Z) : RetCode * list AddrScale * Z := (RET_OK, weights, w).

Definition crc32 (h : Z) (l : list Z) : Z := foldl (fun h b => (h * 31 + b) mod 4294967296) h l.

Definition opt1 : ConsumerOption := mkConsumerOption "127.0.0.1" 8001.
Definition opt2 : ConsumerOption := mkConsumerOption "127.0.0.1" 8002.

Definition fresh : HeartBeatLock.t := HeartBeatLock.Init 60 None.

Definition synced (opt : ConsumerOption) : HeartBeatLock.t :=
  match HeartBeatSync.Sync scheduler crc32 1000 opt fresh 50 0 with Some (_, h, _) => h | None => fresh end.

Definition group1 : list Queue_t :=
  match HeartBeatSync.GetAllQueues 1000 1 with Some (_, l) => l | None => [] end.

#[local] Instance Queue_t_eq_dec : EqDecision Queue_t.
Proof. solve_decision. Defined.

Definition queue7 : Queue_t := mkQueue 0 1 1 1 7.

Lemma int_ids_1000 : HeartBeatSync.int_ids 1000.
Proof.
  split; intros c Hc; apply (f_equal snd), (inj Some) in Hc; subst c.
  - assert (E : (StoreConfig.GetAllStoreID sample_store ∅).2 = {[1]}) by by vm_compute. rewrite E.
    intros x ->%elem_of_singleton. eval_done.
  - apply (TopicConfig.Rebuild_tables true (TopicConfig.proto consumer_topic) RET_OK). by vm_compute.
Qed.

(** The memory after a [Sync], and what it started from. *)
Lemma synced_groups opt : opt = opt1 \/ opt = opt2 ->
  set_Forall is_i32 (dom (HeartBeatSync.scales_of scheduler 1000 opt fresh 50 0)).
Proof.
  intros Ho. assert (E : dom (HeartBeatSync.scales_of scheduler 1000 opt fresh 50 0) = {[1; 2]}) by
    (destruct Ho as [-> | ->]; by vm_compute).
  rewrite E. intros x. rewrite elem_of_union, !elem_of_singleton. intros [-> | ->]; eval_done.
Qed.

(** ** The queues of consumers *)

Lemma GetQueueByAddrScale_consistent_witness :
  6%nat ∈ (Consumer.GetQueueByAddrScale opt1 group1 weights).2 /\
  6%nat ∈ (Consumer.GetQueueByAddrScale opt1 group1
    (filter (fun s => EncodeAddr (as_addr s) <> EncodeAddr (host 8002)) weights)).2.
Proof.
  assert (H : 6%nat ∈ (Consumer.GetQueueByAddrScale opt1 group1 weights).2).
  { apply (bool_decide_unpack _). by vm_compute. }
  split; [exact H|].
  pose proof (Consumer.GetQueueByAddrScale_consistent group1 weights (EncodeAddr (host 8002)) opt1 6) as Hc.
  assert (Hne : Consumer.local_encoded_addr opt1 <> EncodeAddr (host 8002)) by eval_done.
  specialize (Hc Hne). destruct Hc as [Hc _]. exact (Hc H).
Defined.

Lemma Sync_handles_once_witness :
  exists s, s ∈ weights /\ 0 < as_scale s /\
    (HeartBeatLock.key queue7 ∈ HeartBeatLock.held 1 (HeartBeatLock.queues (synced opt1)) <->
     Consumer.local_encoded_addr opt1 = EncodeAddr (as_addr s)) /\
    (HeartBeatLock.key queue7 ∈ HeartBeatLock.held 1 (HeartBeatLock.queues (synced opt2)) <->
     Consumer.local_encoded_addr opt2 = EncodeAddr (as_addr s)).
Proof.
  destruct (HeartBeatSync.Sync_handles_once scheduler crc32 1000 1 weights group1 queue7) as (s & Hs & Hw & H).
  - exact int_ids_1000.
  - by vm_compute.
  - apply (bool_decide_unpack _). by vm_compute.
  - exists (mkAddrScale (host 8001) 60). split; [by left|done].
  - exists s. split; [exact Hs|]. split; [exact Hw|]. split.
    + apply (H opt1 fresh 50 0 (synced opt1) 0); [apply synced_groups; by left|by vm_compute|split; by vm_compute|].
      apply Nat.leb_le. by vm_compute.
    + apply (H opt2 fresh 50 0 (synced opt2) 0); [apply synced_groups; by right|by vm_compute|split; by vm_compute|].
      apply Nat.leb_le. by vm_compute.
Defined.

Lemma Sync_stable_witness :
  exists h'', HeartBeatSync.Sync scheduler crc32 1000 opt1 (synced opt1) 70 5 = Some (RET_OK, h'', 5) /\
    HeartBeatLock.queues h'' = HeartBeatLock.queues (synced opt1).
Proof.
  apply (HeartBeatSync.Sync_stable scheduler crc32 1000 opt1 fresh 50 0 (synced opt1) 0 70 5 5);
    [exact int_ids_1000|apply synced_groups; by left|by vm_compute|by vm_compute].
Defined.

(** Process 0 keeps its queue when the group is spread again. *)
Definition spread : HeartBeatLock.t :=
  HeartBeatLock.set_queues fresh [mkQueue LOCK_ITEM_MAGIC 1 1 1 7; mkQueue LOCK_ITEM_MAGIC 2 1 1 3; zero_queue].

Lemma DistubePendingQueues_keeps_witness :
  HeartBeatLock.queues (HeartBeatLock.DistubePendingQueues spread {[1 := [mkQueue 0 1 1 1 9; queue7]]}) !! 0%nat =
  Some (mkQueue LOCK_ITEM_MAGIC 1 1 1 7).
Proof.
  apply HeartBeatLock.DistubePendingQueues_keeps; [|done|done|].
  - intros k P [<- <-]%lookup_singleton_Some. split; [eval_done|by repeat constructor].
  - intros k P [<- <-]%lookup_singleton_Some _. split; [|apply (bool_decide_unpack _); by vm_compute].
    apply (bool_decide_unpack _). by vm_compute.
Defined.

(** ** Calling a master *)

(** The server on port 5200 is the master, the others redirect to it. *)
Definition master : Addr := mkAddr "127.0.0.1" 5200 5201.
Definition redirecting (a resp : Addr) (w : Z) : RetCode * Addr * Z :=
  if bool_decide (a = master) then (RET_OK, resp, w) else (RET_ERR_NOT_MASTER, master, w).

Lemma ClientCall_finds_master_witness :
  (MasterClient.ClientCall (fun a => a) redirecting (store_route_key 1000 1 7)
     (RET_OK, [mkAddr "127.0.0.1" 5100 5101; master]) no_addr ∅ 8).1.1.1 = RET_OK.
Proof.
  apply (MasterClient.ClientCall_finds_master (fun a => a) redirecting master).
  - intros resp w. unfold redirecting. by rewrite bool_decide_eq_true_2.
  - intros a resp w Ha. unfold redirecting. rewrite bool_decide_eq_false_2 by done. right; right; right. by split.
  - right. left.
Defined.

Lemma ClientCall_trace_witness :
  exists l, MasterClient.trace redirecting 8 l 13 /\ (length l <= 3)%nat /\
    MasterClient.outcome "k" RET_OK
      (MasterClient.ClientCall (fun a => a) redirecting "k"
         (RET_OK, [mkAddr "127.0.0.1" 5100 5101; master]) no_addr ∅ 8).1.2 l.
Proof.
  apply (MasterClient.ClientCall_trace (fun a => a) redirecting "k"
    (RET_OK, [mkAddr "127.0.0.1" 5100 5101; master]) no_addr ∅ 8 RET_OK master).
  by vm_compute.
Defined.

(** ** The lock of a queue *)

(** A lock server that shows [info] and grants every lock. *)
Definition granting (info : LockInfo) : LockRpc Z := {|
  rpc_GetLockInfo _ _ _ w := (RET_OK, mkGetLockInfoResponse info no_addr, w);
  rpc_AcquireLock _ _ _ _ a w := (RET_OK, a, w);
  GetSteadyClockMS w := (w, w);
|}.

Definition my_queue : Queue_t := mkQueue LOCK_ITEM_MAGIC 1 1 1 7.

Definition locked_now : RetCode * QueueLock.t * Z :=
  QueueLock.DoLock (LR := granting no_lock_info) 1000 opt1 0 my_queue QueueLock.Init 500.

Lemma DoLock_ok_acquired_witness :
  exists lock_id lease cur info ret st1 w1 w2,
    GetSteadyClockMS (LockRpc := granting no_lock_info) 500 = (cur, w1) /\
    QueueLock.call_GetLockInfo (LR := granting no_lock_info) 1000 lock_id
      (QueueLock.lock_key_of 1000 my_queue) QueueLock.Init w1 = (ret, info, st1, w2) /\
    QueueLock.call_AcquireLock (LR := granting no_lock_info) 1000 lock_id
      (mkLockInfo (QueueLock.lock_key_of 1000 my_queue) (li_version info) (QueueLock.client_id_of opt1 0) lease)
      (QueueLock.see st1 cur info) w2 = (RET_OK, locked_now.1.2, locked_now.2).
Proof.
  destruct (QueueLock.DoLock_ok_acquired (LR := granting no_lock_info) 1000 opt1 0 my_queue QueueLock.Init 500
    locked_now.1.2 locked_now.2) as [(_ & Hw & _)|(lock_id & lease & cur & info & ret & st1 & w1 & w2 & H1 & H2 & _ & _ & H3)].
  - reflexivity.
  - by vm_compute.
  - exfalso. revert Hw. eval_done.
  - exists lock_id, lease, cur, info, ret, st1, w1, w2. split; [exact H1|]. split; [exact H2|exact H3].
Defined.

(** The clock stands at 1500 ms; another client holds version 3. *)
Definition frozen : ClientEnv Z.
Proof. refine {| time_now w := (w, w); FastRand w := (0, w) |}. intros w. simpl. lia. Defined.

Definition taken : LockInfo := mkLockInfo "k" 3 "another" 1000.

Lemma frozen_GetLockInfo st :
  exists st', QueueLock.call_GetLockInfo (CE := frozen) (LR := granting taken) 1000 1 "k" st 1500 = (RET_OK, taken, st', 1500).
Proof.
  unfold QueueLock.call_GetLockInfo, MasterClient.ClientCall, MasterClient.GetAddrFromCache.
  destruct (QueueLock.addr_cache_ st !! _) as [[a e]|]; [cbn [time_now frozen]; cbv beta iota; destruct (e <? to_u64 1500)|]; by eexists.
Qed.


(** The process saw version 3 of its old queue's lock overdue at 1400. *)
Definition moved : QueueLock.t := QueueLock.mk "" 3 1400 ∅.

Lemma stale_version_acquires_witness :
  (QueueLock.lock_queue (CE := frozen) (LR := granting taken) 1000 1 20 "k" "127.0.0.1-0" moved 1500).1.1 = RET_OK.
Proof.
  destruct (frozen_GetLockInfo moved) as [st1 Hg].
  rewrite (QueueLock.stale_version_acquires (CE := frozen) (LR := granting taken) 1000 1 20 "k" "127.0.0.1-0" moved 1500 1500 1500
    RET_OK taken st1 1500); [|reflexivity|reflexivity|exact Hg|eval_done|reflexivity|reflexivity].
  unfold QueueLock.call_AcquireLock, MasterClient.ClientCall, MasterClient.GetAddrFromCache.
  destruct (QueueLock.addr_cache_ st1 !! _) as [[a e]|]; [cbn [time_now frozen]; cbv beta iota; destruct (e <? to_u64 1500)|]; reflexivity.
Defined.
