(* ===== verification/ProducerExamples.v ===== *)
(** * Worked examples: producers

    The theorems about producers applied to the sample topic of [Deployment],
    its store, and an item that is enqueued. *)

From S2P Require Import Prelude Keys HashUtil RetCode TopicConfig StoreConfig LockConfig SchedulerConfig.
From S2P Require Import MasterClient Node StoreMeta SyncCtrl BaseMgr StoreSM AddRequests Selector Producer BatchHelper Notifier.
From S2P Require Import Deployment.

#[local] Open Scope Z_scope.

#[local] Existing Instance AddRequests.routes_dec.

Ltac eval_done := vm_compute; repeat split; congruence.

#[local] Instance clock : ClientEnv Z.
Proof. refine {| time_now w := (w, w + 1); FastRand w := (Z.abs w, w + 1) |}. intros w. simpl. lia. Defined.

Definition crc32 (h : Z) (l : list Z) : Z := foldl (fun h b => (h * 31 + b) mod 4294967296) (h mod 4294967296) l.

Lemma crc32_u64 h l : is_u64 (crc32 h l).
Proof.
  unfold crc32. assert (Hh : is_u64 (h mod 4294967296)).
  { pose proof (Z.mod_pos_bound h 4294967296). unfold is_u64, UINT64_MAX. lia. }
  revert Hh. generalize (h mod 4294967296). clear h. induction l as [|b l IH]; intros h Hh; [done|]. apply IH.
  pose proof (Z.mod_pos_bound (h * 31 + b) 4294967296). unfold is_u64, UINT64_MAX. lia.
Qed.

(** Every item is as long as its buffer, which is short. *)
Definition size (item : QItem) : Z := Z.of_nat (String.length (item_buffer item)) mod 4096.

Lemma size_int item : 0 <= size item <= INT32_MAX.
Proof. unfold size, INT32_MAX. pose proof (Z.mod_pos_bound (Z.of_nat (String.length (item_buffer item))) 4096). lia. Qed.

Definition with_buffer (b : string) (pub : Z) : QItem :=
  mkQItem b pub 3 100 0 0 0 1000 0 7 0 0 3 pub 100 0 "".

(** ** Requests *)

Definition three_items : list (option QItem) :=
  [Some (with_buffer "a" 1); None; Some (with_buffer "b" 2); Some (with_buffer "c" 1)].

Definition three_requests : list AddRequest := (AddRequests.MakeAddRequests size 1000 three_items None).2.

Lemma MakeAddRequests_complete_witness :
  Forall (fun req => exists l id, req = AddRequests.new_request 1000 l /\ Forall (AddRequests.routes sample_topic id) l /\
            AddRequests.fits size (AddRequests.batch_limit_of sample_topic) (AddRequests.byte_limit_of sample_topic) l)
    three_requests /\
  filter (AddRequests.routes sample_topic 1) (concat (ar_items <$> three_requests)) =
  [with_buffer "a" 1; with_buffer "c" 1].
Proof.
  destruct (AddRequests.MakeAddRequests_complete size 1000 three_items None sample_topic three_requests) as [H1 H2].
  - exact size_int.
  - split; eval_done.
  - reflexivity.
  - by vm_compute.
  - split; [exact H1|]. rewrite (H2 1). by vm_compute.
Defined.

Lemma mask_SkipGet_witness :
  SkipGet (mkQItem "a" 1 5 100 0 0 0 1000 0 7 0 0 3 1 100 0 "")
    (mkGetRequest 1000 1 7 10 0 2 0 0 0 false) = Some true.
Proof.
  rewrite (AddRequests.mask_SkipGet (Some {[1; 3]}) 5); by vm_compute.
Defined.

Lemma MakeAddRequests_too_large_witness :
  (AddRequests.MakeAddRequests (fun _ => 2097153) 1000 three_items None).1 = RET_ERR_SIZE_TOO_LARGE.
Proof.
  apply (AddRequests.MakeAddRequests_too_large (fun _ => 2097153) 1000 three_items None sample_topic).
  - intros _. split; eval_done.
  - split; eval_done.
  - reflexivity.
  - exists 1, (with_buffer "a" 1), [with_buffer "c" 1]. split; [by vm_compute|]. right. by vm_compute.
Defined.

(** ** Selecting *)

Definition selected : RetCode * option Z * QueueSelector.t * Z :=
  QueueSelector.GetQueueID crc32 (QueueSelector.new 1000 1 77 0 true) 5.

Lemma GetQueueID_routes_witness :
  exists q qi, selected.1.1.2 = Some q /\ TopicConfig.GetQueueInfoByQueue sample_topic q = (RET_OK, Some qi).
Proof.
  assert (E : exists q, QueueSelector.GetQueueID crc32 (QueueSelector.new 1000 1 77 0 true) 5 =
    (RET_OK, Some q, selected.1.2, selected.2) /\ selected.1.1.2 = Some q) by (eexists; split; vm_compute; reflexivity).
  destruct E as (q & E & Eq).
  destruct (QueueSelector.GetQueueID_routes crc32 true (TopicConfig.ReadConfig).2 sample_topic
    (QueueSelector.new 1000 1 77 0 true) 5 q _ _ crc32_u64 ltac:(by vm_compute) sample_disjoint eq_refl E)
    as (id & qi & _ & _ & H).
  exists q, qi. split; [exact Eq|exact H].
Defined.

(** Three stores of which the second one is blocked. *)
Definition three_stores : StoreConfig.t :=
  match StoreConfig.Rebuild true
    ((fun i => mkStore i [mkAddr "127.0.0.1" (5000 + i) 0] [] 20) <$> [1; 2; 3]) with
  | Some (_, c) => c
  | None => StoreConfig.mk ∅ ∅
  end.

Definition three : GlobalConfig.
Proof.
  refine {| GetTopicConfigByTopicID id := if id =? 1000 then (RET_OK, Some sample_topic) else (RET_ERR_RANGE_TOPIC, None);
            GetStoreConfig id := if id =? 1000 then (RET_OK, Some three_stores) else (RET_ERR_RANGE_TOPIC, None);
            GetLastModTime _ := 1 |};
    intros id; by destruct (id =? 1000).
Defined.

Definition second_blocked (id : Z) : bool := id =? 2.

Definition first_try : option (RetCode * option Z * StoreSelector.t * gmap Z StoreSelector.ring * Z) :=
  StoreSelector.GetStoreID (GC := three) second_blocked (fun _ => 1) (StoreSelector.new 1000 1 77 true) ∅ 5.

Lemma GetStoreID_finds_witness :
  exists id s' rings' w', first_try = Some (RET_OK, Some id, s', rings', w') /\ id <> -1.
Proof.
  pose proof (StoreSelector.GetStoreID_finds (GC := three) second_blocked (fun _ => 1) (StoreSelector.new 1000 1 77 true) ∅ 5
    three_stores) as H.
  destruct H as (id & s' & r' & w' & H & Hid & _).
  - reflexivity.
  - apply (bool_decide_unpack _). by vm_compute.
  - apply (bool_decide_unpack _). by vm_compute.
  - done.
  - apply (bool_decide_unpack _). by vm_compute.
  - exists id, s', r', w'. split; [exact H|exact Hid].
Defined.

(** The selector and the rings after a try. *)
Definition left_by (r : option (RetCode * option Z * StoreSelector.t * gmap Z StoreSelector.ring * Z))
    : StoreSelector.t * gmap Z StoreSelector.ring :=
  match r with Some (_, _, s, rings, _) => (s, rings) | None => (StoreSelector.new 1000 1 77 true, ∅) end.

Definition again : StoreSelector.t * gmap Z StoreSelector.ring := left_by first_try.

Definition second_try : option (RetCode * option Z * StoreSelector.t * gmap Z StoreSelector.ring * Z) :=
  StoreSelector.GetStoreID (GC := three) second_blocked (fun _ => 1) again.1 again.2 9.

Lemma second_try_result :
  exists s' r' w', second_try = Some (RET_OK, Some 1, s', r', w') /\ StoreSelector.tried_store_ids again.1 = {[2; 3]}.
Proof.
  assert (H : (fun r => r.1.1.1) <$> second_try = Some (RET_OK, Some 1)) by (vm_compute; reflexivity).
  assert (Ht : StoreSelector.tried_store_ids again.1 = {[2; 3]}) by (vm_compute; reflexivity).
  destruct second_try as [[[[r s'] rings'] w']|]; [|discriminate H]. exists s', rings', w'.
  split; [|exact Ht]. apply (inj Some) in H. simpl in H. subst r. reflexivity.
Qed.


(** ** Enqueuing *)

(** Every store accepts. *)
Definition accepting (_ : AddRequest) (_ : Addr) (resp : StoreService.AddResponse) (w : Z)
    : RetCode * StoreService.AddResponse * Z := (RET_OK, resp, w + 1).

Definition plain (s : string) : string * Z := (s, 0).

Definition enqueued : option (RetCode * Producer.t * Z) :=
  Producer.Enqueue crc32 size (fun _ => false) (fun _ => 1) accepting None plain (fun _ _ _ => -1) (fun w => (w, w + 1))
    1000 77 5 "hello" 1 (Some {[1]}) "me" (Producer.mk ∅ ∅) 100.

Definition hello : QItem := Producer.make_item crc32 plain 1000 77 5 "hello" 1 1 100 "me".

Lemma enqueued_ok : exists st w, enqueued = Some (RET_OK, st, w).
Proof.
  assert (H : (fun r => r.1.1) <$> enqueued = Some RET_OK) by (vm_compute; reflexivity).
  destruct enqueued as [[[r st] w]|]; [|discriminate H]. exists st, w. apply (inj Some) in H. simpl in H. subst r. reflexivity.
Qed.

Lemma Enqueue_adds_witness :
  exists st w queue_id store_id w1, enqueued = Some (RET_OK, st, w) /\
    Producer.accepted accepting (mkAddRequest 1000 store_id queue_id [hello]) w1 w.
Proof.
  destruct enqueued_ok as (st & w & E). exists st, w.
  destruct (Producer.Enqueue_adds crc32 size (fun _ => false) (fun _ => 1) accepting None plain (fun _ _ _ => -1)
    (fun w => (w, w + 1)) 1000 77 5 "hello" 1 (Some {[1]}) "me" (Producer.mk ∅ ∅) 100 st w eq_refl E)
    as (c & pub & mask & now & w0 & Hc & _ & Hp & Hn & Hm & H).
  apply (f_equal snd), (inj Some) in Hc. subst c. specialize (Hp ltac:(done)). subst pub.
  injection Hn as <- <-. assert (mask = 1) as -> by (apply (inj Some); rewrite <-Hm; by vm_compute).
  destruct H as [[H _]|(q & s & w1 & H)].
  - exfalso. apply (H 1). by vm_compute.
  - exists q, s, w1. split; [exact E|exact H].
Defined.

(** ** Batches *)

(** Two requests for a queue; the second one arrives 5 ms after the first,
    the daemon looks at the batches at 200 ms. *)
Definition request_size (req : AddRequest) : Z := Z.of_nat (length (ar_items req)).
Definition task (i : nat) (buffer : string) : BatchHelper.Task :=
  BatchHelper.mkTask i (mkAddRequest 1000 1 3 [with_buffer buffer 1]).

Definition batched : BatchHelper.state :=
  BatchHelper.mkState ∅ [] [([task 1 "a"; task 2 "b"], RET_OK)] [task 2 "b"; task 1 "a"].

Definition batch1 : BatchHelper.BatchTask := BatchHelper.AddTask request_size 100 (BatchHelper.Init 1000) (task 1 "a").
Definition batch2 : BatchHelper.BatchTask := BatchHelper.AddTask request_size 105 batch1 (task 2 "b").

Definition waiting1 : BatchHelper.state := BatchHelper.mkState {[(1000, 1, 3) := batch1]} [] [] [task 1 "a"].
Definition waiting2 : BatchHelper.state := BatchHelper.mkState {[(1000, 1, 3) := batch2]} [] [] [task 2 "b"; task 1 "a"].
Definition dispatched : BatchHelper.state := BatchHelper.mkState ∅ [batch2] [] [task 2 "b"; task 1 "a"].

Lemma step_to s s1 s' : BatchHelper.reachable request_size s -> BatchHelper.step request_size s s1 -> s1 = s' ->
  BatchHelper.reachable request_size s'.
Proof. intros Hs Hstep <-. by eapply BatchHelper.reachable_step. Qed.

Lemma batched_reachable : BatchHelper.reachable request_size batched.
Proof.
  assert (H1 : BatchHelper.reachable request_size waiting1).
  { eapply step_to; [apply BatchHelper.reachable_start| |].
    - apply (BatchHelper.step_submit _ _ (task 1 "a") 100 101 {[(1000, 1, 3) := batch1]} None);
        [by apply not_elem_of_nil|done|by vm_compute].
    - reflexivity. }
  assert (H2 : BatchHelper.reachable request_size waiting2).
  { eapply step_to; [exact H1| |].
    - apply (BatchHelper.step_submit _ _ (task 2 "b") 105 106 {[(1000, 1, 3) := batch2]} None); [|done|by vm_compute].
      apply (bool_decide_unpack _). by vm_compute.
    - reflexivity. }
  assert (H3 : BatchHelper.reachable request_size dispatched).
  { eapply step_to; [exact H2| |].
    - eapply (BatchHelper.step_dispatch _ _ 200 0 (fun _ => 200) 1 _ [(1000, 1, 3)] 0); [reflexivity|by vm_compute].
    - by vm_compute. }
  eapply step_to; [exact H3|eapply (BatchHelper.step_process _ _ batch2 [] [] RET_OK); reflexivity|reflexivity].
Qed.

(** Both threads wait; the first has taken its code. *)
Definition piped (b : BatchHelper.state) (content : list (nat * list RetCode)) (n : list (nat * nat)) : BatchWait.state :=
  BatchWait.mkState b (Notifier.mkPipes [] (list_to_map content) (length content)) (list_to_map n) [] [].

Definition first_answered : BatchWait.state :=
  BatchWait.mkState batched (Notifier.mkPipes [0%nat] {[0%nat := []; 1%nat := [RET_OK]]} 2) {[2%nat := 1%nat]} [(1%nat, RET_OK)] [].

Lemma wait_step_to s s1 s' : BatchWait.reachable request_size s -> BatchWait.step request_size s s1 -> s1 = s' ->
  BatchWait.reachable request_size s'.
Proof. intros Hs Hstep <-. by eapply BatchWait.reachable_step. Qed.

Lemma first_answered_reachable : BatchWait.reachable request_size first_answered.
Proof.
  assert (H1 : BatchWait.reachable request_size (piped waiting1 [(0%nat, [])] [(1%nat, 0%nat)])).
  { eapply wait_step_to; [apply BatchWait.reachable_start| |].
    - apply (BatchWait.submit_step _ _ (task 1 "a") 100 101 {[(1000, 1, 3) := batch1]} None);
        [by apply not_elem_of_nil|done|by vm_compute].
    - reflexivity. }
  assert (H2 : BatchWait.reachable request_size (piped waiting2 [(0%nat, []); (1%nat, [])] [(1%nat, 0%nat); (2%nat, 1%nat)])).
  { eapply wait_step_to; [exact H1| |].
    - apply (BatchWait.submit_step _ _ (task 2 "b") 105 106 {[(1000, 1, 3) := batch2]} None); [|done|by vm_compute].
      apply (bool_decide_unpack _). by vm_compute.
    - by vm_compute. }
  assert (H3 : BatchWait.reachable request_size (piped dispatched [(0%nat, []); (1%nat, [])] [(1%nat, 0%nat); (2%nat, 1%nat)])).
  { eapply wait_step_to; [exact H2| |].
    - eapply (BatchWait.dispatch_step _ _ 200 0 (fun _ => 200) 1 _ [(1000, 1, 3)] 0); [reflexivity|by vm_compute].
    - by vm_compute. }
  assert (H4 : BatchWait.reachable request_size
                 (piped batched [(0%nat, [RET_OK]); (1%nat, [RET_OK])] [(1%nat, 0%nat); (2%nat, 1%nat)])).
  { eapply wait_step_to; [exact H3|eapply (BatchWait.process_step _ _ batch2 [] [] RET_OK); reflexivity|by vm_compute]. }
  eapply wait_step_to; [exact H4|eapply (BatchWait.wait_step _ _ 1 0 RET_OK); by vm_compute|by vm_compute].
Qed.

(** The second thread can take its code. *)
Lemma batch_answered_witness :
  (exists s', BatchWait.TaskWait 2 first_answered = Some (RET_OK, s')) /\ BatchWait.answered first_answered 1 RET_OK.
Proof.
  destruct (BatchWait.batch_answered request_size first_answered first_answered_reachable) as (H1 & _ & _ & H2).
  split; [|apply H1; left].
  destruct (H2 2%nat 1%nat RET_OK) as (s' & Hw & _); [by vm_compute| |by exists s'].
  exists [task 1 "a"; task 2 "b"]. split; [left|right; left].
Defined.

Lemma batched_exactly_once_witness :
  BatchHelper.everywhere batched ≡ₚ [task 2 "b"; task 1 "a"] /\
  NoDup (BatchHelper.task_id <$> BatchHelper.everywhere batched).
Proof. exact (BatchHelper.batched_exactly_once request_size batched batched_reachable). Defined.

Lemma batch_merges_witness :
  ar_items (BatchHelper.batch_req [task 1 "a"; task 2 "b"]) = [with_buffer "a" 1; with_buffer "b" 1] /\
  BatchHelper.batch_key (BatchHelper.batch_req [task 1 "a"; task 2 "b"]) = (1000, 1, 3).
Proof.
  destruct (BatchHelper.batch_merges request_size batched [task 1 "a"; task 2 "b"] RET_OK) as [H1 H2].
  - exact batched_reachable.
  - left.
  - split; [exact H1|]. apply (H2 (task 1 "a")). left.
Defined.
