(* ===== verification/PullExamples.v ===== *)
(** * Worked examples: pulling and handling

    A worker of the sample topic pulls three items from queue 3, two of one
    [uin]; its handlers fail one of them.  The worlds are clocks. *)

From S2P Require Import Prelude HashUtil RetCode TopicConfig StoreConfig LockConfig SchedulerConfig MasterClient Node StoreMeta.
From S2P Require Import SyncCtrl BaseMgr StoreSM AddRequests Float HeartBeatLock Consume Dispatch Freq Process Delivery.
From S2P Require Import QueueLock Worker Deployment StoreExamples.

#[local] Open Scope Z_scope.

#[local] Existing Instance AddRequests.routes_dec.

#[local] Instance clock : ClientEnv Z.
Proof. refine {| time_now w := (w, w + 1); FastRand w := (Z.abs w, w + 1) |}. intros w. simpl. lia. Defined.

(** ** Handling *)

Definition item_of (buffer : string) (uin : Z) : QItem := mkQItem buffer 1 3 100 0 0 0 1000 0 uin 0 0 3 1 100 0 "".

Definition three_items : list QItem := [item_of "a" 7; item_of "b" 7; item_of "c" 8].

Definition worker : ConsumerContext := mkContext 1000 1 1 3 UINT64_MAX UINT64_MAX.

(** An application whose handler returns [res]. *)
Definition app (res : HandleResult) : UserRun :=
  mkUserRun (fun buffer _ => (RET_OK, buffer)) (fun _ => Some (fun item buffer => (res, item, buffer, false))) (fun buffer _ => buffer).

Definition info_1 : QueueInfo := mkQueueInfo 1 ["0-9"%string] 0 1 0 0.

Lemma queue_3 : TopicConfig.GetQueueInfoByQueue sample_topic 3 = (RET_OK, Some info_1).
Proof. vm_compute. reflexivity. Qed.

Definition made_buckets : list (list nat) * Z :=
  match Consume.MakeHandleBuckets 1000 2 worker (Some <$> three_items) 5 with
  | Some (_, bs, w) => (bs, w)
  | None => ([], 0)
  end.

Lemma MakeHandleBuckets_partition_witness :
  concat made_buckets.1 ≡ₚ [0; 1; 2]%nat /\
  exists b q, made_buckets.1 !! b = Some q /\ 0%nat ∈ q /\ 1%nat ∈ q.
Proof.
  assert (E : Consume.MakeHandleBuckets 1000 2 worker (Some <$> three_items) 5 = Some (RET_OK, made_buckets.1, made_buckets.2))
    by (vm_compute; reflexivity).
  destruct (Consume.MakeHandleBuckets_partition 1000 2 worker (Some <$> three_items) 5 made_buckets.1 made_buckets.2 E)
    as (_ & Hp & _ & c & qi & Hc & Hq & Hu).
  split; [exact Hp|]. apply Hu.
  - apply (f_equal snd), (inj Some) in Hc. subst c. cbn [cc_queue_id worker] in Hq.
    rewrite queue_3 in Hq. apply (f_equal snd), (inj Some) in Hq. subst qi. reflexivity.
  - exists (item_of "a" 7), (item_of "b" 7). repeat split; done.
Defined.

(** The handlers are interleaved; item 1 fails. *)
Definition interleaved : list Dispatch.event :=
  [Dispatch.Batch 0; Dispatch.Begin 0; Dispatch.Begin 1; Dispatch.Finish 1 (app RES_OK);
   Dispatch.Finish 0 (app RES_OK); Dispatch.Begin 0; Dispatch.Finish 0 (app RES_ERROR)].

Definition dispatched : Dispatch.state * Z :=
  match Dispatch.TaskDispatch 1000 2 1 worker (Some <$> three_items) 5 with
  | Some (_, s, w) => (s, w)
  | None => (Dispatch.mkState [] [] [] [] [] 0 0 [], 0)
  end.

Definition all_done : Dispatch.state :=
  default (Dispatch.mkState [] [] [] [] [] 0 0 []) (Dispatch.schedule worker interleaved dispatched.1).

Lemma dispatched_ok : Dispatch.TaskDispatch 1000 2 1 worker (Some <$> three_items) 5 = Some (RET_OK, dispatched.1, dispatched.2).
Proof. vm_compute. reflexivity. Qed.
Lemma all_done_ok : Dispatch.schedule worker interleaved dispatched.1 = Some all_done.
Proof. vm_compute. reflexivity. Qed.

Lemma dispatch_handles_once_witness :
  Dispatch.handled all_done ≡ₚ [0; 1; 2]%nat /\
  Dispatch.handle_results all_done = [RES_OK; RES_ERROR; RES_OK].
Proof.
  destruct (Dispatch.dispatch_handles_once 1000 2 1 worker (Some <$> three_items) 5 dispatched.2 dispatched.1 all_done interleaved
    dispatched_ok all_done_ok) as (H & _); [vm_compute; reflexivity|].
  split; [exact H|vm_compute; reflexivity].
Defined.

Lemma dispatch_in_order_witness :
  exists l1 l2, Dispatch.handled all_done = l1 ++ 0%nat :: l2 /\ 1%nat ∉ l1.
Proof.
  apply (Dispatch.dispatch_in_order 1000 2 1 worker (Some <$> three_items) 5 dispatched.2 dispatched.1 all_done interleaved
    dispatched_ok all_done_ok sample_topic info_1).
  - reflexivity.
  - vm_compute. reflexivity.
  - reflexivity.
  - exists (item_of "a" 7), (item_of "b" 7). repeat split; done.
  - lia.
  - left. apply (bool_decide_unpack _). by vm_compute.
Defined.


(** ** A session *)

(** The store answers every request with the three items and position 9. *)
Definition serve (_ : GetRequest) (_ : Addr) (_ : GetReply) (w : Z) : RetCode * GetReply * Z :=
  (RET_OK, (mkGetResponse three_items UINT64_MAX 9, None), w).
Definition accept (_ : AddRequest) (_ : Addr) (r : StoreService.AddResponse) (w : Z) : RetCode * StoreService.AddResponse * Z :=
  (RET_OK, r, w).

Definition small_shm : FreqMan.Shm := FreqMan.mkShm [FreqMan.no_limit] [FreqMan.mkStat 0 0 (replicate 1001 0)].

Definition worker_opt : Process.ConsumerOption := Process.mkOption 2 1 false false.

Definition small (item : QItem) : Z := Z.of_nat (String.length (item_buffer item)) mod 4096.

Definition two_turns : list (Process.input Z) :=
  [Process.mkInput Z small_shm small_shm interleaved (fun w => w + 3) 1; Process.mkInput Z small_shm small_shm interleaved (fun w => w + 3) 1].

Definition session :=
  Process.Process small 1000 0 worker_opt (fun w => (w, w + 1)) (fun w => (w, w + 1)) serve accept 1 1 1 two_turns worker
    (Process.mkQuota (Process.dbl 0) 0) ∅ 100000.

Definition session_rounds : list Process.round :=
  match session with Some (_, _, _, rounds, _) => rounds | None => [] end.

Definition session_end : bool * Process.t * Z :=
  match session with
  | Some (_, done, s, _, w) => (done, s, w)
  | None => (true, Process.mk worker 0 (Process.mkQuota (Process.dbl 0) 0) ∅ 1, 0)
  end.

Lemma session_ok :
  Process.Process small 1000 0 worker_opt (fun w => (w, w + 1)) (fun w => (w, w + 1)) serve accept 1 1 1 two_turns worker
    (Process.mkQuota (Process.dbl 0) 0) ∅ 100000 = Some (RET_OK, session_end.1.1, session_end.1.2, session_rounds, session_end.2).
Proof. vm_compute. reflexivity. Qed.

Lemma small_sizes : Process.sizes_ok small sample_topic.
Proof.
  split; [|split; [split; vm_compute; congruence|vm_compute; congruence]].
  intros x. unfold small, INT32_MAX. pose proof (Z.mod_pos_bound (Z.of_nat (String.length (item_buffer x))) 4096). lia.
Qed.


Definition loop_start : Process.t := Process.mk worker 100 (Process.mkQuota (Process.dbl 0) 0) ∅ 1.

Definition looped := 
  Process.loop small 1000 0 worker_opt (fun w => (w, w + 1)) (fun w => (w, w + 1)) serve accept 1 sample_topic
    info_1 100000 two_turns loop_start 100001.

Definition looped_end : bool * Process.t * list Process.round * Z :=
  match looped with Some x => x | None => (true, loop_start, [], 0) end.

Lemma Process_limit_witness : 1 <= Process.limit looped_end.1.1.2 <= 100.
Proof.
  destruct (Process.Process_limit small 1000 0 worker_opt (fun w => (w, w + 1)) (fun w => (w, w + 1)) serve accept 1 sample_topic
    info_1 100000 two_turns loop_start 100001
    looped_end.1.1.1 looped_end.1.1.2 looped_end.1.2 looped_end.2) as (H & _);
    [vm_compute; split; congruence|vm_compute; congruence|vm_compute; reflexivity|exact H].
Defined.

(** ** Counting *)

Definition counting : FreqMan.Shm := FreqMan.mkShm [FreqMan.no_limit] [FreqMan.mkStat 4 0 (replicate 1001 0)].

Lemma first_count : exists x, FreqMan.UpdateConsumeStat 1000 3 worker three_items 0 1 FreqMan.Init = Some x.
Proof.
  destruct (FreqMan.UpdateConsumeStat 1000 3 worker three_items 0 1 FreqMan.Init) as [x|] eqn:E; [by exists x|exfalso].
  apply (f_equal (fun o => match o with Some _ => true | None => false end)) in E. vm_compute in E. discriminate E.
Qed.


Lemma UpdateConsumeStat_counts_witness :
  exists shm' last' stat', FreqMan.UpdateConsumeStat 1000 0 worker three_items 1 1 counting = Some (shm', last') /\
    FreqMan.consume_stats shm' = <[0%nat := stat']> (FreqMan.consume_stats counting) /\ FreqMan.nget stat' = 5.
Proof.
  assert (E : exists x, FreqMan.UpdateConsumeStat 1000 0 worker three_items 1 1 counting = Some x).
  { destruct (FreqMan.UpdateConsumeStat 1000 0 worker three_items 1 1 counting) as [x|] eqn:E; [by exists x|exfalso].
    apply (f_equal (fun o => match o with Some _ => true | None => false end)) in E. vm_compute in E. discriminate E. }
  destruct E as [[shm' last'] E]. exists shm', last'.
  destruct (FreqMan.UpdateConsumeStat_counts 1000 sample_topic 0 worker three_items 1 1 counting shm' last'
    (FreqMan.mkStat 4 0 (replicate 1001 0))) as (stat' & H1 & _ & _ & _ & H2 & _).
  - apply (FreqMan.Rebuild_ranks_ok true (TopicConfig.ReadConfig).2). vm_compute. reflexivity.
  - reflexivity.
  - vm_compute. split; congruence.
  - reflexivity.
  - vm_compute. reflexivity.
  - intros _. vm_compute. split; reflexivity.
  - exact E.
  - exists stat'. split; [exact E|]. split; [exact H1|exact H2].
Defined.

(** ** Delivery *)

(** Queue 3 holds 5, 7 and 9; nobody has read it. *)
Definition unread : Store :=
  mkStoreState (<[3%nat := queue_579]> (replicate 20 StoreMetaQueue.empty)) zero_buf [CheckPointStat.zero; CheckPointStat.zero].

Definition ask (c : Z) : GetRequest := mkGetRequest 1000 1 3 10 0 1 0 c c false.

Definition read_from (s : Store) (c : Z) : GetResponse * Store :=
  match BaseMgr.Get crc store_opt 1000 s (fun _ => 0) (ask c) (mkGetResponse [] 0 0) with
  | Some (_, resp, s') => (resp, s')
  | None => (mkGetResponse [] 0 0, s)
  end.

Definition first_read : GetResponse * Store := read_from unread UINT64_MAX.
Definition second_read : GetResponse * Store := read_from first_read.2 9.

(** The worker has handled the first response when it asks again. *)
Definition acked : Delivery.state := Delivery.mk second_read.2 (resp_next_cursor_id second_read.1) [second_read.1] [first_read.1] [].

Lemma unread_readable : Delivery.readable store_opt 1 3 unread queue_579.
Proof.
  split; [exact zero_buf_ok|]. split.
  { replace (Delivery.item store_opt 1 3 unread) with zero_item by by vm_compute. split; [|split]; vm_compute; done. }
  split; [|split; [by vm_compute|split; [exact queue_579_sorted|exact queue_579_real]]].
  intros cp. replace (BaseMgr.get_cp store_opt unread 3) with (Some (UINT64_MAX, 0)) by by vm_compute.
  intros [= <-]. vm_compute. repeat split; congruence.
Qed.

Lemma acked_reachable : Delivery.reachable crc store_opt 1000 1 3 unread acked.
Proof.
  assert (H1 : Delivery.got crc store_opt 1000 1 3 unread UINT64_MAX first_read.1 first_read.2).
  { exists (ask UINT64_MAX), (fun _ => 0). split; [repeat split; vm_compute; congruence|]. by vm_compute. }
  assert (H2 : Delivery.got crc store_opt 1000 1 3 first_read.2 9 second_read.1 second_read.2).
  { exists (ask 9), (fun _ => 0). split; [repeat split; vm_compute; congruence|]. by vm_compute. }
  eapply Delivery.reach_step; [eapply Delivery.reach_step; [apply Delivery.reach_start|apply Delivery.Arrives, H1]|].
  assert (E : resp_next_cursor_id first_read.1 = 9) by by vm_compute. rewrite E.
  exact (Delivery.Arrives crc store_opt 1000 1 3 first_read.2 9 [first_read.1] [] [] second_read.1 second_read.2 H2).
Qed.


(** ** A worker process *)

#[local] Instance no_lock_calls : LockRpc Z := {|
  rpc_GetLockInfo _ _ resp w := (RET_OK, resp, w);
  rpc_AcquireLock _ _ _ _ redirect w := (RET_OK, redirect, w);
  GetSteadyClockMS w := (w, w + 1);
|}.

(** The slot of the process holds queue 3 of the group that needs no lock; a
    handling takes half a minute, so [Process] returns after one round. *)
Definition slots : HeartBeatLock.t := HeartBeatLock.mk 0 [mkQueue LOCK_ITEM_MAGIC 1 1 1 3] 0 ∅ 0.

Definition slow_turn : Worker.input (W := Z) :=
  Worker.mkInput slots 1000 None 1
    [Process.mkInput Z small_shm small_shm interleaved (fun w => w + 30000) 1; Process.mkInput Z small_shm small_shm interleaved (fun w => w) 1].

Definition worked :=
  Worker.run small 1000 0 (mkConsumerOption "127.0.0.1" 8001) worker_opt (fun w => (w, w + 1)) serve accept [slow_turn; slow_turn]
    (Worker.start 1000) 100000.

Definition worked_events : list Worker.event := match worked with Some (es, _, _) => es | None => [] end.
Definition worked_end : Worker.t * Z := match worked with Some (_, s, w) => (s, w) | None => (Worker.start 1000, 0) end.

(** The start and the stop of the second pull. *)
Definition second_pull : ConsumerContext * RetCode * bool * list Process.round * ConsumerContext :=
  match worked_events with
  | [_; Worker.Pulls c ret done rounds c'] => (c, ret, done, rounds, c')
  | _ => (worker, RET_ERR_LOGIC, false, [], worker)
  end.

