(* ===== verification/SchedulerExamples.v ===== *)
(** * Worked examples: schedulers

    The scheduler of the two consumers of [ConsumerExamples], and two schedulers
    that compete for the master's lock. *)

From S2P Require Import Prelude HashUtil RetCode TopicConfig StoreConfig LockConfig SchedulerConfig MasterClient.
From S2P Require Import Node LockDb LockMgr LockSM ConsumerConfig HeartBeatLock HeartBeatSync Float Scheduler SchedulerSync KeepMaster.
From S2P Require Import Deployment ConsumerExamples.

#[local] Open Scope Z_scope.

#[local] Existing Instance consumer_config.
#[local] Existing Instance consumer_directory.
#[local] Existing Instance Queue_t_eq_dec.

#[local] Instance AddrScale_eq_dec : EqDecision AddrScale.
Proof. solve_decision. Defined.

(** ** Balancing *)

Definition consumer_info (w load : Z) (live : bool) (active : Z) : SchedulerMgr.ConsumerInfo :=
  SchedulerMgr.mkInfo w (MeanVector.new 6) load 100 live active.

Definition infos : gmap Z SchedulerMgr.ConsumerInfo :=
  {[EncodeAddr (host 8001) := consumer_info 60 30 true 900000; EncodeAddr (host 8002) := consumer_info 30 90 true 100]}.

Definition topic_data : SchedulerMgr.TopicData := SchedulerMgr.mkTopicData infos 1 0.

Definition adjusted_data : SchedulerMgr.TopicData :=
  match SchedulerMgr.AdjustScale 1000 topic_data (SchedulerMgr.GetMeanLoad topic_data).2 true with
  | Some (_, d) => d
  | None => topic_data
  end.

Lemma infos_init a i : infos !! a = Some i -> SchedulerMgr.init_weight i = 100.
Proof.
  unfold infos. intros [[_ <-]|[_ [_ <-]%lookup_singleton_Some]]%lookup_insert_Some; reflexivity.
Qed.


Definition balanced_data : SchedulerMgr.TopicData :=
  default topic_data (SchedulerMgr.balance_topic {[1000]} 1000000 1000 topic_data).

Definition retired : SchedulerMgr.ConsumerInfo :=
  default (consumer_info 0 0 true 0) (SchedulerMgr.consumer_addr2info_map balanced_data !! EncodeAddr (host 8002)).

(** The second consumer has not reported for long. *)
Lemma balance_retires_witness : SchedulerMgr.live retired = false /\ SchedulerMgr.weight retired = 0.
Proof.
  apply (SchedulerMgr.balance_retires {[1000]} 1000000 1000 consumer_topic topic_data balanced_data (EncodeAddr (host 8002))
    (consumer_info 30 90 true 100) retired false topic_data).
  - by apply elem_of_singleton.
  - reflexivity.
  - vm_compute. reflexivity.
  - vm_compute. reflexivity.
  - vm_compute. reflexivity.
  - vm_compute. reflexivity.
  - vm_compute. reflexivity.
  - by left.
  - vm_compute. reflexivity.
Defined.

(** ** Consumers and their scheduler *)

Definition so : SchedulerMgr.SchedulerOption := SchedulerMgr.mkSchedulerOption "127.0.0.1" 6100 1000.
Definition never (_ : GetAddrScaleRequest) : bool := false.

Definition mgr : SchedulerMgr.t := SchedulerMgr.mk 1000000 {[1000 := topic_data]} {[1000]}.
Definition mgr_world : SchedulerMgr.t * Z := (mgr, 5000).

Definition mgr_weights : list AddrScale := SchedulerMgr.BuildTopicScaleResponse topic_data.

Definition scheduled (opt : ConsumerOption) : HeartBeatLock.t * (SchedulerMgr.t * Z) :=
  match HeartBeatSync.Sync (SchedulerSync.scheduler_call so never) crc32 1000 opt fresh 50 mgr_world with
  | Some (_, h, w) => (h, w)
  | None => (fresh, mgr_world)
  end.

Lemma scheduled_ids opt : opt = opt1 \/ opt = opt2 ->
  GetConsumerGroupIDsByConsumerAddr 1000 (HeartBeatSync.self_addr opt) = (RET_OK, {[1; 2]}) /\
  set_Forall is_i32 (dom (HeartBeatSync.scales_of (SchedulerSync.scheduler_call so never) 1000 opt fresh 50 mgr_world)).
Proof.
  intros Ho. split; [destruct Ho as [-> | ->]; by vm_compute|].
  assert (E : dom (HeartBeatSync.scales_of (SchedulerSync.scheduler_call so never) 1000 opt fresh 50 mgr_world) = {[1; 2]}) by
    (destruct Ho as [-> | ->]; by vm_compute).
  rewrite E. intros x. rewrite elem_of_union, !elem_of_singleton. intros [-> | ->]; eval_done.
Qed.

Lemma scheduled_handles_once_witness :
  exists a, a ∈ mgr_weights /\ 0 < as_scale a /\
    (HeartBeatLock.key queue7 ∈ HeartBeatLock.held 1 (HeartBeatLock.queues (scheduled opt1).1) <->
     Consumer.local_encoded_addr opt1 = EncodeAddr (as_addr a)) /\
    (HeartBeatLock.key queue7 ∈ HeartBeatLock.held 1 (HeartBeatLock.queues (scheduled opt2).1) <->
     Consumer.local_encoded_addr opt2 = EncodeAddr (as_addr a)).
Proof.
  destruct (SchedulerSync.scheduled_handles_once so never crc32 1000 mgr 1 mgr_weights group1 queue7 consumer_topic)
    as (a & Ha & Hp & H).
  - exact int_ids_1000.
  - by vm_compute.
  - apply (bool_decide_unpack _). by vm_compute.
  - reflexivity.
  - by vm_compute.
  - by vm_compute.
  - exists (mkAddrScale (host 8001) 60). split; [|done]. apply list_elem_of_filter. split; [by vm_compute|].
    apply (bool_decide_unpack _). by vm_compute.
  - exists a. split; [by apply list_elem_of_filter in Ha as [_ ?]|]. split; [exact Hp|].
    destruct (scheduled_ids opt1 (or_introl eq_refl)) as [G1 I1]. destruct (scheduled_ids opt2 (or_intror eq_refl)) as [G2 I2].
    assert (Hg : 1 ∈ ({[1; 2]} : gset Z)) by (apply elem_of_union; left; by apply elem_of_singleton). split.
    + apply (H opt1 fresh 50 mgr_world (scheduled opt1).1 (scheduled opt1).2 {[1; 2]});
        [apply SchedulerMgr.reports_refl|exact G1|exact Hg|exact I1|by vm_compute|by vm_compute|by vm_compute|].
      apply Nat.leb_le. by vm_compute.
    + apply (H opt2 fresh 50 mgr_world (scheduled opt2).1 (scheduled opt2).2 {[1; 2]});
        [apply SchedulerMgr.reports_refl|exact G2|exact Hg|exact I2|by vm_compute|by vm_compute|by vm_compute|].
      apply Nat.leb_le. by vm_compute.
Defined.

(** ** Two schedulers

    A lease of 20 and answers within 5.  "b" looks at 0 and is answered at 4,
    when "a", who looked at 3, has just got the lock; so "b" counts the lease
    from 0, gets the lock at 21 and is master together with "a" until 23. *)

Import Masters.

Definition tick (t : Z) (s : state) : state := mkState t (record s) (next_version s) (clients s).
Definition look (c : string) (s : state) : state := set_client s c (set_pc (clients s c) (Looking (now s))).
Definition answer (c : string) (t0 : Z) (s : state) : state := set_client s c (answered 20 c t0 (record s) (clients s c)).
Definition execute (c : string) (t0 : Z) (s : state) : state :=
  mkState (now s) (Some (mkLock (next_version s) c (now s))) (next_version s + 1)
    (clients (set_client s c (set_pc (clients s c) (Granted t0)))).
Definition reply (c : string) (t0 : Z) (s : state) : state :=
  set_client s c (mkClient Idle (c_version (clients s c)) (c_overdue (clients s c)) (to_u64 (t0 + 20))).

Definition granted_a : state :=
  answer "b" 0 (reply "a" 3 (execute "a" 3 (tick 4 (answer "a" 3 (look "a" (tick 3 (look "b" (initial 0)))))))).
Definition both : state :=
  tick 22 (reply "b" 21 (execute "b" 21 (answer "b" 21 (look "b" (tick 21 granted_a))))).

Ltac next := eapply reachable_step.

Lemma granted_a_reachable : reachable 20 5 0 granted_a.
Proof.
  unfold granted_a. next; [|apply step_answer; [by vm_compute|by vm_compute]].
  next; [|apply step_reply; by vm_compute].
  next; [|apply (step_execute 20 5 _ "a" 3 0); by vm_compute].
  next; [|apply step_tick; by vm_compute].
  next; [|apply step_answer; by vm_compute].
  next; [|apply step_look; by vm_compute].
  next; [|apply step_tick; by vm_compute].
  next; [|apply step_look; by vm_compute].
  apply reachable_initial; by vm_compute.
Qed.

Lemma both_reachable : reachable 20 5 0 both.
Proof.
  unfold both. next; [|apply step_tick; by vm_compute].
  next; [|apply step_reply; by vm_compute].
  next; [|apply (step_execute 20 5 _ "b" 21 1); by vm_compute].
  next; [|apply step_answer; by vm_compute].
  next; [|apply step_look; by vm_compute].
  next; [|apply step_tick; by vm_compute].
  exact granted_a_reachable.
Qed.

Lemma one_master_witness :
  is_master both "a" /\ is_master both "b" /\
  (c_expire (clients both "a") - 5 < now both \/ c_expire (clients both "b") - 5 < now both).
Proof.
  assert (Ha : is_master both "a") by (by vm_compute). assert (Hb : is_master both "b") by (by vm_compute).
  split; [exact Ha|]. split; [exact Hb|].
  assert (Hl : 0 <= 20 /\ 0 <= 5) by lia. apply (one_master 20 5 Hl 0 both "a" "b"); [exact both_reachable|done|exact Ha|exact Hb].
Defined.
