(* ===== verification/RpcExamples.v ===== *)
(** * Worked examples: remote calls

    A client and the lock server of LockExamples.v, whose connections work as
    long as the server's group is there. *)

From S2P Require Import Prelude RetCode TopicConfig StoreConfig Node StoreMeta SyncCtrl BaseMgr StoreSM.
From S2P Require Import LockConfig SchedulerConfig MasterClient LockDb LockMgr LockSM LockService.
From S2P Require Import ConsumerConfig HeartBeatLock HeartBeatSync QueueLock Scheduler Rpc Services Deployment.
From S2P Require Import LockExamples ConsumerExamples SchedulerExamples.

#[local] Open Scope Z_scope.
#[local] Existing Instance LockExamples.db_k.
#[local] Existing Instance LockExamples.db_k_laws.
#[local] Existing Instance ConsumerExamples.consumer_directory.

Definition lock_host : string * Z := ("127.0.0.1"%string, 7100).

Definition sample_service : string * Z -> forall f, Req f -> server -> option (Z * Resp f * server) :=
  service (fun c _ => c) LockExamples.std_hash (fun _ => false) (fun _ => node) (fun _ => 1000)
    (fun _ => lock_opt) (fun _ => quiet_propose LockExamples.disk_k) (fun _ => store_opt) (fun _ => batch_propose)
    (fun _ => SchedulerExamples.so).

Definition sample_map : string * Z -> list (string * function) := uri_func_map (fun _ => LockService).

(** Group 1 is there and has its map. *)
Definition good (gs : list LockMgr.GroupData) : bool :=
  match gs !! 1%nat with Some g => bool_decide (LockDb.storage_type_ (LockMgr.map g) = ST_MAP) | None => false end.

Lemma good_group gs : good gs = true -> exists g, gs !! 1%nat = Some g /\ LockDb.storage_type_ (LockMgr.map g) = ST_MAP.
Proof.
  unfold good. destruct (gs !! 1%nat) as [g|]; [|done]. intros H%bool_decide_eq_true. by exists g.
Qed.

(** The groups of the server and the number of connections made to it.  A
    message on the way has the function it was packed for. *)
Definition net : Type := list LockMgr.GroupData * nat.

Definition cast {P : function -> Type} (f g : function) (x : P f) : option (P g) :=
  match decide (f = g) with left E => Some (eq_rect f P x g E) | right _ => None end.

Lemma cast_same {P : function -> Type} f (x : P f) : cast f f x = Some x.
Proof.
  unfold cast. destruct (decide (f = f)) as [E|]; [|done]. f_equal.
  rewrite (Eqdep_dec.UIP_dec (fun a b => decide (a = b)) E eq_refl). done.
Qed.

(** The call of a function on the server. *)
Definition deliver (f : function) (uri : string) (req : Req f) (resp : Resp f) (w : net) : Z * Resp f * net :=
  if negb (good w.1) then (-1, resp, w) else
  match Rpc.find_func (sample_map lock_host) uri with
  | None => (-1, resp, w)
  | Some f' =>
      match cast f f' req with
      | None => (-22, resp, w)
      | Some req =>
          match sample_service lock_host f' req (LockServer w.1) with
          | Some (ret, r, LockServer gs) =>
              if good gs then (ret, default resp (cast f' f r), (gs, w.2)) else (-1, resp, w)
          | _ => (-1, resp, w)
          end
      end
  end.

#[local] Instance wire_rpc : Phxrpc Req Resp net := {|
  BaseRequest := sigT Req;
  BaseResponse := sigT Resp;
  ToPb f req := cast (projT1 req) f (projT2 req);
  FromPb f resp := Some (existT f resp);
  Open ip port w := if bool_decide ((ip, port) = lock_host) then (Some w.2, (w.1, S w.2)) else (None, w);
  Call f _ uri req resp w := deliver f uri req resp w;
|}.

Definition good_states (h : string * Z) (st : server) : Prop :=
  match st with LockServer gs => good gs = true | _ => False end.

Lemma deliver_opened f uri req resp w : (deliver f uri req resp w).2.2 = w.2.
Proof. unfold deliver. by repeat case_match. Qed.

Lemma deliver_answered f uri req resp w ret resp' w' f' :
  deliver f uri req resp w = (ret, resp', w') -> ret <> -1 -> Rpc.find_func (sample_map lock_host) uri = Some f' ->
  exists breq out st st', good_states lock_host st /\ good_states lock_host st' /\
    Rpc.handle (sample_service lock_host) f' breq st = Some (ret, out, st') /\ ToPb f breq = Some req /\
    (forall r b, out = Some b -> FromPb f r = Some b -> resp' = r).
Proof.
  unfold deliver. intros Hd Hret Hf. destruct (good w.1) eqn:Eg; [|by injection Hd as <- <- <-].
  cbn [negb] in Hd. rewrite Hf in Hd. exists (existT f req).
  assert (Hreq : ToPb f (existT f req) = Some req) by apply cast_same.
  unfold Rpc.handle. cbn [ToPb wire_rpc projT1 projT2]. destruct (cast f f' req) as [req'|] eqn:Ec.
  2:{ injection Hd as <- <- <-. by exists None, (LockServer w.1), (LockServer w.1). }
  destruct (sample_service lock_host f' req' (LockServer w.1)) as [[[ret1 r] [gs| |]]|] eqn:Es;
    try by injection Hd as <- <- <-.
  destruct (good gs) eqn:Eg'; [|by injection Hd as <- <- <-]. injection Hd as <- <- <-.
  exists (Some (existT f' r)), (LockServer w.1), (LockServer gs). split; [done|]. split; [done|].
  split; [rewrite Es; reflexivity|]. split; [exact Hreq|].
  intros r' b Hb Hr. assert (E : Some (existT f' r) = Some (existT f r') :> option (sigT Resp))
    by (etransitivity; [exact Hb|symmetry; exact Hr]). apply (inj Some) in E. clear Hb Hr b.
  unfold cast in Ec. destruct (decide (f = f')) as [<-|]; [|done].
  apply (Eqdep_dec.inj_pair2_eq_dec _ (fun a b => decide (a = b))) in E as ->. by rewrite cast_same.
Qed.

#[local] Instance wire_rpc_laws :
  PhxrpcLaws wire_rpc sample_map sample_service good_states (fun w w' : net => w = w').
Proof.
  refine {| peer w s := if bool_decide (s < w.2)%nat then Some lock_host else None; idle _ _ := True |}.
  - intros ip port w s w'. cbn [Open wire_rpc]. case_bool_decide as E; [|done]. intros [= <- <-]. rewrite E. cbn [snd].
    split; [rewrite bool_decide_eq_false_2; [done|lia]|]. split; [rewrite bool_decide_eq_true_2; [done|lia]|done].
  - intros ip port w o w' s. cbn [Open wire_rpc]. case_bool_decide; intros [= <- <-] Hne; [|done]. cbn [snd]. split; [|done].
    assert (s <> w.2) by congruence. repeat case_bool_decide; [done|lia..|done].
  - intros f s uri req resp w ret resp' w' s'. cbn [Call wire_rpc]. intros E. pose proof (deliver_opened f uri req resp w) as H.
    rewrite E in H. cbn in H. by rewrite H.
  - done.
  - by intros w w' s ->.
  - done.
  - intros f s uri req resp w ret resp' w' h f' E _ Hh H1 _ Hf. case_bool_decide; [|done]. injection Hh as <-.
    exact (deliver_answered f uri req resp w ret resp' w' f' E H1 Hf).
Qed.

(** ** A lock is acquired *)

Definition remote_req : AcquireLockRequest :=
  mkAcquireLockRequest 1000 1 (mkLockInfo "k" 3 "you" 1000) (mkAddr "127.0.0.1" 7100 7101).

Definition remote_result : Z * option Addr * gmap Z (list nat) * net :=
  LockClient.Proto AcquireLock remote_req None ∅ (LockExamples.groups, 0%nat).

Lemma remote_result_ok : remote_result.1.1 = (as_integer RET_OK, None).
Proof. vm_compute. reflexivity. Qed.

Lemma remote_reachable :
  rtc (Rpc.step uri master_addr (fun w w' : net => w = w')) (RpcCalls.start (LockExamples.groups, 0%nat))
    (Rpc.mkState remote_result.1.2 remote_result.2 ∅
       [Rpc.mkAnswer (Rpc.mkRequest (OfLock AcquireLock) remote_req None) (as_integer RET_OK) None]).
Proof.
  apply (Rpc.Proto_steps uri master_addr (fun w w' : net => w = w') (RpcCalls.start (LockExamples.groups, 0%nat)) 0
    (Rpc.mkRequest (OfLock AcquireLock) remote_req None)); [done| |].
  - split_and!; try reflexivity; vm_compute; try split; congruence.
  - change (remote_result = (as_integer RET_OK, None, remote_result.1.2, remote_result.2)).
    rewrite <-remote_result_ok. by destruct remote_result as [[[? ?] ?] ?].
Qed.

