(* ===== verification/ConfigExamples.v ===== *)
(** * Worked examples: configuration files

    A deployment whose configuration is in files, on concrete surroundings. *)

From S2P Require Import Prelude Ini RetCode TopicConfig Loader StoreConfig Node LockConfig SchedulerConfig ConsumerConfig.
From S2P Require Import GlobalConf Deployment.

#[local] Open Scope Z_scope.

(** ** Reading the steps of a computation off its result *)

Definition holds {A} (p : A -> bool) (o : option A) : bool := match o with Some a => p a | None => false end.

Lemma holds_some {A} (p : A -> bool) o : holds p o = true -> exists a, o = Some a /\ p a = true.
Proof. destruct o as [a|]; [|discriminate]. by exists a. Qed.

Lemma holds_bind {A B} (p : B -> bool) (o : option A) (f : A -> option B) : holds p (o ≫= f) = true ->
  exists a, o = Some a /\ holds p (f a) = true.
Proof. destruct o as [a|]; [|discriminate]. by exists a. Qed.

(** ** An INI file *)

Definition chars := INIParser.chars.

Definition ini : list INIParser.sec :=
  [INIParser.mkSec (chars "Server") [(chars "IP", chars "127.0.0.1"); (chars "Port", chars "5100"); (chars "Port", chars "1")];
   INIParser.mkSec (chars "Topic") [(chars "TopicID", chars "1000")]].

Lemma ParseContent_print_witness :
  INIParser.section_key2val (INIParser.ParseContent (INIParser.mk ∅ false) (INIParser.print ini)) = INIParser.values ini /\
  INIParser.values ini !! ("Server"%string, "Port"%string) = Some "5100"%string.
Proof.
  split; [|by vm_compute]. apply INIParser.ParseContent_print; [done|].
  assert (Hw : forall bad l, forallb (fun c => negb (bool_decide (c ∈ bad))) l = true -> INIParser.without bad l).
  { intros bad l H c Hc. rewrite forallb_forall in H. apply list_elem_of_In, H in Hc. by apply negb_true_iff, bool_decide_eq_false in Hc. }
  assert (Ht : forall l, match head l with Some c => negb (INIParser.blank c) | None => true end &&
      match last l with Some c => negb (INIParser.blank c) | None => true end = true -> INIParser.tight l).
  { intros l [H1 H2]%andb_true_iff. split; intros c Hc; rewrite Hc in *; by apply negb_true_iff. }
  repeat constructor; try (apply Ht; by vm_compute); try (apply Hw; by vm_compute); try done;
    intros c [= <-]; apply (bool_decide_unpack _); by vm_compute.
Defined.

(** ** A file that changes *)

Definition before : list Addr := [mkAddr "127.0.0.1" 6100 0].
Definition after : list Addr := [mkAddr "127.0.0.1" 6100 0; mkAddr "127.0.0.1" 6200 0].

#[local] Instance two_json : Json (list Addr) :=
  {| JsonStringToMessage _ s := if bool_decide (s = "before"%string) then Some before else if bool_decide (s = "after"%string) then Some after else None |}.

(** [seconds] of the clock; the file was written at 900, and again at 1500. *)
Definition at_time (seconds : Z) : Env :=
  mkEnv (seconds * 1000) (fun _ => Some (7, if seconds <? 1500 then 900 else 1500))
    (fun _ => Some (if seconds <? 1500 then "before"%string else "after"%string)).

Definition reloaded : option (BaseConfig.object (list Addr) SchedulerConfig.t FileLoader.t) :=
  o ← FileBased.New (at_time 1000) true "scheduler.json" 3;
  FileBased.loads [at_time 1010; at_time 1600; at_time 1700] o.

Lemma reloaded_steps : exists o0 o, FileBased.New (at_time 1000) true "scheduler.json" 3 = Some o0 /\
  FileBased.loads [at_time 1010; at_time 1600; at_time 1700] o0 = Some o.
Proof.
  assert (H : holds (fun _ => true) reloaded = true) by (vm_compute; reflexivity).
  unfold reloaded in H. apply holds_bind in H as (o0 & H0 & (o & H1 & _)%holds_some). exists o0, o. split; [exact H0|exact H1].
Qed.


(** A file that is written once more in the second in which it was first read
    keeps its modification time, so the second version is never read. *)
Definition rewritten (seconds : Z) : Env :=
  mkEnv (seconds * 1000) (fun _ => Some (7, 1000)) (fun _ => Some (if seconds =? 1000 then "before"%string else "after"%string)).

Lemma same_second_missed :
  (o ← FileBased.New (rewritten 1000) true "scheduler.json" 3;
   o ← FileBased.loads [rewritten 1000; rewritten 1100; rewritten 5000; rewritten 100000] o;
   Some (BaseConfig.proto_ o.1)) = Some before.
Proof. vm_compute. reflexivity. Qed.

(** ** All the files of a deployment *)

(** A parser that knows one text. *)
Definition knows {P} (text : string) (proto : P) : Json P :=
  {| JsonStringToMessage _ s := if bool_decide (s = text) then Some proto else None |}.

Definition infos : list TopicInfo := [mkTopicInfo 1000 "test" "topic" "consumer" "store" "scheduler" "lock"].

#[local] Instance infos_json : Json (list TopicInfo) := knows "global" infos.
#[local] Instance topic_json : Json TopicConfigProto := knows "topic" (TopicConfig.ReadConfig).2.
#[local] Instance consumer_json : Json (list Consumer_proto) := knows "consumer" (ConsumerConfig.ReadConfig).2.
#[local] Instance store_json : Json (list Store_proto) := knows "store" (StoreConfig.ReadConfig).2.
#[local] Instance scheduler_json : Json (list Addr) := knows "scheduler" (SchedulerConfig.ReadConfig).2.
#[local] Instance lock_json : Json (list Lock_proto) := knows "lock" (LockConfig.ReadConfig).2.

(** Every file contains its own name. *)
Definition files_env : Env := mkEnv 5000000 (fun _ => Some (1, 4000)) Some.

#[local] Instance files_factory : GlobalConf.Factory FileLoader.t := FileFactory.factory "global" true (fun _ => 0).

Definition thread : option (GlobalConf.global FileLoader.t) := GlobalConf.GetThreadInstance files_env None.

Lemma thread_loaded : exists g, thread = Some g.
Proof.
  assert (H : holds (fun _ => true) thread = true) by (vm_compute; reflexivity).
  apply holds_some in H as (g & Hg & _). exists g. exact Hg.
Qed.

Lemma files_served_witness :
  exists g, thread = Some g /\
    exists c g' ret, GlobalConf.find_config GlobalConf.store_slot files_env 1000 g = Some (RET_OK, Some c, g') /\
      BaseConfig.proto_ c = (StoreConfig.ReadConfig).2 /\
      Rebuild files_env true (StoreConfig.ReadConfig).2 no_tables = Some (ret, BaseConfig.tables c).
Proof.
  assert (Hs : forall g, thread = Some g ->
    Served.serves true GlobalConf.store_slot files_env 1000 "store" g).
  { intros g. refine (fun Hg => proj1 (proj2 (proj2
      (Served.files_served "global" true (fun _ => 0) files_env 1 4000 "global" infos []
        (mkTopicInfo 1000 "test" "topic" "consumer" "store" "scheduler" "lock") [] g _ _ _ _ _ _ _ _ Hg)))); clear Hg;
      [by vm_compute|by vm_compute|done|done|done|by vm_compute|done|by intros info Hi%elem_of_nil]. }
  destruct thread_loaded as [g Hg]. exists g. split; [exact Hg|]. specialize (Hs g Hg). clear Hg.
  apply (Hs 1 4000 "store"%string); [done|done|done|by vm_compute].
Defined.

Definition is_some_ok {A B} (r : RetCode * option A * B) : bool :=
  match r with (RET_OK, Some _, _) => true | _ => false end.

Lemma asked_steps : exists g g0 c g', thread = Some g /\ GlobalConf.GetThreadInstance files_env (Some g) = Some g0 /\
  GlobalConf.GetTopicConfigByTopicID files_env 1000 g0 = Some (RET_OK, Some c, g').
Proof.
  assert (H : holds is_some_ok (thread ≫= fun g => GlobalConf.GetThreadInstance files_env (Some g) ≫=
    fun g0 => GlobalConf.GetTopicConfigByTopicID files_env 1000 g0) = true) by (vm_compute; reflexivity).
  apply holds_bind in H as (g & Hg & (g0 & H0 & (r & Hl & Hr)%holds_some)%holds_bind). exists g, g0. destruct r as [[ret c] g'].
  unfold is_some_ok in Hr. destruct ret; try (discriminate Hr). destruct c as [c|]; [|discriminate Hr].
  exists c, g'. split; [exact Hg|]. split; [exact H0|exact Hl].
Qed.


(** ** The built-in configuration answers the sample topic *)

Definition builtin_thread : option (GlobalConf.global unit) := GlobalConf.GetThreadInstance (F := BuiltinFactory.factory) files_env None.

Lemma builtin_answers :
  (fun g => (GlobalConf.answer (GlobalConf.GetTopicConfigByTopicID (F := BuiltinFactory.factory) files_env 1000 g),
             GlobalConf.GetTopicIDByTopicName g "test")) <$> builtin_thread =
  Some (RET_OK, Some sample_topic, (RET_OK, Some 1000)).
Proof. vm_compute. reflexivity. Qed.
